(** * Varnish: the VM-aware binary heap (lib/libvarnish/vbh.c) and the
      VSL query parser (lib/libvarnishapi/vxp_parse.c)

    A shallow embedding of the two C files.  Unsigned integers are [Z]
    with the wrap-around written out ([u32]); pointers are [Z] with
    [NULL = 0]; a C function that mutates [*bh] or [*vxp] is a
    computation in a state-and-fault monad; a failed [assert], a call
    through a null function pointer, a null dereference and an operation
    that C leaves undefined are faults. *)

From Stdlib Require Import ZArith Lia List Bool String Ascii.
From Stdlib Require Import Permutation.
Import ListNotations.
Open Scope Z_scope.

(** ** Faults, results and the state monad *)

Inductive fault : Type :=
| AssertFail      (* assert(), AN(), AZ(), CHECK_OBJ_NOTNULL(), WRONG(), INCOMPL() *)
| NullCall        (* call through a NULL function pointer *)
| NullDeref       (* load or store through a NULL pointer *)
| OutOfBounds     (* access outside an allocated object *)
| Undefined       (* an operation that C leaves undefined *)
| OutOfFuel.      (* the loop bound of the model was exhausted *)

Inductive res (A : Type) : Type :=
| Ok (a : A)
| Err (f : fault).
Arguments Ok {A} a.
Arguments Err {A} f.

Definition M (S A : Type) : Type := S -> res (A * S).

Definition ret {S A} (a : A) : M S A := fun s => Ok (a, s).

Definition bind {S A B} (c : M S A) (k : A -> M S B) : M S B :=
  fun s => match c s with
           | Ok (a, s') => k a s'
           | Err f => Err f
           end.

Definition fail {S A} (f : fault) : M S A := fun _ => Err f.
Definition get {S} : M S S := fun s => Ok (s, s).
Definition put {S} (s : S) : M S unit := fun _ => Ok (tt, s).
Definition modify {S} (f : S -> S) : M S unit := fun s => Ok (tt, f s).
Definition lift {S A} (r : res A) : M S A :=
  fun s => match r with Ok a => Ok (a, s) | Err f => Err f end.
Definition assert {S} (b : bool) : M S unit :=
  if b then ret tt else fail AssertFail.

(** [c] does not run out of fuel *)
Definition nofuel {S A} (c : M S A) : Prop :=
  forall s, c s <> Err OutOfFuel.

Declare Scope monad_scope.
Delimit Scope monad_scope with monad.
Notation "x <- c ;; k" := (bind c (fun x => k))
  (at level 61, c at next level, right associativity) : monad_scope.
Notation "c ;; k" := (bind c (fun _ => k))
  (at level 61, right associativity) : monad_scope.
Open Scope monad_scope.

(** ** Arrays updated by index *)

Fixpoint upd {A} (l : list A) (i : nat) (x : A) : list A :=
  match l, i with
  | [], _ => []
  | _ :: l', O => x :: l'
  | y :: l', S i' => y :: upd l' i' x
  end.

(** ** Machine integers *)

Definition UINT_MAX : Z := 4294967295.
Definition u32 (x : Z) : Z := x mod 2 ^ 32.          (* unsigned *)
Definition u64 (x : Z) : Z := x mod 2 ^ 64.          (* uintmax_t *)
Definition not32 (x : Z) : Z := u32 (Z.lnot x).      (* ~x on unsigned *)

Definition ptr : Type := Z.
Definition NULL : ptr := 0.

(** * The binary heap: vbh.c *)

Module Vbh.

Definition ROW_SHIFT : Z := 16.
Definition ROOT_IDX : Z := 1.
Definition ROW_WIDTH : Z := Z.shiftl 1 ROW_SHIFT.
Definition VBH_MAGIC : Z := 0xf581581a.

Section Heap.

(** The caller's memory: everything [priv] and the element handles point
    to.  The heap itself never looks inside; only the two callbacks do. *)
Context {store : Type}.

(** The contents of a slot of a row fresh from malloc(): not initialised. *)
Variable junk : Z -> ptr.

(** [VBH_NOIDX] is declared in vbh.h. *)
Variable VBH_NOIDX : Z.

(** A row of [ROW_WIDTH] slots, by column. *)
Definition row : Type := Z -> ptr.

Definition vbh_cmp_t : Type := store -> ptr -> ptr -> ptr -> bool.
Definition vbh_update_t : Type := store -> ptr -> ptr -> Z -> store.

Record vbh : Type := mk_vbh {
  magic : Z;
  priv : ptr;
  cmp : vbh_cmp_t;
  update : option vbh_update_t;          (* None is a NULL function pointer *)
  array : list (option row);             (* rows; None is a NULL row *)
  rows : Z;
  length : Z;
  next : Z;
  page_size : Z;
  page_mask : Z;
  page_shift : Z
}.

Definition set_array (b : vbh) (x : list (option row)) : vbh :=
  mk_vbh (magic b) (priv b) (cmp b) (update b) x (rows b) (length b) (next b)
         (page_size b) (page_mask b) (page_shift b).
Definition set_rows (b : vbh) (x : Z) : vbh :=
  mk_vbh (magic b) (priv b) (cmp b) (update b) (array b) x (length b) (next b)
         (page_size b) (page_mask b) (page_shift b).
Definition set_length (b : vbh) (x : Z) : vbh :=
  mk_vbh (magic b) (priv b) (cmp b) (update b) (array b) (rows b) x (next b)
         (page_size b) (page_mask b) (page_shift b).
Definition set_next (b : vbh) (x : Z) : vbh :=
  mk_vbh (magic b) (priv b) (cmp b) (update b) (array b) (rows b) (length b) x
         (page_size b) (page_mask b) (page_shift b).

(** The machine state of a heap operation: the heap object and the
    caller's memory. *)
Definition world : Type := (vbh * store)%type.
Definition H (A : Type) : Type := M world A.

Definition get_bh : H vbh := fun w => Ok (fst w, w).
Definition put_bh (b : vbh) : H unit := fun w => Ok (tt, (b, snd w)).

(** *** ROW(b, n) and A(b, n) *)

Definition row_ix (n : Z) : nat := Z.to_nat (Z.shiftr n ROW_SHIFT).
Definition col_ix (n : Z) : Z := Z.land n (ROW_WIDTH - 1).

Definition ROW_load (b : vbh) (n : Z) : res (option row) :=
  match nth_error (array b) (row_ix n) with
  | Some r => Ok r
  | None => Err OutOfBounds
  end.

Definition ROW_store (b : vbh) (n : Z) (r : option row) : res vbh :=
  match nth_error (array b) (row_ix n) with
  | Some _ => Ok (set_array b (upd (array b) (row_ix n) r))
  | None => Err OutOfBounds
  end.

Definition A_load (b : vbh) (n : Z) : res ptr :=
  match ROW_load b n with
  | Ok (Some r) => Ok (r (col_ix n))
  | Ok None => Err NullDeref
  | Err f => Err f
  end.

Definition A_store (b : vbh) (n : Z) (p : ptr) : res vbh :=
  match ROW_load b n with
  | Ok (Some r) =>
      ROW_store b n (Some (fun c => if c =? col_ix n then p else r c))
  | Ok None => Err NullDeref
  | Err f => Err f
  end.

Definition readA (n : Z) : H ptr := b <- get_bh ;; lift (A_load b n).
Definition writeA (n : Z) (p : ptr) : H unit :=
  b <- get_bh ;; b' <- lift (A_store b n p) ;; put_bh b'.

Definition CHECK_OBJ_NOTNULL : H unit :=
  b <- get_bh ;; assert (magic b =? VBH_MAGIC).

(** assert(A(bh, u) != NULL) *)
Definition assert_A (u : Z) : H unit :=
  p <- readA u ;; assert (negb (p =? NULL)).

(** *** parent() and child(), VM_AWARE *)

Definition parent (b : vbh) (u : Z) : res Z :=
  if u =? UINT_MAX then Err AssertFail else
  let po := Z.land u (page_mask b) in
  if (u <? page_size b) || (3 <? po) then
    Ok (Z.lor (Z.land u (not32 (page_mask b))) (Z.shiftr po 1))
  else if po <? 2 then
    let v := Z.shiftr (u32 (u - page_size b)) (page_shift b) in
    let v := u32 (v + Z.land v (not32 (Z.shiftr (page_mask b) 1))) in
    let v := Z.lor v (page_size b / 2) in
    Ok v
  else
    Ok (u32 (u - 2)).

Definition child (b : vbh) (u : Z) : Z * Z :=
  if (page_mask b <? u) && (Z.land u (u32 (page_mask b - 1)) =? 0) then
    (* First two elements are magical except on the first page *)
    (u32 (u + 2), u32 (u + 2))
  else if negb (Z.land u (Z.shiftr (page_size b) 1) =? 0) then
    (* The bottom row is even more magical *)
    let a := Z.shiftr (Z.land u (not32 (page_mask b))) 1 in
    let a := Z.lor a (Z.land u (Z.shiftr (page_mask b) 1)) in
    let a := u32 (a + 1) in
    let uu := u64 (Z.shiftl a (page_shift b)) in
    let a := u32 uu in
    if a =? uu then (a, u32 (a + 1)) else (UINT_MAX, UINT_MAX)
  else
    (* The rest is as usual, only inside the page *)
    let a := u32 (u + Z.land u (page_mask b)) in
    (a, u32 (a + 1)).

(** *** vbh_addrow *)

Definition fresh_row (base : Z) : row := fun c => junk (base + c).

Definition vbh_addrow : H unit :=
  b <- get_bh ;;
  (* First make sure we have space for another row *)
  (if rows b <=? Z.shiftr (length b) ROW_SHIFT then
     let u := u32 (rows b * 2) in
     (* realloc, then NULL out new pointers *)
     put_bh (set_rows
               (set_array b (firstn (Z.to_nat u) (array b)
                             ++ repeat None (Z.to_nat (u - rows b))))
               (if rows b <? u then u else rows b))
   else ret tt) ;;
  b <- get_bh ;;
  r <- lift (ROW_load b (length b)) ;;
  assert (match r with None => true | Some _ => false end) ;;
  b' <- lift (ROW_store b (length b) (Some (fresh_row (length b)))) ;;
  put_bh (set_length b' (u32 (length b' + ROW_WIDTH))).

(** *** VBH_new

    [pagesz] is getpagesize() and [ptrsz] is sizeof(void * ); [test_driver]
    selects the TEST_DRIVER build.  ALLOC_OBJ (which zeroes the object and
    sets its magic), calloc and malloc are taken to succeed. *)

(** for (u = 1; (1U << u) != bh->page_size; u++): the loop has no bound
    of its own, and for a page of 0 or 1 slots it comes to [1U << 32],
    a shift by the width of [unsigned], which is undefined *)
Fixpoint page_shift_loop (fuel : nat) (u : Z) (psz : Z) : res Z :=
  match fuel with
  | O => Err OutOfFuel
  | S fuel' =>
      if 32 <=? u then Err Undefined
      else if u32 (Z.shiftl 1 u) =? psz then Ok u
      else page_shift_loop fuel' (u + 1) psz
  end.

Definition VBH_new (pagesz ptrsz : Z) (test_driver : bool)
    (priv0 : ptr) (cmp_f : vbh_cmp_t) (update_f : option vbh_update_t)
    (m : store) : res (vbh * store) :=
  let psz := u32 pagesz / ptrsz in
  let pmask := u32 (psz - 1) in
  if negb (Z.land psz pmask =? 0) then Err AssertFail else
  match page_shift_loop 32 1 psz with
  | Err f => Err f
  | Ok sh =>
      if negb (psz <=? ptrsz * ROW_WIDTH) then Err AssertFail else
      let nrows := if test_driver then 1 else 16 in
      let b := mk_vbh VBH_MAGIC priv0 cmp_f update_f
                 (repeat None (Z.to_nat nrows)) nrows 0 ROOT_IDX
                 psz pmask sh in
      match (vbh_addrow ;; writeA ROOT_IDX NULL) (b, m) with
      | Err f => Err f
      | Ok (_, w) => Ok w
      end
  end.

(** *** vbh_update and binhead_swap *)

Definition call_update (p : ptr) (u : Z) : H unit :=
  fun w => match update (fst w) with
           | Some f => Ok (tt, (fst w, f (snd w) (priv (fst w)) p u))
           | None => Err NullCall
           end.

Definition call_cmp (p q : ptr) : H bool :=
  fun w => Ok (cmp (fst w) (snd w) (priv (fst w)) p q, w).

(** bh->cmp(bh->priv, A(bh, u), A(bh, v)) *)
Definition cmp_A (u v : Z) : H bool :=
  p <- readA u ;; q <- readA v ;; call_cmp p q.

Definition vbh_update (u : Z) : H unit :=
  CHECK_OBJ_NOTNULL ;;
  b <- get_bh ;;
  assert (u <? next b) ;;
  assert_A u ;;
  match update b with
  | Some _ => p <- readA u ;; call_update p u
  | None => ret tt
  end.

Definition binhead_swap (u v : Z) : H unit :=
  CHECK_OBJ_NOTNULL ;;
  b <- get_bh ;;
  assert (u <? next b) ;;
  assert_A u ;;
  assert (v <? next b) ;;
  assert_A v ;;
  p <- readA u ;;
  q <- readA v ;;
  writeA u q ;;
  writeA v p ;;
  vbh_update u ;;
  vbh_update v.

(** *** vbh_trickleup and vbh_trickledown

    Each round of the loop of vbh_trickleup asserts [v < u], so [u] rounds
    are enough; vbh_trickledown walks down within [next] slots. *)

Fixpoint trickleup_loop (fuel : nat) (u : Z) : H Z :=
  match fuel with
  | O => fail OutOfFuel
  | S fuel' =>
      if ROOT_IDX <? u then
        b <- get_bh ;;
        assert (u <? next b) ;;
        assert_A u ;;
        v <- lift (parent b u) ;;
        assert (v <? u) ;;
        assert (v <? next b) ;;
        assert_A v ;;
        c <- cmp_A u v ;;
        if negb c then ret u
        else binhead_swap u v ;; trickleup_loop fuel' v
      else ret u
  end.

Definition vbh_trickleup (u : Z) : H Z :=
  CHECK_OBJ_NOTNULL ;;
  b <- get_bh ;;
  assert (u <? next b) ;;
  assert_A u ;;
  trickleup_loop (S (Z.to_nat u)) u.

Fixpoint trickledown_loop (fuel : nat) (u : Z) : H Z :=
  match fuel with
  | O => fail OutOfFuel
  | S fuel' =>
      b <- get_bh ;;
      assert (u <? next b) ;;
      assert_A u ;;
      let '(v1, v2) := child b u in
      assert (0 <? v1) ;;
      assert (0 <? v2) ;;
      assert (v1 <=? v2) ;;
      if next b <=? v1 then ret u
      else
        assert_A v1 ;;
        v1 <- (if negb (v1 =? v2) && (v2 <? next b) then
                 assert_A v2 ;;
                 c <- cmp_A v2 v1 ;;
                 ret (if c then v2 else v1)
               else ret v1) ;;
        assert (v1 <? next b) ;;
        assert_A v1 ;;
        c <- cmp_A u v1 ;;
        if c then ret u
        else binhead_swap u v1 ;; trickledown_loop fuel' v1
  end.

Definition vbh_trickledown (u : Z) : H Z :=
  CHECK_OBJ_NOTNULL ;;
  b <- get_bh ;;
  assert (u <? next b) ;;
  assert_A u ;;
  trickledown_loop (S (Z.to_nat (next b))) u.

(** *** The public operations *)

Definition VBH_insert (p : ptr) : H unit :=
  CHECK_OBJ_NOTNULL ;;
  b <- get_bh ;;
  assert (next b <=? length b) ;;
  (if length b =? next b then vbh_addrow else ret tt) ;;
  b <- get_bh ;;
  assert (next b <? length b) ;;
  let u := next b in
  put_bh (set_next b (u32 (next b + 1))) ;;
  writeA u p ;;
  vbh_update u ;;
  _ <- vbh_trickleup u ;;
  b <- get_bh ;;
  assert (u <? next b) ;;
  assert_A u.

Definition VBH_root : H ptr :=
  CHECK_OBJ_NOTNULL ;;
  readA ROOT_IDX.

Definition VBH_delete (idx : Z) : H unit :=
  CHECK_OBJ_NOTNULL ;;
  b <- get_bh ;;
  assert (ROOT_IDX <? next b) ;;
  assert (idx <? next b) ;;
  assert (0 <? idx) ;;
  assert_A idx ;;
  p <- readA idx ;;
  call_update p VBH_NOIDX ;;
  b <- get_bh ;;
  let n := u32 (next b - 1) in
  put_bh (set_next b n) ;;
  if idx =? n then
    writeA n NULL
  else
    q <- readA n ;;
    writeA idx q ;;
    writeA n NULL ;;
    vbh_update idx ;;
    idx <- vbh_trickleup idx ;;
    b <- get_bh ;;
    assert (idx <? next b) ;;
    assert (0 <? idx) ;;
    assert_A idx ;;
    idx <- vbh_trickledown idx ;;
    b <- get_bh ;;
    assert (idx <? next b) ;;
    assert (0 <? idx) ;;
    assert_A idx ;;
    (* We keep a hysteresis of one full row before we start to
       return space to the OS *)
    if u32 (next b + 2 * ROW_WIDTH) <=? length b then
      b' <- lift (ROW_store b (u32 (length b - 1)) None) ;;
      put_bh (set_length b' (u32 (length b' - ROW_WIDTH)))
    else ret tt.

Definition VBH_reorder (idx : Z) : H unit :=
  CHECK_OBJ_NOTNULL ;;
  b <- get_bh ;;
  assert (ROOT_IDX <? next b) ;;
  assert (idx <? next b) ;;
  assert (0 <? idx) ;;
  assert_A idx ;;
  idx <- vbh_trickleup idx ;;
  b <- get_bh ;;
  assert (idx <? next b) ;;
  assert (0 <? idx) ;;
  assert_A idx ;;
  idx <- vbh_trickledown idx ;;
  b <- get_bh ;;
  assert (idx <? next b) ;;
  assert (0 <? idx) ;;
  assert_A idx.

(** *** The page arithmetic in closed form

    With [P = page_size] a power of two, [u = P * k + po] splits an index
    into its page [k] and its offset [po] in the page.  [par] and [kids]
    restate parent() and child() with division and remainder in place of
    masks and shifts; [parent_par] and [child_kids] below prove them equal
    to the code. *)

Definition pages_ok (b : vbh) : Prop :=
  2 <= page_shift b <= 31 /\
  page_size b = 2 ^ page_shift b /\
  page_mask b = page_size b - 1.

Definition par (P u : Z) : Z :=
  if (u <? P) || (3 <? u mod P) then P * (u / P) + (u mod P) / 2
  else if u mod P <? 2 then
    let q := (u - P) / P in q + (P / 2) * (q / (P / 2)) + P / 2
  else u - 2.

Definition kids (P u : Z) : Z * Z :=
  if (P - 1 <? u) && (u mod P <? 2) then (u + 2, u + 2)
  else if P / 2 <=? u mod P then
    let a := ((P / 2) * (u / P) + (u mod P - P / 2) + 1) * P in
    if a <? 2 ^ 32 then (a, a + 1) else (UINT_MAX, UINT_MAX)
  else (u + u mod P, u + u mod P + 1).

(** *** Invariants of a heap

    [slot b u] is the handle that [A(b, u)] reads, [NULL] where the read
    would fault. *)

Definition slot (b : vbh) (u : Z) : ptr :=
  match A_load b u with Ok p => p | Err _ => NULL end.

(** [poke b n p] is [b] after the store [A(b, n) = p]. *)
Definition poke (b : vbh) (n : Z) (p : ptr) : vbh :=
  match A_store b n p with Ok b' => b' | Err _ => b end.

(** The caller's memory after the update callback was told that the
    element in slot [u] is in slot [u]. *)
Definition notify (b : vbh) (m : store) (u : Z) : store :=
  match update b with
  | Some f => f m (priv b) (slot b u) u
  | None => m
  end.

(** [b'] is [b] with other handles in the slots. *)
Definition frame (b b' : vbh) : Prop :=
  magic b' = magic b /\ priv b' = priv b /\ cmp b' = cmp b /\
  update b' = update b /\ rows b' = rows b /\ length b' = length b /\
  next b' = next b /\ page_size b' = page_size b /\
  page_mask b' = page_mask b /\ page_shift b' = page_shift b.

Definition cmp_same (b : vbh) (m m' : store) : Prop :=
  forall x y, cmp b m' (priv b) x y = cmp b m (priv b) x y.

(** The rows below [length] are allocated; the row pointers from there
    on are NULL. *)
Definition rows_ok (b : vbh) : Prop :=
  rows b = Z.of_nat (List.length (array b)) /\
  exists k : Z,
    length b = k * ROW_WIDTH /\ 0 <= k <= rows b /\
    forall i : nat, (i < List.length (array b))%nat ->
      (Z.of_nat i < k -> exists r, nth_error (array b) i = Some (Some r)) /\
      (k <= Z.of_nat i -> nth_error (array b) i = Some None).

Definition shape_ok (b : vbh) : Prop :=
  magic b = VBH_MAGIC /\
  pages_ok b /\
  rows_ok b /\
  0 < rows b <= 2 ^ 17 /\
  1 <= next b <= length b /\
  (length b < 2 ^ 32 /\ next b + 2 * ROW_WIDTH <= 2 ^ 32) /\
  forall u, 1 <= u < next b -> slot b u <> NULL.

(** The order of the slots, for a comparison [c], the page size [P] and
    [n = next]; [s u] is the handle in slot [u].  [up_inv] and [down_inv]
    are what holds while the element in slot [u] is still on its way up
    or down: every edge away from [u] is in order, and the children of
    [u] are in order with the parent of [u]. *)
Section Order.
Variable c : ptr -> ptr -> bool.
Variables P n : Z.

Definition edge_ok (s : Z -> ptr) (w : Z) : Prop :=
  c (s w) (s (par P w)) = false.

Definition ordered (s : Z -> ptr) : Prop :=
  forall w, 1 < w < n -> edge_ok s w.

Definition kids_ok (s : Z -> ptr) (u : Z) : Prop :=
  forall w, 1 < w < n -> par P w = u -> edge_ok s w.

Definition grands_ok (s : Z -> ptr) (u : Z) : Prop :=
  1 < u -> forall w, 1 < w < n -> par P w = u -> c (s w) (s (par P u)) = false.

Definition up_inv (s : Z -> ptr) (u : Z) : Prop :=
  (forall w, 1 < w < n -> w <> u -> par P w <> u -> edge_ok s w) /\
  grands_ok s u.

Definition down_inv (s : Z -> ptr) (u : Z) : Prop :=
  (forall w, 1 < w < n -> par P w <> u -> edge_ok s w) /\
  grands_ok s u.

Definition swap (s : Z -> ptr) (u v : Z) : Z -> ptr :=
  fun w => if w =? u then s v else if w =? v then s u else s w.

End Order.

(** The comparison is a strict weak ordering whatever the caller's memory
    holds, and the update callback (which records the index in the
    element) does not change how elements compare. *)
Definition strict_weak (c : ptr -> ptr -> bool) : Prop :=
  (forall x, c x x = false) /\
  (forall x y z, c x y = true -> c y z = true -> c x z = true) /\
  (forall x y z, c x y = false -> c y z = false -> c x z = false).

Definition callbacks_ok (b : vbh) : Prop :=
  (forall m, strict_weak (cmp b m (priv b))) /\
  (forall f m p i x y, update b = Some f ->
     cmp b (f m (priv b) p i) (priv b) x y = cmp b m (priv b) x y).

(** The heap property, as chk() tests it under PARANOIA: for u in
    (1, next), cmp(A[u], A[parent(u)]) is false. *)
Definition heap_property (w : world) : Prop :=
  forall u, 1 < u < next (fst w) ->
    exists v p q,
      parent (fst w) u = Ok v /\
      A_load (fst w) u = Ok p /\
      A_load (fst w) v = Ok q /\
      cmp (fst w) (snd w) (priv (fst w)) p q = false.

Definition heap_inv (w : world) : Prop :=
  shape_ok (fst w) /\ callbacks_ok (fst w) /\
  ordered (cmp (fst w) (snd w) (priv (fst w))) (page_size (fst w))
          (next (fst w)) (slot (fst w)).

(** The elements in the heap, and what root() is said to return. *)
Definition live (b : vbh) (e : ptr) : Prop :=
  exists u, 1 <= u < next b /\ slot b u = e.

Definition beaten_by_none (w : world) (e : ptr) : Prop :=
  forall e', live (fst w) e' -> e' <> e ->
    cmp (fst w) (snd w) (priv (fst w)) e' e = false.

Definition root_minimum (w : world) : Prop :=
  exists e, VBH_root w = Ok (e, w) /\ live (fst w) e /\ beaten_by_none w e.

Definition root_unique_minimum (w : world) : Prop :=
  exists e, VBH_root w = Ok (e, w) /\ live (fst w) e /\ beaten_by_none w e /\
    forall e2, live (fst w) e2 -> beaten_by_none w e2 -> e2 = e.

Definition no_ties (w : world) : Prop :=
  forall x y, live (fst w) x -> live (fst w) y -> x <> y ->
    cmp (fst w) (snd w) (priv (fst w)) x y = true \/
    cmp (fst w) (snd w) (priv (fst w)) y x = true.

(** What the caller does between two calls.  [same_order]: the caller's
    memory changed without changing how the elements of the heap compare.
    [rekeyed idx]: the same, except for the element in slot [idx], whose
    key changed. *)
Definition same_order (b : vbh) (m m' : store) : Prop :=
  forall i j, 1 <= i < next b -> 1 <= j < next b ->
    cmp b m' (priv b) (slot b i) (slot b j) =
    cmp b m (priv b) (slot b i) (slot b j).

Definition rekeyed (b : vbh) (idx : Z) (m m' : store) : Prop :=
  forall i j, 1 <= i < next b -> 1 <= j < next b ->
    i <> idx -> j <> idx ->
    cmp b m' (priv b) (slot b i) (slot b j) =
    cmp b m (priv b) (slot b i) (slot b j).

(** The heaps that a program can build: created by VBH_new on a platform
    whose pages hold at least four pointers, then operated on by
    VBH_insert, VBH_delete and VBH_reorder within their preconditions,
    each call having returned.  Indices are [unsigned]: VBH_insert is
    only called while two more rows still fit below 2^32 slots, so that
    neither [length += ROW_WIDTH] nor [next + 2 * ROW_WIDTH] wraps. *)
Inductive reachable : world -> Prop :=
| reach_new pagesz ptrsz td priv0 cmp_f update_f m w :
    VBH_new pagesz ptrsz td priv0 cmp_f update_f m = Ok w ->
    4 <= page_size (fst w) ->
    callbacks_ok (fst w) ->
    reachable w
| reach_caller w m' :
    reachable w ->
    same_order (fst w) (snd w) m' ->
    reachable (fst w, m')
| reach_insert w p w' :
    reachable w ->
    p <> NULL ->
    next (fst w) + 2 * ROW_WIDTH < 2 ^ 32 ->
    VBH_insert p w = Ok (tt, w') ->
    reachable w'
| reach_delete w idx w' :
    reachable w ->
    0 < idx < next (fst w) ->
    update (fst w) <> None ->
    VBH_delete idx w = Ok (tt, w') ->
    reachable w'
| reach_reorder w idx m' w' :
    reachable w ->
    0 < idx < next (fst w) ->
    rekeyed (fst w) idx (snd w) m' ->
    VBH_reorder idx (fst w, m') = Ok (tt, w') ->
    reachable w'.

(** *** VBH_destroy

    TAKE_OBJ_NOTNULL checks the magic, and the heap has to be empty.  The
    loop hands the row of every [u] below [length], in steps of
    [ROW_WIDTH], to free(); the result is the list of the rows that were
    allocated when free() got them, by their index in [array].  The row
    table and the heap object go last. *)
Fixpoint destroy_loop (fuel : nat) (u : Z) (b : vbh) : res (list nat) :=
  match fuel with
  | O => Err OutOfFuel
  | S fuel' =>
      if u <? length b then
        match ROW_load b u with
        | Ok r =>
            match destroy_loop fuel' (u32 (u + ROW_WIDTH)) b with
            | Ok l => Ok (match r with
                          | Some _ => row_ix u :: l
                          | None => l
                          end)
            | Err f => Err f
            end
        | Err f => Err f
        end
      else Ok []
  end.

Definition VBH_destroy : H (list nat) :=
  CHECK_OBJ_NOTNULL ;;
  p <- VBH_root ;;
  assert (p =? NULL) ;;
  b <- get_bh ;;
  lift (destroy_loop (S (Z.to_nat (Z.shiftr (length b) ROW_SHIFT))) 0 b).

(** *** What a heap holds *)

(** The handles in the slots 1 .. n-1 of [s], in the order of the slots;
    and the handles in a heap. *)
Definition below (s : Z -> ptr) (n : Z) : list ptr :=
  map (fun i => s (Z.of_nat i)) (seq 1 (Z.to_nat n - 1)).

Definition contents (b : vbh) : list ptr := below (slot b) (next b).

(** The rows of [array] that are allocated. *)
Definition allocated (b : vbh) (i : nat) : Prop :=
  exists r, nth_error (array b) i = Some (Some r).

(** [b'] has the callbacks of [b], and the same handles in the slots up
    to [next]. *)
Definition same_live (b b' : vbh) : Prop :=
  cmp b' = cmp b /\ update b' = update b /\ priv b' = priv b /\
  next b' = next b /\
  forall w, 0 <= w <= next b -> slot b' w = slot b w.

(** In the memory [m] the elements of [b] compare as [c] says. *)
Definition compares (c : ptr -> ptr -> bool) (b : vbh) (m : store) : Prop :=
  callbacks_ok b /\ forall x y, cmp b m (priv b) x y = c x y.

End Heap.

(** *** The elements of the test driver

    [struct foo] carries its heap index and its key; cmp() compares the
    keys and update() records the index.  The caller's memory maps the
    address of an element to its contents. *)

Record foo : Type := mk_foo { foo_idx : Z; foo_key : Z }.

Definition foo_store : Type := Z -> foo.

Definition foo_cmp : @vbh_cmp_t foo_store :=
  fun m _ a b => foo_key (m a) <? foo_key (m b).

Definition foo_update : @vbh_update_t foo_store :=
  fun m _ a u x => if x =? a then mk_foo u (foo_key (m a)) else m x.

(** fa->key = k, by the caller *)
Definition set_key (m : foo_store) (a k : Z) : foo_store :=
  fun x => if x =? a then mk_foo (foo_idx (m a)) k else m x.

(** Every element of the heap has its slot in its [idx], as
    update() recorded it. *)
Definition tracked (w : @world foo_store) : Prop :=
  forall u, 1 <= u < next (fst w) -> foo_idx (snd w (slot (fst w) u)) = u.

(** The heap [w] of the test driver, while an operation is at work on
    it: with the elements [out] that were taken out, it holds the
    elements [l]; update() is the callback; every element of the heap
    has its slot in its [idx], and the elements taken out have [z]. *)
Definition recorded (out : list ptr) (z : Z) (l : list ptr)
    (b : @vbh foo_store) (m : foo_store) : Prop :=
  update b = Some foo_update /\
  Permutation (out ++ contents b) l /\
  tracked (b, m) /\
  forall x, In x out -> foo_idx (m x) = z.

End Vbh.

(** * The query parser: vxp_parse.c *)

Module Vxp.

(** ** Tokens

    The token codes of vxp_tokens.h; a single-character token is its
    character, and [CHR zero] is the code 0 of a node whose operator has
    not been set. *)
Inductive token_kind : Type :=
| CHR (c : ascii)
| EOI | VAL | VXID
| T_AND | T_EQ | T_GEQ | T_LEQ | T_NEQ | T_NOMATCH | T_NOT | T_OR
| T_SEQ | T_SNEQ | T_TRUE.

Definition tok_eqb (x y : token_kind) : bool :=
  match x, y with
  | CHR c, CHR d => Ascii.eqb c d
  | EOI, EOI | VAL, VAL | VXID, VXID
  | T_AND, T_AND | T_EQ, T_EQ | T_GEQ, T_GEQ | T_LEQ, T_LEQ
  | T_NEQ, T_NEQ | T_NOMATCH, T_NOMATCH | T_NOT, T_NOT | T_OR, T_OR
  | T_SEQ, T_SEQ | T_SNEQ, T_SNEQ | T_TRUE, T_TRUE => true
  | _, _ => false
  end.

(** struct token: the code, the decoded payload [dec] (NULL unless the
    token is a value) and the source text between [b] and [e]. *)
Record token : Type := mk_token {
  tok : token_kind;
  dec : option string;
  text : string
}.

(** ** The tree: struct vex, struct vex_lhs, struct vex_rhs *)

Inductive vex_rhs_type : Type :=
| VEX__UNSET | VEX_INT | VEX_FLOAT | VEX_STRING | VEX_REGEX.

Definition is_VEX_INT (ty : vex_rhs_type) : bool :=
  match ty with VEX_INT => true | _ => false end.

(** What the parser holds of the C heap: the number of live objects of
    each kind. *)
Record ledger : Type := mk_ledger {
  n_vex : Z;      (* struct vex *)
  n_lhs : Z;      (* struct vex_lhs *)
  n_rhs : Z;      (* struct vex_rhs *)
  n_str : Z;      (* strdup()ed strings *)
  n_vbm : Z;      (* struct vbitmap *)
  n_vre : Z       (* compiled regular expressions *)
}.

Definition ledger_add (x y : ledger) : ledger :=
  mk_ledger (n_vex x + n_vex y) (n_lhs x + n_lhs y) (n_rhs x + n_rhs y)
            (n_str x + n_str y) (n_vbm x + n_vbm y) (n_vre x + n_vre y).

Definition ledger_sub (x y : ledger) : ledger :=
  mk_ledger (n_vex x - n_vex y) (n_lhs x - n_lhs y) (n_rhs x - n_rhs y)
            (n_str x - n_str y) (n_vbm x - n_vbm y) (n_vre x - n_vre y).

Definition no_objects : ledger := mk_ledger 0 0 0 0 0 0.
Definition one_vex : ledger := mk_ledger 1 0 0 0 0 0.
Definition one_lhs : ledger := mk_ledger 0 1 0 0 0 0.
Definition one_rhs : ledger := mk_ledger 0 0 1 0 0 0.
Definition one_str : ledger := mk_ledger 0 0 0 1 0 0.
Definition one_vbm : ledger := mk_ledger 0 0 0 0 1 0.
Definition one_vre : ledger := mk_ledger 0 0 0 0 0 1.

(** A part of a function either falls through to the next part or
    returns from the function. *)
Inductive flow (A R : Type) : Type :=
| Next (x : A)
| Return (r : R).
Arguments Next {A R} x.
Arguments Return {A R} r.

(** ** What vxp_parse.c calls in other files

    [double] and the compiled regular expression are opaque. *)
Class Extern (double vre : Type) : Type := {
  (** VSL_Glob2Tags(glob, -1, vsl_vbm_bitset, tags): the return value
      and the tags the callback is called with *)
  VSL_Glob2Tags : string -> Z * list Z;
  (** strtol(s, &p, 0) and strtoll(s, &p, 0): the value and the rest [p] *)
  strtol : string -> Z * string;
  strtoll : string -> Z * string;
  VNUM : string -> double;
  isnan : double -> bool;
  (** VRE_compile(s, options, &err, &erroff, 1): the regular
      expression, or [err] and [erroff] *)
  VRE_compile : string -> Z -> vre + Z * Z;
  (** what VRE_error(sb, err) writes to [sb] *)
  VRE_error : Z -> string;
  vxp_tnames : token_kind -> string
}.

Section Parser.

Context {double vre : Type} {ext : Extern double vre}.

Record vex_lhs : Type := mk_lhs {
  tags : list Z;              (* the bits set in the bitmap *)
  prefix : option string;
  prefixlen : Z;
  field : Z;
  level : Z;
  level_pm : Z;
  vxid : Z;
  taglist : Z
}.

Record vex_rhs : Type := mk_rhs {
  type : vex_rhs_type;
  val_int : Z;
  val_float : option double;  (* None: the zero of the allocation *)
  val_string : option string;
  val_stringlen : Z;
  val_regex : option vre
}.

#[local] Unset Elimination Schemes.
Inductive vex : Type := mk_vex {
  v_tok : token_kind;
  v_options : Z;
  v_a : option vex;
  v_b : option vex;
  v_lhs : option vex_lhs;
  v_rhs : option vex_rhs
}.
#[local] Set Elimination Schemes.

Definition set_level (l : vex_lhs) (x : Z) : vex_lhs :=
  mk_lhs (tags l) (prefix l) (prefixlen l) (field l) x (level_pm l)
         (vxid l) (taglist l).
Definition set_level_pm (l : vex_lhs) (x : Z) : vex_lhs :=
  mk_lhs (tags l) (prefix l) (prefixlen l) (field l) (level l) x
         (vxid l) (taglist l).
Definition set_vxid (l : vex_lhs) (x : Z) : vex_lhs :=
  mk_lhs (tags l) (prefix l) (prefixlen l) (field l) (level l) (level_pm l)
         x (taglist l).
Definition set_taglist (l : vex_lhs) (x : Z) : vex_lhs :=
  mk_lhs (tags l) (prefix l) (prefixlen l) (field l) (level l) (level_pm l)
         (vxid l) x.
Definition set_tags (l : vex_lhs) (x : list Z) : vex_lhs :=
  mk_lhs x (prefix l) (prefixlen l) (field l) (level l) (level_pm l)
         (vxid l) (taglist l).
Definition set_prefix (l : vex_lhs) (x : option string) (n : Z) : vex_lhs :=
  mk_lhs (tags l) x n (field l) (level l) (level_pm l) (vxid l) (taglist l).
Definition set_field (l : vex_lhs) (x : Z) : vex_lhs :=
  mk_lhs (tags l) (prefix l) (prefixlen l) x (level l) (level_pm l)
         (vxid l) (taglist l).

Definition set_tok (v : vex) (x : token_kind) : vex :=
  mk_vex x (v_options v) (v_a v) (v_b v) (v_lhs v) (v_rhs v).
Definition set_a (v : vex) (x : option vex) : vex :=
  mk_vex (v_tok v) (v_options v) x (v_b v) (v_lhs v) (v_rhs v).
Definition set_b (v : vex) (x : option vex) : vex :=
  mk_vex (v_tok v) (v_options v) (v_a v) x (v_lhs v) (v_rhs v).
Definition set_lhs (v : vex) (x : option vex_lhs) : vex :=
  mk_vex (v_tok v) (v_options v) (v_a v) (v_b v) x (v_rhs v).
Definition set_rhs (v : vex) (x : option vex_rhs) : vex :=
  mk_vex (v_tok v) (v_options v) (v_a v) (v_b v) (v_lhs v) x.

(** ** The parser state: struct vxp

    [t] is the current token with the tokens after it, [[]] is NULL.
    [err_where] is the place [vxp_ErrWhere] marks; [live] is the C
    heap as far as this parser allocated it. *)
Record vxp : Type := mk_vxp {
  tokens : list token;
  t : list token;
  vex_options : Z;
  vre_options : Z;
  err : bool;
  err_where : option (token * Z);
  sb : string;
  live : ledger
}.

Definition set_t (x : list token) (s : vxp) : vxp :=
  mk_vxp (tokens s) x (vex_options s) (vre_options s) (err s) (err_where s)
         (sb s) (live s).
Definition set_err (x : bool) (s : vxp) : vxp :=
  mk_vxp (tokens s) (t s) (vex_options s) (vre_options s) x (err_where s)
         (sb s) (live s).
Definition set_err_where (x : option (token * Z)) (s : vxp) : vxp :=
  mk_vxp (tokens s) (t s) (vex_options s) (vre_options s) (err s) x
         (sb s) (live s).
Definition set_sb (x : string) (s : vxp) : vxp :=
  mk_vxp (tokens s) (t s) (vex_options s) (vre_options s) (err s)
         (err_where s) x (live s).
Definition set_live (x : ledger) (s : vxp) : vxp :=
  mk_vxp (tokens s) (t s) (vex_options s) (vre_options s) (err s)
         (err_where s) (sb s) x.

Definition P (A : Type) : Type := M vxp A.

(** (int) of a long *)
Definition to_int (x : Z) : Z := (x + 2 ^ 31) mod 2 ^ 32 - 2 ^ 31.

Definition strlen (s : string) : Z := Z.of_nat (String.length s).

Fixpoint strchr (s : string) (c : ascii) : bool :=
  match s with
  | EmptyString => false
  | String d s' => Ascii.eqb d c || strchr s' c
  end.

Definition isspace (c : ascii) : bool :=
  let n := nat_of_ascii c in
  Nat.eqb n 32 || (Nat.leb 9 n && Nat.leb n 13).

(** while (isspace( *endptr)) endptr++ *)
Fixpoint skip_space (s : string) : string :=
  match s with
  | EmptyString => s
  | String c s' => if isspace c then skip_space s' else s
  end.

(** vbit_set(tags, k) *)
Definition vbit_set (bm : list Z) (k : Z) : list Z :=
  if existsb (Z.eqb k) bm then bm else k :: bm.

(** ** Allocation *)

Definition alloc (x : ledger) : P unit :=
  modify (fun s => set_live (ledger_add (live s) x) s).
Definition release (x : ledger) : P unit :=
  modify (fun s => set_live (ledger_sub (live s) x) s).

(** ** The current token *)

(** vxp->t, dereferenced *)
Definition cur : P token :=
  fun s => match t s with
           | [] => Err NullDeref
           | x :: _ => Ok (x, s)
           end.

Definition cur_tok : P token_kind := x <- cur ;; ret (tok x).

(** a use of [x->dec] as a string *)
Definition dec_of (x : token) : P string :=
  match dec x with
  | Some d => ret d
  | None => fail NullDeref
  end.

(** AN(x->dec) *)
Definition AN_dec (x : token) : P string :=
  match dec x with
  | Some d => ret d
  | None => fail AssertFail
  end.

(** AZ( *p) for a pointer to a pointer *)
Definition AZ {A} (p : option A) : P unit :=
  match p with
  | None => ret tt
  | Some _ => fail AssertFail
  end.

Definition VSB_cat (m : string) : P unit :=
  modify (fun s => set_sb (sb s ++ m)%string s).

(** VSB_printf(vxp->sb, "<what> '%.*s' ", PF(x)) *)
Definition VSB_printf_PF (what : string) (x : token) : P unit :=
  VSB_cat (what ++ "'" ++ text x ++ "' ")%string.

(** ** vxp.c and vxp.h: the helpers of the parser *)

(** Modelled from the spec: vxp_ErrWhere marks the error location, a
    caret offset within the offending token, and sets the error flag. *)
Definition vxp_ErrWhere (x : token) (off : Z) : P unit :=
  modify (fun s => set_err true (set_err_where (Some (x, off)) s)).

(** Modelled from the spec: vxp_NextToken moves the current-token
    pointer to the next token of the list; after the last token there
    is none, which is a diagnostic. *)
Definition vxp_NextToken : P unit :=
  s <- get ;;
  match t s with
  | [] => fail AssertFail
  | _ :: rest =>
      modify (set_t rest) ;;
      match rest with
      | [] => VSB_cat "Ran out of input " ;; modify (set_err true)
      | _ :: _ => ret tt
      end
  end.

(** Modelled from the spec: ERRCHK returns from the calling production
    when the error flag is set; [r] is what the caller has stored through
    its result pointer by then. *)
Definition ERRCHK {A} (r : A) (k : P A) : P A :=
  fun s => if err s then Ok (r, s) else k s.

(** Modelled from the spec: a diagnostic, expected X but saw Y, when
    the current token is not [tk]. *)
Definition vxp__Expect (tk : token_kind) : P unit :=
  x <- cur ;;
  if tok_eqb (tok x) tk then ret tt
  else VSB_printf_PF ("Expected " ++ vxp_tnames tk ++ " got ") x ;;
       vxp_ErrWhere x (-1).

(** Modelled from the spec: ExpectErr is the diagnostic and ERRCHK;
    SkipToken is ExpectErr and vxp_NextToken. *)
Definition ExpectErr {A} (tk : token_kind) (r : A) (k : P A) : P A :=
  vxp__Expect tk ;; ERRCHK r k.

Definition SkipToken {A} (tk : token_kind) (r : A) (k : P A) : P A :=
  vxp__Expect tk ;; ERRCHK r (vxp_NextToken ;; k).

(** ** vex_alloc *)

Definition vex_alloc : P vex :=
  s <- get ;;
  alloc one_vex ;;
  ret (mk_vex (CHR zero) (vex_options s) None None None None).

(** ** vxp_expr_lhs *)

Definition and_then {A B R} (c : P (flow A R)) (k : A -> P (flow B R))
  : P (flow B R) :=
  r <- c ;;
  match r with
  | Next x => k x
  | Return r => ret (Return r)
  end.

(** the diagnostic, vxp_ErrWhere(vxp, vxp->t, -1) and return *)
Definition oops {A R} (m : P unit) (r : R) : P (flow A R) :=
  m ;; x <- cur ;; vxp_ErrWhere x (-1) ;; ret (Return r).

(** if (vxp->t->tok == '{') ... : transaction level limits *)
Definition lhs_level (l : vex_lhs) : P (flow vex_lhs vex_lhs) :=
  tk <- cur_tok ;;
  if tok_eqb tk (CHR "{") then
    vxp_NextToken ;;
    x <- cur ;;
    if negb (tok_eqb (tok x) VAL) then
      oops (VSB_printf_PF "Expected integer got " x) l
    else
      d <- dec_of x ;;
      let (v, p) := strtol d in
      let l := set_level l (to_int v) in
      if level l <? 0 then
        oops (VSB_cat "Expected positive integer ") l
      else
        let (l, p) :=
          match p with
          | String c p' =>
              if Ascii.eqb c "-" then (set_level_pm l (-1), p')
              else if Ascii.eqb c "+" then (set_level_pm l 1, p')
              else (l, p)
          | EmptyString => (l, p)
          end in
        match p with
        | String _ _ => oops (VSB_cat "Syntax error in level limit ") l
        | EmptyString =>
            vxp_NextToken ;;
            ExpectErr (CHR "}") (Return l)
              (vxp_NextToken ;; ret (Next l))
        end
  else ret (Next l).

(** while (1) ... : the tags this expression applies to *)
Fixpoint lhs_tags (fuel : nat) (l : vex_lhs) : P (flow vex_lhs vex_lhs) :=
  match fuel with
  | O => fail OutOfFuel
  | S fuel' =>
      x <- cur ;;
      and_then
        (if tok_eqb (tok x) VXID then
           ret (Next (set_vxid l (vxid l + 1), 0))
         else if negb (tok_eqb (tok x) VAL) then
           oops (VSB_printf_PF "Expected VSL tag name got " x) l
         else
           d <- dec_of x ;;
           let (i, hits) := VSL_Glob2Tags d in
           ret (Next (set_tags (set_taglist l (taglist l + 1))
                               (fold_left vbit_set hits (tags l)), i)))
        (fun li =>
           let (l, i) := li : vex_lhs * Z in
           if i =? -1 then oops (VSB_cat "Tag name matches zero tags ") l
           else if i =? -2 then oops (VSB_cat "Tag name is ambiguous ") l
           else if i =? -3 then oops (VSB_cat "Syntax error in tag name ") l
           else
             assert ((0 <? i) || tok_eqb (tok x) VXID) ;;
             vxp_NextToken ;;
             tk <- cur_tok ;;
             if negb (tok_eqb tk (CHR ",")) then ret (Next l)
             else vxp_NextToken ;; lhs_tags fuel' l)
  end.

(** if (vxp->t->tok == ':') ... : record prefix *)
Definition lhs_prefix (l : vex_lhs) : P (flow vex_lhs vex_lhs) :=
  tk <- cur_tok ;;
  if tok_eqb tk (CHR ":") then
    vxp_NextToken ;;
    x <- cur ;;
    if negb (tok_eqb (tok x) VAL) then
      oops (VSB_printf_PF "Expected string got " x) l
    else
      d <- AN_dec x ;;
      alloc one_str ;;
      vxp_NextToken ;;
      ret (Next (set_prefix l (Some d) (strlen d)))
  else ret (Next l).

(** if (vxp->t->tok == '[') ... : LHS field *)
Definition lhs_field (l : vex_lhs) : P (flow vex_lhs vex_lhs) :=
  tk <- cur_tok ;;
  if tok_eqb tk (CHR "[") then
    vxp_NextToken ;;
    x <- cur ;;
    if negb (tok_eqb (tok x) VAL) then
      oops (VSB_printf_PF "Expected integer got " x) l
    else
      d <- dec_of x ;;
      let (v, p) := strtol d in
      let l := set_field l (to_int v) in
      if negb (String.eqb p "") || (field l <=? 0) then
        oops (VSB_cat "Expected positive integer ") l
      else
        vxp_NextToken ;;
        ExpectErr (CHR "]") (Return l)
          (vxp_NextToken ;; ret (Next l))
  else ret (Next l).

(** the check after the four parts *)
Definition lhs_vxid (l : vex_lhs) : P vex_lhs :=
  if vxid l =? 0 then ret l
  else if (1 <? vxid l) || (0 <=? level l) || (0 <? field l)
          || (0 <? prefixlen l) || (0 <? taglist l) then
    VSB_cat "Unexpected taglist selection for vxid " ;;
    x <- cur ;;
    vxp_ErrWhere x (-1) ;;
    ret l
  else ret l.

Definition vxp_expr_lhs (plhs : option vex_lhs) : P vex_lhs :=
  AZ plhs ;;
  alloc one_lhs ;;
  alloc one_vbm ;;
  let l := mk_lhs [] None 0 0 (-1) 0 0 0 in
  r <- and_then (lhs_level l) (fun l =>
       and_then (s <- get ;; lhs_tags (S (List.length (t s))) l) (fun l =>
       and_then (lhs_prefix l) lhs_field)) ;;
  match r with
  | Return l => ret l
  | Next l => lhs_vxid l
  end.

(** ** vxp_expr_num, vxp_expr_str, vxp_expr_regex *)

Definition vxp_expr_num (prhs : option vex_rhs) (vxid : Z)
  : P (option vex_rhs) :=
  AZ prhs ;;
  x <- cur ;;
  if negb (tok_eqb (tok x) VAL) then
    VSB_printf_PF "Expected number got " x ;;
    vxp_ErrWhere x (-1) ;;
    ret None
  else
    d <- AN_dec x ;;
    alloc one_rhs ;;
    r <- (if strchr d "." then
            let f := VNUM d in
            let r := mk_rhs VEX_FLOAT 0 (Some f) None 0 None in
            if isnan f then
              oops (VSB_cat "Floating point parse error ") r
            else ret (Next r)
          else
            let (v, endptr) := strtoll d in
            let r := mk_rhs VEX_INT v None None 0 None in
            if negb (String.eqb (skip_space endptr) "") then
              oops (VSB_cat "Integer parse error ") r
            else ret (Next r)) ;;
    match r with
    | Return r => ret (Some r)
    | Next r =>
        if negb (vxid =? 0) && negb (is_VEX_INT (type r)) then
          VSB_printf_PF "Expected integer got " x ;;
          vxp_ErrWhere x 0 ;;
          ret (Some r)
        else
          vxp_NextToken ;;
          ret (Some r)
    end.

Definition vxp_expr_str (prhs : option vex_rhs) : P (option vex_rhs) :=
  AZ prhs ;;
  x <- cur ;;
  if negb (tok_eqb (tok x) VAL) then
    VSB_printf_PF "Expected string got " x ;;
    vxp_ErrWhere x (-1) ;;
    ret None
  else
    d <- AN_dec x ;;
    alloc one_rhs ;;
    alloc one_str ;;
    vxp_NextToken ;;
    ret (Some (mk_rhs VEX_STRING 0 None (Some d) (strlen d) None)).

Definition vxp_expr_regex (prhs : option vex_rhs) : P (option vex_rhs) :=
  AZ prhs ;;
  x <- cur ;;
  if negb (tok_eqb (tok x) VAL) then
    VSB_printf_PF "Expected regular expression got " x ;;
    vxp_ErrWhere x (-1) ;;
    ret None
  else
    d <- AN_dec x ;;
    alloc one_rhs ;;
    alloc one_str ;;
    s <- get ;;
    match VRE_compile d (vre_options s) with
    | inl re =>
        alloc one_vre ;;
        vxp_NextToken ;;
        ret (Some (mk_rhs VEX_REGEX 0 None (Some d) 0 (Some re)))
    | inr (e, erroff) =>
        VSB_cat "Regular expression error: " ;;
        VSB_cat (VRE_error e) ;;
        VSB_cat " " ;;
        vxp_ErrWhere x erroff ;;
        ret (Some (mk_rhs VEX_REGEX 0 None (Some d) 0 None))
    end.

(** ** vxp_vxid_cmp *)

Definition vxid_operator (tk : token_kind) : bool :=
  tok_eqb tk T_EQ || tok_eqb tk (CHR "<") || tok_eqb tk (CHR ">")
  || tok_eqb tk T_GEQ || tok_eqb tk T_LEQ || tok_eqb tk T_NEQ.

Definition vxp_vxid_cmp : P unit :=
  x <- cur ;;
  if vxid_operator (tok x) then ret tt
  else
    VSB_printf_PF "Expected vxid operator got " x ;;
    vxp_ErrWhere x (-1).

(** ** vxp_expr_cmp *)

(** the cases of the two switch statements *)
Definition single_lhs (tk : token_kind) : bool :=
  tok_eqb tk EOI || tok_eqb tk T_AND || tok_eqb tk T_OR
  || tok_eqb tk (CHR ")").

Definition num_operator (tk : token_kind) : bool :=
  tok_eqb tk T_EQ || tok_eqb tk (CHR "<") || tok_eqb tk (CHR ">")
  || tok_eqb tk T_GEQ || tok_eqb tk T_LEQ || tok_eqb tk T_NEQ.

Definition str_operator (tk : token_kind) : bool :=
  tok_eqb tk T_SEQ || tok_eqb tk T_SNEQ.

Definition regex_operator (tk : token_kind) : bool :=
  tok_eqb tk (CHR "~") || tok_eqb tk T_NOMATCH.

Definition vxp_expr_cmp (pvex : option vex) : P (option vex) :=
  AZ pvex ;;
  v <- vex_alloc ;;
  l <- vxp_expr_lhs (v_lhs v) ;;
  let v := set_lhs v (Some l) in
  ERRCHK (Some v) (
    let operator :=
      x <- cur ;;
      if single_lhs (tok x) then ret (Some (set_tok v T_TRUE))
      else if num_operator (tok x) || str_operator (tok x)
              || regex_operator (tok x) then
        let v := set_tok v (tok x) in
        vxp_NextToken ;;
        ERRCHK (Some v) (
          if num_operator (v_tok v) then
            r <- vxp_expr_num (v_rhs v) (vxid l) ;;
            ret (Some (set_rhs v r))
          else if str_operator (v_tok v) then
            r <- vxp_expr_str (v_rhs v) ;;
            ret (Some (set_rhs v r))
          else if regex_operator (v_tok v) then
            r <- vxp_expr_regex (v_rhs v) ;;
            ret (Some (set_rhs v r))
          else fail AssertFail)
      else
        VSB_printf_PF "Expected operator got " x ;;
        vxp_ErrWhere x (-1) ;;
        ret (Some v) in
    if negb (vxid l =? 0) then
      vxp_vxid_cmp ;;
      ERRCHK (Some v) operator
    else operator).

(** ** vxp_expr_group, vxp_expr_not, vxp_expr_and, vxp_expr_or

    The four call each other; [vxp_expr_or] is the one that counts the
    fuel down, and the three others take it as [expr_or]. *)
Section Productions.

Variable expr_or : option vex -> P (option vex).

Definition vxp_expr_group (pvex : option vex) : P (option vex) :=
  AZ pvex ;;
  tk <- cur_tok ;;
  if tok_eqb tk (CHR "(") then
    SkipToken (CHR "(") pvex (
      r <- expr_or pvex ;;
      ERRCHK r (
        SkipToken (CHR ")") r (ret r)))
  else vxp_expr_cmp pvex.

Definition vxp_expr_not (pvex : option vex) : P (option vex) :=
  AZ pvex ;;
  tk <- cur_tok ;;
  if tok_eqb tk T_NOT then
    v <- vex_alloc ;;
    let v := set_tok v tk in
    vxp_NextToken ;;
    r <- vxp_expr_group (v_a v) ;;
    ret (Some (set_a v r))
  else vxp_expr_group pvex.

(** while (vxp->t->tok == T_AND) ... *)
Fixpoint and_loop (fuel : nat) (pvex : option vex) : P (option vex) :=
  match fuel with
  | O => fail OutOfFuel
  | S fuel' =>
      tk <- cur_tok ;;
      if tok_eqb tk T_AND then
        let a := pvex in
        v <- vex_alloc ;;
        let v := set_a (set_tok v tk) a in
        vxp_NextToken ;;
        ERRCHK (Some v) (
          r <- vxp_expr_not (v_b v) ;;
          let v := set_b v r in
          ERRCHK (Some v) (and_loop fuel' (Some v)))
      else ret pvex
  end.

Definition vxp_expr_and (fuel : nat) (pvex : option vex)
  : P (option vex) :=
  AZ pvex ;;
  r <- vxp_expr_not pvex ;;
  ERRCHK r (and_loop (S fuel) r).

(** while (vxp->t->tok == T_OR) ... *)
Fixpoint or_loop (fuel : nat) (pvex : option vex) : P (option vex) :=
  match fuel with
  | O => fail OutOfFuel
  | S fuel' =>
      tk <- cur_tok ;;
      if tok_eqb tk T_OR then
        let a := pvex in
        v <- vex_alloc ;;
        let v := set_a (set_tok v tk) a in
        vxp_NextToken ;;
        ERRCHK (Some v) (
          r <- vxp_expr_and fuel' (v_b v) ;;
          let v := set_b v r in
          ERRCHK (Some v) (or_loop fuel' (Some v)))
      else ret pvex
  end.

End Productions.

Fixpoint vxp_expr_or (fuel : nat) (pvex : option vex) : P (option vex) :=
  match fuel with
  | O => fail OutOfFuel
  | S fuel' =>
      AZ pvex ;;
      r <- vxp_expr_and (vxp_expr_or fuel') fuel' pvex ;;
      ERRCHK r (or_loop (vxp_expr_or fuel') (S fuel') r)
  end.

(** ** vxp_expr

    The call of [vxp_expr] in itself has [*pvex == NULL], and is the
    first branch. *)
Definition vxp_expr_first (fuel : nat) (pvex : option vex)
  : P (option vex) :=
  r <- vxp_expr_or fuel pvex ;;
  ERRCHK r (
    ExpectErr EOI r (ret r)).

Definition vxp_expr (fuel : nat) (pvex : option vex) : P (option vex) :=
  match pvex with
  | None => vxp_expr_first fuel pvex
  | Some _ =>
      a <- vxp_expr_first fuel None ;;
      ERRCHK pvex (
        or <- vex_alloc ;;
        ret (Some (set_a (set_b (set_tok or T_OR) pvex) a)))
  end.

(** ** vex_Free *)

Definition free_lhs (l : vex_lhs) : P unit :=
  release one_vbm ;;
  (match prefix l with Some _ => release one_str | None => ret tt end) ;;
  release one_lhs.

Definition free_rhs (r : vex_rhs) : P unit :=
  (match val_string r with Some _ => release one_str | None => ret tt end) ;;
  (match val_regex r with Some _ => release one_vre | None => ret tt end) ;;
  release one_rhs.

Fixpoint vex_Free (v : vex) : P unit :=
  (match v_lhs v with Some l => free_lhs l | None => ret tt end) ;;
  (match v_rhs v with Some r => free_rhs r | None => ret tt end) ;;
  (match v_a v with Some a => vex_Free a | None => ret tt end) ;;
  (match v_b v with Some b => vex_Free b | None => ret tt end) ;;
  release one_vex.

(** ** vxp_Parse *)

(** while (vxp->t != NULL && vxp->t->tok == EOI) vxp->t = NEXT(vxp->t) *)
Fixpoint skip_EOI (l : list token) : list token :=
  match l with
  | [] => []
  | x :: l' => if tok_eqb (tok x) EOI then skip_EOI l' else l
  end.

(** vxp->t = VTAILQ_NEXT(vxp->t, list) *)
Definition vxp_NEXT : P unit :=
  s <- get ;;
  match t s with
  | [] => fail NullDeref
  | _ :: rest => modify (set_t rest)
  end.

(** while (vxp->t != NULL) ... *)
Fixpoint parse_loop (fuel : nat) (depth : nat) (pvex : option vex)
  : P (option vex) :=
  match fuel with
  | O => fail OutOfFuel
  | S fuel' =>
      s <- get ;;
      match t s with
      | [] => ret pvex
      | _ :: _ =>
          modify (set_t (skip_EOI (t s))) ;;
          s <- get ;;
          match t s with
          | [] => ret pvex
          | _ :: _ =>
              pvex <- vxp_expr depth pvex ;;
              s <- get ;;
              if err s then
                (match pvex with
                 | Some v => vex_Free v
                 | None => ret tt
                 end) ;;
                ret None
              else
                vxp_NEXT ;;
                parse_loop fuel' depth pvex
          end
      end
  end.

Definition vxp_Parse : P (option vex) :=
  s <- get ;;
  assert (negb (err s)) ;;
  modify (set_t (tokens s)) ;;
  parse_loop (S (List.length (tokens s))) (S (List.length (tokens s))) None.

(** ** What a tree owns

    The objects [vex_Free] releases for a node: the node, its LHS with
    the bitmap and the prefix, its RHS with the string and the regular
    expression, and what the two children own. *)
Definition owned {A} (f : A -> ledger) (x : option A) : ledger :=
  match x with
  | Some a => f a
  | None => no_objects
  end.

Definition held_lhs (l : vex_lhs) : ledger :=
  ledger_add (ledger_add one_lhs one_vbm)
             (owned (fun _ => one_str) (prefix l)).

Definition held_rhs (r : vex_rhs) : ledger :=
  ledger_add one_rhs
    (ledger_add (owned (fun _ => one_str) (val_string r))
                (owned (fun _ => one_vre) (val_regex r))).

Fixpoint held (v : vex) : ledger :=
  ledger_add one_vex
    (ledger_add (owned held_lhs (v_lhs v))
       (ledger_add (owned held_rhs (v_rhs v))
          (ledger_add (owned held (v_a v)) (owned held (v_b v))))).

(** the number of nodes of a tree *)
Fixpoint nodes (v : vex) : nat :=
  S (match v_a v with Some a => nodes a | None => 0 end
     + match v_b v with Some b => nodes b | None => 0 end).

(** ** The shape of the results *)

(** the node of a connective, as vxp_expr_and, vxp_expr_or and
    vxp_expr fill it in *)
Definition node (tk : token_kind) (o : Z) (a b : vex) : vex :=
  mk_vex tk o (Some a) (Some b) None None.

(** [c] takes the tokens [q] off the input when what follows them is
    as [follow] says, and hands back the tree [v]; the error flag stays
    unset. *)
Definition parses (c : P (option vex)) (o : Z) (q : list token) (v : vex)
  (follow : list token -> Prop) : Prop :=
  forall s rest,
    t s = q ++ rest -> follow rest -> err s = false -> vex_options s = o ->
    exists s', c s = Ok (Some v, s') /\
               t s' = rest /\ err s' = false /\ vex_options s' = o.

(** a token that ends a comparison is next *)
Definition ends_cmp (rest : list token) : Prop :=
  exists y rest', rest = y :: rest' /\ single_lhs (tok y) = true.

(** a token that ends a chain of [and] is next *)
Definition ends_and (rest : list token) : Prop :=
  exists y rest', rest = y :: rest' /\ single_lhs (tok y) = true /\
                  tok_eqb (tok y) T_AND = false.

(** an EOI is next *)
Definition ends_query (rest : list token) : Prop :=
  exists y rest', rest = y :: rest' /\ tok y = EOI.

(** [q] starts with a token [x] *)
Definition starts (q : list token) (ok : token_kind -> bool) : Prop :=
  exists x q', q = x :: q' /\ ok (tok x) = true.

(** The tokens [q] are a comparison, which vxp_expr_cmp parses to [v]:
    not a negation and not a group. *)
Definition cmp_at (o : Z) (q : list token) (v : vex) : Prop :=
  starts q (fun tk => negb (tok_eqb tk T_NOT)
                      && negb (tok_eqb tk (CHR "("))
                      && negb (tok_eqb tk EOI)) /\
  parses (vxp_expr_cmp None) o q v ends_cmp.

(** The tokens [q] are a sub-query, which vxp_expr_or parses to [v]
    when it has the fuel for it. *)
Definition query_at (o : Z) (q : list token) (v : vex) : Prop :=
  starts q (fun tk => negb (tok_eqb tk EOI)) /\
  exists fuel, parses (vxp_expr_or fuel None) o q v ends_query.

(** the trees of the sub-queries [vs], in the order of the input, joined
    to the accumulated tree [acc] *)
Fixpoint chain (o : Z) (acc : option vex) (vs : list vex) : option vex :=
  match vs with
  | [] => acc
  | v :: vs' =>
      chain o (match acc with
               | None => Some v
               | Some b => Some (node T_OR o v b)
               end) vs'
  end.

(** the input of the sub-queries [qs], each with its EOI [eoi] *)
Fixpoint chained (eoi : token) (qs : list (list token)) : list token :=
  match qs with
  | [] => []
  | q :: qs' => q ++ eoi :: chained eoi qs'
  end.

(** the input of the sub-queries [qs], each with the EOI token that ends
    it *)
Fixpoint sub_queries (qs : list (list token * token)) : list token :=
  match qs with
  | [] => []
  | (q, e) :: qs' => q ++ e :: sub_queries qs'
  end.

(** ** The checks on a VXID selector *)

(** what the counters and the fields of an LHS are at least *)
Definition lhs_wf (l : vex_lhs) : Prop :=
  0 <= vxid l /\ 0 <= taglist l /\ 0 <= prefixlen l /\ -1 <= level l /\
  0 <= field l.

Definition vxid_alone (l : vex_lhs) : Prop :=
  vxid l = 1 /\ level l = -1 /\ field l = 0 /\ prefixlen l = 0 /\
  taglist l = 0.

(** ** What a run leaves behind

    The properties of a run that the proofs below are about. *)

(** The state after [vxp_NextToken]: the configuration and the heap are
    as before, and the error flag is set when the input ran out. *)
Definition moved (rest : list token) (s s' : vxp) : Prop :=
  t s' = rest /\ live s' = live s /\ vex_options s' = vex_options s /\
  vre_options s' = vre_options s /\ tokens s' = tokens s /\
  (err s' = false -> err s = false /\ rest <> [] /\ sb s' = sb s) /\
  (err s = true -> err s' = true) /\
  (rest <> [] -> s' = set_t rest s).


Definition flow_val (r : flow vex_lhs vex_lhs) : vex_lhs :=
  match r with Next l => l | Return l => l end.

(** A part of [vxp_expr_lhs] that allocates nothing: it returns with the
    error flag set, or goes on with an LHS that is well-formed. *)
Definition part_post (l : vex_lhs) (s : vxp)
  (r : flow vex_lhs vex_lhs) (s' : vxp) : Prop :=
  live s' = live s /\ prefix (flow_val r) = prefix l /\
  match r with
  | Return _ => err s' = true
  | Next l' => lhs_wf l -> lhs_wf l'
  end.


(** What [vxp_expr_cmp] hands back: always a node, which owns all that
    was allocated; and when the error flag is not set, a node on the
    VXID selector has passed the three checks. *)
Definition vxid_checked (v : vex) : Prop :=
  exists l, v_lhs v = Some l /\
    (vxid l <> 0 ->
     vxid_alone l /\ vxid_operator (v_tok v) = true /\
     exists rr, v_rhs v = Some rr /\ type rr = VEX_INT).


(** A production hands back a node that owns what it was given and
    what was allocated. *)
Definition grows (pvex : option vex) (s : vxp) (r : option vex)
  (s' : vxp) : Prop :=
  t s <> [] /\ (err s = false -> exists v, r = Some v) /\
  ledger_add (live s) (owned held r) = ledger_add (live s') (owned held pvex).


(** the same for a loop, which is given a node *)
Definition loop_grows (pvex : option vex) (s : vxp) (r : option vex)
  (s' : vxp) : Prop :=
  t s <> [] /\ (pvex <> None -> exists v, r = Some v) /\
  ledger_add (live s) (owned held r) = ledger_add (live s') (owned held pvex).


(** [c] only moves forward in the input *)
Definition shrinks {A} (c : P A) : Prop :=
  forall s r s', c s = Ok (r, s') ->
    (List.length (t s') <= List.length (t s))%nat.

(** [c] does not run out of fuel on an input shorter than [n] *)
Definition fuelled {A} (n : nat) (c : P A) : Prop :=
  forall s, (List.length (t s) < n)%nat -> c s <> Err OutOfFuel.

(** [c'] does what [c] does, when [c] does not run out of fuel *)
Definition extends {A} (c c' : P A) : Prop :=
  forall s r, c s = r -> r <> Err OutOfFuel -> c' s = r.

(** [x] was released, and nothing else has changed *)
Definition freed (x : ledger) (s s' : vxp) : Prop :=
  live s' = ledger_sub (live s) x /\ err s' = err s /\ sb s' = sb s /\
  t s' = t s.

Definition frees (c : P unit) (x : ledger) : Prop :=
  forall s, exists s', c s = Ok (tt, s') /\ freed x s s'.


(** ** What a tree is like when there was no error

    The LHS of a comparison: the counters are in range, [prefixlen] is
    the length of the prefix, at least one tag name or the VXID selector
    was read, the VXID selector stands alone, and a level limit has a
    direction only if there is a level. *)
Definition lhs_sofar (k : Z) (l : vex_lhs) : Prop :=
  lhs_wf l /\
  match prefix l with
  | Some d => prefixlen l = strlen d
  | None => prefixlen l = 0
  end /\
  k <= vxid l + taglist l /\
  (level_pm l = 0 \/ (0 <= level l /\ (level_pm l = -1 \/ level_pm l = 1))).

Definition lhs_shape (l : vex_lhs) : Prop :=
  lhs_sofar 1 l /\ (vxid l <> 0 -> vxid_alone l).

(** The RHS that goes with the operator [tk]: an integer or a float
    that is a number, for a numerical operator; a string with its length,
    for a string operator; a string and its compiled regular expression,
    for a match. *)
Definition rhs_for (tk : token_kind) (r : vex_rhs) : Prop :=
  if num_operator tk then
    (type r = VEX_INT \/
     type r = VEX_FLOAT /\ exists f, val_float r = Some f /\ isnan f = false) /\
    val_string r = None /\ val_regex r = None
  else if str_operator tk then
    type r = VEX_STRING /\ val_regex r = None /\
    exists d, val_string r = Some d /\ val_stringlen r = strlen d
  else
    regex_operator tk = true /\ type r = VEX_REGEX /\
    exists d re, val_string r = Some d /\ val_regex r = Some re.

(** The trees: a tag list alone, a comparison, and the three
    connectives; every node has the options of the parser. *)
Inductive well_formed (o : Z) : vex -> Prop :=
| wf_true l :
    lhs_shape l -> vxid l = 0 ->
    well_formed o (mk_vex T_TRUE o None None (Some l) None)
| wf_compare tk l r :
    lhs_shape l -> rhs_for tk r ->
    (vxid l <> 0 -> vxid_operator tk = true /\ type r = VEX_INT) ->
    well_formed o (mk_vex tk o None None (Some l) (Some r))
| wf_not a :
    well_formed o a ->
    well_formed o (mk_vex T_NOT o (Some a) None None None)
| wf_and a b :
    well_formed o a -> well_formed o b ->
    well_formed o (mk_vex T_AND o (Some a) (Some b) None None)
| wf_or a b :
    well_formed o a -> well_formed o b ->
    well_formed o (mk_vex T_OR o (Some a) (Some b) None None).

(** A production leaves the options alone and, when there is no error,
    hands back a well-formed tree. *)
Definition shapes (s : vxp) (r : option vex) (s' : vxp) : Prop :=
  vex_options s' = vex_options s /\
  (err s' = false ->
   exists v, r = Some v /\ well_formed (vex_options s) v).

(** the same for a loop, which is given a tree *)
Definition loop_shapes (pvex : option vex) (s : vxp) (r : option vex)
  (s' : vxp) : Prop :=
  vex_options s' = vex_options s /\
  (err s' = false ->
   forall a, pvex = Some a -> well_formed (vex_options s) a ->
   exists v, r = Some v /\ well_formed (vex_options s) v).


(** ** The grammar of a query

    The productions, as the four functions read them: a group is a
    comparison or a query in parentheses; [not] applies to a group; a
    chain of [and] is made of groups, negated or not; a query is a chain
    of [or] of chains of [and]; and both chains nest to the left. *)
Inductive production : Set := L_group | L_not | L_and | L_or.

Inductive derives (o : Z) : production -> list token -> vex -> Prop :=
| d_cmp q v :
    cmp_at o q v -> derives o L_group q v
| d_paren lp rp q v :
    tok lp = CHR "(" -> tok rp = CHR ")" -> derives o L_or q v ->
    derives o L_group (lp :: q ++ [rp]) v
| d_group q v :
    derives o L_group q v -> derives o L_not q v
| d_not tn q v :
    tok tn = T_NOT -> derives o L_group q v ->
    derives o L_not (tn :: q) (mk_vex T_NOT o (Some v) None None None)
| d_operand q v :
    derives o L_not q v -> derives o L_and q v
| d_and qa va tand qb vb :
    tok tand = T_AND -> derives o L_and qa va -> derives o L_not qb vb ->
    derives o L_and (qa ++ tand :: qb) (node T_AND o va vb)
| d_chain q v :
    derives o L_and q v -> derives o L_or q v
| d_or qa va tor qb vb :
    tok tor = T_OR -> derives o L_or qa va -> derives o L_and qb vb ->
    derives o L_or (qa ++ tor :: qb) (node T_OR o va vb).

(** [c] takes the tokens [q] off the input and goes on as [k] does on
    the tree [v] *)
Definition reads (o : Z) (c : P (option vex))
  (k : option vex -> P (option vex)) (q : list token) (v : vex)
  (follow : list token -> Prop) : Prop :=
  forall s rest,
    t s = q ++ rest -> follow rest -> err s = false -> vex_options s = o ->
    exists s1, t s1 = rest /\ err s1 = false /\ vex_options s1 = o /\
               c s = k (Some v) s1.

(** what the function of a production does on the tokens of it, with
    fuel of [N] or more: a chain is read up to the test of its loop *)
Definition level_reads (o : Z) (lv : production) (q : list token) (v : vex)
  : Prop :=
  exists N n, forall f k, (N <= f)%nat -> (N <= k)%nat ->
    match lv with
    | L_group => parses (vxp_expr_group (vxp_expr_or f) None) o q v ends_cmp
    | L_not => parses (vxp_expr_not (vxp_expr_or f) None) o q v ends_cmp
    | L_and => reads o (vxp_expr_and (vxp_expr_or f) (n + k) None)
                     (and_loop (vxp_expr_or f) (S k)) q v ends_cmp
    | L_or => reads o (vxp_expr_or (S (n + k)) None)
                    (or_loop (vxp_expr_or (n + k)) (S k)) q v ends_and
    end.

(** ** What the parser is given

    The token list of the lexer ends with EOI, and a VAL token has its
    decoded string. *)
Definition lexed (l : list token) : Prop :=
  (exists l' e, l = l' ++ [e] /\ tok e = EOI) /\
  Forall (fun x => tok x = VAL -> dec x <> None) l.

(** VSL_Glob2Tags returns the number of tags that match, or -1, -2
    or -3. *)
Definition glob_contract : Prop :=
  forall g, 0 < fst (VSL_Glob2Tags g) \/ fst (VSL_Glob2Tags g) = -1 \/
            fst (VSL_Glob2Tags g) = -2 \/ fst (VSL_Glob2Tags g) = -3.

(** [c] goes from [s] to a result and a state that are as [Q] says,
    unless the fuel of the model runs out. *)
Definition wp {A} (c : P A) (Q : A -> vxp -> Prop) (s : vxp) : Prop :=
  match c s with
  | Ok (a, s') => Q a s'
  | Err f => f = OutOfFuel
  end.

(** [c] keeps the token list as the lexer made it *)
Definition sound {A} (c : P A) : Prop :=
  forall s, lexed (t s) -> wp c (fun _ s' => lexed (t s')) s.

(** ** Errors and diagnostics

    From [a] to [s] the parser has only added to the diagnostics in
    [sb], and it has set the error flag if and only if it has added
    something. *)
Definition told (a s : vxp) : Prop :=
  exists m, sb s = (sb a ++ m)%string /\
            (err a = true -> err s = true) /\
            (err a = false -> (err s = true <-> m <> ""%string)).

(** when [c] returns from [s], the result and the state are as [Q]
    says *)
Definition pc {A} (c : P A) (Q : A -> vxp -> Prop) (s : vxp) : Prop :=
  forall r s', c s = Ok (r, s') -> Q r s'.

(** ** A comparison on the VXID selector, in the input

    [is_vxid] is the VXID selector, [other] any other token. *)
Definition is_vxid (x : token) : Prop := tok x = VXID.
Definition other (x : token) : Prop := tok x <> VXID.

(** the tree of a comparison on the VXID selector: the selector alone on
    the left-hand side, with [pfx] as its prefix, the operator [op], and
    the integer [n] *)
Definition vxid_cmp (o : Z) (pfx : option string) (op : token_kind) (n : Z)
  : vex :=
  mk_vex op o None None (Some (mk_lhs [] pfx 0 0 (-1) 0 1 0))
         (Some (mk_rhs VEX_INT n None None 0 None)).

(** The tokens [used] are a comparison on the VXID selector, and [v] is
    its tree: the selector, then nothing or a prefix that is the empty
    string, one of the six operators on numbers, and a value with no [.]
    in it that strtoll() reads to its end, white space apart. *)
Definition vxid_comparison (o : Z) (used : list token) (v : vex) : Prop :=
  exists vx pfx op n d,
    used = vx :: pfx ++ [op; n] /\ tok vx = VXID /\
    vxid_operator (tok op) = true /\
    tok n = VAL /\ dec n = Some d /\ strchr d "." = false /\
    skip_space (snd (strtoll d)) = ""%string /\
    ((pfx = [] /\ v = vxid_cmp o None (tok op) (fst (strtoll d))) \/
     (exists c p,
        pfx = [c; p] /\ tok c = CHR ":" /\ tok p = VAL /\
        dec p = Some ""%string /\
        v = vxid_cmp o (Some ""%string) (tok op) (fst (strtoll d)))).

Definition tells {A} (c : P A) : Prop :=
  forall a s, told a s -> pc c (fun _ s' => told a s') s.

End Parser.

Arguments vex_lhs : clear implicits.
Arguments vex_rhs : clear implicits.
Arguments vex : clear implicits.

End Vxp.

(** * Lines out of a stream of bytes: vlu.c

    A [struct vlu] collects the bytes it is given in a buffer of
    [bufl + 1] bytes and calls [func] on each line that is complete.
    The buffer is a map from offsets to bytes, of which the offsets 0 to
    [bufl] are allocated; a pointer into the buffer is its offset. *)

Module Vlu.

Definition NUL : ascii := zero.
Definition NL : ascii := "010"%char.
Definition CR : ascii := "013"%char.
Definition LINEUP_MAGIC : Z := 0x8286661.

(** (int) of an unsigned *)
Definition int32 (x : Z) : Z := (x + 2 ^ 31) mod 2 ^ 32 - 2 ^ 31.

Section Lines.

(** The caller's memory, which [priv] points into and only the callback
    looks at, and the state of the file behind a file descriptor. *)
Context {store file : Type}.

(** BUFSIZ of stdio.h *)
Variable BUFSIZ : Z.

(** malloc(n): NULL, or a block of [n] bytes with whatever is in them *)
Variable malloc : Z -> option (Z -> ascii).

(** read(fd, dst, count): the return value, the bytes stored at [dst]
    and the file afterwards *)
Variable read : file -> Z -> Z * list ascii * file.

(** int func(void *priv, const char *line): the callback is given the
    C string at [line]; it does not touch the vlu. *)
Definition vlu_f : Type := store -> ptr -> list ascii -> Z * store.

Record vlu : Type := mk_vlu {
  magic : Z;
  buf : Z -> ascii;
  bufl : Z;
  bufp : Z;
  priv : ptr;
  func : vlu_f
}.

Definition set_buf (l : vlu) (x : Z -> ascii) : vlu :=
  mk_vlu (magic l) x (bufl l) (bufp l) (priv l) (func l).
Definition set_bufp (l : vlu) (x : Z) : vlu :=
  mk_vlu (magic l) (buf l) (bufl l) x (priv l) (func l).

(** The machine state of a call: the vlu, the caller's memory and the
    file that is read. *)
Record world : Type := mk_world {
  obj : vlu;
  mem : store;
  input : file
}.

Definition set_obj (w : world) (x : vlu) : world :=
  mk_world x (mem w) (input w).
Definition set_mem (w : world) (x : store) : world :=
  mk_world (obj w) x (input w).
Definition set_input (w : world) (x : file) : world :=
  mk_world (obj w) (mem w) x.

Definition V (A : Type) : Type := M world A.

(** CHECK_OBJ_NOTNULL(l, LINEUP_MAGIC) *)
Definition check : V unit :=
  w <- get ;; assert (magic (obj w) =? LINEUP_MAGIC).

(** an offset of the buffer that is allocated *)
Definition inside (l : vlu) (i : Z) : bool := (0 <=? i) && (i <=? bufl l).

(** l->buf[i] *)
Definition load (i : Z) : V ascii :=
  w <- get ;;
  if inside (obj w) i then ret (buf (obj w) i) else fail OutOfBounds.

(** l->buf[i] = c *)
Definition poke (b : Z -> ascii) (i : Z) (c : ascii) : Z -> ascii :=
  fun j => if j =? i then c else b j.

Definition store_at (i : Z) (c : ascii) : V unit :=
  w <- get ;;
  if inside (obj w) i then
    put (set_obj w (set_buf (obj w) (poke (buf (obj w)) i c)))
  else fail OutOfBounds.

(** the [n] bytes at [p] *)
Fixpoint bytes (b : Z -> ascii) (p : Z) (n : nat) : list ascii :=
  match n with
  | O => []
  | S n' => b p :: bytes b (p + 1) n'
  end.

(** the bytes [data] written at [p] *)
Fixpoint blit (b : Z -> ascii) (p : Z) (data : list ascii) : Z -> ascii :=
  match data with
  | [] => b
  | c :: data' => blit (poke b p c) (p + 1) data'
  end.

(** memcpy(l->buf + dst, src, n), where [src] is outside the buffer and
    holds the bytes [data] *)
Definition memcpy (dst : Z) (data : list ascii) (n : Z) : V unit :=
  w <- get ;;
  if (0 <? n) then
    if inside (obj w) dst && inside (obj w) (dst + n - 1)
       && (n <=? Z.of_nat (List.length data)) then
      put (set_obj w (set_buf (obj w)
             (blit (buf (obj w)) dst (firstn (Z.to_nat n) data))))
    else fail OutOfBounds
  else ret tt.

(** memmove(l->buf + dst, l->buf + src, n) *)
Definition memmove (dst src n : Z) : V unit :=
  w <- get ;;
  if (0 <? n) then
    if inside (obj w) dst && inside (obj w) (dst + n - 1)
       && inside (obj w) src && inside (obj w) (src + n - 1) then
      put (set_obj w (set_buf (obj w)
             (blit (buf (obj w)) dst
                   (bytes (buf (obj w)) src (Z.to_nat n)))))
    else fail OutOfBounds
  else ret tt.

(** the loops over the buffer stop at its end at the latest; this is the
    bound of the model for them *)
Definition span (l : vlu) : nat := S (Z.to_nat (bufl l + 1)).

(** for (q = p; *q != '\0'; q++) if ( *q == '\n' || *q == '\r') break; *)
Fixpoint find_eol (fuel : nat) (q : Z) : V Z :=
  match fuel with
  | O => fail OutOfFuel
  | S fuel' =>
      c <- load q ;;
      if Ascii.eqb c NUL then ret q
      else if Ascii.eqb c NL || Ascii.eqb c CR then ret q
      else find_eol fuel' (q + 1)
  end.

(** strchr(p, '\0'): the first NUL from [p] on *)
Fixpoint find_nul (fuel : nat) (q : Z) : V Z :=
  match fuel with
  | O => fail OutOfFuel
  | S fuel' =>
      c <- load q ;;
      if Ascii.eqb c NUL then ret q else find_nul fuel' (q + 1)
  end.

(** i = l->func(l->priv, p): the callback reads the C string at [p] *)
Definition call_func (p : Z) : V Z :=
  w <- get ;;
  q <- find_nul (span (obj w)) p ;;
  let line := bytes (buf (obj w)) p (Z.to_nat (q - p)) in
  let (i, m) := func (obj w) (mem w) (priv (obj w)) line in
  put (set_mem w m) ;;
  ret i.

(** how the loop over the lines is left: at the end of the lines, with
    [p], or by the return of the value of the callback *)
Inductive left : Type :=
| Goes (p : Z)
| Returns (i : Z).

(** for (p = l->buf; *p != '\0'; p = q) ... *)
Fixpoint line_loop (fuel : nat) (p : Z) : V left :=
  match fuel with
  | O => fail OutOfFuel
  | S fuel' =>
      c <- load p ;;
      if Ascii.eqb c NUL then ret (Goes p)
      else
        w <- get ;;
        q <- find_eol (span (obj w)) p ;;
        c <- load q ;;
        if Ascii.eqb c NUL then ret (Goes p)
        else
          store_at q NUL ;;
          let q := q + 1 in
          i <- call_func p ;;
          if negb (i =? 0) then ret (Returns i)
          else line_loop fuel' q
  end.

Definition LineUpProcess : V Z :=
  w <- get ;;
  store_at (bufp (obj w)) NUL ;;
  r <- line_loop (span (obj w)) 0 ;;
  match r with
  | Returns i => ret i
  | Goes p =>
      c <- load p ;;
      (if negb (Ascii.eqb c NUL) then
         q <- find_nul (span (obj w)) p ;;
         modify (fun w => set_obj w (set_bufp (obj w) (u32 (q - p)))) ;;
         w <- get ;;
         memmove 0 p (bufp (obj w)) ;;
         store_at (bufp (obj w)) NUL
       else
         modify (fun w => set_obj w (set_bufp (obj w) 0))) ;;
      ret 0
  end.

(** ** VLU_New, VLU_Reset, VLU_Destroy *)

(** [calloc_ok] is whether ALLOC_OBJ got memory. *)
Definition VLU_New (calloc_ok : bool) (f : vlu_f) (pv : ptr) (bufsize : Z)
  : option vlu :=
  let bufsize := if bufsize =? 0 then BUFSIZ else bufsize in
  if calloc_ok then
    let n := u32 (bufsize - 1) in
    match malloc (n + 1) with
    | Some b => Some (mk_vlu LINEUP_MAGIC b n 0 pv f)
    | None => None
    end
  else None.

Definition VLU_Reset : V unit :=
  check ;;
  modify (fun w => set_obj w (set_bufp (obj w) 0)).

(** VLU_Destroy takes the object out of [*lp] and frees the buffer and
    the object. *)
Definition VLU_Destroy (lp : option vlu) : res (option vlu) :=
  match lp with
  | None => Err AssertFail
  | Some l => if magic l =? LINEUP_MAGIC then Ok None else Err AssertFail
  end.

(** ** VLU_Fd *)

Definition VLU_Fd : V Z :=
  check ;;
  w <- get ;;
  let count := u32 (bufl (obj w) - bufp (obj w)) in
  let '(i, data, f) := read (input w) count in
  put (set_input w f) ;;
  memcpy (bufp (obj w)) data i ;;
  if i =? 0 then ret (-2)
  else if i <? 0 then ret (-1)
  else
    modify (fun w => set_obj w (set_bufp (obj w) (u32 (bufp (obj w) + i)))) ;;
    LineUpProcess.

(** ** VLU_Feed *)

(** while (len > 0) ...; [ptr] points to the bytes [data] *)
Fixpoint feed_loop (fuel : nat) (data : list ascii) (len : Z) (i : Z)
  : V Z :=
  match fuel with
  | O => fail OutOfFuel
  | S fuel' =>
      if 0 <? len then
        w <- get ;;
        let room := u32 (bufl (obj w) - bufp (obj w)) in
        let u := if room <? u32 len then room else u32 len in
        memcpy (bufp (obj w)) data u ;;
        let len := int32 (u32 (u32 len - u)) in
        let data := skipn (Z.to_nat u) data in
        modify (fun w =>
                  set_obj w (set_bufp (obj w) (u32 (bufp (obj w) + u)))) ;;
        i <- LineUpProcess ;;
        if negb (i =? 0) then ret i
        else feed_loop fuel' data len i
      else ret i
  end.

(** [ptr] is NULL, or points to the bytes [data]. *)
Definition VLU_Feed (fuel : nat) (ptr : option (list ascii)) (len : Z)
  : V Z :=
  check ;;
  match ptr with
  | None => fail AssertFail
  | Some data =>
      assert (0 <? len) ;;
      feed_loop fuel data len 0
  end.

(** ** VLU_File *)

(** do { i = VLU_Fd(vlu, fd); } while (i == 0); *)
Fixpoint file_loop (fuel : nat) : V Z :=
  match fuel with
  | O => fail OutOfFuel
  | S fuel' =>
      i <- VLU_Fd ;;
      if i =? 0 then file_loop fuel' else ret i
  end.

(** The result, the caller's memory and the file after the call. *)
Definition VLU_File (fuel : nat) (calloc_ok : bool) (fd : file)
  (f : vlu_f) (pv : ptr) (m : store) (bufsize : Z)
  : res (Z * store * file) :=
  match VLU_New calloc_ok f pv bufsize with
  | None => Err AssertFail
  | Some l =>
      match file_loop fuel (mk_world l m fd) with
      | Err e => Err e
      | Ok (i, w) =>
          match VLU_Destroy (Some (obj w)) with
          | Err e => Err e
          | Ok _ => Ok (i, mem w, input w)
          end
      end
  end.

(** ** The lines of a stream *)

Definition is_eol (c : ascii) : bool := Ascii.eqb c NL || Ascii.eqb c CR.

(** The lines that are complete in [data], and what follows the last of
    them; [cur] is the line so far.  A line ends at a CR and at a NL. *)
Fixpoint split_lines (cur data : list ascii)
  : list (list ascii) * list ascii :=
  match data with
  | [] => ([], cur)
  | c :: data' =>
      if is_eol c then
        let (ls, r) := split_lines [] data' in (cur :: ls, r)
      else split_lines (cur ++ [c]) data'
  end.

(** The calls of [f] on lines, up to the first that does not return 0:
    the value of the last call and the caller's memory after it. *)
Fixpoint deliver (f : vlu_f) (pv : ptr) (m : store)
  (ls : list (list ascii)) : Z * store :=
  match ls with
  | [] => (0, m)
  | x :: ls' =>
      let (i, m') := f m pv x in
      if i =? 0 then deliver f pv m' ls' else (i, m')
  end.

(** bytes that are neither NUL nor the end of a line *)
Definition plain (c : ascii) : Prop := c <> NUL /\ is_eol c = false.

(** The vlu between two calls: the buffer holds [pending], the start of
    a line that is not complete yet. *)
Definition holds (l : vlu) (pending : list ascii) : Prop :=
  magic l = LINEUP_MAGIC /\
  0 <= bufl l < 2 ^ 32 /\
  bufp l = Z.of_nat (List.length pending) /\ bufp l <= bufl l /\
  bytes (buf l) 0 (List.length pending) = pending /\
  Forall plain pending.

(** The file [f] has the bytes [data] left to read: a read of [count]
    bytes hands over the next bytes, at most [count] of them and at
    least one if there is one and [count] is not 0, and so does the file
    after it. *)
Inductive serves : file -> list ascii -> Prop :=
| serves_intro f data :
    (forall count, 0 <= count ->
       exists n,
         fst (read f count) = (Z.of_nat n, firstn n data) /\
         Z.of_nat n <= count /\ (n <= List.length data)%nat /\
         (0 < count -> data <> [] -> (0 < n)%nat)) ->
    (forall count n,
       fst (fst (read f count)) = Z.of_nat n -> (0 < n)%nat ->
       serves (snd (read f count)) (skipn n data)) ->
    serves f data.

End Lines.

End Vlu.

(** ** Results of concrete runs *)

Definition is_ok {A} (r : res A) : bool :=
  match r with Ok _ => true | Err _ => false end.

Definition ok_or {A} (d : A) (r : res A) : A :=
  match r with Ok a => a | Err _ => d end.

(** The state after running [c] from [s]. *)
Definition after {S} (c : M S unit) (s : S) : S := snd (ok_or (tt, s) (c s)).

(** ** Concrete heaps

    [heap3] holds three elements with the keys 5, 3 and 4; in [heap_tie]
    two elements have the same key; [heap_null] was created without an
    update callback; [heap_sparse] is one element in three allocated
    rows. *)
Module VbhRun.
Import Vbh.

Definition junk0 : Z -> ptr := fun i => 3735879680 + i.
Definition NOIDX0 : Z := 0.

Definition mem0 : foo_store :=
  fun a => mk_foo 0 (if a =? 100 then 5 else if a =? 200 then 3 else 4).

Definition no_heap : @world foo_store :=
  (mk_vbh 0 0 foo_cmp None [] 0 0 0 0 0 0, mem0).

Definition heap0 : world :=
  ok_or no_heap (VBH_new junk0 4096 8 true 0 foo_cmp (Some foo_update) mem0).
Definition heap1 : world := after (VBH_insert junk0 100) heap0.
Definition heap2 : world := after (VBH_insert junk0 200) heap1.
Definition heap3 : world := after (VBH_insert junk0 300) heap2.
(** the element at 100 gets the key 1 and is reordered from its slot *)
Definition mem3' : foo_store := set_key (snd heap3) 100 1.
Definition heap4 : world := after (VBH_reorder 2) (fst heap3, mem3').
Definition heap5 : world := after (VBH_delete NOIDX0 1) heap4.

Definition mem_tie : foo_store := fun a => mk_foo 0 5.
Definition heap_tie0 : world :=
  ok_or no_heap (VBH_new junk0 4096 8 true 0 foo_cmp (Some foo_update) mem_tie).
Definition heap_tie : world :=
  after (VBH_insert junk0 200) (after (VBH_insert junk0 100) heap_tie0).

Definition heap_null0 : world :=
  ok_or no_heap (VBH_new junk0 4096 8 true 0 foo_cmp None mem0).
Definition heap_null : world := after (VBH_insert junk0 100) heap_null0.

Definition row0 : row := fun c => if c =? 1 then 100 else junk0 c.
Definition heap_sparse : world :=
  (mk_vbh VBH_MAGIC 0 foo_cmp (Some foo_update)
     [Some row0; Some junk0; Some junk0; None] 4 (3 * ROW_WIDTH) 2
     512 511 9, mem0).

End VbhRun.

(** ** Concrete inputs of the parser *)
Module VxpRun.
Import Vxp.
Local Open Scope string_scope.

(** strtol() and strtoll() on decimal digits *)
Fixpoint digits (s : string) (acc : Z) : Z * string :=
  match s with
  | EmptyString => (acc, s)
  | String c s' =>
      let n := Z.of_nat (nat_of_ascii c) in
      if ((48 <=? n) && (n <=? 57))%Z then digits s' (10 * acc + (n - 48))
      else (acc, s)
  end.
Definition strtol0 (s : string) : Z * string := digits s 0.

(** two tags of the table *)
Definition SLT_Begin : Z := 1.
Definition SLT_RespStatus : Z := 2.
Definition Glob2Tags0 (g : string) : Z * list Z :=
  if g =? "Begin" then (1, [SLT_Begin])
  else if g =? "RespStatus" then (1, [SLT_RespStatus])
  else (-1, []).

Definition VNUM0 (s : string) : option Z := None.
Definition isnan0 (d : option Z) : bool :=
  match d with None => true | Some _ => false end.
Definition VRE_compile0 (s : string) (o : Z) : string + Z * Z := inl s.
Definition VRE_error0 (e : Z) : string := "".
Definition tnames0 (k : token_kind) : string :=
  match k with
  | CHR c => String c ""
  | EOI => "end of input"
  | VAL => "VAL"
  | VXID => "vxid"
  | T_AND => "and" | T_OR => "or" | T_NOT => "not"
  | T_EQ => "==" | T_NEQ => "!=" | T_GEQ => ">=" | T_LEQ => "<="
  | T_NOMATCH => "!~" | T_SEQ => "eq" | T_SNEQ => "ne" | T_TRUE => "true"
  end.

Definition val (s : string) : token := mk_token VAL (Some s) s.
Definition sym (k : token_kind) : token := mk_token k None (tnames0 k).

#[export] Instance extern0 : Extern (option Z) string := {
  VSL_Glob2Tags := Glob2Tags0;
  strtol := strtol0;
  strtoll := strtol0;
  VNUM := VNUM0;
  isnan := isnan0;
  VRE_compile := VRE_compile0;
  VRE_error := VRE_error0;
  vxp_tnames := tnames0
}.

(** the parser on [l], before vxp_Parse and at the first token *)
Definition start (l : list token) : vxp :=
  mk_vxp l [] 0 0 false None "" no_objects.
Definition at_first (l : list token) : vxp := set_t l (start l).

(** the result and the state of a run *)
Definition run {A} (c : P A) (s : vxp) (d : A) : A * vxp :=
  ok_or (d, s) (c s).

Definition tree : Type := vex (option Z) string.

(** [Begin] and [RespStatus == 200], and their trees *)
Definition q_tag : list token := [val "Begin"].
Definition q_eq : list token := [val "RespStatus"; sym T_EQ; val "200"].
Definition v_tag (o : Z) : tree :=
  mk_vex T_TRUE o None None
         (Some (mk_lhs [SLT_Begin] None 0 0 (-1) 0 0 1)) None.
Definition v_eq (o : Z) : tree :=
  mk_vex T_EQ o None None
         (Some (mk_lhs [SLT_RespStatus] None 0 0 (-1) 0 0 1))
         (Some (mk_rhs VEX_INT 200 None None 0 None)).

(** [Begin or RespStatus == 200 and Begin] *)
Definition in_or_and : list token :=
  q_tag ++ sym T_OR :: q_eq ++ sym T_AND :: q_tag ++ [sym EOI].
(** [Begin and RespStatus == 200 and Begin] *)
Definition in_and_and : list token :=
  q_tag ++ sym T_AND :: q_eq ++ sym T_AND :: q_tag ++ [sym EOI].
(** [vxid == 42] *)
Definition in_vxid : list token :=
  [sym VXID; sym T_EQ; val "42"; sym EOI].
(** [vxid:"" == 5], the prefix is the empty string *)
Definition in_vxid_prefix : list token :=
  [sym VXID; sym (CHR ":"); val ""; sym T_EQ; val "5"; sym EOI].
(** two lines, [Begin] and [RespStatus == 200] *)
Definition in_two : list token := chained (sym EOI) [q_tag; q_eq].
(** two lines with an [or] between them *)
Definition in_or_between : list token :=
  [val "Begin"; sym EOI; sym T_OR; val "Begin"; sym EOI].
(** two lines, the second is [Begin ==] without a number *)
Definition in_leak : list token :=
  [val "Begin"; sym EOI; val "Begin"; sym T_EQ; sym EOI].
(** two empty lines *)
Definition in_empty : list token := [sym EOI; sym EOI].

(** [not (Begin or RespStatus == 200) and Begin] *)
Definition q_group : list token :=
  (sym T_NOT :: sym (CHR "(") :: (q_tag ++ sym T_OR :: q_eq)
     ++ [sym (CHR ")")])
  ++ sym T_AND :: q_tag.
Definition v_group (o : Z) : tree :=
  node T_AND o
       (mk_vex T_NOT o (Some (node T_OR o (v_tag o) (v_eq o))) None None
               None)
       (v_tag o).
Definition in_group : list token := q_group ++ [sym EOI].

End VxpRun.

(** ** Concrete line-ups

    The callback [collect] keeps the lines it is given; [stop_at_x]
    returns 7 for a line that starts with an x.  The buffer of [vlu8] has
    8 bytes.  A file is the bytes that are left of it, and [read_all]
    hands over as many of them as it is asked for. *)
Module VluRun.
Import Vlu.
Local Open Scope char_scope.

Definition lines : Type := list (list ascii).

Definition collect : @vlu_f lines := fun m _ line => (0, m ++ [line]).

Definition stop_at_x : @vlu_f lines :=
  fun m _ line =>
    match line with
    | "x" :: _ => (7, m ++ [line])
    | _ => (0, m ++ [line])
    end.

Definition read_all (f : list ascii) (count : Z)
  : Z * list ascii * list ascii :=
  let n := Nat.min (Z.to_nat count) (List.length f) in
  (Z.of_nat n, firstn n f, skipn n f).

Definition malloc_junk (n : Z) : option (Z -> ascii) := Some (fun _ => "?").

Definition vlu8 (f : @vlu_f lines) : @vlu lines :=
  mk_vlu LINEUP_MAGIC (fun _ => "?") 7 0 NULL f.

Definition world8 (f : @vlu_f lines) (fd : list ascii)
  : @world lines (list ascii) :=
  mk_world (vlu8 f) [] fd.

Definition text (s : string) : list ascii := list_ascii_of_string s.

(** [ab], NL, [cd], CR, NL, [ef] *)
Definition two_lines : list ascii :=
  text "ab" ++ [NL] ++ text "cd" ++ [CR; NL] ++ text "ef".

(** [ab], NL, [xy], NL, [cd] *)
Definition x_lines : list ascii :=
  text "ab" ++ [NL] ++ text "xy" ++ [NL] ++ text "cd".

(** a line of 7 bytes after the line [ab], and two lines after it *)
Definition long_line : list ascii := text "ab" ++ [NL] ++ text "1234567".
Definition after_long : list ascii :=
  text "89" ++ [NL] ++ text "zz" ++ [NL].

End VluRun.

(** * Facts about machine arithmetic *)

Lemma u32_small (x : Z) : 0 <= x < 2 ^ 32 -> u32 x = x.
Proof. intros Hx. unfold u32. now apply Z.mod_small. Qed.

Lemma u64_small (x : Z) : 0 <= x < 2 ^ 64 -> u64 x = x.
Proof. intros Hx. unfold u64. now apply Z.mod_small. Qed.

Lemma land_shifted_ones (u k n : Z) :
  0 <= k -> 0 <= n ->
  Z.land u (Z.shiftl (Z.ones k) n) = ((u / 2 ^ n) mod 2 ^ k) * 2 ^ n.
Proof.
  intros Hk Hn.
  rewrite <- Z.shiftr_div_pow2, <- Z.land_ones, <- Z.shiftl_mul_pow2 by lia.
  apply Z.bits_inj'. intros i Hi.
  rewrite Z.land_spec.
  destruct (Z.lt_ge_cases i n) as [Hlt | Hge].
  - rewrite !Z.shiftl_spec_low by lia. apply andb_false_r.
  - rewrite !Z.shiftl_spec by lia.
    rewrite Z.land_spec, Z.shiftr_spec by lia.
    replace (i - n + n) with i by lia. reflexivity.
Qed.

Lemma lor_disjoint (x y : Z) : Z.land x y = 0 -> Z.lor x y = x + y.
Proof.
  intros Hd. rewrite (Z.add_nocarry_lxor _ _ Hd). symmetry. now apply Z.lxor_lor.
Qed.

Lemma land_low_high (a r n : Z) :
  0 <= n -> 0 <= r < 2 ^ n -> Z.land (a * 2 ^ n) r = 0.
Proof.
  intros Hn Hr.
  apply Z.bits_inj'. intros i Hi.
  rewrite Z.land_spec, Z.bits_0.
  destruct (Z.lt_ge_cases i n) as [Hlt | Hge].
  - rewrite Z.mul_pow2_bits_low by lia. reflexivity.
  - assert (Hb : Z.testbit r i = false).
    { destruct (Z.eq_dec r 0) as [-> | Hr0]; [apply Z.bits_0|].
      apply Z.bits_above_log2; [lia|].
      apply Z.log2_lt_pow2; [lia|].
      apply Z.lt_le_trans with (2 ^ n); [lia|]. apply Z.pow_le_mono_r; lia. }
    rewrite Hb. apply andb_false_r.
Qed.

Lemma lor_high_low (a r n : Z) :
  0 <= n -> 0 <= r < 2 ^ n -> Z.lor (a * 2 ^ n) r = a * 2 ^ n + r.
Proof.
  intros. apply lor_disjoint. now apply land_low_high.
Qed.

Lemma not32_ones (n : Z) :
  0 <= n <= 32 -> not32 (2 ^ n - 1) = Z.shiftl (Z.ones (32 - n)) n.
Proof.
  intros Hn. unfold not32, u32.
  rewrite Z.shiftl_mul_pow2, Z.ones_equiv by lia.
  replace (Z.lnot (2 ^ n - 1)) with (- 2 ^ n) by (unfold Z.lnot; lia).
  assert (E : 2 ^ 32 = 2 ^ (32 - n) * 2 ^ n).
  { rewrite <- Z.pow_add_r by lia. f_equal. lia. }
  assert (0 < 2 ^ n) by (apply Z.pow_pos_nonneg; lia).
  assert (0 < 2 ^ (32 - n)) by (apply Z.pow_pos_nonneg; lia).
  symmetry. apply Z.mod_unique_pos with (q := -1); [|rewrite E; lia].
  rewrite E. nia.
Qed.

Lemma land_not32 (u n : Z) :
  0 <= n <= 32 -> 0 <= u < 2 ^ 32 ->
  Z.land u (not32 (2 ^ n - 1)) = 2 ^ n * (u / 2 ^ n).
Proof.
  intros Hn Hu. rewrite not32_ones, land_shifted_ones by lia.
  assert (0 < 2 ^ n) by (apply Z.pow_pos_nonneg; lia).
  rewrite Z.mod_small; [lia|].
  split; [apply Z.div_pos; lia|].
  apply Z.div_lt_upper_bound; [lia|].
  rewrite <- Z.pow_add_r by lia. replace (n + (32 - n)) with 32 by lia. lia.
Qed.

Lemma land_mask (u n : Z) : 0 <= n -> Z.land u (2 ^ n - 1) = u mod 2 ^ n.
Proof.
  intros Hn. rewrite <- Z.land_ones by lia. now rewrite Z.ones_equiv.
Qed.

Lemma land_bit (u n : Z) :
  0 <= n -> Z.land u (2 ^ n) = ((u / 2 ^ n) mod 2) * 2 ^ n.
Proof.
  intros Hn.
  replace (2 ^ n) with (Z.shiftl (Z.ones 1) n) at 1
    by (rewrite Z.shiftl_mul_pow2 by lia; change (Z.ones 1) with 1; lia).
  rewrite land_shifted_ones by lia. reflexivity.
Qed.

Lemma land_mask_even (u n : Z) :
  1 <= n -> Z.land u (2 ^ n - 2) = ((u / 2) mod 2 ^ (n - 1)) * 2.
Proof.
  intros Hn.
  replace (2 ^ n - 2) with (Z.shiftl (Z.ones (n - 1)) 1).
  - rewrite land_shifted_ones by lia. reflexivity.
  - rewrite Z.shiftl_mul_pow2, Z.ones_equiv by lia.
    replace n with (n - 1 + 1) at 2 by lia. rewrite Z.pow_add_r by lia. lia.
Qed.

Lemma divmod_eq (P k r : Z) :
  0 <= r < P -> (P * k + r) / P = k /\ (P * k + r) mod P = r.
Proof.
  intros Hr. split.
  - symmetry. apply Z.div_unique with r; lia.
  - symmetry. apply Z.mod_unique with k; lia.
Qed.

Lemma split_index (P u : Z) :
  0 < P -> exists k po, u = P * k + po /\ 0 <= po < P /\ u / P = k /\ u mod P = po.
Proof.
  intros HP. exists (u / P), (u mod P).
  pose proof (Z.div_mod u P ltac:(lia)). pose proof (Z.mod_pos_bound u P HP). lia.
Qed.

(** * The page arithmetic of the heap *)

Section PageArith.
Import Vbh.
Variables P Hf : Z.
Hypothesis HP : P = 2 * Hf.
Hypothesis HH : 2 <= Hf.

Lemma half : P / 2 = Hf.
Proof. subst P. rewrite Z.mul_comm. apply Z.div_mul; lia. Qed.

Lemma par_lt (u : Z) : 2 <= u -> 1 <= par P u < u.
Proof.
  intros Hu. unfold par.
  destruct (split_index P u ltac:(lia)) as (k & po & Eu & Hpo & Ek & Epo).
  rewrite Ek, Epo, half.
  assert (0 <= k) by nia.
  destruct ((u <? P) || (3 <? po)) eqn:C1.
  - apply orb_true_iff in C1. 
    pose proof (Z.div_mod po 2 ltac:(lia)). pose proof (Z.mod_pos_bound po 2 ltac:(lia)).
    destruct C1 as [C1 | C1]; [apply Z.ltb_lt in C1 | apply Z.ltb_lt in C1].
    + assert (k = 0) by nia. subst k. lia.
    + nia.
  - apply orb_false_iff in C1. destruct C1 as [C1 C2].
    apply Z.ltb_ge in C1, C2.
    assert (1 <= k) by nia.
    destruct (po <? 2) eqn:C3; [apply Z.ltb_lt in C3 | apply Z.ltb_ge in C3].
    + replace ((u - P) / P) with (k - 1).
      2:{ apply Z.div_unique with po; nia. }
      cbv zeta.
      pose proof (Z.div_mod (k - 1) Hf ltac:(lia)). pose proof (Z.mod_pos_bound (k - 1) Hf ltac:(lia)).
      assert (0 <= (k - 1) / Hf) by (apply Z.div_pos; lia).
      nia.
    + lia.
Qed.


Lemma par_norm (k r : Z) :
  0 <= k -> 0 <= r < P ->
  par P (P * k + r) =
    if (k =? 0) || (3 <? r) then P * k + r / 2
    else if r <? 2 then (k - 1) + Hf * ((k - 1) / Hf) + Hf
    else P * k + r - 2.
Proof.
  intros Hk Hr. unfold par.
  destruct (divmod_eq P k r Hr) as [-> ->]. rewrite half.
  replace (P * k + r <? P) with (k =? 0).
  2:{ destruct (Z.eqb_spec k 0), (Z.ltb_spec (P * k + r) P); auto; nia. }
  destruct ((k =? 0) || (3 <? r)) eqn:C1; [reflexivity|].
  apply orb_false_iff in C1. destruct C1 as [C1 C2].
  apply Z.eqb_neq in C1.
  destruct (r <? 2); [|reflexivity].
  replace ((P * k + r - P) / P) with (k - 1); [reflexivity|].
  apply Z.div_unique with r; nia.
Qed.

Lemma kids_norm (k r : Z) :
  0 <= k -> 0 <= r < P ->
  kids P (P * k + r) =
    if (1 <=? k) && (r <? 2) then (P * k + r + 2, P * k + r + 2)
    else if Hf <=? r then
      let a := (Hf * k + (r - Hf) + 1) * P in
      if a <? 2 ^ 32 then (a, a + 1) else (UINT_MAX, UINT_MAX)
    else (P * k + (r + r), P * k + (r + r) + 1).
Proof.
  intros Hk Hr. unfold kids.
  destruct (divmod_eq P k r Hr) as [-> ->]. rewrite half.
  replace (P - 1 <? P * k + r) with (1 <=? k).
  2:{ destruct (Z.leb_spec 1 k), (Z.ltb_spec (P - 1) (P * k + r)); auto; nia. }
  destruct ((1 <=? k) && (r <? 2)); [reflexivity|].
  destruct (Hf <=? r); [reflexivity|].
  f_equal; lia.
Qed.

(** parent(child(u)) == u, on the arithmetic form *)
Lemma par_kids (u a b : Z) :
  0 <= u -> kids P u = (a, b) -> a <> UINT_MAX ->
  par P a = u /\ par P b = u.
Proof.
  intros Hu Hk Ha.
  destruct (split_index P u ltac:(lia)) as (k & r & Eu & Hr & _ & _).
  assert (0 <= k) by nia. subst u.
  rewrite kids_norm in Hk by lia.
  destruct ((1 <=? k) && (r <? 2)) eqn:C1.
  { apply andb_true_iff in C1. destruct C1 as [C1 C2].
    apply Z.leb_le in C1. apply Z.ltb_lt in C2.
    injection Hk as <- <-.
    replace (P * k + r + 2) with (P * k + (r + 2)) by lia.
    rewrite par_norm by lia.
    replace ((k =? 0) || (3 <? r + 2)) with false.
    2:{ symmetry. apply orb_false_iff. split; [apply Z.eqb_neq | apply Z.ltb_ge]; lia. }
    replace (r + 2 <? 2) with false by (symmetry; apply Z.ltb_ge; lia).
    lia. }
  destruct (Hf <=? r) eqn:C2.
  { apply Z.leb_le in C2. cbv zeta in Hk.
    destruct ((Hf * k + (r - Hf) + 1) * P <? 2 ^ 32); [|injection Hk as <- <-; congruence].
    injection Hk as <- <-.
    assert (E : forall j, 0 <= j < 2 ->
              par P ((Hf * k + (r - Hf) + 1) * P + j) = P * k + r).
    { intros j Hj.
      replace ((Hf * k + (r - Hf) + 1) * P + j)
        with (P * (Hf * k + (r - Hf) + 1) + j) by lia.
      rewrite par_norm by nia.
      replace ((Hf * k + (r - Hf) + 1 =? 0) || (3 <? j)) with false.
      2:{ symmetry. apply orb_false_iff. split; [apply Z.eqb_neq | apply Z.ltb_ge]; nia. }
      replace (j <? 2) with true by (symmetry; apply Z.ltb_lt; lia).
      replace (Hf * k + (r - Hf) + 1 - 1) with (Hf * k + (r - Hf)) by lia.
      destruct (divmod_eq Hf k (r - Hf)) as [-> _]; [lia|]. nia. }
    split; [|apply E; lia].
    replace ((Hf * k + (r - Hf) + 1) * P)
      with ((Hf * k + (r - Hf) + 1) * P + 0) by lia. apply E; lia. }
  apply Z.leb_gt in C2.
  injection Hk as <- <-.
  assert (C3 : k = 0 \/ 2 <= r).
  { apply andb_false_iff in C1. destruct C1 as [C1 | C1];
      [apply Z.leb_gt in C1 | apply Z.ltb_ge in C1]; lia. }
  assert (E : forall j, 0 <= j < 2 -> par P (P * k + (r + r + j)) = P * k + r).
  { intros j Hj. rewrite par_norm by lia.
    replace ((k =? 0) || (3 <? r + r + j)) with true.
    2:{ symmetry. apply orb_true_iff.
        destruct C3; [left; apply Z.eqb_eq | right; apply Z.ltb_lt]; lia. }
    f_equal. symmetry. apply Z.div_unique with j; lia. }
  split.
  - replace (P * k + (r + r)) with (P * k + (r + r + 0)) by lia. apply E; lia.
  - replace (P * k + (r + r) + 1) with (P * k + (r + r + 1)) by lia. apply E; lia.
Qed.


Lemma kids_gt (u a b : Z) :
  1 <= u < UINT_MAX -> kids P u = (a, b) -> u < a /\ a <= b.
Proof.
  intros Hu Hk.
  destruct (split_index P u ltac:(lia)) as (k & r & Eu & Hr & _ & _).
  assert (0 <= k) by nia. subst u.
  rewrite kids_norm in Hk by lia.
  destruct ((1 <=? k) && (r <? 2)) eqn:C1.
  { injection Hk as <- <-. lia. }
  destruct (Hf <=? r) eqn:C2.
  { apply Z.leb_le in C2. cbv zeta in Hk.
    assert (0 <= k * Hf * (Hf - 1)) by (apply Z.mul_nonneg_nonneg; nia).
    assert (0 <= (r - Hf) * P) by nia.
    destruct ((Hf * k + (r - Hf) + 1) * P <? 2 ^ 32);
      injection Hk as <- <-; [nia | lia]. }
  apply Z.leb_gt in C2. injection Hk as <- <-.
  apply andb_false_iff in C1. destruct C1 as [C1 | C1];
    [apply Z.leb_gt in C1 | apply Z.ltb_ge in C1]; nia.
Qed.

(** every slot is one of the children of its parent *)
Lemma kids_par (v a b : Z) :
  2 <= v < 2 ^ 32 -> kids P (par P v) = (a, b) -> v = a \/ v = b.
Proof.
  intros Hv Hk.
  destruct (split_index P v ltac:(lia)) as (k & r & Ev & Hr & _ & _).
  assert (0 <= k) by nia. subst v.
  rewrite par_norm in Hk by lia.
  destruct ((k =? 0) || (3 <? r)) eqn:C1.
  { assert (C : k = 0 \/ 3 < r).
    { apply orb_true_iff in C1. destruct C1 as [C1 | C1];
        [apply Z.eqb_eq in C1 | apply Z.ltb_lt in C1]; lia. }
    pose proof (Z.div_mod r 2 ltac:(lia)). pose proof (Z.mod_pos_bound r 2 ltac:(lia)).
    rewrite kids_norm in Hk by lia.
    replace ((1 <=? k) && (r / 2 <? 2)) with false in Hk.
    2:{ symmetry. apply andb_false_iff.
        destruct C; [left; apply Z.leb_gt | right; apply Z.ltb_ge]; lia. }
    replace (Hf <=? r / 2) with false in Hk by (symmetry; apply Z.leb_gt; lia).
    injection Hk as <- <-. lia. }
  apply orb_false_iff in C1. destruct C1 as [C1 C2].
  apply Z.eqb_neq in C1. apply Z.ltb_ge in C2.
  destruct (r <? 2) eqn:C3; [apply Z.ltb_lt in C3 | apply Z.ltb_ge in C3].
  { pose proof (Z.div_mod (k - 1) Hf ltac:(lia)).
    pose proof (Z.mod_pos_bound (k - 1) Hf ltac:(lia)).
    assert (0 <= (k - 1) / Hf) by (apply Z.div_pos; lia).
    replace (k - 1 + Hf * ((k - 1) / Hf) + Hf)
      with (P * ((k - 1) / Hf) + ((k - 1) mod Hf + Hf)) in Hk by lia.
    rewrite kids_norm in Hk by lia.
    replace ((1 <=? (k - 1) / Hf) && ((k - 1) mod Hf + Hf <? 2)) with false in Hk.
    2:{ symmetry. apply andb_false_iff. right. apply Z.ltb_ge. lia. }
    replace (Hf <=? (k - 1) mod Hf + Hf) with true in Hk
      by (symmetry; apply Z.leb_le; lia).
    cbv zeta in Hk.
    replace (Hf * ((k - 1) / Hf) + ((k - 1) mod Hf + Hf - Hf) + 1) with k in Hk by lia.
    replace (k * P <? 2 ^ 32) with true in Hk by (symmetry; apply Z.ltb_lt; nia).
    injection Hk as <- <-. lia. }
  replace (P * k + r - 2) with (P * k + (r - 2)) in Hk by lia.
  rewrite kids_norm in Hk by lia.
  replace ((1 <=? k) && (r - 2 <? 2)) with true in Hk.
  2:{ symmetry. apply andb_true_iff. split; [apply Z.leb_le | apply Z.ltb_lt]; lia. }
  injection Hk as <- <-. lia.
Qed.

End PageArith.

(** ** parent() and child() compute [par] and [kids] *)

Section PageBits.
Import Vbh.
Context {store : Type}.
Variable b : @vbh store.
Hypothesis Hpg : pages_ok b.

Let S := page_shift b.
Let P := page_size b.
Let Hf := 2 ^ (S - 1).

Lemma page_facts :
  P = 2 ^ S /\ P = 2 * Hf /\ 2 <= Hf /\ P / 2 = Hf /\
  page_mask b = P - 1 /\ 2 <= S <= 31 /\ exists c, 2 ^ 32 = c * P /\ 2 <= c.
Proof.
  destruct Hpg as (HS & HP & HM). fold S P in HS, HP, HM.
  assert (E : P = 2 * Hf).
  { unfold Hf. rewrite HP. replace S with (1 + (S - 1)) at 1 by lia.
    rewrite Z.pow_add_r by lia. reflexivity. }
  assert (2 <= Hf).
  { unfold Hf. change 2 with (2 ^ 1) at 1. apply Z.pow_le_mono_r; lia. }
  repeat split; try lia.
  - rewrite E, Z.mul_comm. apply Z.div_mul. lia.
  - exists (2 ^ (32 - S)). split.
    + rewrite HP, <- Z.pow_add_r by lia. f_equal. lia.
    + change 2 with (2 ^ 1) at 1. apply Z.pow_le_mono_r; lia.
Qed.

Lemma land_mask' (u : Z) : Z.land u (P - 1) = u mod P.
Proof.
  destruct page_facts as (HP & _ & _ & _ & _ & HS & _).
  rewrite HP. apply land_mask. lia.
Qed.

Lemma mask_half : Z.shiftr (P - 1) 1 = Hf - 1.
Proof.
  destruct page_facts as (HP & E & HH & _ & HM & HS & _).
  rewrite Z.shiftr_div_pow2 by lia. change (2 ^ 1) with 2.
  symmetry. apply Z.div_unique with 1; lia.
Qed.

Lemma parent_par (u : Z) :
  0 <= u < UINT_MAX -> parent b u = Ok (par P u).
Proof.
  intros Hu. unfold UINT_MAX in Hu.
  destruct page_facts as (HP & E & HH & Hhalf & HM & HS & c & Hc & Hc2).
  unfold parent, par.
  replace (u =? UINT_MAX) with false by (symmetry; apply Z.eqb_neq; unfold UINT_MAX; lia).
  fold P. rewrite HM. cbv zeta.
  assert (Epo : Z.land u (P - 1) = u mod P) by (rewrite HP; apply land_mask; lia).
  rewrite Epo.
  pose proof (Z.mod_pos_bound u P ltac:(lia)) as Hpo.
  pose proof (Z.div_mod u P ltac:(lia)) as Hdm.
  assert (0 <= u / P) by (apply Z.div_pos; lia).
  destruct ((u <? P) || (3 <? u mod P)) eqn:C1.
  { f_equal. rewrite HP at 1. rewrite land_not32 by lia. rewrite <- HP.
    rewrite Z.shiftr_div_pow2 by lia. change (2 ^ 1) with 2.
    rewrite (Z.mul_comm P), HP.
    rewrite lor_high_low; [reflexivity | lia |].
    rewrite <- HP. split; [apply Z.div_pos; lia|].
    apply Z.div_lt_upper_bound; lia. }
  apply orb_false_iff in C1. destruct C1 as [C1 C2].
  apply Z.ltb_ge in C1, C2.
  destruct (u mod P <? 2) eqn:C3.
  2:{ f_equal. apply u32_small. lia. }
  f_equal. rewrite Hhalf, mask_half.
  rewrite (u32_small (u - P)) by lia.
  fold S. rewrite Z.shiftr_div_pow2 by lia. rewrite <- HP.
  set (q := (u - P) / P).
  assert (Hq : 0 <= q < 2 ^ 30).
  { unfold q. split; [apply Z.div_pos; lia|].
    apply Z.div_lt_upper_bound; [lia|]. nia. }
  unfold Hf at 1. rewrite land_not32 by lia. fold Hf.
  pose proof (Z.div_mod q Hf ltac:(lia)).
  pose proof (Z.mod_pos_bound q Hf ltac:(lia)).
  assert (0 <= q / Hf <= q) by (split; [apply Z.div_pos; lia | apply Z.div_le_upper_bound; nia]).
  rewrite (u32_small (q + Hf * (q / Hf))) by nia.
  apply lor_disjoint.
  unfold Hf at 3. rewrite land_bit by lia. fold Hf.
  replace ((q + Hf * (q / Hf)) / Hf) with (q / Hf * 2).
  2:{ apply Z.div_unique with (q mod Hf); nia. }
  rewrite Z.mod_mul by lia. reflexivity.
Qed.

Lemma child_kids (u : Z) :
  0 <= u < 2 ^ 32 -> child b u = kids P u.
Proof.
  intros Hu.
  destruct page_facts as (HP & E & HH & Hhalf & HM & HS & c & Hc & Hc2).
  unfold child, kids. fold P S. rewrite HM, Hhalf.
  pose proof (Z.mod_pos_bound u P ltac:(lia)) as Hpo.
  pose proof (Z.div_mod u P ltac:(lia)) as Hdm.
  assert (Hk : 0 <= u / P <= c - 1).
  { split; [apply Z.div_pos; lia|].
    assert (u / P < c) by (apply Z.div_lt_upper_bound; lia). lia. }
  pose proof (Z.mod_pos_bound u Hf ltac:(lia)) as Hlo.
  pose proof (Z.mod_pos_bound (u / Hf) 2 ltac:(lia)) as Hbit.
  assert (Esplit : u mod P = u mod Hf + Hf * ((u / Hf) mod 2)).
  { rewrite E, (Z.mul_comm 2 Hf). apply Z.rem_mul_r; lia. }
  pose proof (Z.mod_pos_bound u 2 ltac:(lia)) as Hodd.
  pose proof (Z.mod_pos_bound (u / 2) Hf ltac:(lia)) as Hhi.
  assert (Esplit2 : u mod P = u mod 2 + 2 * ((u / 2) mod Hf)).
  { rewrite E. apply Z.rem_mul_r; lia. }
  (* the page roots *)
  replace (Z.land u (u32 (P - 1 - 1)) =? 0) with (u mod P <? 2).
  2:{ replace (u32 (P - 1 - 1)) with (2 ^ S - 2)
        by (rewrite u32_small; lia).
      rewrite land_mask_even by lia. fold Hf.
      destruct (Z.ltb_spec (u mod P) 2), (Z.eqb_spec ((u / 2) mod Hf * 2) 0);
        auto; lia. }
  destruct ((P - 1 <? u) && (u mod P <? 2)) eqn:C1.
  { apply andb_true_iff in C1. destruct C1 as [_ C1]. apply Z.ltb_lt in C1.
    assert (P * (u / P) <= P * (c - 1)) by (apply Z.mul_le_mono_nonneg_l; lia).
    rewrite (u32_small (u + 2)); [reflexivity|].
    clear - Hu Hc Hpo Hdm C1 E HH H0. lia. }
  (* the bottom row *)
  replace (negb (Z.land u (Z.shiftr P 1) =? 0)) with (Hf <=? u mod P).
  2:{ rewrite Z.shiftr_div_pow2 by lia. change (2 ^ 1) with 2. rewrite Hhalf.
      unfold Hf at 2. rewrite land_bit by lia. fold Hf.
      assert (Hb : (u / Hf) mod 2 = 0 \/ (u / Hf) mod 2 = 1) by lia.
      destruct Hb as [Hb | Hb]; rewrite Hb in *.
      - rewrite Z.mul_0_l. simpl. apply Z.leb_gt. lia.
      - rewrite Z.mul_1_l.
        replace (Hf =? 0) with false by (symmetry; apply Z.eqb_neq; lia).
        simpl. apply Z.leb_le. lia. }
  destruct (Hf <=? u mod P) eqn:C2.
  { apply Z.leb_le in C2. cbv zeta.
    assert (E1 : Z.land u (not32 (P - 1)) = P * (u / P)).
    { rewrite HP. apply land_not32; lia. }
    assert (E2 : Z.shiftr (P * (u / P)) 1 = u / P * Hf).
    { rewrite Z.shiftr_div_pow2 by lia. change (2 ^ 1) with 2.
      symmetry. apply Z.div_unique with 0; lia. }
    assert (E3 : Z.land u (Hf - 1) = u mod Hf).
    { unfold Hf. apply land_mask. lia. }
    assert (E4 : Z.lor (u / P * Hf) (u mod Hf) = u / P * Hf + u mod Hf).
    { unfold Hf. apply lor_high_low; [lia | exact Hlo]. }
    rewrite E1, mask_half, E2, E3, E4.
    set (a := u / P * Hf + u mod Hf).
    assert (Hb : (u / Hf) mod 2 = 1).
    { assert (Hb : (u / Hf) mod 2 = 0 \/ (u / Hf) mod 2 = 1) by lia.
      destruct Hb as [Hb | Hb]; [rewrite Hb in Esplit; lia | exact Hb]. }
    rewrite Hb in Esplit.
    assert (Ha : a = Hf * (u / P) + (u mod P - Hf)) by (unfold a; lia).
    assert (Ha2 : 0 <= a < 2 ^ 31).
    { assert (Hf * (u / P) <= Hf * (c - 1)) by (apply Z.mul_le_mono_nonneg_l; lia).
      assert (0 <= Hf * (u / P)) by (apply Z.mul_nonneg_nonneg; lia).
      lia. }
    rewrite (u32_small (a + 1)) by lia.
    rewrite Z.shiftl_mul_pow2 by lia. rewrite <- HP.
    assert (Hprod : 0 <= (a + 1) * P < 2 ^ 64).
    { assert (P <= 2 ^ 31) by lia.
      assert ((a + 1) * P <= 2 ^ 31 * 2 ^ 31) by (apply Z.mul_le_mono_nonneg; lia).
      split; [apply Z.mul_nonneg_nonneg; lia | lia]. }
    rewrite (u64_small ((a + 1) * P)) by exact Hprod.
    rewrite <- Ha.
    destruct (Z.ltb_spec ((a + 1) * P) (2 ^ 32)) as [Hlt | Hge].
    - rewrite (u32_small ((a + 1) * P)) by lia.
      rewrite Z.eqb_refl.
      rewrite (u32_small ((a + 1) * P + 1)); [reflexivity|].
      assert (a + 1 < c) by (apply Z.mul_lt_mono_pos_r with P; lia).
      assert ((a + 1) * P <= (c - 1) * P) by (apply Z.mul_le_mono_nonneg_r; lia).
      lia.
    - replace (u32 ((a + 1) * P) =? (a + 1) * P) with false; [reflexivity|].
      symmetry. apply Z.eqb_neq.
      pose proof (Z.mod_pos_bound ((a + 1) * P) (2 ^ 32) ltac:(lia)).
      unfold u32. lia. }
  (* inside the page *)
  apply Z.leb_gt in C2.
  rewrite land_mask'.
  assert (P * (u / P) <= P * (c - 1)) by (apply Z.mul_le_mono_nonneg_l; lia).
  assert (Hb : 0 <= u + u mod P /\ u + u mod P + 1 < 2 ^ 32)
    by (clear - Hu Hc Hpo Hdm C2 E H0; lia).
  rewrite (u32_small (u + u mod P)) by (clear - Hb; lia).
  rewrite (u32_small (u + u mod P + 1)) by (clear - Hb; lia).
  reflexivity.
Qed.

End PageBits.

(** * The rows of the heap as one array *)

Lemma nth_error_upd_eq {A} (l : list A) (i : nat) (x : A) :
  (i < List.length l)%nat -> nth_error (upd l i x) i = Some x.
Proof.
  revert i. induction l as [|y l IH]; intros [|i] Hi; simpl in *; try lia; auto.
  apply IH. lia.
Qed.

Lemma nth_error_upd_ne {A} (l : list A) (i j : nat) (x : A) :
  i <> j -> nth_error (upd l i x) j = nth_error l j.
Proof.
  revert i j. induction l as [|y l IH]; intros [|i] [|j] Hij; simpl; auto; try lia.
Qed.

Lemma length_upd {A} (l : list A) (i : nat) (x : A) :
  List.length (upd l i x) = List.length l.
Proof.
  revert i. induction l as [|y l IH]; intros [|i]; simpl; auto.
Qed.

Section Rows.
Import Vbh.
Context {store : Type}.
Implicit Types b : @vbh store.

Lemma ROW_WIDTH_val : ROW_WIDTH = 65536.
Proof. reflexivity. Qed.

Lemma ix_split (n : Z) :
  0 <= n ->
  n = Z.of_nat (row_ix n) * ROW_WIDTH + col_ix n /\
  0 <= col_ix n < ROW_WIDTH.
Proof.
  intros Hn. unfold row_ix, col_ix. rewrite ROW_WIDTH_val.
  change (65536 - 1) with (Z.ones 16). unfold ROW_SHIFT.
  rewrite Z.land_ones, Z.shiftr_div_pow2 by lia. change (2 ^ 16) with 65536.
  pose proof (Z.div_mod n 65536 ltac:(lia)).
  pose proof (Z.mod_pos_bound n 65536 ltac:(lia)).
  assert (0 <= n / 65536) by (apply Z.div_pos; lia).
  rewrite !Z2Nat.id by lia. lia.
Qed.

Lemma ix_inj (n n' : Z) :
  0 <= n -> 0 <= n' -> row_ix n = row_ix n' -> col_ix n = col_ix n' -> n = n'.
Proof.
  intros Hn Hn' Hr Hc.
  destruct (ix_split n Hn) as [E _]. destruct (ix_split n' Hn') as [E' _].
  rewrite E, E', Hr, Hc. reflexivity.
Qed.

Lemma row_ix_lt b (k n : Z) :
  length b = k * ROW_WIDTH -> 0 <= n < length b -> Z.of_nat (row_ix n) < k.
Proof.
  intros Hl Hn. destruct (ix_split n ltac:(lia)) as [E Hc].
  rewrite ROW_WIDTH_val in *. nia.
Qed.

(** Inside the allocated rows a load succeeds. *)
Lemma A_load_ok b (n : Z) :
  rows_ok b -> 0 <= n < length b -> A_load b n = Ok (slot b n).
Proof.
  intros (Hrows & k & Hl & Hk & Harr) Hn.
  pose proof (row_ix_lt b k n Hl Hn) as Hrow.
  destruct (ix_split n ltac:(lia)) as [_ Hc].
  destruct (Harr (row_ix n) ltac:(lia)) as [Hin _].
  destruct (Hin Hrow) as (r & Er).
  unfold slot, A_load, ROW_load. now rewrite Er.
Qed.

Lemma A_store_ok b (n : Z) (p : ptr) :
  rows_ok b -> 0 <= n < length b -> A_store b n p = Ok (poke b n p).
Proof.
  intros (Hrows & k & Hl & Hk & Harr) Hn.
  pose proof (row_ix_lt b k n Hl Hn) as Hrow.
  destruct (ix_split n ltac:(lia)) as [_ Hc].
  destruct (Harr (row_ix n) ltac:(lia)) as [Hin _].
  destruct (Hin Hrow) as (r & Er).
  unfold poke, A_store, ROW_load, ROW_store. now rewrite Er.
Qed.

Lemma poke_array b (n : Z) (p : ptr) :
  rows_ok b -> 0 <= n < length b ->
  exists r, nth_error (array b) (row_ix n) = Some (Some r) /\
            poke b n p =
              set_array b (upd (array b) (row_ix n)
                             (Some (fun c => if c =? col_ix n then p else r c))).
Proof.
  intros (Hrows & k & Hl & Hk & Harr) Hn.
  pose proof (row_ix_lt b k n Hl Hn) as Hrow.
  destruct (ix_split n ltac:(lia)) as [_ Hc].
  destruct (Harr (row_ix n) ltac:(lia)) as [Hin _].
  destruct (Hin Hrow) as (r & Er).
  exists r. split; [exact Er|].
  unfold poke, A_store, ROW_load, ROW_store. now rewrite Er.
Qed.

Lemma poke_fields b (n : Z) (p : ptr) :
  magic (poke b n p) = magic b /\ priv (poke b n p) = priv b /\
  cmp (poke b n p) = cmp b /\ update (poke b n p) = update b /\
  rows (poke b n p) = rows b /\ length (poke b n p) = length b /\
  next (poke b n p) = next b /\ page_size (poke b n p) = page_size b /\
  page_mask (poke b n p) = page_mask b /\ page_shift (poke b n p) = page_shift b.
Proof.
  unfold poke, A_store, ROW_store.
  destruct (ROW_load b n) as [[r|]|]; try (repeat split; reflexivity).
  destruct (nth_error (array b) (row_ix n)); repeat split; reflexivity.
Qed.

Lemma poke_rows_ok b (n : Z) (p : ptr) :
  rows_ok b -> 0 <= n < length b -> rows_ok (poke b n p).
Proof.
  intros Hok Hn.
  destruct (poke_array b n p Hok Hn) as (r & Er & ->).
  destruct Hok as (Hrows & k & Hl & Hk & Harr).
  split; [simpl; rewrite length_upd; exact Hrows|].
  exists k. simpl. rewrite length_upd. repeat split; try assumption; try lia.
  - intros Hi. destruct (Nat.eq_dec (row_ix n) i) as [<- | Hne].
    + rewrite nth_error_upd_eq by (apply nth_error_Some; congruence).
      eexists. reflexivity.
    + rewrite nth_error_upd_ne by exact Hne. now apply Harr.
  - intros Hi. destruct (Nat.eq_dec (row_ix n) i) as [<- | Hne].
    + pose proof (row_ix_lt b k n Hl Hn). lia.
    + rewrite nth_error_upd_ne by exact Hne. now apply Harr.
Qed.

Lemma slot_poke b (n v : Z) (p : ptr) :
  rows_ok b -> 0 <= n < length b -> 0 <= v ->
  slot (poke b n p) v = if v =? n then p else slot b v.
Proof.
  intros Hok Hn Hv.
  destruct (poke_array b n p Hok Hn) as (r & Er & ->).
  destruct (ix_split n ltac:(lia)) as [_ Hc].
  unfold slot, A_load, ROW_load, set_array. cbn [array].
  destruct (Z.eqb_spec v n) as [-> | Hne].
  - rewrite nth_error_upd_eq by (apply nth_error_Some; congruence).
    now rewrite Z.eqb_refl.
  - destruct (Nat.eq_dec (row_ix n) (row_ix v)) as [Hr | Hr].
    + rewrite <- Hr. rewrite nth_error_upd_eq by (apply nth_error_Some; congruence).
      rewrite Er. destruct (Z.eqb_spec (col_ix v) (col_ix n)) as [Hcol | Hcol];
        [|reflexivity].
      exfalso. apply Hne. apply ix_inj; auto; lia.
    + rewrite nth_error_upd_ne by exact Hr. reflexivity.
Qed.

End Rows.

(** * The order of the slots under a swap *)

Section OrderFacts.
Import Vbh.
Variable c : ptr -> ptr -> bool.
Variables P n : Z.
Hypothesis Hc : strict_weak c.
Hypothesis Hpar : forall w, 2 <= w -> 1 <= par P w < w.

Lemma sw_asym (x y : ptr) : c x y = true -> c y x = false.
Proof.
  destruct Hc as (Hirr & Htr & _). intros Hxy.
  destruct (c y x) eqn:Hyx; [|reflexivity].
  rewrite <- (Hirr x). symmetry. eapply Htr; eassumption.
Qed.

Lemma sw_lt_le (x y z : ptr) : c x y = true -> c z y = false -> c z x = false.
Proof.
  destruct Hc as (_ & Htr & _). intros Hxy Hzy.
  destruct (c z x) eqn:Hzx; [|reflexivity].
  rewrite <- Hzy. symmetry. eapply Htr; eassumption.
Qed.

Lemma sw_le_lt (x y z : ptr) : c x y = true -> c x z = false -> c y z = false.
Proof.
  destruct Hc as (_ & Htr & _). intros Hxy Hxz.
  destruct (c y z) eqn:Hyz; [|reflexivity].
  rewrite <- Hxz. symmetry. eapply Htr; eassumption.
Qed.

Lemma sw_ntrans (x y z : ptr) : c x y = false -> c y z = false -> c x z = false.
Proof. destruct Hc as (_ & _ & Hn). apply Hn. Qed.

Lemma ordered_down_inv (s : Z -> ptr) (u : Z) :
  1 <= u < n -> ordered c P n s -> down_inv c P n s u.
Proof.
  intros Hu Ho. split.
  - intros w Hw _. now apply Ho.
  - intros Hu1 w Hw Hp. apply sw_ntrans with (s u).
    + rewrite <- Hp. now apply Ho.
    + apply Ho. lia.
Qed.

Lemma ordered_up_inv (s : Z -> ptr) (u : Z) :
  1 <= u < n -> ordered c P n s -> up_inv c P n s u.
Proof.
  intros Hu Ho. destruct (ordered_down_inv s u Hu Ho) as [Hd Hg].
  split; [|exact Hg]. intros w Hw _ Hp. now apply Hd.
Qed.

(** Trickle-up stops at [u]. *)
Lemma up_stop (s : Z -> ptr) (u : Z) :
  up_inv c P n s u -> (u <= 1 \/ edge_ok c P s u) -> down_inv c P n s u.
Proof.
  intros [He Hg] Hstop. split; [|exact Hg].
  intros w Hw Hp. destruct (Z.eq_dec w u) as [-> | Hne].
  - destruct Hstop; [lia | assumption].
  - now apply He.
Qed.

Lemma down_done (s : Z -> ptr) (u : Z) :
  down_inv c P n s u -> kids_ok c P n s u -> ordered c P n s.
Proof.
  intros [He _] Hk w Hw. destruct (Z.eq_dec (par P w) u) as [Hp | Hp].
  - now apply Hk.
  - now apply He.
Qed.

(** One round of trickle-up: the element in slot [u] beats its parent
    and the two are swapped. *)
Lemma up_swap (s : Z -> ptr) (u : Z) :
  1 < u < n -> up_inv c P n s u -> c (s u) (s (par P u)) = true ->
  up_inv c P n (swap s u (par P u)) (par P u) /\
  kids_ok c P n (swap s u (par P u)) (par P u).
Proof.
  intros Hu [He Hg] Hlt.
  set (v := par P u) in *.
  assert (Hv : 1 <= v < u) by (apply Hpar; lia).
  assert (Hs_u : swap s u v u = s v) by (unfold swap; rewrite Z.eqb_refl; reflexivity).
  assert (Hs_v : swap s u v v = s u).
  { unfold swap. rewrite Z.eqb_refl.
    destruct (Z.eqb_spec v u); [lia | reflexivity]. }
  assert (Hs_o : forall w, w <> u -> w <> v -> swap s u v w = s w).
  { intros w H1 H2. unfold swap.
    destruct (Z.eqb_spec w u); [lia|]. destruct (Z.eqb_spec w v); [lia | reflexivity]. }
  assert (Hkids : kids_ok c P n (swap s u v) v).
  { intros w Hw Hp. unfold edge_ok. rewrite Hp, Hs_v.
    destruct (Z.eq_dec w u) as [-> | Hwu].
    - rewrite Hs_u. now apply sw_asym.
    - rewrite Hs_o by (pose proof (Hpar w ltac:(lia)); lia).
      apply sw_lt_le with (s v); [exact Hlt|].
      rewrite <- Hp. apply He; [lia | exact Hwu | lia]. }
  split; [|exact Hkids]. split.
  - intros w Hw Hwv Hpv. unfold edge_ok.
    pose proof (Hpar w ltac:(lia)) as Hpw.
    destruct (Z.eq_dec w u) as [-> | Hwu]; [fold v in Hpv; lia|].
    rewrite (Hs_o w) by assumption.
    destruct (Z.eq_dec (par P w) u) as [Hpu | Hpu].
    + rewrite Hpu, Hs_u. apply Hg; [lia | lia | exact Hpu].
    + rewrite Hs_o by assumption. now apply He.
  - intros Hv1 w Hw Hp.
    pose proof (Hpar v ltac:(lia)) as Hg'.
    rewrite (Hs_o (par P v)) by lia.
    assert (Hvg : c (s v) (s (par P v)) = false) by (apply He; lia).
    destruct (Z.eq_dec w u) as [-> | Hwu].
    + rewrite Hs_u. exact Hvg.
    + rewrite Hs_o by (pose proof (Hpar w ltac:(lia)); lia).
      apply sw_ntrans with (s v); [|exact Hvg].
      rewrite <- Hp. apply He; [lia | exact Hwu | lia].
Qed.

(** One round of trickle-down: [v] is the best child of [u], the element
    in slot [u] does not beat it, and the two are swapped. *)
Lemma down_swap (s : Z -> ptr) (u v : Z) :
  1 <= u < n -> 1 < v < n -> par P v = u ->
  down_inv c P n s u ->
  (forall w, 1 < w < n -> par P w = u -> c (s w) (s v) = false) ->
  c (s u) (s v) = false ->
  down_inv c P n (swap s u v) v.
Proof.
  intros Hu Hv Hpv [He Hg] Hbest Hge.
  assert (Huv : u < v) by (pose proof (Hpar v ltac:(lia)); lia).
  assert (Hs_u : swap s u v u = s v) by (unfold swap; rewrite Z.eqb_refl; reflexivity).
  assert (Hs_v : swap s u v v = s u).
  { unfold swap. rewrite Z.eqb_refl.
    destruct (Z.eqb_spec v u); [lia | reflexivity]. }
  assert (Hs_o : forall w, w <> u -> w <> v -> swap s u v w = s w).
  { intros w H1 H2. unfold swap.
    destruct (Z.eqb_spec w u); [lia|]. destruct (Z.eqb_spec w v); [lia | reflexivity]. }
  split.
  - intros w Hw Hp. unfold edge_ok.
    pose proof (Hpar w ltac:(lia)) as Hpw.
    destruct (Z.eq_dec w v) as [-> | Hwv].
    + rewrite Hpv, Hs_v, Hs_u. exact Hge.
    + destruct (Z.eq_dec w u) as [-> | Hwu].
      * rewrite Hs_u. rewrite Hs_o by lia.
        apply Hg; [lia | lia | exact Hpv].
      * rewrite (Hs_o w) by assumption.
        destruct (Z.eq_dec (par P w) u) as [Hpu | Hpu].
        -- rewrite Hpu, Hs_u. now apply Hbest.
        -- rewrite Hs_o by assumption. now apply He.
  - intros _ w Hw Hp. rewrite Hpv, Hs_u.
    pose proof (Hpar w ltac:(lia)) as Hpw.
    rewrite Hs_o by lia. rewrite <- Hp. apply He; [lia | lia].
Qed.

(** Trickle-down stops at [u]: the element beats its best child [v]. *)
Lemma down_stop (s : Z -> ptr) (u v : Z) :
  (forall w, 1 < w < n -> par P w = u -> c (s w) (s v) = false \/ w = v) ->
  c (s u) (s v) = true ->
  kids_ok c P n s u.
Proof.
  intros Hbest Hlt w Hw Hp. unfold edge_ok. rewrite Hp.
  destruct (Hbest w Hw Hp) as [Hwv | ->].
  - apply sw_lt_le with (s v); assumption.
  - now apply sw_asym.
Qed.

End OrderFacts.

(** * Running the heap operations *)

Lemma bind_ok {S A B} (c : M S A) (k : A -> M S B) (s s' : S) (a : A) :
  c s = Ok (a, s') -> bind c k s = k a s'.
Proof. intros E. unfold bind. now rewrite E. Qed.

Lemma bind_err {S A B} (c : M S A) (k : A -> M S B) (s : S) (f : fault) :
  c s = Err f -> bind c k s = Err f.
Proof. intros E. unfold bind. now rewrite E. Qed.

Lemma assert_ok {S} (x : bool) (s : S) : x = true -> assert x s = Ok (tt, s).
Proof. intros ->. reflexivity. Qed.

Section Exec.
Import Vbh.
Context {store : Type}.
Implicit Types b : @vbh store.
Implicit Types m : store.

Lemma frame_refl b : frame b b.
Proof. repeat split. Qed.

Lemma frame_trans b1 b2 b3 : frame b1 b2 -> frame b2 b3 -> frame b1 b3.
Proof.
  unfold frame. intros H1 H2.
  decompose [and] H1. decompose [and] H2. repeat split; congruence.
Qed.

Lemma frame_poke b n p : frame b (poke b n p).
Proof. pose proof (poke_fields b n p) as H. unfold frame. tauto. Qed.

Lemma cmp_same_refl b m : cmp_same b m m.
Proof. intros x y. reflexivity. Qed.

Lemma cmp_same_trans b m1 m2 m3 :
  cmp_same b m1 m2 -> cmp_same b m2 m3 -> cmp_same b m1 m3.
Proof. intros H1 H2 x y. now rewrite H2, H1. Qed.

Lemma cmp_same_notify b m u : callbacks_ok b -> cmp_same b m (notify b m u).
Proof.
  intros [_ Hu] x y. unfold notify.
  destruct (update b) as [f|] eqn:E; [|reflexivity]. now apply Hu.
Qed.

Lemma check_ok b m :
  magic b = VBH_MAGIC -> CHECK_OBJ_NOTNULL (b, m) = Ok (tt, (b, m)).
Proof.
  intros Hm. unfold CHECK_OBJ_NOTNULL, bind, get_bh. cbn [fst].
  rewrite Hm, Z.eqb_refl. reflexivity.
Qed.

Lemma readA_ok b m n :
  rows_ok b -> 0 <= n < length b -> readA n (b, m) = Ok (slot b n, (b, m)).
Proof.
  intros Hr Hn. unfold readA, bind, get_bh, lift. cbn [fst].
  now rewrite A_load_ok.
Qed.

Lemma writeA_ok b m n p :
  rows_ok b -> 0 <= n < length b ->
  writeA n p (b, m) = Ok (tt, (poke b n p, m)).
Proof.
  intros Hr Hn. unfold writeA, bind, get_bh, lift, put_bh. cbn [fst snd].
  now rewrite A_store_ok.
Qed.

Lemma assert_A_ok b m n :
  rows_ok b -> 0 <= n < length b -> slot b n <> NULL ->
  assert_A n (b, m) = Ok (tt, (b, m)).
Proof.
  intros Hr Hn Hp. unfold assert_A.
  rewrite (bind_ok _ _ _ _ _ (readA_ok b m n Hr Hn)).
  apply assert_ok. apply negb_true_iff. now apply Z.eqb_neq.
Qed.

Lemma cmp_A_ok b m u v :
  rows_ok b -> 0 <= u < length b -> 0 <= v < length b ->
  cmp_A u v (b, m) = Ok (cmp b m (priv b) (slot b u) (slot b v), (b, m)).
Proof.
  intros Hr Hu Hv. unfold cmp_A.
  rewrite (bind_ok _ _ _ _ _ (readA_ok b m u Hr Hu)).
  rewrite (bind_ok _ _ _ _ _ (readA_ok b m v Hr Hv)).
  reflexivity.
Qed.

Lemma vbh_update_ok b m u :
  magic b = VBH_MAGIC -> rows_ok b -> next b <= length b ->
  0 <= u < next b -> slot b u <> NULL ->
  vbh_update u (b, m) = Ok (tt, (b, notify b m u)).
Proof.
  intros Hm Hr Hnl Hu Hp. unfold vbh_update.
  rewrite (bind_ok _ _ _ _ _ (check_ok b m Hm)).
  unfold get_bh at 1. unfold bind at 1. cbn [fst].
  rewrite (bind_ok _ _ (b, m) (b, m) tt) by (apply assert_ok, Z.ltb_lt; lia).
  rewrite (bind_ok _ _ _ _ _ (assert_A_ok b m u Hr ltac:(lia) Hp)).
  unfold notify. destruct (update b) as [f|] eqn:E; [|reflexivity].
  rewrite (bind_ok _ _ _ _ _ (readA_ok b m u Hr ltac:(lia))).
  unfold call_update. cbn [fst snd]. rewrite E. reflexivity.
Qed.

(** binhead_swap exchanges two live slots and tells both elements. *)
Lemma binhead_swap_ok b m u v :
  magic b = VBH_MAGIC -> rows_ok b -> next b <= length b ->
  callbacks_ok b ->
  0 <= u < next b -> 0 <= v < next b -> u <> v ->
  slot b u <> NULL -> slot b v <> NULL ->
  exists b' m',
    binhead_swap u v (b, m) = Ok (tt, (b', m')) /\
    frame b b' /\ rows_ok b' /\ cmp_same b m m' /\
    (forall w, 0 <= w -> slot b' w = swap (slot b) u v w).
Proof.
  intros Hm Hr Hnl Hcb Hu Hv Huv Hpu Hpv.
  set (b1 := poke b u (slot b v)).
  set (b2 := poke b1 v (slot b u)).
  assert (F1 : frame b b1) by apply frame_poke.
  assert (R1 : rows_ok b1) by (apply poke_rows_ok; [assumption | lia]).
  assert (L1 : length b1 = length b) by (unfold frame in F1; tauto).
  assert (F2 : frame b b2) by (eapply frame_trans; [exact F1 | apply frame_poke]).
  assert (R2 : rows_ok b2) by (apply poke_rows_ok; [assumption | lia]).
  assert (Hs : forall w, 0 <= w -> slot b2 w = swap (slot b) u v w).
  { intros w Hw. unfold b2. rewrite slot_poke by (try assumption; lia).
    unfold b1. rewrite slot_poke by (try assumption; lia).
    unfold swap. destruct (Z.eqb_spec w v) as [-> | Hwv].
    - destruct (Z.eqb_spec v u); [lia | reflexivity].
    - reflexivity. }
  destruct F2 as (Fm & Fp & Fc & Fu & Frw & Fl & Fn & Fps & Fpm & Fsh).
  assert (Cb2 : callbacks_ok b2).
  { destruct Hcb as [H1 H2]. split.
    - intros m0. rewrite Fc, Fp. apply H1.
    - intros f m0 p i x y E. rewrite Fc, Fp. apply H2. now rewrite <- Fu. }
  exists b2, (notify b2 (notify b2 m u) v).
  split; [|split; [|split; [|split]]].
  - unfold binhead_swap.
    rewrite (bind_ok _ _ _ _ _ (check_ok b m Hm)).
    unfold get_bh at 1. unfold bind at 1. cbn [fst].
    rewrite (bind_ok _ _ (b, m) (b, m) tt) by (apply assert_ok, Z.ltb_lt; lia).
    rewrite (bind_ok _ _ _ _ _ (assert_A_ok b m u Hr ltac:(lia) Hpu)).
    rewrite (bind_ok _ _ (b, m) (b, m) tt) by (apply assert_ok, Z.ltb_lt; lia).
    rewrite (bind_ok _ _ _ _ _ (assert_A_ok b m v Hr ltac:(lia) Hpv)).
    rewrite (bind_ok _ _ _ _ _ (readA_ok b m u Hr ltac:(lia))).
    rewrite (bind_ok _ _ _ _ _ (readA_ok b m v Hr ltac:(lia))).
    rewrite (bind_ok _ _ _ _ _ (writeA_ok b m u (slot b v) Hr ltac:(lia))).
    fold b1.
    rewrite (bind_ok _ _ _ _ _ (writeA_ok b1 m v (slot b u) R1 ltac:(lia))).
    fold b2.
    rewrite (bind_ok _ _ (b2, m) (b2, notify b2 m u) tt).
    2:{ apply vbh_update_ok; try assumption; try lia; try congruence.
        rewrite Hs by lia. unfold swap. rewrite Z.eqb_refl. exact Hpv. }
    apply vbh_update_ok; try assumption; try lia; try congruence.
    rewrite Hs by lia. unfold swap. rewrite Z.eqb_refl.
    destruct (Z.eqb_spec v u); [lia | exact Hpu].
  - repeat split; assumption.
  - exact R2.
  - intros x y. rewrite <- Fc, <- Fp.
    rewrite (cmp_same_notify b2 _ v Cb2), (cmp_same_notify b2 _ u Cb2). reflexivity.
  - exact Hs.
Qed.

End Exec.

(** ** The invariants only look at the live slots *)

Section OrderExt.
Import Vbh.
Variable c : ptr -> ptr -> bool.
Variables P n : Z.
Hypothesis Hpar : forall w, 2 <= w -> 1 <= par P w < w.
Variables s s' : Z -> ptr.
Hypothesis Hext : forall w, 1 <= w < n -> s w = s' w.

Lemma edge_ok_ext (w : Z) : 1 < w < n -> edge_ok c P s w -> edge_ok c P s' w.
Proof.
  intros Hw He. unfold edge_ok in *.
  pose proof (Hpar w ltac:(lia)).
  rewrite <- !Hext by lia. exact He.
Qed.

Lemma ordered_ext : ordered c P n s -> ordered c P n s'.
Proof. intros Ho w Hw. apply edge_ok_ext; auto. Qed.

Lemma kids_ok_ext (u : Z) : kids_ok c P n s u -> kids_ok c P n s' u.
Proof. intros Hk w Hw Hp. apply edge_ok_ext; auto. Qed.

Lemma grands_ok_ext (u : Z) : u < n -> grands_ok c P n s u -> grands_ok c P n s' u.
Proof.
  intros Hu Hg Hu1 w Hw Hp.
  pose proof (Hpar u ltac:(lia)).
  rewrite <- !Hext by lia. now apply Hg.
Qed.

Lemma up_inv_ext (u : Z) : u < n -> up_inv c P n s u -> up_inv c P n s' u.
Proof.
  intros Hu [He Hg]. split.
  - intros w Hw H1 H2. apply edge_ok_ext; auto.
  - now apply grands_ok_ext.
Qed.

Lemma down_inv_ext (u : Z) : u < n -> down_inv c P n s u -> down_inv c P n s' u.
Proof.
  intros Hu [He Hg]. split.
  - intros w Hw H1. apply edge_ok_ext; auto.
  - now apply grands_ok_ext.
Qed.

End OrderExt.

Section Shape.
Import Vbh.
Context {store : Type}.
Implicit Types b : @vbh store.
Implicit Types m : store.

Lemma shape_frame b b' :
  shape_ok b -> frame b b' -> rows_ok b' ->
  (forall u, 1 <= u < next b -> slot b' u <> NULL) ->
  shape_ok b'.
Proof.
  intros (Hm & Hpg & Hr & Hrw & Hn & Hl & Hlive) F R' Hlive'.
  destruct F as (Fm & Fp & Fc & Fu & Frw & Fl & Fn & Fps & Fpm & Fsh).
  unfold shape_ok, pages_ok in *.
  rewrite Fm, Frw, Fl, Fn, Fps, Fpm, Fsh.
  split; [exact Hm|]. split; [exact Hpg|]. split; [exact R'|].
  split; [exact Hrw|]. split; [exact Hn|]. split; [exact Hl|]. exact Hlive'.
Qed.

Lemma callbacks_frame b b' : callbacks_ok b -> frame b b' -> callbacks_ok b'.
Proof.
  intros [H1 H2] F.
  destruct F as (Fm & Fp & Fc & Fu & _).
  split.
  - intros m0. rewrite Fc, Fp. apply H1.
  - intros f m0 p i x y E. rewrite Fc, Fp. apply H2. now rewrite <- Fu.
Qed.

Lemma shape_par b :
  shape_ok b -> forall w, 2 <= w -> 1 <= par (page_size b) w < w.
Proof.
  intros (_ & Hpg & _) w Hw.
  destruct (page_facts b Hpg) as (_ & E & HH & _).
  eapply par_lt; eassumption.
Qed.

Lemma shape_parent b u :
  shape_ok b -> 0 <= u < next b -> parent b u = Ok (par (page_size b) u).
Proof.
  intros (_ & Hpg & _ & _ & Hn & Hl & _) Hu.
  apply parent_par; [exact Hpg | unfold UINT_MAX; lia].
Qed.

Lemma shape_child b u :
  shape_ok b -> 0 <= u < next b -> child b u = kids (page_size b) u.
Proof.
  intros (_ & Hpg & _ & _ & Hn & Hl & _) Hu.
  apply child_kids; [exact Hpg | lia].
Qed.

End Shape.

(** ** vbh_trickleup and vbh_trickledown restore the order *)

Lemma get_bh_ok {store : Type} (b : @Vbh.vbh store) (m : store) :
  Vbh.get_bh (b, m) = Ok (b, (b, m)).
Proof. reflexivity. Qed.

Lemma lift_ok {S A} (r : res A) (a : A) (s : S) : r = Ok a -> lift r s = Ok (a, s).
Proof. intros ->. reflexivity. Qed.

Ltac run_with H := rewrite (bind_ok _ _ _ _ _ H).
Ltac run_get :=
  match goal with
  | |- context [bind Vbh.get_bh ?k (?b, ?m)] =>
      rewrite (bind_ok Vbh.get_bh k (b, m) (b, m) b (get_bh_ok b m))
  end.
Ltac run_assert :=
  match goal with
  | |- context [bind (assert ?x) ?k ?s] =>
      rewrite (bind_ok (assert x) k s s tt);
      [ | apply assert_ok;
          first [ apply Z.ltb_lt | apply Z.leb_le | apply Z.eqb_eq ]; lia ]
  end.

Section Trickle.
Import Vbh.
Context {store : Type}.
Implicit Types b : @vbh store.
Implicit Types m : store.
Variable c : ptr -> ptr -> bool.
Variables P n : Z.
Hypothesis Hc : strict_weak c.

Lemma trickleup_loop_ok (fuel : nat) : forall u b m,
  shape_ok b -> callbacks_ok b ->
  page_size b = P -> next b = n ->
  (forall x y, cmp b m (priv b) x y = c x y) ->
  1 <= u < n -> (Z.to_nat u < fuel)%nat ->
  up_inv c P n (slot b) u ->
  exists u' b' m',
    trickleup_loop fuel u (b, m) = Ok (u', (b', m')) /\
    frame b b' /\ shape_ok b' /\
    (forall x y, cmp b' m' (priv b') x y = c x y) /\
    1 <= u' <= u /\
    down_inv c P n (slot b') u' /\
    (kids_ok c P n (slot b) u -> ordered c P n (slot b')).
Proof.
  induction fuel as [|fuel IH]; intros u b m Hsh Hcb HP Hn Hcmp Hu Hfuel Hup; [lia|].
  pose proof (shape_par b Hsh) as Hpar. rewrite HP in Hpar.
  pose proof Hsh as (Hm & Hpg & Hr & Hrw & Hnl & Hl & Hlive).
  cbn [trickleup_loop]. unfold ROOT_IDX.
  destruct (Z.ltb_spec 1 u) as [Hu1 | Hu1].
  2:{ exists u, b, m. split; [reflexivity|]. split; [apply frame_refl|].
      split; [exact Hsh|]. split; [exact Hcmp|]. split; [lia|].
      split; [apply up_stop; [exact Hup | left; lia]|].
      intros Hk. eapply down_done; [|exact Hk].
      apply up_stop; [exact Hup | left; lia]. }
  set (v := par P u).
  assert (Hv : 1 <= v < u) by (apply Hpar; lia).
  run_get. run_assert.
  run_with (assert_A_ok b m u Hr ltac:(lia) (Hlive u ltac:(lia))).
  rewrite (bind_ok _ _ (b, m) (b, m) v).
  2:{ apply lift_ok. rewrite shape_parent by (assumption || lia). now rewrite HP. }
  run_assert. run_assert.
  run_with (assert_A_ok b m v Hr ltac:(lia) (Hlive v ltac:(lia))).
  run_with (cmp_A_ok b m u v Hr ltac:(lia) ltac:(lia)).
  rewrite Hcmp.
  destruct (c (slot b u) (slot b v)) eqn:Ec; cbn [negb].
  2:{ exists u, b, m. split; [reflexivity|]. split; [apply frame_refl|].
      split; [exact Hsh|]. split; [exact Hcmp|]. split; [lia|].
      assert (Hd : down_inv c P n (slot b) u)
        by (apply up_stop; [exact Hup | right; exact Ec]).
      split; [exact Hd|]. intros Hk. eapply down_done; eassumption. }
  destruct (binhead_swap_ok b m u v Hm Hr ltac:(lia) Hcb ltac:(lia) ltac:(lia)
              ltac:(lia) (Hlive u ltac:(lia)) (Hlive v ltac:(lia)))
    as (b1 & m1 & Esw & F1 & R1 & C1 & S1).
  run_with Esw.
  assert (Hext : forall w, 1 <= w < n -> swap (slot b) u v w = slot b1 w)
    by (intros w Hw; symmetry; apply S1; lia).
  assert (Hsh1 : shape_ok b1).
  { apply (shape_frame b b1 Hsh F1 R1). intros w Hw. rewrite S1 by lia.
    unfold swap. destruct (w =? u); [apply Hlive; lia|].
    destruct (w =? v); apply Hlive; lia. }
  pose proof F1 as (Fm & Fp & Fc & Fu & Frw & Fl & Fn & Fps & Fpm & Fsh).
  destruct (up_swap c P n Hc Hpar (slot b) u ltac:(lia) Hup Ec) as [Hup1 Hk1].
  fold v in Hup1, Hk1.
  destruct (IH v b1 m1 Hsh1 (callbacks_frame b b1 Hcb F1)
              ltac:(congruence) ltac:(congruence)) as
    (u' & b' & m' & El & F' & Hsh' & Hcmp' & Hu' & Hd' & Ho').
  - intros x y. rewrite Fc, Fp, C1. apply Hcmp.
  - lia.
  - lia.
  - eapply up_inv_ext; [exact Hpar | exact Hext | lia | exact Hup1].
  - exists u', b', m'. split; [exact El|].
    split; [eapply frame_trans; eassumption|].
    split; [exact Hsh'|]. split; [exact Hcmp'|]. split; [lia|].
    assert (Ho : ordered c P n (slot b')).
    { apply Ho'. eapply kids_ok_ext; [exact Hpar | exact Hext | exact Hk1]. }
    split; [|intros _; exact Ho].
    apply ordered_down_inv; [exact Hc | lia | exact Ho].
Qed.

Lemma trickledown_loop_ok (fuel : nat) : forall u b m,
  shape_ok b -> callbacks_ok b ->
  page_size b = P -> next b = n ->
  (forall x y, cmp b m (priv b) x y = c x y) ->
  1 <= u < n -> (Z.to_nat (n - u) <= fuel)%nat ->
  down_inv c P n (slot b) u ->
  exists u' b' m',
    trickledown_loop fuel u (b, m) = Ok (u', (b', m')) /\
    frame b b' /\ shape_ok b' /\
    (forall x y, cmp b' m' (priv b') x y = c x y) /\
    1 <= u' < n /\
    ordered c P n (slot b').
Proof.
  induction fuel as [|fuel IH]; intros u b m Hsh Hcb HP Hn Hcmp Hu Hfuel Hdn; [lia|].
  pose proof (shape_par b Hsh) as Hpar. rewrite HP in Hpar.
  pose proof Hsh as (Hm & Hpg & Hr & Hrw & Hnl & Hl & Hlive).
  destruct (page_facts b Hpg) as (_ & E2 & HH & _). rewrite HP in E2.
  pose proof Hc as (Hirr & _ & _).
  cbn [trickledown_loop].
  run_get. run_assert.
  run_with (assert_A_ok b m u Hr ltac:(lia) (Hlive u ltac:(lia))).
  rewrite shape_child by (assumption || lia). rewrite HP.
  destruct (kids P u) as [v1 v2] eqn:Ek.
  destruct (kids_gt P _ E2 HH u v1 v2 ltac:(unfold UINT_MAX; lia) Ek) as [Hv1 Hv12].
  assert (Hkids : forall w, 1 < w < n -> par P w = u -> w = v1 \/ w = v2).
  { intros w Hw Hp. apply (kids_par P _ E2 HH w v1 v2); [lia|]. now rewrite Hp. }
  run_assert. run_assert. run_assert.
  rewrite Hn.
  destruct (Z.leb_spec n v1) as [Hge | Hlt].
  { exists u, b, m. split; [reflexivity|]. split; [apply frame_refl|].
    split; [exact Hsh|]. split; [exact Hcmp|]. split; [lia|].
    eapply down_done; [exact Hdn|].
    intros w Hw Hp. destruct (Hkids w Hw Hp); lia. }
  destruct (par_kids P _ E2 HH u v1 v2 ltac:(lia) Ek ltac:(unfold UINT_MAX; lia))
    as [Hp1 Hp2].
  run_with (assert_A_ok b m v1 Hr ltac:(lia) (Hlive v1 ltac:(lia))).
  (* the better of the two children *)
  assert (Hbest : exists vb,
    (if negb (v1 =? v2) && (v2 <? n)
     then assert_A v2 ;; c0 <- cmp_A v2 v1 ;; ret (if c0 then v2 else v1)
     else ret v1) (b, m) = Ok (vb, (b, m)) /\
    u < vb < n /\ par P vb = u /\
    forall w, 1 < w < n -> par P w = u -> c (slot b w) (slot b vb) = false).
  { destruct (Z.eqb_spec v1 v2) as [Ev | Ev]; cbn [negb andb].
    { exists v1. split; [reflexivity|]. split; [lia|]. split; [exact Hp1|].
      intros w Hw Hp. destruct (Hkids w Hw Hp) as [-> | ->];
        [apply Hirr | rewrite <- Ev; apply Hirr]. }
    destruct (Z.ltb_spec v2 n) as [Hv2 | Hv2].
    2:{ exists v1. split; [reflexivity|]. split; [lia|]. split; [exact Hp1|].
        intros w Hw Hp. destruct (Hkids w Hw Hp) as [-> | ->]; [apply Hirr | lia]. }
    run_with (assert_A_ok b m v2 Hr ltac:(lia) (Hlive v2 ltac:(lia))).
    run_with (cmp_A_ok b m v2 v1 Hr ltac:(lia) ltac:(lia)).
    rewrite Hcmp.
    destruct (c (slot b v2) (slot b v1)) eqn:E21.
    - exists v2. split; [reflexivity|]. split; [lia|]. split; [exact Hp2|].
      intros w Hw Hp. destruct (Hkids w Hw Hp) as [-> | ->];
        [now apply (sw_asym c Hc) | apply Hirr].
    - exists v1. split; [reflexivity|]. split; [lia|]. split; [exact Hp1|].
      intros w Hw Hp. destruct (Hkids w Hw Hp) as [-> | ->];
        [apply Hirr | exact E21]. }
  destruct Hbest as (vb & Eb & Hvb & Hpb & Hbest).
  run_with Eb.
  run_assert.
  run_with (assert_A_ok b m vb Hr ltac:(lia) (Hlive vb ltac:(lia))).
  run_with (cmp_A_ok b m u vb Hr ltac:(lia) ltac:(lia)).
  rewrite Hcmp.
  destruct (c (slot b u) (slot b vb)) eqn:Ec.
  { exists u, b, m. split; [reflexivity|]. split; [apply frame_refl|].
    split; [exact Hsh|]. split; [exact Hcmp|]. split; [lia|].
    eapply down_done; [exact Hdn|].
    apply (down_stop c P n Hc (slot b) u vb); [|exact Ec].
    intros w Hw Hp. left. now apply Hbest. }
  destruct (binhead_swap_ok b m u vb Hm Hr ltac:(lia) Hcb ltac:(lia) ltac:(lia)
              ltac:(lia) (Hlive u ltac:(lia)) (Hlive vb ltac:(lia)))
    as (b1 & m1 & Esw & F1 & R1 & C1 & S1).
  run_with Esw.
  assert (Hext : forall w, 1 <= w < n -> swap (slot b) u vb w = slot b1 w)
    by (intros w Hw; symmetry; apply S1; lia).
  assert (Hsh1 : shape_ok b1).
  { apply (shape_frame b b1 Hsh F1 R1). intros w Hw. rewrite S1 by lia.
    unfold swap. destruct (w =? u); [apply Hlive; lia|].
    destruct (w =? vb); apply Hlive; lia. }
  pose proof F1 as (Fm & Fp & Fc & Fu & Frw & Fl & Fn & Fps & Fpm & Fsh).
  pose proof (down_swap c P n Hpar (slot b) u vb ltac:(lia) ltac:(lia)
                Hpb Hdn Hbest Ec) as Hdn1.
  destruct (IH vb b1 m1 Hsh1 (callbacks_frame b b1 Hcb F1)
              ltac:(congruence) ltac:(congruence)) as
    (u' & b' & m' & El & F' & Hsh' & Hcmp' & Hu' & Ho').
  - intros x y. rewrite Fc, Fp, C1. apply Hcmp.
  - lia.
  - lia.
  - eapply down_inv_ext; [exact Hpar | exact Hext | lia | exact Hdn1].
  - exists u', b', m'. split; [exact El|].
    split; [eapply frame_trans; eassumption|].
    split; [exact Hsh'|]. split; [exact Hcmp'|]. split; [lia | exact Ho'].
Qed.

End Trickle.

Section TrickleCalls.
Import Vbh.
Context {store : Type}.
Implicit Types b : @vbh store.
Implicit Types m : store.
Variable c : ptr -> ptr -> bool.
Variables P n : Z.
Hypothesis Hc : strict_weak c.

Lemma vbh_trickleup_ok u b m :
  shape_ok b -> callbacks_ok b ->
  page_size b = P -> next b = n ->
  (forall x y, cmp b m (priv b) x y = c x y) ->
  1 <= u < n ->
  up_inv c P n (slot b) u ->
  exists u' b' m',
    vbh_trickleup u (b, m) = Ok (u', (b', m')) /\
    frame b b' /\ shape_ok b' /\
    (forall x y, cmp b' m' (priv b') x y = c x y) /\
    1 <= u' <= u /\
    down_inv c P n (slot b') u' /\
    (kids_ok c P n (slot b) u -> ordered c P n (slot b')).
Proof.
  intros Hsh Hcb HP Hn Hcmp Hu Hup.
  pose proof Hsh as (Hm & Hpg & Hr & Hrw & Hnl & Hl & Hlive).
  unfold vbh_trickleup.
  run_with (check_ok b m Hm). run_get. run_assert.
  run_with (assert_A_ok b m u Hr ltac:(lia) (Hlive u ltac:(lia))).
  apply trickleup_loop_ok; auto; lia.
Qed.

Lemma vbh_trickledown_ok u b m :
  shape_ok b -> callbacks_ok b ->
  page_size b = P -> next b = n ->
  (forall x y, cmp b m (priv b) x y = c x y) ->
  1 <= u < n ->
  down_inv c P n (slot b) u ->
  exists u' b' m',
    vbh_trickledown u (b, m) = Ok (u', (b', m')) /\
    frame b b' /\ shape_ok b' /\
    (forall x y, cmp b' m' (priv b') x y = c x y) /\
    1 <= u' < n /\
    ordered c P n (slot b').
Proof.
  intros Hsh Hcb HP Hn Hcmp Hu Hdn.
  pose proof Hsh as (Hm & Hpg & Hr & Hrw & Hnl & Hl & Hlive).
  unfold vbh_trickledown.
  run_with (check_ok b m Hm). run_get. run_assert.
  run_with (assert_A_ok b m u Hr ltac:(lia) (Hlive u ltac:(lia))).
  apply trickledown_loop_ok; auto; lia.
Qed.

End TrickleCalls.

(** ** vbh_addrow appends one row *)

Section AddRow.
Import Vbh.
Context {store : Type}.
Implicit Types b : @vbh store.
Implicit Types m : store.
Variable junk : Z -> ptr.

Lemma shiftr_rows (k : Z) : Z.shiftr (k * ROW_WIDTH) ROW_SHIFT = k.
Proof.
  unfold ROW_SHIFT. rewrite Z.shiftr_div_pow2, ROW_WIDTH_val by lia.
  change (2 ^ 16) with 65536. apply Z.div_mul. lia.
Qed.

Lemma row_ix_rows (k : Z) : row_ix (k * ROW_WIDTH) = Z.to_nat k.
Proof. unfold row_ix. now rewrite shiftr_rows. Qed.

Lemma slot_same_row b b' (u : Z) :
  nth_error (array b') (row_ix u) = nth_error (array b) (row_ix u) ->
  slot b' u = slot b u.
Proof. intros E. unfold slot, A_load, ROW_load. now rewrite E. Qed.

Lemma vbh_addrow_ok b m :
  rows_ok b -> 0 < rows b <= 2 ^ 17 -> length b + ROW_WIDTH < 2 ^ 32 ->
  exists b',
    vbh_addrow junk (b, m) = Ok (tt, (b', m)) /\
    (magic b' = magic b /\ priv b' = priv b /\ cmp b' = cmp b /\
     update b' = update b /\ next b' = next b /\ page_size b' = page_size b /\
     page_mask b' = page_mask b /\ page_shift b' = page_shift b) /\
    length b' = length b + ROW_WIDTH /\
    rows_ok b' /\ 0 < rows b' <= 2 ^ 17 /\
    forall u, 0 <= u < length b -> slot b' u = slot b u.
Proof.
  intros (Hrows & k & Hl & Hk & Harr) Hrw Hlen.
  pose proof ROW_WIDTH_val as HW.
  assert (Hk16 : k < 65535) by lia.
  (* room for another row pointer *)
  assert (Hroom : exists b1,
    (if rows b <=? Z.shiftr (length b) ROW_SHIFT
     then put_bh (set_rows
            (set_array b (firstn (Z.to_nat (u32 (rows b * 2))) (array b)
                          ++ repeat None (Z.to_nat (u32 (rows b * 2) - rows b))))
            (if rows b <? u32 (rows b * 2) then u32 (rows b * 2) else rows b))
     else ret tt) (b, m) = Ok (tt, (b1, m)) /\
    (magic b1 = magic b /\ priv b1 = priv b /\ cmp b1 = cmp b /\
     update b1 = update b /\ next b1 = next b /\ page_size b1 = page_size b /\
     page_mask b1 = page_mask b /\ page_shift b1 = page_shift b) /\
    length b1 = length b /\
    rows b1 = Z.of_nat (List.length (array b1)) /\ k < rows b1 <= 2 ^ 17 /\
    (forall i, (i < List.length (array b))%nat ->
       nth_error (array b1) i = nth_error (array b) i) /\
    (forall i, (List.length (array b) <= i < List.length (array b1))%nat ->
       nth_error (array b1) i = Some None)).
  { replace (Z.shiftr (length b) ROW_SHIFT) with k
      by (now rewrite Hl, shiftr_rows).
    destruct (Z.leb_spec (rows b) k) as [Hfull | Hfree].
    - assert (Ek : rows b = k) by lia.
      rewrite (u32_small (rows b * 2)) by lia.
      replace (rows b <? rows b * 2) with true by (symmetry; apply Z.ltb_lt; lia).
      rewrite firstn_all2 by lia.
      replace (rows b * 2 - rows b) with (rows b) by lia.
      eexists. split; [reflexivity|]. cbn [magic priv cmp update next page_size
        page_mask page_shift length rows array set_rows set_array].
      split; [repeat split|]. split; [reflexivity|].
      rewrite length_app, repeat_length.
      split; [lia|]. split; [lia|]. split.
      + intros i Hi. now rewrite nth_error_app1.
      + intros i Hi. rewrite nth_error_app2 by lia.
        apply nth_error_repeat. lia.
    - exists b. split; [reflexivity|]. split; [repeat split|].
      split; [reflexivity|]. split; [exact Hrows|]. split; [lia|].
      split; [reflexivity | intros i Hi; lia]. }
  destruct Hroom as (b1 & E1 & F1 & L1 & Hrows1 & Hk1 & Hold & Hnew).
  unfold vbh_addrow. run_get. run_with E1. run_get.
  assert (Erow : nth_error (array b1) (Z.to_nat k) = Some None).
  { destruct (Nat.lt_ge_cases (Z.to_nat k) (List.length (array b))) as [Hin | Hout].
    - rewrite Hold by exact Hin. apply Harr; lia.
    - apply Hnew. lia. }
  rewrite (bind_ok _ _ (b1, m) (b1, m) None).
  2:{ apply lift_ok. unfold ROW_load. now rewrite L1, Hl, row_ix_rows, Erow. }
  rewrite (bind_ok (assert true) _ (b1, m) (b1, m) tt) by reflexivity.
  set (b2 := set_array b1 (upd (array b1) (Z.to_nat k) (Some (fresh_row junk (length b1))))).
  rewrite (bind_ok _ _ (b1, m) (b1, m) b2).
  2:{ apply lift_ok. unfold ROW_store. now rewrite L1, Hl, row_ix_rows, Erow, <- Hl, <- L1. }
  unfold put_bh. cbn [snd].
  eexists. split; [reflexivity|]. unfold b2.
  cbn [magic priv cmp update next page_size page_mask page_shift length rows
       array set_length set_array].
  split; [exact F1|].
  rewrite (u32_small (length b1 + ROW_WIDTH)) by lia.
  split; [lia|]. split; [|split; [lia|]].
  - unfold rows_ok. cbn [array rows length set_length set_array].
    split; [rewrite length_upd; exact Hrows1|].
    exists (k + 1). rewrite length_upd. split; [lia|]. split; [lia|].
    intros i Hi. destruct (Nat.eq_dec (Z.to_nat k) i) as [<- | Hne].
    + rewrite nth_error_upd_eq by lia. split; [|lia].
      intros _. eexists. reflexivity.
    + rewrite nth_error_upd_ne by exact Hne.
      destruct (Nat.lt_ge_cases i (List.length (array b))) as [Hin | Hout].
      * rewrite Hold by exact Hin. split; intros Hik; apply Harr; lia.
      * split; [intros Hik; lia | intros _; apply Hnew; lia].
  - intros u Hu. apply slot_same_row. cbn [array set_length set_array].
    assert (Z.of_nat (row_ix u) < k) by (apply (row_ix_lt b k u Hl); lia).
    rewrite nth_error_upd_ne by lia. apply Hold. lia.
Qed.

End AddRow.

(** ** The public operations keep the invariant *)

Section Operations.
Import Vbh.
Context {store : Type}.
Implicit Types b : @vbh store.
Implicit Types m : store.
Variable junk : Z -> ptr.
Variable VBH_NOIDX : Z.

Lemma heap_inv_intro b m (c : ptr -> ptr -> bool) :
  shape_ok b -> callbacks_ok b ->
  (forall x y, cmp b m (priv b) x y = c x y) ->
  ordered c (page_size b) (next b) (slot b) ->
  heap_inv (b, m).
Proof.
  intros Hsh Hcb Hcmp Ho. split; [exact Hsh|]. split; [exact Hcb|].
  intros w Hw. unfold edge_ok. cbn [fst snd]. rewrite Hcmp. now apply Ho.
Qed.

Lemma rows_ok_set_next b (x : Z) : rows_ok b -> rows_ok (set_next b x).
Proof. intros H. exact H. Qed.

Lemma slot_set_next b (x u : Z) : slot (set_next b x) u = slot b u.
Proof. reflexivity. Qed.

Lemma shape_length b : shape_ok b -> ROW_WIDTH <= length b.
Proof.
  intros (Hm & Hpg & Hr & Hrw & Hnl & Hl & Hlive).
  destruct Hr as (_ & k & Hk & _). rewrite ROW_WIDTH_val in *. nia.
Qed.

Lemma VBH_root_ok b m :
  shape_ok b -> VBH_root (b, m) = Ok (slot b ROOT_IDX, (b, m)).
Proof.
  intros Hsh. pose proof (shape_length b Hsh) as Hlen.
  destruct Hsh as (Hm & Hpg & Hr & Hrw & Hnl & Hl & Hlive).
  unfold VBH_root. run_with (check_ok b m Hm).
  apply readA_ok; [exact Hr | rewrite ROW_WIDTH_val in Hlen; unfold ROOT_IDX; lia].
Qed.

Lemma VBH_insert_ok b m (p : ptr) :
  heap_inv (b, m) -> p <> NULL -> next b + 2 * ROW_WIDTH < 2 ^ 32 ->
  exists b' m',
    VBH_insert junk p (b, m) = Ok (tt, (b', m')) /\
    heap_inv (b', m') /\ next b' = next b + 1 /\
    cmp b' = cmp b /\ update b' = update b /\ priv b' = priv b /\
    page_size b' = page_size b.
Proof.
  intros (Hsh & Hcb & Hord) Hp Hnext. cbn [fst snd] in *.
  pose proof Hsh as (Hm & Hpg & Hr & Hrw & Hnl & Hl & Hlive).
  pose proof ROW_WIDTH_val as HW.
  set (n := next b) in *.
  set (c := cmp b m (priv b)) in *.
  set (P := page_size b) in *.
  assert (Hc : strict_weak c) by (apply Hcb).
  pose proof (shape_par b Hsh) as Hpar. fold P in Hpar.
  (* a free slot *)
  assert (Hrow : exists b1,
    (if length b =? next b then vbh_addrow junk else ret tt) (b, m)
      = Ok (tt, (b1, m)) /\
    (magic b1 = magic b /\ priv b1 = priv b /\ cmp b1 = cmp b /\
     update b1 = update b /\ next b1 = next b /\ page_size b1 = page_size b /\
     page_mask b1 = page_mask b /\ page_shift b1 = page_shift b) /\
    n < length b1 < 2 ^ 32 /\ rows_ok b1 /\ 0 < rows b1 <= 2 ^ 17 /\
    forall u, 0 <= u < n -> slot b1 u = slot b u).
  { fold n. destruct (Z.eqb_spec (length b) n) as [Efull | Efree].
    - destruct (vbh_addrow_ok junk b m Hr Hrw ltac:(lia))
        as (b1 & E1 & F1 & L1 & R1 & Rw1 & S1).
      exists b1. split; [exact E1|]. split; [exact F1|].
      split; [lia|]. split; [exact R1|]. split; [exact Rw1|].
      intros u Hu. apply S1. lia.
    - exists b. split; [reflexivity|]. split; [repeat split|].
      split; [lia|]. split; [exact Hr|]. split; [exact Hrw|]. reflexivity. }
  destruct Hrow as (b1 & E1 & F1 & L1 & R1 & Rw1 & S1).
  destruct F1 as (Fm & Fp & Fc & Fu & Fn & Fps & Fpm & Fsh).
  unfold VBH_insert.
  run_with (check_ok b m Hm). run_get. run_assert.
  run_with E1. run_get. run_assert.
  rewrite Fn. fold n. rewrite (u32_small (n + 1)) by lia.
  unfold put_bh at 1. unfold bind at 1. cbn [snd].
  set (b2 := set_next b1 (n + 1)).
  run_with (writeA_ok b2 m n p (rows_ok_set_next b1 (n + 1) R1) ltac:(cbn; lia)).
  set (b3 := poke b2 n p).
  assert (R3 : rows_ok b3) by (apply poke_rows_ok; [exact R1 | cbn; lia]).
  assert (F3 : frame b2 b3) by apply frame_poke.
  pose proof F3 as (Gm & Gp & Gc & Gu & Grw & Gl & Gn & Gps & Gpm & Gsh).
  unfold b2 in Gm, Gp, Gc, Gu, Grw, Gl, Gn, Gps, Gpm, Gsh.
  cbn [magic priv cmp update rows length next page_size page_mask page_shift
       set_next] in Gm, Gp, Gc, Gu, Grw, Gl, Gn, Gps, Gpm, Gsh.
  assert (HP3 : page_size b3 = P) by (unfold P; congruence).
  assert (Hn3 : next b3 = n + 1) by exact Gn.
  assert (S3 : forall u, 0 <= u -> slot b3 u = if u =? n then p else slot b1 u).
  { intros u Hu. unfold b3. rewrite slot_poke; [reflexivity | exact R1 | cbn; lia | lia]. }
  assert (Hsh3 : shape_ok b3).
  { split; [congruence|]. split; [unfold pages_ok; rewrite Gps, Gpm, Gsh, Fps, Fpm, Fsh; exact Hpg|].
    split; [exact R3|]. split; [lia|]. split; [lia|]. split; [lia|].
    intros u Hu. rewrite S3 by lia. destruct (Z.eqb_spec u n); [exact Hp|].
    rewrite S1 by lia. apply Hlive. lia. }
  assert (Hcb3 : callbacks_ok b3).
  { destruct Hcb as [H1 H2]. split.
    - intros m0. rewrite Gc, Gp, Fc, Fp. apply H1.
    - intros f m0 q i x y E. rewrite Gc, Gp, Fc, Fp. apply H2. congruence. }
  run_with (vbh_update_ok b3 m n ltac:(congruence) R3 ltac:(lia) ltac:(lia)
              ltac:(rewrite S3, Z.eqb_refl by lia; exact Hp)).
  assert (Hcmp3 : forall x y, cmp b3 (notify b3 m n) (priv b3) x y = c x y).
  { intros x y. rewrite (cmp_same_notify b3 m n Hcb3). rewrite Gc, Gp, Fc, Fp. reflexivity. }
  assert (Hold : forall w, 1 <= w < n -> slot b3 w = slot b w).
  { intros w Hw. rewrite S3 by lia. destruct (Z.eqb_spec w n); [lia|]. apply S1. lia. }
  assert (Hup : up_inv c P (n + 1) (slot b3) n).
  { split.
    - intros w Hw Hwn Hpn. unfold edge_ok.
      pose proof (Hpar w ltac:(lia)).
      rewrite !Hold by lia. apply Hord. lia.
    - intros _ w Hw Hpn. pose proof (Hpar w ltac:(lia)). lia. }
  assert (Hk : kids_ok c P (n + 1) (slot b3) n).
  { intros w Hw Hpn. pose proof (Hpar w ltac:(lia)). lia. }
  destruct (vbh_trickleup_ok c P (n + 1) Hc n b3 (notify b3 m n) Hsh3 Hcb3
              HP3 Hn3 Hcmp3 ltac:(lia) Hup)
    as (u' & b4 & m4 & E4 & F4 & Hsh4 & Hcmp4 & Hu' & _ & Ho4).
  run_with E4. run_get.
  pose proof F4 as (Im & Ip & Ic & Iu & Irw & Il & In & Ips & Ipm & Ish).
  pose proof Hsh4 as (_ & _ & R4 & _ & _ & _ & Hlive4).
  run_assert.
  rewrite (assert_A_ok b4 m4 n R4 ltac:(lia) (Hlive4 n ltac:(lia))).
  exists b4, m4. split; [reflexivity|]. split.
  - apply (heap_inv_intro b4 m4 c Hsh4 (callbacks_frame b3 b4 Hcb3 F4) Hcmp4).
    rewrite Ips, In, Gps, Gn, Fps. apply Ho4, Hk.
  - repeat split; congruence.
Qed.

Lemma VBH_reorder_ok b m m' (idx : Z) :
  heap_inv (b, m) -> 0 < idx < next b -> rekeyed b idx m m' ->
  exists b' m'',
    VBH_reorder idx (b, m') = Ok (tt, (b', m'')) /\
    heap_inv (b', m'') /\ frame b b'.
Proof.
  intros (Hsh & Hcb & Hord) Hidx Hkey. cbn [fst snd] in *.
  pose proof Hsh as (Hm & Hpg & Hr & Hrw & Hnl & Hl & Hlive).
  set (n := next b) in *.
  set (c := cmp b m (priv b)) in *.
  set (c' := cmp b m' (priv b)).
  set (P := page_size b) in *.
  assert (Hc : strict_weak c) by (apply Hcb).
  assert (Hc' : strict_weak c') by (apply Hcb).
  pose proof (shape_par b Hsh) as Hpar. fold P in Hpar.
  assert (Hup : up_inv c' P n (slot b) idx).
  { split.
    - intros w Hw Hwi Hpi. unfold edge_ok. pose proof (Hpar w ltac:(lia)).
      unfold c'. rewrite Hkey by (fold n; lia). now apply Hord.
    - intros Hi1 w Hw Hpi.
      pose proof (Hpar w ltac:(lia)). pose proof (Hpar idx ltac:(lia)).
      unfold c'. rewrite Hkey by (fold n; lia).
      apply (sw_ntrans c Hc) with (slot b idx).
      + rewrite <- Hpi. now apply Hord.
      + apply Hord. lia. }
  destruct (vbh_trickleup_ok c' P n Hc' idx b m' Hsh Hcb eq_refl eq_refl
              ltac:(reflexivity) ltac:(lia) Hup)
    as (u1 & b1 & m1 & E1 & F1 & Hsh1 & Hcmp1 & Hu1 & Hdn1 & _).
  pose proof F1 as (Fm & Fp & Fc & Fu & Frw & Fl & Fn & Fps & Fpm & Fsh).
  pose proof Hsh1 as (_ & _ & R1 & _ & Hnl1 & _ & Hlive1).
  destruct (vbh_trickledown_ok c' P n Hc' u1 b1 m1 Hsh1
              (callbacks_frame b b1 Hcb F1) Fps Fn Hcmp1 ltac:(lia) Hdn1)
    as (u2 & b2 & m2 & E2 & F2 & Hsh2 & Hcmp2 & Hu2 & Ho2).
  pose proof F2 as (Gm & Gp & Gc & Gu & Grw & Gl & Gn & Gps & Gpm & Gsh).
  pose proof Hsh2 as (_ & _ & R2 & _ & Hnl2 & _ & Hlive2).
  unfold VBH_reorder.
  run_with (check_ok b m' Hm). run_get. unfold ROOT_IDX.
  run_assert. run_assert. run_assert.
  run_with (assert_A_ok b m' idx Hr ltac:(lia) (Hlive idx ltac:(lia))).
  run_with E1. run_get. run_assert. run_assert.
  run_with (assert_A_ok b1 m1 u1 R1 ltac:(lia) (Hlive1 u1 ltac:(lia))).
  run_with E2. run_get. run_assert. run_assert.
  rewrite (assert_A_ok b2 m2 u2 R2 ltac:(lia) (Hlive2 u2 ltac:(lia))).
  exists b2, m2. split; [reflexivity|]. split.
  - apply (heap_inv_intro b2 m2 c' Hsh2); [|exact Hcmp2|].
    + eapply callbacks_frame; [|exact F2]. eapply callbacks_frame; eassumption.
    + rewrite Gps, Gn, Fps, Fn. exact Ho2.
  - eapply frame_trans; eassumption.
Qed.

(** The tail row is handed back. *)
Lemma shrink_ok b m :
  rows_ok b -> 2 * ROW_WIDTH <= length b < 2 ^ 32 ->
  exists b',
    (b0 <- lift (ROW_store b (u32 (length b - 1)) None) ;;
     put_bh (set_length b0 (u32 (length b0 - ROW_WIDTH)))) (b, m)
      = Ok (tt, (b', m)) /\
    (magic b' = magic b /\ priv b' = priv b /\ cmp b' = cmp b /\
     update b' = update b /\ next b' = next b /\ page_size b' = page_size b /\
     page_mask b' = page_mask b /\ page_shift b' = page_shift b) /\
    rows b' = rows b /\
    length b' = length b - ROW_WIDTH /\
    rows_ok b' /\
    forall u, 0 <= u < length b - ROW_WIDTH -> slot b' u = slot b u.
Proof.
  intros (Hrows & k & Hl & Hk & Harr) Hlen.
  pose proof ROW_WIDTH_val as HW.
  assert (Hk2 : 2 <= k) by lia.
  rewrite (u32_small (length b - 1)) by lia.
  assert (Erow : row_ix (length b - 1) = Z.to_nat (k - 1)).
  { unfold row_ix. f_equal. unfold ROW_SHIFT.
    rewrite Z.shiftr_div_pow2 by lia. change (2 ^ 16) with 65536.
    symmetry. apply Z.div_unique with 65535; lia. }
  destruct (Harr (Z.to_nat (k - 1)) ltac:(lia)) as [Hin _].
  destruct (Hin ltac:(lia)) as (r & Er).
  set (b0 := set_array b (upd (array b) (Z.to_nat (k - 1)) None)).
  rewrite (bind_ok _ _ (b, m) (b, m) b0).
  2:{ apply lift_ok. unfold ROW_store. now rewrite Erow, Er. }
  unfold put_bh. cbn [snd]. eexists. split; [reflexivity|]. unfold b0.
  cbn [magic priv cmp update next page_size page_mask page_shift length rows
       array set_length set_array].
  split; [repeat split|]. split; [reflexivity|].
  rewrite (u32_small (length b - ROW_WIDTH)) by lia.
  split; [reflexivity|]. split.
  - unfold rows_ok. cbn [array rows length set_length set_array].
    rewrite length_upd. split; [exact Hrows|].
    exists (k - 1). split; [lia|]. split; [lia|].
    intros i Hi. destruct (Nat.eq_dec (Z.to_nat (k - 1)) i) as [<- | Hne].
    + rewrite nth_error_upd_eq by lia. split; [lia | reflexivity].
    + rewrite nth_error_upd_ne by exact Hne.
      split; intros Hik; apply Harr; lia.
  - intros u Hu. apply slot_same_row. cbn [array set_length set_array].
    assert (Z.of_nat (row_ix u) < k - 1).
    { destruct (ix_split u ltac:(lia)) as [E Hc]. rewrite HW in *. nia. }
    now rewrite nth_error_upd_ne by lia.
Qed.

Lemma VBH_delete_ok b m (idx : Z) :
  heap_inv (b, m) -> 0 < idx < next b -> update b <> None ->
  exists b' m',
    VBH_delete VBH_NOIDX idx (b, m) = Ok (tt, (b', m')) /\
    heap_inv (b', m') /\ next b' = next b - 1 /\
    cmp b' = cmp b /\ update b' = update b /\ priv b' = priv b /\
    page_size b' = page_size b /\ rows b' = rows b /\
    length b' =
      if (idx =? next b - 1) then length b
      else if next b - 1 + 2 * ROW_WIDTH <=? length b
           then length b - ROW_WIDTH else length b.
Proof.
  clear junk.
  intros (Hsh & Hcb & Hord) Hidx Hupd. cbn [fst snd] in *.
  pose proof Hsh as (Hm & Hpg & Hr & Hrw & Hnl & Hl & Hlive).
  pose proof ROW_WIDTH_val as HW.
  destruct (update b) as [f|] eqn:Ef; [clear Hupd | congruence].
  set (n := next b) in *.
  set (c := cmp b m (priv b)) in *.
  set (P := page_size b) in *.
  assert (Hc : strict_weak c) by (apply Hcb).
  pose proof (shape_par b Hsh) as Hpar. fold P in Hpar.
  set (m1 := f m (priv b) (slot b idx) VBH_NOIDX).
  assert (Hcmp1 : forall x y, cmp b m1 (priv b) x y = c x y).
  { intros x y. unfold m1. destruct Hcb as [_ H2]. now apply H2. }
  set (b0 := set_next b (n - 1)).
  unfold VBH_delete.
  run_with (check_ok b m Hm). run_get. unfold ROOT_IDX.
  run_assert. run_assert. run_assert.
  run_with (assert_A_ok b m idx Hr ltac:(lia) (Hlive idx ltac:(lia))).
  run_with (readA_ok b m idx Hr ltac:(lia)).
  rewrite (bind_ok _ _ (b, m) (b, m1) tt)
    by (unfold call_update; cbn [fst snd]; rewrite Ef; reflexivity).
  run_get. fold n. rewrite (u32_small (n - 1)) by lia.
  unfold put_bh at 1. unfold bind at 1. cbn [snd]. fold b0.
  destruct (Z.eqb_spec idx (n - 1)) as [Etail | Emid].
  { (* the last slot *)
    rewrite (writeA_ok b0 m1 (n - 1) NULL Hr ltac:(cbn; lia)).
    set (b1 := poke b0 (n - 1) NULL).
    assert (R1 : rows_ok b1) by (apply poke_rows_ok; [exact Hr | cbn; lia]).
    pose proof (frame_poke b0 (n - 1) NULL) as F1. fold b1 in F1.
    destruct F1 as (Fm & Fp & Fc & Fu & Frw & Fl & Fn & Fps & Fpm & Fsh).
    unfold b0 in Fm, Fp, Fc, Fu, Frw, Fl, Fn, Fps, Fpm, Fsh.
    cbn [magic priv cmp update rows length next page_size page_mask page_shift
         set_next] in Fm, Fp, Fc, Fu, Frw, Fl, Fn, Fps, Fpm, Fsh.
    assert (S1 : forall u, 0 <= u < n - 1 -> slot b1 u = slot b u).
    { intros u Hu. unfold b1. rewrite slot_poke; [|exact Hr | cbn; lia | lia].
      destruct (Z.eqb_spec u (n - 1)); [lia | reflexivity]. }
    exists b1, m1. split; [reflexivity|]. split.
    - apply (heap_inv_intro b1 m1 c).
      + split; [congruence|].
        split; [unfold pages_ok; rewrite Fps, Fpm, Fsh; exact Hpg|].
        split; [exact R1|]. split; [lia|]. split; [lia|]. split; [lia|].
        intros u Hu. rewrite S1 by lia. apply Hlive. lia.
      + destruct Hcb as [H1 H2]. split.
        * intros m0. rewrite Fc, Fp. apply H1.
        * intros g m0 q i x y E. rewrite Fc, Fp. apply H2. congruence.
      + intros x y. rewrite Fc, Fp. apply Hcmp1.
      + rewrite Fps, Fn. fold P. intros w Hw. unfold edge_ok.
        pose proof (Hpar w ltac:(lia)).
        rewrite !S1 by lia. apply Hord. lia.
    - repeat split; try congruence. exact Fps. }
  (* the tail element moves into the hole *)
  set (q := slot b (n - 1)).
  run_with (readA_ok b0 m1 (n - 1) Hr ltac:(cbn; lia)).
  change (slot b0 (n - 1)) with q.
  run_with (writeA_ok b0 m1 idx q Hr ltac:(cbn; lia)).
  set (b1 := poke b0 idx q).
  assert (R1 : rows_ok b1) by (apply poke_rows_ok; [exact Hr | cbn; lia]).
  pose proof (frame_poke b0 idx q) as F1. fold b1 in F1.
  assert (L1 : length b1 = length b) by (unfold frame in F1; tauto).
  run_with (writeA_ok b1 m1 (n - 1) NULL R1 ltac:(lia)).
  set (b2 := poke b1 (n - 1) NULL).
  assert (R2 : rows_ok b2) by (apply poke_rows_ok; [exact R1 | lia]).
  assert (F2 : frame b0 b2) by (eapply frame_trans; [exact F1 | apply frame_poke]).
  destruct F2 as (Fm & Fp & Fc & Fu & Frw & Fl & Fn & Fps & Fpm & Fsh).
  unfold b0 in Fm, Fp, Fc, Fu, Frw, Fl, Fn, Fps, Fpm, Fsh.
  cbn [magic priv cmp update rows length next page_size page_mask page_shift
       set_next] in Fm, Fp, Fc, Fu, Frw, Fl, Fn, Fps, Fpm, Fsh.
  assert (S2 : forall u, 0 <= u < n - 1 ->
            slot b2 u = if u =? idx then q else slot b u).
  { intros u Hu. unfold b2. rewrite slot_poke; [|exact R1 | lia | lia].
    destruct (Z.eqb_spec u (n - 1)); [lia|].
    unfold b1. rewrite slot_poke; [reflexivity | exact Hr | cbn; lia | lia]. }
  assert (Hq : q <> NULL) by (apply Hlive; lia).
  assert (Hsh2 : shape_ok b2).
  { split; [congruence|].
    split; [unfold pages_ok; rewrite Fps, Fpm, Fsh; exact Hpg|].
    split; [exact R2|]. split; [lia|]. split; [lia|]. split; [lia|].
    intros u Hu. rewrite S2 by lia.
    destruct (Z.eqb_spec u idx); [exact Hq | apply Hlive; lia]. }
  assert (Hcb2 : callbacks_ok b2).
  { destruct Hcb as [H1 H2]. split.
    - intros m0. rewrite Fc, Fp. apply H1.
    - intros g m0 p i x y E. rewrite Fc, Fp. apply H2. congruence. }
  run_with (vbh_update_ok b2 m1 idx ltac:(congruence) R2 ltac:(lia) ltac:(lia)
              ltac:(rewrite S2, Z.eqb_refl by lia; exact Hq)).
  assert (Hcmp2 : forall x y, cmp b2 (notify b2 m1 idx) (priv b2) x y = c x y).
  { intros x y. rewrite (cmp_same_notify b2 m1 idx Hcb2). rewrite Fc, Fp. apply Hcmp1. }
  assert (Hold : forall w, 1 <= w < n - 1 -> w <> idx -> slot b2 w = slot b w).
  { intros w Hw Hne. rewrite S2 by lia. destruct (Z.eqb_spec w idx); [lia | reflexivity]. }
  assert (Hup : up_inv c P (n - 1) (slot b2) idx).
  { split.
    - intros w Hw Hwi Hpi. unfold edge_ok. pose proof (Hpar w ltac:(lia)).
      rewrite !Hold by lia. apply Hord. lia.
    - intros Hi1 w Hw Hpi.
      pose proof (Hpar w ltac:(lia)). pose proof (Hpar idx ltac:(lia)).
      rewrite !Hold by lia.
      apply (sw_ntrans c Hc) with (slot b idx).
      + rewrite <- Hpi. apply Hord. lia.
      + apply Hord. lia. }
  assert (HP2 : page_size b2 = P) by exact Fps.
  destruct (vbh_trickleup_ok c P (n - 1) Hc idx b2 (notify b2 m1 idx) Hsh2 Hcb2
              HP2 Fn Hcmp2 ltac:(lia) Hup)
    as (u3 & b3 & m3 & E3 & F3 & Hsh3 & Hcmp3 & Hu3 & Hdn3 & _).
  pose proof F3 as (Gm & Gp & Gc & Gu & Grw & Gl & Gn & Gps & Gpm & Gsh).
  pose proof Hsh3 as (_ & _ & R3 & _ & Hnl3 & _ & Hlive3).
  destruct (vbh_trickledown_ok c P (n - 1) Hc u3 b3 m3 Hsh3
              (callbacks_frame b2 b3 Hcb2 F3) ltac:(congruence) ltac:(congruence)
              Hcmp3 ltac:(lia) Hdn3)
    as (u4 & b4 & m4 & E4 & F4 & Hsh4 & Hcmp4 & Hu4 & Ho4).
  pose proof F4 as (Im & Ip & Ic & Iu & Irw & Il & In & Ips & Ipm & Ish).
  pose proof Hsh4 as (_ & _ & R4 & _ & Hnl4 & _ & Hlive4).
  assert (Hcb4 : callbacks_ok b4).
  { eapply callbacks_frame; [|exact F4]. eapply callbacks_frame; eassumption. }
  run_with E3. run_get. run_assert. run_assert.
  run_with (assert_A_ok b3 m3 u3 R3 ltac:(lia) (Hlive3 u3 ltac:(lia))).
  run_with E4. run_get. run_assert. run_assert.
  run_with (assert_A_ok b4 m4 u4 R4 ltac:(lia) (Hlive4 u4 ltac:(lia))).
  assert (N4 : next b4 = n - 1) by congruence.
  assert (L4 : length b4 = length b) by congruence.
  replace (u32 (next b4 + 2 * ROW_WIDTH) <=? length b4)
    with (n - 1 + 2 * ROW_WIDTH <=? length b)
    by (rewrite N4, L4, (u32_small (n - 1 + 2 * ROW_WIDTH)) by lia; reflexivity).
  destruct (Z.leb_spec (n - 1 + 2 * ROW_WIDTH) (length b)) as [Hshrink | Hkeep].
  - destruct (shrink_ok b4 m4 R4 ltac:(lia))
      as (b5 & E5 & F5 & Rw5 & L5 & R5 & S5).
    destruct F5 as (Jm & Jp & Jc & Ju & Jn & Jps & Jpm & Jsh).
    rewrite E5. exists b5, m4. split; [reflexivity|]. split.
    + apply (heap_inv_intro b5 m4 c).
      * split; [congruence|].
        split; [unfold pages_ok; rewrite Jps, Jpm, Jsh; apply Hsh4|].
        split; [exact R5|]. split; [lia|]. split; [lia|]. split; [lia|].
        intros u Hu. rewrite S5 by lia. apply Hlive4. lia.
      * destruct Hcb4 as [H1 H2]. split.
        -- intros m0. rewrite Jc, Jp. apply H1.
        -- intros g m0 p i x y E. rewrite Jc, Jp. apply H2. congruence.
      * intros x y. rewrite Jc, Jp. apply Hcmp4.
      * replace (page_size b5) with P by congruence.
        replace (next b5) with (n - 1) by congruence.
        apply (ordered_ext c P (n - 1) Hpar (slot b4)); [|exact Ho4].
        intros w Hw. symmetry. apply S5. lia.
    + repeat split; congruence.
  - exists b4, m4. split; [reflexivity|]. split.
    + apply (heap_inv_intro b4 m4 c Hsh4 Hcb4 Hcmp4).
      replace (page_size b4) with P by congruence.
      replace (next b4) with (n - 1) by congruence. exact Ho4.
    + repeat split; congruence.
Qed.

Lemma page_shift_loop_inv (fuel : nat) : forall u psz sh,
  page_shift_loop fuel u psz = Ok sh ->
  u <= sh < 32 /\ u32 (Z.shiftl 1 sh) = psz.
Proof.
  induction fuel as [|fuel IH]; intros u psz sh E; [discriminate|].
  cbn [page_shift_loop] in E.
  destruct (Z.leb_spec 32 u) as [Hu | Hu]; [discriminate|].
  destruct (Z.eqb_spec (u32 (Z.shiftl 1 u)) psz) as [Eq | Ne].
  - injection E as <-. split; [lia | exact Eq].
  - destruct (IH _ _ _ E) as [H1 H2]. split; [lia | exact H2].
Qed.

Lemma VBH_new_inv pagesz ptrsz td priv0 cmp_f update_f m w :
  VBH_new junk pagesz ptrsz td priv0 cmp_f update_f m = Ok w ->
  4 <= page_size (fst w) ->
  shape_ok (fst w) /\ next (fst w) = ROOT_IDX /\
  cmp (fst w) = cmp_f /\ update (fst w) = update_f /\ priv (fst w) = priv0 /\
  snd w = m.
Proof.
  unfold VBH_new. intros E Hps.
  set (psz := u32 pagesz / ptrsz) in *.
  destruct (negb (Z.land psz (u32 (psz - 1)) =? 0)); [discriminate|].
  destruct (page_shift_loop 32 1 psz) as [sh|] eqn:Esh; [|discriminate].
  destruct (negb (psz <=? ptrsz * ROW_WIDTH)); [discriminate|].
  apply page_shift_loop_inv in Esh. destruct Esh as [Hsh Epsz].
  set (nrows := if td then 1 else 16) in *.
  set (b0 := mk_vbh VBH_MAGIC priv0 cmp_f update_f
               (repeat None (Z.to_nat nrows)) nrows 0 ROOT_IDX psz
               (u32 (psz - 1)) sh) in *.
  assert (Hnr : 0 < nrows <= 16) by (unfold nrows; destruct td; lia).
  pose proof ROW_WIDTH_val as HW.
  assert (R0 : rows_ok b0).
  { split; [cbn [rows array b0]; rewrite repeat_length; lia|].
    exists 0. cbn [rows array length b0]. rewrite repeat_length.
    split; [lia|]. split; [lia|]. intros i Hi. split; [lia|].
    intros _. apply nth_error_repeat. exact Hi. }
  destruct (vbh_addrow_ok junk b0 m R0 ltac:(cbn [rows b0]; lia)
              ltac:(cbn [length b0]; lia))
    as (b1 & E1 & F1 & L1 & R1 & Rw1 & S1).
  destruct F1 as (Fm & Fp & Fc & Fu & Fn & Fps & Fpm & Fsh).
  cbn [magic priv cmp update rows length next page_size page_mask page_shift b0]
    in Fm, Fp, Fc, Fu, Fn, Fps, Fpm, Fsh, L1.
  rewrite (bind_ok _ _ _ _ _ E1) in E.
  rewrite (writeA_ok b1 m ROOT_IDX NULL R1 ltac:(unfold ROOT_IDX; lia)) in E.
  injection E as <-. cbn [fst snd] in *.
  pose proof (frame_poke b1 ROOT_IDX NULL) as F2.
  destruct F2 as (Gm & Gp & Gc & Gu & Grw & Gl & Gn & Gps & Gpm & Gsh).
  assert (Epow : psz = 2 ^ sh).
  { rewrite <- Epsz. rewrite Z.shiftl_mul_pow2, Z.mul_1_l by lia.
    apply u32_small. split; [apply Z.pow_nonneg; lia|].
    apply Z.pow_lt_mono_r; lia. }
  assert (Hsh2 : 2 <= sh).
  { destruct (Z.eq_dec sh 1) as [-> | Hne]; [|lia].
    rewrite Gps, Fps, Epow in Hps. simpl in Hps. lia. }
  assert (Hlt : psz < 2 ^ 32) by (rewrite Epow; apply Z.pow_lt_mono_r; lia).
  split; [|repeat split; congruence].
  split; [congruence|]. split.
  { unfold pages_ok. rewrite Gps, Gpm, Gsh, Fps, Fpm, Fsh.
    split; [lia|]. split; [exact Epow|]. apply u32_small. lia. }
  split; [apply poke_rows_ok; [exact R1 | unfold ROOT_IDX; lia]|].
  rewrite Grw, Gl, Gn, Fn, L1. unfold ROOT_IDX.
  split; [lia|]. split; [lia|]. split; [lia|]. intros u Hu. lia.
Qed.

End Operations.

(** * The properties of the heap *)

Section HeapClaims.
Import Vbh.
Context {store : Type}.
Implicit Types b : @vbh store.
Implicit Types m : store.
Implicit Types w : @world store.
Variable junk : Z -> ptr.
Variable VBH_NOIDX : Z.

Lemma reachable_inv w : reachable junk VBH_NOIDX w -> heap_inv w.
Proof.
  induction 1 as [pagesz ptrsz td priv0 cmp_f update_f m w E Hps Hcb
                 | w m' Hw IH Hsame
                 | w p w' Hw IH Hp Hcap E
                 | w idx w' Hw IH Hidx Hupd E
                 | w idx m' w' Hw IH Hidx Hkey E].
  - destruct (VBH_new_inv junk _ _ _ _ _ _ _ _ E Hps) as (Hsh & Hn & _).
    split; [exact Hsh|]. split; [exact Hcb|].
    intros u Hu. rewrite Hn in Hu. unfold ROOT_IDX in Hu. lia.
  - destruct w as [b m]. destruct IH as (Hsh & Hcb & Hord). cbn [fst snd] in *.
    split; [exact Hsh|]. split; [exact Hcb|].
    intros u Hu. unfold edge_ok. cbn [fst snd] in *.
    pose proof (shape_par b Hsh u ltac:(lia)).
    rewrite Hsame by lia. now apply Hord.
  - destruct w as [b m]. cbn [fst] in *.
    destruct (VBH_insert_ok junk b m p IH Hp Hcap) as (b' & m'' & E' & Hinv & _).
    rewrite E' in E. injection E as <-. exact Hinv.
  - destruct w as [b m]. cbn [fst] in *.
    destruct (VBH_delete_ok VBH_NOIDX b m idx IH Hidx Hupd) as (b' & m'' & E' & Hinv & _).
    rewrite E' in E. injection E as <-. exact Hinv.
  - destruct w as [b m]. cbn [fst snd] in *.
    destruct (VBH_reorder_ok b m m' idx IH Hidx Hkey) as (b' & m'' & E' & Hinv & _).
    rewrite E' in E. injection E as <-. exact Hinv.
Qed.

Lemma heap_inv_property w : heap_inv w -> heap_property w.
Proof.
  destruct w as [b m]. intros (Hsh & Hcb & Hord). cbn [fst snd] in *.
  pose proof Hsh as (Hm & Hpg & Hr & Hrw & Hnl & Hl & Hlive).
  intros u Hu. cbn [fst snd] in *.
  pose proof (shape_par b Hsh u ltac:(lia)) as Hp.
  exists (par (page_size b) u), (slot b u), (slot b (par (page_size b) u)).
  split; [apply shape_parent; [exact Hsh | lia]|].
  split; [apply A_load_ok; [exact Hr | lia]|].
  split; [apply A_load_ok; [exact Hr | lia]|].
  now apply Hord.
Qed.

(** C1: after any sequence of VBH_insert, VBH_delete and VBH_reorder, each
    called within its preconditions, the heap property holds when the call
    returns: for every u in (1, next), cmp(A[u], A[parent(u)]) is false. *)
Theorem heap_property_reachable w :
  reachable junk VBH_NOIDX w -> heap_property w.
Proof. intros Hw. apply heap_inv_property. now apply reachable_inv. Qed.

Lemma child_range b (u a c : Z) :
  child b u = (a, c) -> 0 <= a <= UINT_MAX /\ 0 <= c <= UINT_MAX.
Proof.
  assert (Hu32 : forall x, 0 <= u32 x <= UINT_MAX).
  { intros x. unfold u32, UINT_MAX.
    pose proof (Z.mod_pos_bound x (2 ^ 32) ltac:(lia)). lia. }
  unfold child. intros E.
  destruct ((page_mask b <? u) && _).
  { injection E as <- <-. split; apply Hu32. }
  destruct (negb _).
  - cbv zeta in E. destruct (_ =? _); injection E as <- <-;
      [split; apply Hu32 | unfold UINT_MAX; lia].
  - injection E as <- <-. split; apply Hu32.
Qed.

(** C3: in the VM-aware layout, unless a child is the UINT_MAX sentinel,
    parent(child_left(u)) == u and parent(child_right(u)) == u. *)
Theorem parent_of_child b (u a c : Z) :
  pages_ok b -> 0 <= u < 2 ^ 32 ->
  child b u = (a, c) -> a <> UINT_MAX -> c <> UINT_MAX ->
  parent b a = Ok u /\ parent b c = Ok u.
Proof.
  intros Hpg Hu E Ha Hc.
  destruct (child_range b u a c E) as [Ra Rc].
  rewrite (child_kids b Hpg u Hu) in E.
  destruct (page_facts b Hpg) as (_ & E2 & HH & _).
  destruct (par_kids _ _ E2 HH u a c ltac:(lia) E Ha) as [Pa Pc].
  rewrite !(parent_par b Hpg) by lia. now rewrite Pa, Pc.
Qed.

(** Deleting the last slot takes the early return of VBH_delete: the
    tail slot is cleared and [length] stays, whatever the occupancy. *)
Theorem delete_tail_keeps_length b m (idx : Z) :
  heap_inv (b, m) -> update b <> None ->
  0 < idx -> idx = next b - 1 ->
  exists b' m',
    VBH_delete VBH_NOIDX idx (b, m) = Ok (tt, (b', m')) /\
    next b' = next b - 1 /\ length b' = length b /\ rows b' = rows b.
Proof.
  intros Hinv Hupd Hidx Etail.
  destruct (VBH_delete_ok VBH_NOIDX b m idx Hinv ltac:(lia) Hupd)
    as (b' & m' & E & _ & Hn & _ & _ & _ & _ & Hrw & Hl).
  exists b', m'. split; [exact E|]. split; [exact Hn|]. split; [|exact Hrw].
  rewrite Hl. now replace (idx =? next b - 1) with true by (symmetry; apply Z.eqb_eq; lia).
Qed.

Lemma root_below_all b m :
  heap_inv (b, m) -> forall u, 1 <= u < next b ->
  cmp b m (priv b) (slot b u) (slot b ROOT_IDX) = false.
Proof.
  intros (Hsh & Hcb & Hord). cbn [fst snd] in *.
  assert (Hc : strict_weak (cmp b m (priv b))) by apply Hcb.
  pose proof (shape_par b Hsh) as Hpar.
  assert (H : forall k : nat, forall u, (Z.to_nat u <= k)%nat -> 1 <= u < next b ->
            cmp b m (priv b) (slot b u) (slot b ROOT_IDX) = false).
  { induction k as [|k IH]; intros u Hk Hu; [lia|].
    destruct (Z.eq_dec u 1) as [-> | Hne]; [apply Hc|].
    pose proof (Hpar u ltac:(lia)) as Hp.
    apply (sw_ntrans _ Hc) with (slot b (par (page_size b) u)).
    - apply Hord. lia.
    - apply IH; lia. }
  intros u Hu. now apply (H (Z.to_nat u)).
Qed.

(** C5 (amended): on a non-empty heap that satisfies the invariant,
    VBH_root returns a live element that no other live element beats; it
    is the only such element when no two live elements tie. *)
Theorem root_is_minimum w :
  heap_inv w -> 1 < next (fst w) ->
  root_minimum w /\ (no_ties w -> root_unique_minimum w).
Proof.
  destruct w as [b m]. intros Hinv Hne.
  pose proof Hinv as (Hsh & Hcb & Hord). cbn [fst snd] in *.
  pose proof Hsh as (Hm & Hpg & Hr & Hrw & Hnl & Hl & Hlive).
  assert (Hroot : VBH_root (b, m) = Ok (slot b ROOT_IDX, (b, m)))
    by now apply VBH_root_ok.
  assert (Hlv : live b (slot b ROOT_IDX))
    by (exists ROOT_IDX; unfold ROOT_IDX; split; [lia | reflexivity]).
  assert (Hmin : beaten_by_none (b, m) (slot b ROOT_IDX)).
  { intros e' (u & Hu & <-) _. cbn [fst snd]. now apply root_below_all. }
  split; [exists (slot b ROOT_IDX); auto|].
  intros Hties. exists (slot b ROOT_IDX).
  split; [exact Hroot|]. split; [exact Hlv|]. split; [exact Hmin|].
  intros e2 Hl2 Hmin2. cbn [fst snd] in *.
  destruct (Z.eq_dec e2 (slot b ROOT_IDX)) as [E | Hne2]; [exact E | exfalso].
  pose proof Hl2 as (u & Hu & Eu).
  pose proof (root_below_all b m Hinv u Hu) as H1. rewrite Eu in H1.
  pose proof (Hmin2 _ Hlv ltac:(congruence)) as H2. cbn [fst snd] in H2.
  destruct (Hties e2 (slot b ROOT_IDX) Hl2 Hlv Hne2) as [H | H];
    cbn [fst snd] in H; congruence.
Qed.

(** C9: with a NULL update callback VBH_insert, VBH_root and VBH_reorder
    run to completion, and VBH_delete calls through the NULL pointer. *)
Theorem delete_calls_null_update b m :
  heap_inv (b, m) -> update b = None ->
  (forall idx, 0 < idx < next b ->
     VBH_delete VBH_NOIDX idx (b, m) = Err NullCall) /\
  (forall p, p <> NULL -> next b + 2 * ROW_WIDTH < 2 ^ 32 ->
     exists w', VBH_insert junk p (b, m) = Ok (tt, w') /\ update (fst w') = None) /\
  (exists e, VBH_root (b, m) = Ok (e, (b, m))) /\
  (forall idx m', 0 < idx < next b -> rekeyed b idx m m' ->
     exists w', VBH_reorder idx (b, m') = Ok (tt, w')).
Proof.
  intros Hinv Hnull. pose proof Hinv as (Hsh & Hcb & Hord). cbn [fst snd] in *.
  pose proof Hsh as (Hm & Hpg & Hr & Hrw & Hnl & Hl & Hlive).
  split; [|split; [|split]].
  - intros idx Hidx. unfold VBH_delete.
    run_with (check_ok b m Hm). run_get. unfold ROOT_IDX.
    run_assert. run_assert. run_assert.
    run_with (assert_A_ok b m idx Hr ltac:(lia) (Hlive idx ltac:(lia))).
    run_with (readA_ok b m idx Hr ltac:(lia)).
    apply bind_err. unfold call_update. cbn [fst]. now rewrite Hnull.
  - intros p Hp Hcap.
    destruct (VBH_insert_ok junk b m p Hinv Hp Hcap) as (b' & m' & E & _ & _ & _ & Hu & _).
    exists (b', m'). split; [exact E | cbn [fst]; congruence].
  - exists (slot b ROOT_IDX). now apply VBH_root_ok.
  - intros idx m' Hidx Hkey.
    destruct (VBH_reorder_ok b m m' idx Hinv Hidx Hkey) as (b' & m'' & E & _).
    now exists (b', m'').
Qed.

End HeapClaims.

(** * The heap on concrete inputs *)

Lemma ok_or_eq {A} (d : A) (r : res A) : is_ok r = true -> r = Ok (ok_or d r).
Proof. destruct r; [reflexivity | discriminate]. Qed.

Lemma after_eq {S} (c : M S unit) (s : S) :
  is_ok (c s) = true -> c s = Ok (tt, after c s).
Proof.
  unfold after. destruct (c s) as [[[] s']|]; [reflexivity | discriminate].
Qed.

Section HeapRuns.
Import Vbh VbhRun.

Lemma foo_cmp_strict_weak (m : foo_store) (p : ptr) : strict_weak (foo_cmp m p).
Proof.
  unfold foo_cmp. split; [|split].
  - intros x. apply Z.ltb_irrefl.
  - intros x y z H1 H2. apply Z.ltb_lt in H1, H2. apply Z.ltb_lt. lia.
  - intros x y z H1 H2. apply Z.ltb_ge in H1, H2. apply Z.ltb_ge. lia.
Qed.

Lemma foo_callbacks_ok (b : @vbh foo_store) :
  cmp b = foo_cmp -> (forall f, update b = Some f -> f = foo_update) ->
  callbacks_ok b.
Proof.
  intros Ec Eu. split.
  - intros m. rewrite Ec. apply foo_cmp_strict_weak.
  - intros f m p i x y E. rewrite Ec, (Eu f E). unfold foo_cmp, foo_update.
    destruct (Z.eqb_spec x p) as [-> | _], (Z.eqb_spec y p) as [-> | _];
      reflexivity.
Qed.

Lemma reachable_new (m : foo_store) (upd : option vbh_update_t) :
  upd = Some foo_update \/ upd = None ->
  is_ok (VBH_new junk0 4096 8 true 0 foo_cmp upd m) = true ->
  reachable junk0 NOIDX0
    (ok_or no_heap (VBH_new junk0 4096 8 true 0 foo_cmp upd m)).
Proof.
  intros Hu Hok.
  pose proof (ok_or_eq no_heap _ Hok) as E.
  set (w := ok_or no_heap _) in *.
  assert (Hps : 4 <= page_size (fst w)) by (unfold w; vm_compute; discriminate).
  destruct (VBH_new_inv junk0 _ _ _ _ _ _ _ _ E Hps) as (_ & _ & Ec & Eu & _).
  eapply reach_new; [exact E | exact Hps |].
  apply foo_callbacks_ok; [exact Ec|].
  intros f Ef. rewrite Eu in Ef. destruct Hu as [-> | ->]; congruence.
Qed.

Lemma reachable_insert_run (w : @world foo_store) (p : ptr) :
  reachable junk0 NOIDX0 w -> p <> NULL ->
  next (fst w) + 2 * ROW_WIDTH < 2 ^ 32 ->
  reachable junk0 NOIDX0 (after (VBH_insert junk0 p) w).
Proof.
  intros Hw Hp Hcap. destruct w as [b m].
  destruct (VBH_insert_ok junk0 b m p (reachable_inv _ _ _ Hw) Hp Hcap)
    as (b' & m' & E & _).
  eapply reach_insert; [exact Hw | exact Hp | exact Hcap |].
  apply after_eq. now rewrite E.
Qed.

Lemma reachable_delete_run (w : @world foo_store) (idx : Z) :
  reachable junk0 NOIDX0 w -> 0 < idx < next (fst w) ->
  update (fst w) <> None ->
  reachable junk0 NOIDX0 (after (VBH_delete NOIDX0 idx) w).
Proof.
  intros Hw Hidx Hupd. destruct w as [b m].
  destruct (VBH_delete_ok NOIDX0 b m idx (reachable_inv _ _ _ Hw) Hidx Hupd)
    as (b' & m' & E & _).
  eapply reach_delete; [exact Hw | exact Hidx | exact Hupd |].
  apply after_eq. now rewrite E.
Qed.

Lemma reachable_reorder_run (w : @world foo_store) (idx : Z) (m' : foo_store) :
  reachable junk0 NOIDX0 w -> 0 < idx < next (fst w) ->
  rekeyed (fst w) idx (snd w) m' ->
  reachable junk0 NOIDX0 (after (VBH_reorder idx) (fst w, m')).
Proof.
  intros Hw Hidx Hkey. destruct w as [b m]. cbn [fst snd] in *.
  destruct (VBH_reorder_ok b m m' idx (reachable_inv _ _ _ Hw) Hidx Hkey)
    as (b' & m'' & E & _).
  eapply reach_reorder; [exact Hw | exact Hidx | exact Hkey |].
  apply after_eq. cbn [fst snd]. now rewrite E.
Qed.

Lemma reach_heap0 : reachable junk0 NOIDX0 heap0.
Proof.
  apply reachable_new; [left; reflexivity | vm_compute; reflexivity].
Qed.

Lemma reach_heap3 : reachable junk0 NOIDX0 heap3.
Proof.
  apply (reachable_insert_run heap2 300); [| discriminate | vm_compute; reflexivity].
  apply (reachable_insert_run heap1 200); [| discriminate | vm_compute; reflexivity].
  apply (reachable_insert_run heap0 100); [| discriminate | vm_compute; reflexivity].
  exact reach_heap0.
Qed.

Lemma rekeyed_heap3 : rekeyed (fst heap3) 2 (snd heap3) mem3'.
Proof.
  assert (Hn : next (fst heap3) = 4) by (vm_compute; reflexivity).
  intros i j Hi Hj Hi2 Hj2. rewrite Hn in Hi, Hj.
  assert (Ei : i = 1 \/ i = 3) by lia. assert (Ej : j = 1 \/ j = 3) by lia.
  destruct Ei as [-> | ->], Ej as [-> | ->]; vm_compute; reflexivity.
Qed.

Lemma reach_heap5 : reachable junk0 NOIDX0 heap5.
Proof.
  apply (reachable_delete_run heap4 1);
    [| vm_compute; split; reflexivity | vm_compute; discriminate].
  apply (reachable_reorder_run heap3 2 mem3' reach_heap3);
    [vm_compute; split; reflexivity | exact rekeyed_heap3].
Qed.

Lemma reach_heap_tie : reachable junk0 NOIDX0 heap_tie.
Proof.
  apply (reachable_insert_run (after (VBH_insert junk0 100) heap_tie0) 200);
    [| discriminate | vm_compute; reflexivity].
  apply (reachable_insert_run heap_tie0 100);
    [| discriminate | vm_compute; reflexivity].
  apply reachable_new; [left; reflexivity | vm_compute; reflexivity].
Qed.

Lemma reach_heap_null : reachable junk0 NOIDX0 heap_null.
Proof.
  apply (reachable_insert_run heap_null0 100);
    [| discriminate | vm_compute; reflexivity].
  apply reachable_new; [right; reflexivity | vm_compute; reflexivity].
Qed.

Lemma heap_inv_sparse : heap_inv heap_sparse.
Proof.
  split; [|split].
  - split; [reflexivity|]. split; [repeat split; cbn; lia|]. split.
    { split; [reflexivity|]. exists 3. split; [reflexivity|]. split; [cbn; lia|].
      intros i Hi. cbn in Hi.
      destruct i as [|[|[|[|i]]]]; cbn; try lia;
        (split; [intros _; eexists; reflexivity | lia])
        || (split; [lia | reflexivity]). }
    split; [cbn; lia|]. split; [vm_compute; split; discriminate|].
    split; [vm_compute; split; [reflexivity | discriminate]|].
    intros u Hu. cbn in Hu. assert (u = 1) as -> by lia. vm_compute. discriminate.
  - apply foo_callbacks_ok; [reflexivity|]. intros f E. cbn in E. congruence.
  - intros w Hw. cbn in Hw. lia.
Qed.

(** A heap built by three insertions, a reorder after a key change and a
    deletion of the root is in order. *)
Lemma heap_property_reachable_witness :
  reachable junk0 NOIDX0 heap5 /\ heap_property heap5.
Proof.
  split; [exact reach_heap5|].
  apply (heap_property_reachable junk0 NOIDX0 heap5). exact reach_heap5.
Defined.

(** The slot 300 is in the bottom row of the first page: its children are
    the two roots of page 45. *)
Lemma parent_of_child_witness :
  child (fst heap_sparse) 300 = (23040, 23041) /\
  parent (fst heap_sparse) 23040 = Ok 300 /\
  parent (fst heap_sparse) 23041 = Ok 300.
Proof.
  split; [reflexivity|].
  apply (parent_of_child (fst heap_sparse) 300 23040 23041).
  - repeat split; cbn; lia.
  - lia.
  - reflexivity.
  - discriminate.
  - discriminate.
Defined.

(** Three rows are allocated and one element is left: deleting it leaves
    all three rows, two full rows above the occupancy. *)
Lemma delete_tail_keeps_length_witness :
  exists b' m',
    VBH_delete NOIDX0 1 heap_sparse = Ok (tt, (b', m')) /\
    next b' = next (fst heap_sparse) - 1 /\
    length b' = length (fst heap_sparse) /\
    rows b' = rows (fst heap_sparse).
Proof.
  apply (delete_tail_keeps_length NOIDX0 (fst heap_sparse) (snd heap_sparse) 1).
  - exact heap_inv_sparse.
  - discriminate.
  - lia.
  - reflexivity.
Defined.

(** Two elements with the same key: each of them is beaten by none, so
    there is no unique such element. *)
Lemma root_not_unique :
  heap_inv heap_tie /\ 1 < next (fst heap_tie) /\
  ~ root_unique_minimum heap_tie.
Proof.
  pose proof (reachable_inv _ _ _ reach_heap_tie) as Hinv.
  assert (Hn : next (fst heap_tie) = 3) by (vm_compute; reflexivity).
  assert (S1 : slot (fst heap_tie) 1 = 100) by (vm_compute; reflexivity).
  assert (S2 : slot (fst heap_tie) 2 = 200) by (vm_compute; reflexivity).
  split; [exact Hinv|]. split; [rewrite Hn; lia|].
  intros (e & Hroot & _ & _ & Huniq).
  assert (Hr : VBH_root heap_tie = Ok (slot (fst heap_tie) ROOT_IDX, heap_tie)).
  { generalize (proj1 Hinv). generalize heap_tie. intros [b m] Hsh.
    now apply VBH_root_ok. }
  assert (He : slot (fst heap_tie) ROOT_IDX = e) by congruence.
  unfold ROOT_IDX in He. rewrite S1 in He.
  assert (H200 : 200 = e).
  { apply Huniq.
    - exists 2. rewrite Hn. split; [lia | exact S2].
    - intros e' (u & Hu & Eu) Hne. rewrite Hn in Hu.
      assert (Eu' : u = 1 \/ u = 2) by lia.
      destruct Eu' as [-> | ->].
      + rewrite S1 in Eu. subst e'. vm_compute. reflexivity.
      + rewrite S2 in Eu. congruence. }
  congruence.
Qed.

Lemma root_is_minimum_witness :
  root_minimum heap3 /\ (no_ties heap3 -> root_unique_minimum heap3).
Proof.
  apply (root_is_minimum heap3).
  - exact (reachable_inv _ _ _ reach_heap3).
  - vm_compute. reflexivity.
Defined.

Lemma delete_calls_null_update_witness :
  VBH_delete NOIDX0 1 heap_null = Err NullCall.
Proof.
  rewrite (surjective_pairing heap_null).
  refine (proj1 (delete_calls_null_update junk0 NOIDX0
                   (fst heap_null) (snd heap_null) _ _) 1 _).
  - rewrite <- surjective_pairing. exact (reachable_inv _ _ _ reach_heap_null).
  - vm_compute. reflexivity.
  - vm_compute. split; reflexivity.
Defined.

End HeapRuns.

(** * Running the parser *)

#[local] Arguments Z.add _ _ : simpl never.
#[local] Arguments Z.sub _ _ : simpl never.

Lemma bind_inv {S A B} (c : M S A) (k : A -> M S B) s r s' :
  bind c k s = Ok (r, s') ->
  exists a s1, c s = Ok (a, s1) /\ k a s1 = Ok (r, s').
Proof.
  unfold bind. destruct (c s) as [[a s1]|f]; [eauto | discriminate].
Qed.

Lemma ret_inv {S A} (a : A) (s : S) r s' :
  ret a s = Ok (r, s') -> r = a /\ s' = s.
Proof. unfold ret. intros H. inversion H. auto. Qed.

Lemma get_inv {S} (s : S) r s' :
  get s = Ok (r, s') -> r = s /\ s' = s.
Proof. unfold get. intros H. inversion H. auto. Qed.

Lemma modify_inv {S} (f : S -> S) (s : S) r s' :
  modify f s = Ok (r, s') -> s' = f s.
Proof. unfold modify. intros H. inversion H. auto. Qed.

Lemma fail_inv {S A} (f : fault) (s : S) (r : A) s' :
  fail f s = Ok (r, s') -> False.
Proof. discriminate. Qed.

Lemma assert_inv {S} (b : bool) (s : S) r s' :
  assert b s = Ok (r, s') -> b = true /\ s' = s.
Proof. destruct b; cbn; intros H; inversion H; auto. Qed.

Section ParserSteps.

Import Vxp.
Context {double vre : Type} {ext : Extern double vre}.
Implicit Types s : vxp.

Lemma cur_inv s x s' :
  cur s = Ok (x, s') -> s' = s /\ exists rest, t s = x :: rest.
Proof.
  unfold cur. destruct (t s) as [|y rest]; intros H; inversion H.
  subst. eauto.
Qed.

Lemma AZ_inv {A} (p : option A) s r s' :
  AZ p s = Ok (r, s') -> p = None /\ s' = s.
Proof. destruct p; cbn; intros H; inversion H; auto. Qed.

Lemma dec_of_inv x s d s' :
  dec_of x s = Ok (d, s') -> dec x = Some d /\ s' = s.
Proof. unfold dec_of. destruct (dec x); cbn; intros H; inversion H; auto. Qed.

Lemma AN_dec_inv x s d s' :
  AN_dec x s = Ok (d, s') -> dec x = Some d /\ s' = s.
Proof. unfold AN_dec. destruct (dec x); cbn; intros H; inversion H; auto. Qed.

Lemma ERRCHK_inv {A} (r0 : A) (k : P A) s r s' :
  ERRCHK r0 k s = Ok (r, s') ->
  (err s = true /\ r = r0 /\ s' = s) \/ (err s = false /\ k s = Ok (r, s')).
Proof.
  unfold ERRCHK. destruct (err s); intros H; [left | right; auto].
  inversion H. auto.
Qed.

Lemma alloc_inv x s r s' :
  alloc x s = Ok (r, s') -> s' = set_live (ledger_add (live s) x) s.
Proof. intros H. apply modify_inv in H. exact H. Qed.

Lemma release_inv x s r s' :
  release x s = Ok (r, s') -> s' = set_live (ledger_sub (live s) x) s.
Proof. intros H. apply modify_inv in H. exact H. Qed.

Lemma VSB_cat_inv m s r s' :
  VSB_cat m s = Ok (r, s') -> s' = set_sb (sb s ++ m)%string s.
Proof. intros H. apply modify_inv in H. exact H. Qed.

Lemma vxp_ErrWhere_inv x off s r s' :
  vxp_ErrWhere x off s = Ok (r, s') ->
  s' = set_err true (set_err_where (Some (x, off)) s).
Proof. intros H. apply modify_inv in H. exact H. Qed.

Lemma vxp_NextToken_inv s r s' :
  vxp_NextToken s = Ok (r, s') ->
  exists x rest, t s = x :: rest /\ moved rest s s'.
Proof.
  unfold vxp_NextToken, bind, get. destruct (t s) as [|x rest] eqn:E.
  - discriminate.
  - exists x, rest. split; [reflexivity|].
    destruct rest as [|y rest]; cbn in H; inversion H; subst; cbn;
      unfold moved; cbn; repeat split; auto; try congruence;
      try discriminate.
Qed.

Lemma vxp_NEXT_inv s r s' :
  vxp_NEXT s = Ok (r, s') ->
  exists x rest, t s = x :: rest /\ s' = set_t rest s.
Proof.
  unfold vxp_NEXT, bind, get. destruct (t s) as [|x rest]; intros H.
  - discriminate.
  - apply modify_inv in H. eauto.
Qed.

End ParserSteps.

(** [run H] takes the run [H : c s = Ok (r, s')] apart, along the
    binds of [c]; the calls it does not know stay as hypotheses. *)
Ltac run H :=
  cbv beta zeta in H;
  lazymatch type of H with
  | Vxp.vxp_NEXT _ = Ok _ =>
      let E := fresh "T" in
      apply vxp_NEXT_inv in H; destruct H as (? & ? & E & ?); subst
  | bind _ _ _ = Ok _ =>
      let a := fresh "a" in
      let s1 := fresh "s" in
      let R := fresh "R" in
      apply bind_inv in H; destruct H as (a & s1 & R & H); run R; run H
  | ret _ _ = Ok _ =>
      apply ret_inv in H; destruct H as [? ?]; subst
  | get _ = Ok _ =>
      apply get_inv in H; destruct H as [? ?]; subst
  | modify _ _ = Ok _ => apply modify_inv in H; subst
  | fail _ _ = Ok _ => discriminate H
  | assert _ _ = Ok _ =>
      let E := fresh "E" in
      apply assert_inv in H; destruct H as [E ?]; subst
  | Vxp.AZ _ _ = Ok _ =>
      apply AZ_inv in H; destruct H as [? ?]; subst
  | Vxp.cur _ = Ok _ =>
      let E := fresh "T" in
      apply cur_inv in H; destruct H as [? [? E]]; subst
  | Vxp.cur_tok _ = Ok _ => unfold Vxp.cur_tok in H; run H
  | Vxp.dec_of _ _ = Ok _ =>
      let E := fresh "D" in
      apply dec_of_inv in H; destruct H as [E ?]; subst
  | Vxp.AN_dec _ _ = Ok _ =>
      let E := fresh "D" in
      apply AN_dec_inv in H; destruct H as [E ?]; subst
  | Vxp.alloc _ _ = Ok _ => apply alloc_inv in H; subst
  | Vxp.release _ _ = Ok _ => apply release_inv in H; subst
  | Vxp.VSB_cat _ _ = Ok _ => apply VSB_cat_inv in H; subst
  | Vxp.VSB_printf_PF _ _ _ = Ok _ => unfold Vxp.VSB_printf_PF in H; run H
  | Vxp.vxp_ErrWhere _ _ _ = Ok _ => apply vxp_ErrWhere_inv in H; subst
  | Vxp.vxp_NextToken _ = Ok _ =>
      let E := fresh "T" in
      let N := fresh "N" in
      apply vxp_NextToken_inv in H; destruct H as (? & ? & E & N)
  | Vxp.ERRCHK _ _ _ = Ok _ =>
      let E := fresh "E" in
      apply ERRCHK_inv in H; destruct H as [(E & ? & ?) | (E & H)];
      [subst | run H]
  | Vxp.oops _ _ _ = Ok _ => unfold Vxp.oops in H; run H
  | Vxp.and_then _ _ _ = Ok _ => unfold Vxp.and_then in H; run H
  | Vxp.vxp__Expect _ _ = Ok _ => unfold Vxp.vxp__Expect in H; run H
  | Vxp.ExpectErr _ _ _ _ = Ok _ => unfold Vxp.ExpectErr in H; run H
  | Vxp.SkipToken _ _ _ _ = Ok _ => unfold Vxp.SkipToken in H; run H
  | Vxp.vex_alloc _ = Ok _ => unfold Vxp.vex_alloc in H; run H
  | (match (if ?b then _ else _) with _ => _ end) _ = Ok _ =>
      let E := fresh "E" in destruct b eqn:E; run H
  | (match (match ?x with _ => _ end) with _ => _ end) _ = Ok _ =>
      let E := fresh "E" in destruct x eqn:E; run H
  | (if ?b then _ else _) _ = Ok _ =>
      let E := fresh "E" in destruct b eqn:E; run H
  | (match ?x with _ => _ end) _ = Ok _ =>
      let E := fresh "E" in destruct x eqn:E; run H
  | _ => idtac
  end.

Ltac moved_facts :=
  repeat match goal with
         | N : Vxp.moved _ _ _ |- _ =>
             destruct N as (? & ? & ? & ? & ? & ? & ? & ?)
         end.

Ltac bools :=
  repeat match goal with
         | H : (_ <? _) = true |- _ => apply Z.ltb_lt in H
         | H : (_ <? _) = false |- _ => apply Z.ltb_ge in H
         | H : (_ <=? _) = true |- _ => apply Z.leb_le in H
         | H : (_ <=? _) = false |- _ => apply Z.leb_gt in H
         | H : (_ =? _) = true |- _ => apply Z.eqb_eq in H
         | H : (_ =? _) = false |- _ => apply Z.eqb_neq in H
         | H : negb _ = true |- _ => apply negb_true_iff in H
         | H : negb _ = false |- _ => apply negb_false_iff in H
         | H : (_ || _) = false |- _ => apply orb_false_iff in H; destruct H
         | H : (_ && _) = true |- _ => apply andb_true_iff in H; destruct H
         | H : (_ && _) = false |- _ =>
             apply andb_false_iff in H; destruct H
         end.

Ltac live_rw :=
  repeat match goal with
         | H : Vxp.live ?s = _ |- _ => is_var s; rewrite H in *; clear H
         end.

Lemma ledger_eq (x y : Vxp.ledger) :
  Vxp.n_vex x = Vxp.n_vex y -> Vxp.n_lhs x = Vxp.n_lhs y ->
  Vxp.n_rhs x = Vxp.n_rhs y -> Vxp.n_str x = Vxp.n_str y ->
  Vxp.n_vbm x = Vxp.n_vbm y -> Vxp.n_vre x = Vxp.n_vre y -> x = y.
Proof. destruct x, y; cbn; intros; subst; reflexivity. Qed.

Ltac ledger := apply ledger_eq; cbn; lia.

(** the six counters of an equation between ledgers *)
Ltac ledger_hyp H :=
  pose proof (f_equal Vxp.n_vex H); pose proof (f_equal Vxp.n_lhs H);
  pose proof (f_equal Vxp.n_rhs H); pose proof (f_equal Vxp.n_str H);
  pose proof (f_equal Vxp.n_vbm H); pose proof (f_equal Vxp.n_vre H);
  clear H.

Section LhsFacts.

Import Vxp.
Context {double vre : Type} {ext : Extern double vre}.
Implicit Types s : vxp.
Implicit Types l : vex_lhs.

Lemma lhs_level_post l s r s' :
  lhs_level l s = Ok (r, s') -> part_post l s r s'.
Proof.
  intros H. unfold lhs_level in H. run H; moved_facts; bools;
    unfold part_post, lhs_wf in *; cbn in *;
    repeat split; try congruence; try lia.
Qed.

Ltac part_done :=
  moved_facts; bools; unfold part_post, lhs_wf in *; cbn in *;
  repeat split; try congruence; try lia.

Lemma lhs_tags_post fuel : forall l s r s',
  lhs_tags fuel l s = Ok (r, s') -> part_post l s r s'.
Proof.
  induction fuel as [|fuel IH]; intros l s r s' H; [discriminate|].
  cbn [lhs_tags] in H. run H; try solve [part_done].
  all: apply IH in H; moved_facts; bools;
    unfold part_post, lhs_wf in *; cbn in *;
    destruct H as (Hl & Hp & Hr); repeat split; try congruence;
    destruct r; auto; intros; apply Hr; lia.
Qed.

Lemma lhs_field_post l s r s' :
  lhs_field l s = Ok (r, s') -> part_post l s r s'.
Proof.
  intros H. unfold lhs_field in H. run H; part_done.
Qed.

Lemma strlen_nonneg (d : string) : 0 <= strlen d.
Proof. unfold strlen. lia. Qed.

Lemma lhs_prefix_post l s r s' :
  lhs_prefix l s = Ok (r, s') ->
  (prefix l = None ->
   ledger_add (live s) (held_lhs (flow_val r))
   = ledger_add (live s') (held_lhs l)) /\
  match r with
  | Return _ => err s' = true
  | Next l' => lhs_wf l -> lhs_wf l'
  end.
Proof.
  intros H. unfold lhs_prefix in H.
  run H; moved_facts; bools; unfold lhs_wf, held_lhs in *; cbn in *;
    live_rw; (split; [intros Hp; try rewrite Hp; ledger|]); auto.
  intros. pose proof (strlen_nonneg a2). lia.
Qed.

Lemma lhs_vxid_post l s r s' :
  lhs_vxid l s = Ok (r, s') ->
  r = l /\ live s' = live s /\
  (err s' = false -> lhs_wf l -> vxid l <> 0 -> vxid_alone l).
Proof.
  intros H. unfold lhs_vxid in H.
  run H; bools; unfold lhs_wf, vxid_alone; cbn; repeat split;
    try discriminate; try lia; intros; lia.
Qed.

Lemma vxp_expr_lhs_post plhs s l s' :
  vxp_expr_lhs plhs s = Ok (l, s') ->
  live s' = ledger_add (live s) (held_lhs l) /\
  (err s' = false -> vxid l <> 0 -> vxid_alone l).
Proof.
  intros H. unfold vxp_expr_lhs in H. run H.
  all: repeat match goal with
         | R : lhs_level _ _ = Ok _ |- _ => apply lhs_level_post in R
         | R : lhs_tags _ _ _ = Ok _ |- _ => apply lhs_tags_post in R
         | R : lhs_prefix _ _ = Ok _ |- _ => apply lhs_prefix_post in R
         | R : lhs_field _ _ = Ok _ |- _ => apply lhs_field_post in R
         | R : lhs_vxid _ _ = Ok _ |- _ => apply lhs_vxid_post in R
         end.
  all: unfold part_post in *; cbn in *.
  all: assert (W : lhs_wf (mk_lhs [] None 0 0 (-1) 0 0 0))
    by (unfold lhs_wf; cbn; lia).
  all: repeat match goal with H : _ /\ _ |- _ => destruct H end.
  all: split; [| intros; try congruence; subst; auto 10].
  all: repeat match goal with
         | H : prefix _ = None -> _ |- _ =>
             let K := fresh "K" in
             assert (K := H ltac:(congruence)); clear H; ledger_hyp K
         end.
  all: subst; unfold held_lhs in *;
    repeat match goal with
           | H : prefix ?x = _ |- _ => is_var x; rewrite H in *; clear H
           end;
    live_rw; cbn in *; ledger.
Qed.

End LhsFacts.

(** ** The operators *)

Lemma tok_eqb_eq (x y : Vxp.token_kind) : Vxp.tok_eqb x y = true -> x = y.
Proof.
  destruct x, y; cbn; try discriminate; try reflexivity.
  intros H. apply Ascii.eqb_eq in H. congruence.
Qed.

Lemma tok_eqb_refl (x : Vxp.token_kind) : Vxp.tok_eqb x x = true.
Proof. destruct x; cbn; auto. apply Ascii.eqb_refl. Qed.

Lemma vxid_operator_num (tk : Vxp.token_kind) :
  Vxp.vxid_operator tk = true ->
  Vxp.single_lhs tk = false /\ Vxp.num_operator tk = true.
Proof.
  unfold Vxp.vxid_operator. intros H.
  repeat (apply orb_true_iff in H; destruct H as [H|H]);
    apply tok_eqb_eq in H; subst; split; reflexivity.
Qed.

Section CmpFacts.

Import Vxp.
Context {double vre : Type} {ext : Extern double vre}.
Implicit Types s : vxp.
Implicit Types l : vex_lhs.

Lemma vxp_expr_num_post prhs vx s (r : option (vex_rhs double vre)) s' :
  vxp_expr_num prhs vx s = Ok (r, s') ->
  live s' = ledger_add (live s) (owned held_rhs r) /\
  (err s' = false -> vx <> 0 ->
   exists rr, r = Some rr /\ type rr = VEX_INT).
Proof.
  intros H. unfold vxp_expr_num in H.
  run H; moved_facts; bools; cbn in *; live_rw;
    (split; [ledger|]); try discriminate; intros; try tauto;
    try (eexists; split; [reflexivity|]; cbn).
  all: try reflexivity.
  all: try congruence.
  all: exfalso; bools; try discriminate; lia.
Qed.

Lemma vxp_expr_str_post prhs s (r : option (vex_rhs double vre)) s' :
  vxp_expr_str prhs s = Ok (r, s') ->
  live s' = ledger_add (live s) (owned held_rhs r).
Proof.
  intros H. unfold vxp_expr_str in H.
  run H; moved_facts; cbn in *; live_rw; ledger.
Qed.

Lemma vxp_expr_regex_post prhs s (r : option (vex_rhs double vre)) s' :
  vxp_expr_regex prhs s = Ok (r, s') ->
  live s' = ledger_add (live s) (owned held_rhs r).
Proof.
  intros H. unfold vxp_expr_regex in H.
  run H; moved_facts; cbn in *; live_rw; ledger.
Qed.

Lemma vxp_vxid_cmp_post s r s' :
  vxp_vxid_cmp s = Ok (r, s') ->
  live s' = live s /\
  (err s' = false ->
   s' = s /\ exists x rest, t s = x :: rest /\ vxid_operator (tok x) = true).
Proof.
  intros H. unfold vxp_vxid_cmp in H.
  run H; cbn; split; auto; try discriminate.
  intros _. split; eauto.
Qed.

Lemma vxp_expr_cmp_cur pvex s r s' :
  vxp_expr_cmp pvex s = Ok (r, s') -> t s <> [].
Proof.
  intros H. unfold vxp_expr_cmp in H.
  apply bind_inv in H. destruct H as (? & ? & R & H). run R.
  apply bind_inv in H. destruct H as (? & ? & R & H). run R.
  apply bind_inv in H. destruct H as (? & ? & R & _).
  unfold vxp_expr_lhs in R.
  apply bind_inv in R. destruct R as (? & ? & R0 & R). run R0.
  apply bind_inv in R. destruct R as (? & ? & R0 & R). run R0.
  apply bind_inv in R. destruct R as (? & ? & R0 & R). run R0.
  apply bind_inv in R. destruct R as (? & ? & R & _).
  unfold and_then in R.
  apply bind_inv in R. destruct R as (? & ? & R & _).
  unfold lhs_level in R.
  apply bind_inv in R. destruct R as (? & ? & R & _). run R.
  cbn in *. congruence.
Qed.

Lemma vxp_expr_cmp_post pvex s r s' :
  vxp_expr_cmp pvex s = Ok (r, s') ->
  exists v, r = Some v /\
    live s' = ledger_add (live s) (held v) /\
    (err s' = false -> vxid_checked v).
Proof.
  intros H. unfold vxp_expr_cmp in H. run H.
  all: repeat match goal with
         | R : vxp_expr_lhs _ _ = Ok _ |- _ => apply vxp_expr_lhs_post in R
         | R : vxp_vxid_cmp _ = Ok _ |- _ => apply vxp_vxid_cmp_post in R
         | R : vxp_expr_num _ _ _ = Ok _ |- _ => apply vxp_expr_num_post in R
         | R : vxp_expr_str _ _ = Ok _ |- _ => apply vxp_expr_str_post in R
         | R : vxp_expr_regex _ _ = Ok _ |- _ =>
             apply vxp_expr_regex_post in R
         end.
  all: eexists; split; [reflexivity|].
  all: moved_facts; cbn in *.
  all: repeat match goal with H : _ /\ _ |- _ => destruct H end.
  all: live_rw; (split; [ledger|]).
  all: intros He; unfold vxid_checked; cbn; eexists;
    (split; [reflexivity|]); intros Hv.
  all: try congruence.
  all: bools; try (exfalso; lia).
  all: match goal with
       | H : err ?s1 = false -> ?s1 = _ /\ _, E : err ?s1 = false |- _ =>
           destruct (H E) as (-> & x' & rest' & Tx & Hop)
       end.
  all: match goal with
       | T : t ?s = _ :: _, Tx : t ?s = _ :: _ |- _ =>
           rewrite T in Tx; injection Tx as <- <-
       end.
  all: destruct (vxid_operator_num _ Hop) as [Hs Hn]; try congruence.
  all: cbn in *; try congruence.
  split; [auto | split; [auto|]].
  match goal with
  | H : err ?s = false -> _ -> exists _, _ |- _ => apply H; auto
  end.
Qed.

End CmpFacts.

(** ** The fuel of the loop over the tags is enough *)

Lemma bind_inv_err {S A B} (c : M S A) (k : A -> M S B) s f :
  bind c k s = Err f ->
  c s = Err f \/ exists a s1, c s = Ok (a, s1) /\ k a s1 = Err f.
Proof.
  unfold bind. destruct (c s) as [[a s1]|f']; intros H; [eauto|].
  left. inversion H. reflexivity.
Qed.

Lemma nofuel_bind {S A B} (c : M S A) (k : A -> M S B) :
  nofuel c -> (forall a, nofuel (k a)) -> nofuel (bind c k).
Proof.
  intros Hc Hk s H. apply bind_inv_err in H.
  destruct H as [H | (a & s1 & _ & H)]; [exact (Hc s H) | exact (Hk a s1 H)].
Qed.

Lemma nofuel_ret {S A} (a : A) : nofuel (ret a : M S A).
Proof. intros s. discriminate. Qed.

Lemma nofuel_get {S} : nofuel (get : M S S).
Proof. intros s. discriminate. Qed.

Lemma nofuel_modify {S} (f : S -> S) : nofuel (modify f).
Proof. intros s. discriminate. Qed.

Lemma nofuel_fail {S A} (f : fault) :
  f <> OutOfFuel -> nofuel (fail f : M S A).
Proof. intros Hf s H. inversion H. auto. Qed.

Lemma nofuel_assert {S} (b : bool) : nofuel (assert b : M S unit).
Proof. intros s. destruct b; discriminate. Qed.

Section Fuel.

Import Vxp.
Context {double vre : Type} {ext : Extern double vre}.
Implicit Types s : vxp.

Lemma nofuel_cur : nofuel cur.
Proof. intros s. unfold cur. destruct (t s); discriminate. Qed.

Lemma nofuel_ERRCHK {A} (r : A) (k : P A) : nofuel k -> nofuel (ERRCHK r k).
Proof.
  intros Hk s. unfold ERRCHK. destruct (err s); [discriminate | apply Hk].
Qed.

Lemma ERRCHK_inv_err {A} (r : A) (k : P A) s f :
  ERRCHK r k s = Err f -> err s = false /\ k s = Err f.
Proof.
  unfold ERRCHK. destruct (err s); [discriminate | auto].
Qed.

Lemma nofuel_NextToken : nofuel vxp_NextToken.
Proof.
  intros s. unfold vxp_NextToken, bind, get.
  destruct (t s) as [|x [|y rest]]; discriminate.
Qed.

Lemma nofuel_NEXT : nofuel vxp_NEXT.
Proof.
  intros s. unfold vxp_NEXT, bind, get. destruct (t s); discriminate.
Qed.

Lemma nofuel_AZ {A} (p : option A) : nofuel (AZ p).
Proof. intros s. destruct p; discriminate. Qed.

Lemma nofuel_dec_of x : nofuel (dec_of x).
Proof. intros s. unfold dec_of. destruct (dec x); discriminate. Qed.

Lemma nofuel_AN_dec x : nofuel (AN_dec x).
Proof. intros s. unfold AN_dec. destruct (dec x); discriminate. Qed.

End Fuel.

(** the straight-line code *)
Ltac nofuel_step :=
  lazymatch goal with
  | |- nofuel (bind _ _) => apply nofuel_bind; [|intro]
  | |- nofuel (ret _) => apply nofuel_ret
  | |- nofuel get => apply nofuel_get
  | |- nofuel (modify _) => apply nofuel_modify
  | |- nofuel (fail _) => apply nofuel_fail; discriminate
  | |- nofuel (assert _) => apply nofuel_assert
  | |- nofuel Vxp.cur => apply nofuel_cur
  | |- nofuel Vxp.cur_tok => unfold Vxp.cur_tok
  | |- nofuel (Vxp.ERRCHK _ _) => apply nofuel_ERRCHK
  | |- nofuel Vxp.vxp_NextToken => apply nofuel_NextToken
  | |- nofuel Vxp.vxp_NEXT => apply nofuel_NEXT
  | |- nofuel (Vxp.AZ _) => apply nofuel_AZ
  | |- nofuel (Vxp.dec_of _) => apply nofuel_dec_of
  | |- nofuel (Vxp.AN_dec _) => apply nofuel_AN_dec
  | |- nofuel (Vxp.alloc _) => apply nofuel_modify
  | |- nofuel (Vxp.release _) => apply nofuel_modify
  | |- nofuel (Vxp.VSB_cat _) => apply nofuel_modify
  | |- nofuel (Vxp.VSB_printf_PF _ _) => apply nofuel_modify
  | |- nofuel (Vxp.vxp_ErrWhere _ _) => apply nofuel_modify
  | |- nofuel (Vxp.oops _ _) => unfold Vxp.oops
  | |- nofuel (Vxp.and_then _ _) => unfold Vxp.and_then
  | |- nofuel (Vxp.vxp__Expect _) => unfold Vxp.vxp__Expect
  | |- nofuel (Vxp.ExpectErr _ _ _) => unfold Vxp.ExpectErr
  | |- nofuel (Vxp.SkipToken _ _ _) => unfold Vxp.SkipToken
  | |- nofuel Vxp.vex_alloc => unfold Vxp.vex_alloc
  | |- nofuel (if ?b then _ else _) => destruct b
  | |- nofuel (match ?x with _ => _ end) => destruct x
  | |- nofuel (let (_, _) := ?x in _) => destruct x
  end.

Ltac nofuel_run := repeat (cbv beta zeta; nofuel_step).

(** the first step of a run that ends in a fault: the fault is in the
    step, or the step returns and the fault comes later *)
Ltac err_step H :=
  let a := fresh "a" in
  let s1 := fresh "s" in
  let R := fresh "R" in
  apply bind_inv_err in H; destruct H as [H | (a & s1 & R & H)];
  [ | run R ].

Ltac by_nofuel H :=
  lazymatch type of H with
  | ?c ?s = Err OutOfFuel =>
      let N := fresh "N" in
      assert (N : nofuel c) by nofuel_run; exact (N s H)
  end.

Section FuelOfCmp.

Import Vxp.
Context {double vre : Type} {ext : Extern double vre}.
Implicit Types s : vxp.

Lemma lhs_tags_fuel fuel : forall l s,
  (List.length (t s) < fuel)%nat -> lhs_tags fuel l s <> Err OutOfFuel.
Proof.
  induction fuel as [|fuel IH]; intros l s Hf H; [lia|].
  cbn [lhs_tags] in H.
  apply bind_inv_err in H. destruct H as [H | (x & s0 & R & H)].
  { exact (nofuel_cur _ H). }
  run R. unfold and_then in H.
  apply bind_inv_err in H. destruct H as [H | (r & s1 & R & H)].
  { by_nofuel H. }
  destruct r as [[l' i]|l']; [|discriminate].
  assert (Hs1 : t s1 = t s).
  { run R; cbn; reflexivity. }
  clear R. cbv beta zeta in H.
  destruct (i =? -1); [by_nofuel H|].
  destruct (i =? -2); [by_nofuel H|].
  destruct (i =? -3); [by_nofuel H|].
  apply bind_inv_err in H. destruct H as [H | (? & s2 & R & H)].
  { exact (nofuel_assert _ _ H). }
  run R.
  apply bind_inv_err in H. destruct H as [H | (? & s2 & R & H)].
  { exact (nofuel_NextToken _ H). }
  run R.
  apply bind_inv_err in H. destruct H as [H | (? & s3 & R & H)].
  { by_nofuel H. }
  run R.
  destruct (negb (tok_eqb (tok a) (CHR ","))); [discriminate|].
  apply bind_inv_err in H. destruct H as [H | (? & s4 & R & H)].
  { exact (nofuel_NextToken _ H). }
  run R. moved_facts.
  apply IH in H; [exact H|].
  assert (L1 : List.length (t s) = S (List.length x4)).
  { rewrite <- Hs1, T0. reflexivity. }
  assert (L2 : List.length x4 = S (List.length (t s4))).
  { match goal with
    | E1 : t s2 = x4, E2 : t s2 = _ :: _, E3 : t s4 = _ |- _ =>
        rewrite <- E1, E2, E3; reflexivity
    end. }
  lia.
Qed.

(** the comparison does not run out of fuel *)
Lemma vxp_expr_lhs_fuel plhs : nofuel (vxp_expr_lhs plhs).
Proof.
  unfold vxp_expr_lhs.
  assert (Htags : forall l,
             nofuel (s <- get ;; lhs_tags (S (List.length (t s))) l)).
  { intros l s H. apply bind_inv_err in H.
    destruct H as [H | (? & ? & R & H)]; [discriminate|].
    run R. revert H. apply lhs_tags_fuel. lia. }
  unfold lhs_level, lhs_prefix, lhs_field, lhs_vxid.
  repeat (cbv beta zeta;
          first [ apply Htags | nofuel_step ]).
Qed.

Lemma vxp_expr_cmp_fuel (pvex : option (vex double vre)) :
  nofuel (vxp_expr_cmp pvex).
Proof.
  unfold vxp_expr_cmp, vxp_vxid_cmp, vxp_expr_num, vxp_expr_str,
    vxp_expr_regex.
  repeat (cbv beta zeta;
          first [ apply vxp_expr_lhs_fuel | nofuel_step ]).
Qed.

End FuelOfCmp.

(** ** What the productions allocate *)

Section ProductionFacts.

Import Vxp.
Context {double vre : Type} {ext : Extern double vre}.
Implicit Types s : vxp.
Implicit Types v : vex double vre.
Implicit Types pvex r : option (vex double vre).

Lemma vxp_expr_cmp_grows pvex s r s' :
  vxp_expr_cmp pvex s = Ok (r, s') -> grows pvex s r s'.
Proof.
  intros H.
  assert (pvex = None) as ->.
  { unfold vxp_expr_cmp in H. apply bind_inv in H.
    destruct H as (? & ? & H & _). apply AZ_inv in H. tauto. }
  pose proof (vxp_expr_cmp_cur _ _ _ _ H) as Hc.
  apply vxp_expr_cmp_post in H. destruct H as (v & -> & Hl & _).
  split; [auto|]. split; [eauto|]. rewrite Hl. cbn. ledger.
Qed.

Variable expr_or : option (vex double vre) -> P (option (vex double vre)).
Hypothesis expr_or_grows : forall pvex s r s',
  expr_or pvex s = Ok (r, s') -> grows pvex s r s'.

Ltac grow_facts :=
  repeat match goal with
         | R : expr_or _ _ = Ok _ |- _ => apply expr_or_grows in R
         | R : vxp_expr_cmp _ _ = Ok _ |- _ => apply vxp_expr_cmp_grows in R
         end.

Ltac grow_done :=
  unfold grows in *; moved_facts; cbn in *;
  repeat match goal with
         | H : _ /\ _ |- _ => destruct H
         | H : exists _, _ |- _ => destruct H
         | H : ?x <> [] -> _, T : t _ = _ :: _ |- _ =>
             let K := fresh "K" in
             assert (K := H ltac:(congruence)); clear H;
             match type of K with ?v = _ => subst v end
         end;
  subst; cbn in *;
  repeat match goal with
         | H : ledger_add _ _ = ledger_add _ _ |- _ => ledger_hyp H
         end;
  cbn in *; live_rw; cbn in *;
  (split; [congruence|]);
  (split; [intros; try congruence; eauto | ledger]).

Lemma vxp_expr_group_grows pvex s r s' :
  vxp_expr_group expr_or pvex s = Ok (r, s') -> grows pvex s r s'.
Proof.
  intros H. unfold vxp_expr_group in H. run H; grow_facts;
    try congruence; try assumption; grow_done.
Qed.

Ltac sub_facts :=
  repeat match goal with
         | R : vxp_expr_group _ _ _ = Ok _ |- _ =>
             apply vxp_expr_group_grows in R
         end.

Lemma vxp_expr_not_grows pvex s r s' :
  vxp_expr_not expr_or pvex s = Ok (r, s') -> grows pvex s r s'.
Proof.
  intros H. unfold vxp_expr_not in H. run H; sub_facts;
    try assumption; grow_done.
Qed.

Ltac loop_done :=
  unfold grows, loop_grows in *; moved_facts; cbn in *;
  repeat match goal with
         | H : _ /\ _ |- _ => destruct H
         | H : exists _, _ |- _ => destruct H
         | H : ?x <> [] -> _, T : t _ = _ :: _ |- _ =>
             let K := fresh "K" in
             assert (K := H ltac:(congruence)); clear H;
             match type of K with ?v = _ => subst v end
         | H : Some _ <> None -> _ |- _ =>
             let K := fresh "K" in
             assert (K := H ltac:(discriminate)); clear H
         end;
  subst; cbn in *;
  repeat match goal with
         | H : ledger_add _ _ = ledger_add _ _ |- _ => ledger_hyp H
         end;
  cbn in *; live_rw; cbn in *;
  (split; [congruence|]);
  (split; [intros; try congruence; eauto | ledger]).

Lemma and_loop_grows fuel : forall pvex s r s',
  and_loop expr_or fuel pvex s = Ok (r, s') -> loop_grows pvex s r s'.
Proof.
  induction fuel as [|fuel IH]; intros pvex s r s' H; [discriminate|].
  cbn [and_loop] in H. run H;
    repeat match goal with
           | R : vxp_expr_not _ _ _ = Ok _ |- _ =>
               apply vxp_expr_not_grows in R
           | R : and_loop _ _ _ _ = Ok _ |- _ => apply IH in R
           end;
    try solve [loop_done].
  unfold loop_grows. split; [congruence|].
  split; [destruct pvex; [eauto | congruence] | reflexivity].
Qed.

Lemma vxp_expr_and_grows fuel pvex s r s' :
  vxp_expr_and expr_or fuel pvex s = Ok (r, s') -> grows pvex s r s'.
Proof.
  intros H. unfold vxp_expr_and in H. run H;
    repeat match goal with
           | R : vxp_expr_not _ _ _ = Ok _ |- _ =>
               apply vxp_expr_not_grows in R
           | R : and_loop _ _ _ _ = Ok _ |- _ => apply and_loop_grows in R
           end.
  - assumption.
  - unfold grows, loop_grows in *.
    repeat match goal with H : _ /\ _ |- _ => destruct H end.
    split; [assumption|]. split.
    + intros He.
      match goal with
      | H : err _ = false -> exists _, _ |- _ => destruct (H He) as [v ->]
      end.
      match goal with
      | H : Some _ <> None -> _ |- _ => apply H; discriminate
      end.
    + repeat match goal with
             | H : ledger_add _ _ = ledger_add _ _ |- _ => ledger_hyp H
             end.
      cbn in *. ledger.
Qed.

Lemma or_loop_grows fuel : forall pvex s r s',
  or_loop expr_or fuel pvex s = Ok (r, s') -> loop_grows pvex s r s'.
Proof.
  induction fuel as [|fuel IH]; intros pvex s r s' H; [discriminate|].
  cbn [or_loop] in H. run H;
    repeat match goal with
           | R : vxp_expr_and _ _ _ _ = Ok _ |- _ =>
               apply vxp_expr_and_grows in R
           | R : or_loop _ _ _ _ = Ok _ |- _ => apply IH in R
           end;
    try solve [loop_done].
  unfold loop_grows. split; [congruence|].
  split; [destruct pvex; [eauto | congruence] | reflexivity].
Qed.

End ProductionFacts.

Section Trees.

Import Vxp.
Context {double vre : Type} {ext : Extern double vre}.
Implicit Types s : vxp.
Implicit Types v : vex double vre.
Implicit Types pvex r : option (vex double vre).

Lemma vxp_expr_or_S fuel (pvex : option (vex double vre)) :
  vxp_expr_or (S fuel) pvex
  = (AZ pvex ;;
     r <- vxp_expr_and (vxp_expr_or fuel) fuel pvex ;;
     ERRCHK r (or_loop (vxp_expr_or fuel) (S fuel) r)).
Proof. reflexivity. Qed.

Lemma vxp_expr_or_grows fuel : forall pvex s r s',
  vxp_expr_or fuel pvex s = Ok (r, s') -> grows pvex s r s'.
Proof.
  induction fuel as [|fuel IH]; intros pvex s r s' H; [discriminate|].
  cbn [vxp_expr_or] in H. run H;
    repeat match goal with
           | R : vxp_expr_and _ _ _ _ = Ok _ |- _ =>
               apply (vxp_expr_and_grows _ IH) in R
           | R : or_loop _ _ _ _ = Ok _ |- _ =>
               apply (or_loop_grows _ IH) in R
           end.
  - assumption.
  - unfold grows, loop_grows in *.
    repeat match goal with H : _ /\ _ |- _ => destruct H end.
    split; [assumption|]. split.
    + intros He.
      match goal with
      | H : err _ = false -> exists _, _ |- _ => destruct (H He) as [v ->]
      end.
      match goal with
      | H : Some _ <> None -> _ |- _ => apply H; discriminate
      end.
    + repeat match goal with
             | H : ledger_add _ _ = ledger_add _ _ |- _ => ledger_hyp H
             end.
      cbn in *. ledger.
Qed.

Lemma vxp_expr_first_grows fuel pvex s r s' :
  vxp_expr_first fuel pvex s = Ok (r, s') -> grows pvex s r s'.
Proof.
  intros H. unfold vxp_expr_first in H. run H;
    match goal with
    | R : vxp_expr_or _ _ _ = Ok _ |- _ => apply vxp_expr_or_grows in R
    end; assumption.
Qed.

Lemma held_vex v : 1 <= n_vex (held v).
Proof.
  remember (nodes v) as n eqn:E. revert v E.
  induction n as [n IH] using lt_wf_ind. intros v E.
  destruct v as [tk o a b l r]. cbn in *.
  assert (Ha : 0 <= n_vex (owned held a)).
  { destruct a as [a|]; cbn; [|lia].
    pose proof (IH (nodes a) ltac:(lia) a eq_refl). lia. }
  assert (Hb : 0 <= n_vex (owned held b)).
  { destruct b as [b|]; cbn; [|lia].
    pose proof (IH (nodes b) ltac:(lia) b eq_refl). lia. }
  destruct l as [l|], r as [r|]; cbn;
    try destruct (prefix l); try destruct (val_string r);
    try destruct (val_regex r); cbn; lia.
Qed.

(** ** vxp_expr: the tree of a sub-query after the first is dropped
    when the sub-query is in error *)

Lemma vxp_expr_chained fuel v s r s' :
  vxp_expr fuel (Some v) s = Ok (r, s') ->
  exists a,
    t s <> [] /\
    (err s = false -> a <> None) /\
    live s' = ledger_add (live s)
                (ledger_add (owned held a)
                            (if err s' then no_objects else one_vex)) /\
    r = if err s' then Some v
        else Some (mk_vex T_OR (vex_options s') a (Some v) None None).
Proof.
  intros H. unfold vxp_expr in H. run H;
    match goal with
    | R : vxp_expr_first _ _ _ = Ok _ |- _ =>
        apply vxp_expr_first_grows in R; destruct R as (Hc & Hv & Hl)
    end;
    match goal with
    | _ : grows _ _ _ _ |- _ => idtac
    | _ => idtac
    end.
  - exists a. rewrite E. cbn in Hl. ledger_hyp Hl. cbn in *.
    repeat split; auto; [|ledger].
    intros He. destruct (Hv He) as [w ->]. discriminate.
  - exists a. cbn. rewrite E. cbn in Hl. ledger_hyp Hl. cbn in *.
    repeat split; auto; [|ledger].
    intros He. destruct (Hv He) as [w ->]. discriminate.
Qed.

End Trees.

(** ** vex_Free releases what the tree owns *)

Section Free.

Import Vxp.
Context {double vre : Type} {ext : Extern double vre}.
Implicit Types s : vxp.
Implicit Types v : vex double vre.

Lemma frees_release x : frees (release x) x.
Proof.
  intros s. eexists. split; [reflexivity|]. unfold freed. cbn. auto.
Qed.

Lemma frees_nothing : frees (ret tt) no_objects.
Proof.
  intros s. exists s. split; [reflexivity|]. unfold freed.
  repeat split. ledger.
Qed.

Lemma frees_seq (c1 c2 : P unit) x y :
  frees c1 x -> frees c2 y -> frees (c1 ;; c2) (ledger_add x y).
Proof.
  intros H1 H2 s. destruct (H1 s) as (s1 & E1 & F1).
  destruct (H2 s1) as (s2 & E2 & F2). exists s2.
  rewrite (bind_ok _ _ _ _ _ E1). split; [exact E2|].
  unfold freed in *. repeat split; try (intuition congruence).
  destruct F1 as (L1 & _), F2 as (L2 & _). rewrite L2, L1. ledger.
Qed.

Lemma frees_option {A} (f : A -> P unit) (g : A -> ledger) (x : option A) :
  (forall a, x = Some a -> frees (f a) (g a)) ->
  frees (match x with Some a => f a | None => ret tt end) (owned g x).
Proof.
  intros H. destruct x as [a|]; cbn; [auto | apply frees_nothing].
Qed.

Lemma frees_eq (c : P unit) x y : x = y -> frees c x -> frees c y.
Proof. intros ->. auto. Qed.

Lemma frees_lhs (l : vex_lhs) : frees (free_lhs l) (held_lhs l).
Proof.
  unfold free_lhs, held_lhs.
  eapply frees_eq;
    [| apply frees_seq;
       [apply frees_release
       | apply frees_seq;
         [apply (frees_option _ (fun _ => one_str)); intros;
          apply frees_release
         | apply frees_release]]].
  ledger.
Qed.

Lemma frees_rhs (r : vex_rhs double vre) : frees (free_rhs r) (held_rhs r).
Proof.
  unfold free_rhs, held_rhs.
  eapply frees_eq;
    [| apply frees_seq;
       [apply (frees_option _ (fun _ => one_str)); intros;
        apply frees_release
       | apply frees_seq;
         [apply (frees_option _ (fun _ => one_vre)); intros;
          apply frees_release
         | apply frees_release]]].
  ledger.
Qed.

Lemma vex_Free_frees v : frees (vex_Free v) (held v).
Proof.
  remember (nodes v) as n eqn:E. revert v E.
  induction n as [n IH] using lt_wf_ind. intros v E.
  destruct v as [tk o a b l r]. cbn [vex_Free held v_lhs v_rhs v_a v_b].
  eapply frees_eq;
    [| apply frees_seq;
       [apply (frees_option _ held_lhs); intros; apply frees_lhs
       | apply frees_seq;
         [apply (frees_option _ held_rhs); intros; apply frees_rhs
         | apply frees_seq;
           [apply (frees_option _ held); intros a' ->;
            apply (IH (nodes a')); [cbn in E; lia | reflexivity]
           | apply frees_seq;
             [apply (frees_option _ held); intros b' ->;
              apply (IH (nodes b')); [cbn in E; lia | reflexivity]
             | apply frees_release]]]]].
  ledger.
Qed.

End Free.

(** ** The parser only moves forward in the input *)

Ltac lens :=
  repeat match goal with
         | H : Vxp.t ?s = _ |- _ =>
             apply (f_equal (@List.length Vxp.token)) in H;
             cbn [List.length] in H
         end.

Ltac shrink_done :=
  moved_facts; cbn [Vxp.t Vxp.set_t Vxp.set_err Vxp.set_sb Vxp.set_live
                    Vxp.set_err_where] in *;
  lens; lia.

Section Forward.

Import Vxp.
Context {double vre : Type} {ext : Extern double vre}.
Implicit Types s : vxp.

Lemma lhs_level_shrinks l : shrinks (lhs_level l).
Proof. intros s r s' H. unfold lhs_level in H. run H; shrink_done. Qed.

Lemma lhs_tags_shrinks fuel : forall l, shrinks (lhs_tags fuel l).
Proof.
  induction fuel as [|fuel IH]; intros l s r s' H; [discriminate|].
  cbn [lhs_tags] in H. run H; try solve [shrink_done].
  all: apply IH in H; shrink_done.
Qed.

Lemma lhs_prefix_shrinks l : shrinks (lhs_prefix l).
Proof. intros s r s' H. unfold lhs_prefix in H. run H; shrink_done. Qed.

Lemma lhs_field_shrinks l : shrinks (lhs_field l).
Proof. intros s r s' H. unfold lhs_field in H. run H; shrink_done. Qed.

Lemma lhs_vxid_shrinks l : shrinks (lhs_vxid l).
Proof. intros s r s' H. unfold lhs_vxid in H. run H; shrink_done. Qed.

Ltac shrink_facts :=
  repeat match goal with
         | R : lhs_level _ _ = Ok _ |- _ => apply lhs_level_shrinks in R
         | R : lhs_tags _ _ _ = Ok _ |- _ => apply lhs_tags_shrinks in R
         | R : lhs_prefix _ _ = Ok _ |- _ => apply lhs_prefix_shrinks in R
         | R : lhs_field _ _ = Ok _ |- _ => apply lhs_field_shrinks in R
         | R : lhs_vxid _ _ = Ok _ |- _ => apply lhs_vxid_shrinks in R
         end.

Lemma vxp_expr_lhs_shrinks plhs : shrinks (vxp_expr_lhs plhs).
Proof.
  intros s r s' H. unfold vxp_expr_lhs in H.
  run H; shrink_facts; shrink_done.
Qed.

Lemma vxp_expr_num_shrinks (prhs : option (vex_rhs double vre)) vx :
  shrinks (vxp_expr_num prhs vx).
Proof. intros s r s' H. unfold vxp_expr_num in H. run H; shrink_done. Qed.

Lemma vxp_expr_str_shrinks (prhs : option (vex_rhs double vre)) :
  shrinks (vxp_expr_str prhs).
Proof. intros s r s' H. unfold vxp_expr_str in H. run H; shrink_done. Qed.

Lemma vxp_expr_regex_shrinks (prhs : option (vex_rhs double vre)) :
  shrinks (vxp_expr_regex prhs).
Proof. intros s r s' H. unfold vxp_expr_regex in H. run H; shrink_done. Qed.

Lemma vxp_expr_cmp_shrinks (pvex : option (vex double vre)) :
  shrinks (vxp_expr_cmp pvex).
Proof.
  intros s r s' H. unfold vxp_expr_cmp, vxp_vxid_cmp in H. run H;
    repeat match goal with
           | R : vxp_expr_lhs _ _ = Ok _ |- _ =>
               apply vxp_expr_lhs_shrinks in R
           | R : vxp_expr_num _ _ _ = Ok _ |- _ =>
               apply vxp_expr_num_shrinks in R
           | R : vxp_expr_str _ _ = Ok _ |- _ =>
               apply vxp_expr_str_shrinks in R
           | R : vxp_expr_regex _ _ = Ok _ |- _ =>
               apply vxp_expr_regex_shrinks in R
           end;
    shrink_done.
Qed.

End Forward.

Section ForwardProductions.

Import Vxp.
Context {double vre : Type} {ext : Extern double vre}.
Implicit Types s : vxp.
Implicit Types pvex : option (vex double vre).

Variable expr_or : option (vex double vre) -> P (option (vex double vre)).
Hypothesis expr_or_shrinks : forall pvex, shrinks (expr_or pvex).

Lemma vxp_expr_group_shrinks pvex : shrinks (vxp_expr_group expr_or pvex).
Proof.
  intros s r s' H. unfold vxp_expr_group in H. run H;
    repeat match goal with
           | R : expr_or _ _ = Ok _ |- _ => apply expr_or_shrinks in R
           | R : vxp_expr_cmp _ _ = Ok _ |- _ =>
               apply vxp_expr_cmp_shrinks in R
           end;
    shrink_done.
Qed.

Lemma vxp_expr_not_shrinks pvex : shrinks (vxp_expr_not expr_or pvex).
Proof.
  intros s r s' H. unfold vxp_expr_not in H. run H;
    repeat match goal with
           | R : vxp_expr_group _ _ _ = Ok _ |- _ =>
               apply vxp_expr_group_shrinks in R
           end;
    shrink_done.
Qed.

Lemma and_loop_shrinks fuel : forall pvex, shrinks (and_loop expr_or fuel pvex).
Proof.
  induction fuel as [|fuel IH]; intros pvex s r s' H; [discriminate|].
  cbn [and_loop] in H. run H;
    repeat match goal with
           | R : vxp_expr_not _ _ _ = Ok _ |- _ =>
               apply vxp_expr_not_shrinks in R
           | R : and_loop _ _ _ _ = Ok _ |- _ => apply IH in R
           end;
    shrink_done.
Qed.

Lemma vxp_expr_and_shrinks fuel pvex :
  shrinks (vxp_expr_and expr_or fuel pvex).
Proof.
  intros s r s' H. unfold vxp_expr_and in H. run H;
    repeat match goal with
           | R : vxp_expr_not _ _ _ = Ok _ |- _ =>
               apply vxp_expr_not_shrinks in R
           | R : and_loop _ _ _ _ = Ok _ |- _ => apply and_loop_shrinks in R
           end;
    shrink_done.
Qed.

Lemma or_loop_shrinks fuel : forall pvex, shrinks (or_loop expr_or fuel pvex).
Proof.
  induction fuel as [|fuel IH]; intros pvex s r s' H; [discriminate|].
  cbn [or_loop] in H. run H;
    repeat match goal with
           | R : vxp_expr_and _ _ _ _ = Ok _ |- _ =>
               apply vxp_expr_and_shrinks in R
           | R : or_loop _ _ _ _ = Ok _ |- _ => apply IH in R
           end;
    shrink_done.
Qed.

(** *** The fuel is enough when [expr_or] has enough for what is in a
    group *)

Variable depth : nat.
Hypothesis expr_or_fuelled : forall pvex, fuelled depth (expr_or pvex).

Ltac forward_facts :=
  repeat match goal with
         | R : expr_or _ _ = Ok _ |- _ => apply expr_or_shrinks in R
         | R : vxp_expr_cmp _ _ = Ok _ |- _ =>
             apply vxp_expr_cmp_shrinks in R
         | R : vxp_expr_group _ _ _ = Ok _ |- _ =>
             apply vxp_expr_group_shrinks in R
         | R : vxp_expr_not _ _ _ = Ok _ |- _ =>
             apply vxp_expr_not_shrinks in R
         | R : vxp_expr_and _ _ _ _ = Ok _ |- _ =>
             apply vxp_expr_and_shrinks in R
         end.

Lemma vxp_expr_group_fuelled pvex :
  fuelled (S depth) (vxp_expr_group expr_or pvex).
Proof.
  intros s Hs H. unfold vxp_expr_group in H.
  err_step H; [by_nofuel H|].
  err_step H; [by_nofuel H|].
  match type of H with
  | (if ?b then _ else _) _ = _ => destruct b
  end.
  - unfold SkipToken in H.
    err_step H; [by_nofuel H|..];
      (apply ERRCHK_inv_err in H; destruct H as [He H]);
      (err_step H; [by_nofuel H|]);
      (err_step H; [|by_nofuel H]);
      revert H; apply expr_or_fuelled; shrink_done.
  - revert H. apply vxp_expr_cmp_fuel.
Qed.

Lemma vxp_expr_not_fuelled pvex :
  fuelled (S depth) (vxp_expr_not expr_or pvex).
Proof.
  intros s Hs H. unfold vxp_expr_not in H.
  err_step H; [by_nofuel H|].
  err_step H; [by_nofuel H|].
  match type of H with
  | (if ?b then _ else _) _ = _ => destruct b
  end.
  - err_step H; [by_nofuel H|].
    err_step H; [by_nofuel H|].
    err_step H; [|by_nofuel H].
    revert H. apply vxp_expr_group_fuelled. shrink_done.
  - revert H. apply vxp_expr_group_fuelled. exact Hs.
Qed.

Lemma and_loop_fuelled fuel : forall pvex s,
  (List.length (t s) < fuel)%nat -> (List.length (t s) < S depth)%nat ->
  and_loop expr_or fuel pvex s <> Err OutOfFuel.
Proof.
  induction fuel as [|fuel IH]; intros pvex s Hf Hd H; [lia|].
  cbn [and_loop] in H.
  err_step H; [by_nofuel H|].
  match type of H with
  | (if ?b then _ else _) _ = _ => destruct b; [|discriminate]
  end.
  err_step H; [by_nofuel H|].
  err_step H; [by_nofuel H|].
  apply ERRCHK_inv_err in H. destruct H as [He H].
  err_step H.
  - revert H. apply vxp_expr_not_fuelled. shrink_done.
  - forward_facts.
    apply ERRCHK_inv_err in H. destruct H as [He' H].
    revert H. apply IH; shrink_done.
Qed.

Lemma vxp_expr_and_fuelled fuel pvex s :
  (List.length (t s) <= fuel)%nat -> (List.length (t s) < S depth)%nat ->
  vxp_expr_and expr_or fuel pvex s <> Err OutOfFuel.
Proof.
  intros Hf Hd H. unfold vxp_expr_and in H.
  err_step H; [by_nofuel H|].
  err_step H.
  - revert H. apply vxp_expr_not_fuelled. exact Hd.
  - forward_facts.
    apply ERRCHK_inv_err in H. destruct H as [He H].
    revert H. apply and_loop_fuelled; lia.
Qed.

Lemma or_loop_fuelled fuel : forall pvex s,
  (List.length (t s) < fuel)%nat -> (List.length (t s) < S depth)%nat ->
  or_loop expr_or fuel pvex s <> Err OutOfFuel.
Proof.
  induction fuel as [|fuel IH]; intros pvex s Hf Hd H; [lia|].
  cbn [or_loop] in H.
  err_step H; [by_nofuel H|].
  match type of H with
  | (if ?b then _ else _) _ = _ => destruct b; [|discriminate]
  end.
  err_step H; [by_nofuel H|].
  err_step H; [by_nofuel H|].
  apply ERRCHK_inv_err in H. destruct H as [He H].
  err_step H.
  - revert H. apply vxp_expr_and_fuelled; shrink_done.
  - forward_facts.
    apply ERRCHK_inv_err in H. destruct H as [He' H].
    revert H. apply IH; shrink_done.
Qed.

End ForwardProductions.

Section ForwardParse.

Import Vxp.
Context {double vre : Type} {ext : Extern double vre}.
Implicit Types s : vxp.
Implicit Types pvex : option (vex double vre).

Lemma vxp_expr_or_shrinks fuel : forall pvex, shrinks (vxp_expr_or fuel pvex).
Proof.
  induction fuel as [|fuel IH]; intros pvex s r s' H; [discriminate|].
  rewrite vxp_expr_or_S in H. run H;
    repeat match goal with
           | R : vxp_expr_and _ _ _ _ = Ok _ |- _ =>
               apply (vxp_expr_and_shrinks _ IH) in R
           | R : or_loop _ _ _ _ = Ok _ |- _ =>
               apply (or_loop_shrinks _ IH) in R
           end;
    shrink_done.
Qed.

Lemma vxp_expr_or_fuelled fuel : forall pvex,
  fuelled fuel (vxp_expr_or fuel pvex).
Proof.
  induction fuel as [|fuel IH]; intros pvex s Hs H; [lia|].
  rewrite vxp_expr_or_S in H.
  err_step H; [by_nofuel H|].
  err_step H.
  - revert H.
    apply (vxp_expr_and_fuelled _ (vxp_expr_or_shrinks fuel) fuel IH); lia.
  - match goal with
    | R : vxp_expr_and _ _ _ _ = Ok _ |- _ =>
        apply (vxp_expr_and_shrinks _ (vxp_expr_or_shrinks fuel)) in R
    end.
    apply ERRCHK_inv_err in H. destruct H as [He H].
    revert H.
    apply (or_loop_fuelled _ (vxp_expr_or_shrinks fuel) fuel IH); lia.
Qed.

Lemma vxp_expr_shrinks depth pvex : shrinks (vxp_expr depth pvex).
Proof.
  intros s r s' H. unfold vxp_expr, vxp_expr_first in H.
  destruct pvex; run H;
    repeat match goal with
           | R : vxp_expr_or _ _ _ = Ok _ |- _ =>
               apply vxp_expr_or_shrinks in R
           end;
    shrink_done.
Qed.

Lemma vxp_expr_first_fuelled depth pvex :
  fuelled depth (vxp_expr_first depth pvex).
Proof.
  intros s Hs H. unfold vxp_expr_first in H.
  err_step H; [|by_nofuel H].
  revert H. apply vxp_expr_or_fuelled. exact Hs.
Qed.

Lemma vxp_expr_fuelled depth pvex : fuelled depth (vxp_expr depth pvex).
Proof.
  intros s Hs H. unfold vxp_expr in H.
  destruct pvex.
  - err_step H; [|by_nofuel H].
    revert H. apply vxp_expr_first_fuelled. exact Hs.
  - revert H. apply vxp_expr_first_fuelled. exact Hs.
Qed.

Lemma skip_EOI_length (l : list token) :
  (List.length (skip_EOI l) <= List.length l)%nat.
Proof.
  induction l as [|x l IH]; cbn; [lia|].
  destruct (tok_eqb (tok x) EOI); cbn; lia.
Qed.

Lemma parse_loop_fuelled depth fuel : forall pvex s,
  (List.length (t s) < fuel)%nat -> (List.length (t s) < depth)%nat ->
  parse_loop fuel depth pvex s <> Err OutOfFuel.
Proof.
  induction fuel as [|fuel IH]; intros pvex s Hf Hd H; [lia|].
  cbn [parse_loop] in H.
  err_step H; [by_nofuel H|].
  destruct (t s) as [|x l] eqn:Ts; [discriminate|].
  err_step H; [by_nofuel H|].
  err_step H; [by_nofuel H|].
  cbn [t set_t] in H.
  pose proof (skip_EOI_length (x :: l)) as Hk.
  destruct (skip_EOI (x :: l)) as [|y l'] eqn:Sk; [discriminate|].
  err_step H.
  { revert H. apply vxp_expr_fuelled. cbn [t set_t]. cbn in *. lia. }
  match goal with
  | R : vxp_expr _ _ _ = Ok _ |- _ =>
      apply vxp_expr_shrinks in R; cbn [t set_t] in R
  end.
  err_step H; [by_nofuel H|].
  match type of H with
  | (if ?b then _ else _) _ = _ => destruct b
  end.
  - apply bind_inv_err in H. destruct H as [H | (? & ? & _ & H)];
      [|discriminate].
    match type of H with
    | (match ?a with _ => _ end) _ = _ => destruct a as [v|]; [|discriminate]
    end.
    match type of H with
    | vex_Free v ?s1 = _ => destruct (vex_Free_frees v s1) as (s3 & E & _)
    end.
    congruence.
  - err_step H; [by_nofuel H|].
    revert H. apply IH; cbn [t set_t]; lens; cbn in *; lia.
Qed.

(** vxp_Parse does not run out of fuel *)
Lemma vxp_Parse_fuelled s : @vxp_Parse double vre ext s <> Err OutOfFuel.
Proof.
  intros H. unfold vxp_Parse in H.
  err_step H; [by_nofuel H|].
  err_step H; [by_nofuel H|].
  err_step H; [by_nofuel H|].
  revert H. apply parse_loop_fuelled; cbn [t set_t]; lia.
Qed.

End ForwardParse.

(** ** More fuel does not change a run *)

Section MoreFuel.

Import Vxp.
Context {double vre : Type} {ext : Extern double vre}.
Implicit Types s : vxp.
Implicit Types pvex : option (vex double vre).

Lemma extends_refl {A} (c : P A) : extends c c.
Proof. intros s r H _. exact H. Qed.

Lemma extends_bind {A B} (c c' : P A) (k k' : A -> P B) :
  extends c c' -> (forall a, extends (k a) (k' a)) ->
  extends (bind c k) (bind c' k').
Proof.
  intros Hc Hk s r H Hr. unfold bind in *.
  destruct (c s) as [[a s1]|f] eqn:E.
  - rewrite (Hc s _ E) by discriminate. apply (Hk a s1 r H Hr).
  - rewrite (Hc s _ E) by congruence. exact H.
Qed.

Lemma extends_ERRCHK {A} (r0 : A) (k k' : P A) :
  extends k k' -> extends (ERRCHK r0 k) (ERRCHK r0 k').
Proof.
  intros Hk s r H Hr. unfold ERRCHK in *.
  destruct (err s); [exact H | apply (Hk s r H Hr)].
Qed.

Lemma extends_fail {A} (c : P A) : extends (fail OutOfFuel) c.
Proof. intros s r H Hr. unfold fail in H. congruence. Qed.

End MoreFuel.

Ltac extends_step :=
  first
    [ assumption
    | apply extends_refl
    | apply extends_bind; [|intro]
    | apply extends_ERRCHK
    | match goal with
      | |- Vxp.extends (if ?b then _ else _) (if ?b then _ else _) =>
          destruct b
      | |- Vxp.extends (match ?x with _ => _ end)
                       (match ?x with _ => _ end) =>
          destruct x
      | H : forall _, Vxp.extends _ _ |- _ => apply H
      end ].

Section MoreFuelProductions.

Import Vxp.
Context {double vre : Type} {ext : Extern double vre}.
Implicit Types s : vxp.
Implicit Types pvex : option (vex double vre).

Variables expr_or expr_or' :
  option (vex double vre) -> P (option (vex double vre)).
Hypothesis expr_or_extends : forall pvex,
  extends (expr_or pvex) (expr_or' pvex).

Lemma vxp_expr_group_extends pvex :
  extends (vxp_expr_group expr_or pvex) (vxp_expr_group expr_or' pvex).
Proof.
  unfold vxp_expr_group, SkipToken. repeat extends_step.
Qed.

Lemma vxp_expr_not_extends pvex :
  extends (vxp_expr_not expr_or pvex) (vxp_expr_not expr_or' pvex).
Proof.
  unfold vxp_expr_not.
  repeat first [ apply vxp_expr_group_extends | extends_step ].
Qed.

Lemma and_loop_extends fuel : forall fuel' pvex,
  (fuel <= fuel')%nat ->
  extends (and_loop expr_or fuel pvex) (and_loop expr_or' fuel' pvex).
Proof.
  induction fuel as [|fuel IH]; intros fuel' pvex Hf;
    [apply extends_fail|].
  destruct fuel' as [|fuel']; [lia|]. cbn [and_loop].
  repeat first [ apply vxp_expr_not_extends | apply IH; lia | extends_step ].
Qed.

Lemma vxp_expr_and_extends fuel fuel' pvex :
  (fuel <= fuel')%nat ->
  extends (vxp_expr_and expr_or fuel pvex)
          (vxp_expr_and expr_or' fuel' pvex).
Proof.
  intros Hf. unfold vxp_expr_and.
  repeat first [ apply vxp_expr_not_extends
               | apply and_loop_extends; lia
               | extends_step ].
Qed.

Lemma or_loop_extends fuel : forall fuel' pvex,
  (fuel <= fuel')%nat ->
  extends (or_loop expr_or fuel pvex) (or_loop expr_or' fuel' pvex).
Proof.
  induction fuel as [|fuel IH]; intros fuel' pvex Hf;
    [apply extends_fail|].
  destruct fuel' as [|fuel']; [lia|]. cbn [or_loop].
  repeat first [ apply vxp_expr_and_extends; lia
               | apply IH; lia
               | extends_step ].
Qed.

End MoreFuelProductions.

Section MoreFuelParse.

Import Vxp.
Context {double vre : Type} {ext : Extern double vre}.
Implicit Types s : vxp.
Implicit Types pvex : option (vex double vre).

Lemma vxp_expr_or_extends fuel : forall fuel' pvex,
  (fuel <= fuel')%nat ->
  extends (vxp_expr_or fuel pvex) (vxp_expr_or fuel' pvex).
Proof.
  induction fuel as [|fuel IH]; intros fuel' pvex Hf;
    [apply extends_fail|].
  destruct fuel' as [|fuel']; [lia|]. rewrite !vxp_expr_or_S.
  assert (Ho : forall pvex,
             extends (vxp_expr_or fuel pvex) (vxp_expr_or fuel' pvex)).
  { intros p. apply IH. lia. }
  repeat first [ apply vxp_expr_and_extends; [exact Ho | lia]
               | apply or_loop_extends; [exact Ho | lia]
               | extends_step ].
Qed.

(** a sub-query is parsed with any fuel that is more than its length *)
Lemma query_fuel o q (v : vex double vre) fuel s rest :
  query_at o q v ->
  t s = q ++ rest -> ends_query rest -> err s = false ->
  vex_options s = o -> (List.length (t s) < fuel)%nat ->
  exists s', vxp_expr_or fuel None s = Ok (Some v, s') /\
             t s' = rest /\ err s' = false /\ vex_options s' = o.
Proof.
  intros [_ [n Hn]] Ht Hr He Ho Hf.
  destruct (Hn s rest Ht Hr He Ho) as (s' & E & Hs').
  exists s'. split; [|exact Hs'].
  destruct (Nat.le_ge_cases n fuel) as [Hle|Hle].
  - apply (vxp_expr_or_extends n fuel None Hle s _ E). discriminate.
  - pose proof (vxp_expr_or_fuelled fuel None s Hf) as Hoof.
    rewrite <- E. symmetry.
    apply (vxp_expr_or_extends fuel n None Hle s _ eq_refl Hoof).
Qed.

End MoreFuelParse.

(** ** vxp_Parse on an error *)

Section ParseErrors.

Import Vxp.
Context {double vre : Type} {ext : Extern double vre}.
Implicit Types s : vxp.
Implicit Types v : vex double vre.

Lemma vex_Free_inv v s r s' :
  vex_Free v s = Ok (r, s') -> freed (held v) s s'.
Proof.
  intros H. destruct (vex_Free_frees v s) as (s1 & E & F).
  rewrite E in H. inversion H. subst. exact F.
Qed.

(** Once the loop has a tree, an error leaves more nodes allocated than
    the tree had. *)
Lemma parse_loop_leaks fuel depth : forall v s r s',
  parse_loop fuel depth (Some v) s = Ok (r, s') ->
  err s = false -> err s' = true ->
  r = None /\ n_vex (live s) - n_vex (held v) < n_vex (live s').
Proof.
  induction fuel as [|fuel IH]; intros v s r s' H He He'; [discriminate|].
  cbn [parse_loop] in H. run H; try (cbn in *; congruence).
  all: match goal with
       | R : vxp_expr _ _ _ = Ok _ |- _ =>
           apply vxp_expr_chained in R;
           destruct R as (a' & Hc & Ha & Hl & Hr)
       end.
  all: cbn in *; specialize (Ha He); destruct a' as [w|]; [|congruence].
  all: pose proof (held_vex w) as Hw.
  all: match goal with E : err _ = _ |- _ => rewrite E in Hl, Hr end.
  - injection Hr as ->. apply vex_Free_inv in R0.
    destruct R0 as (Lf & _). split; [reflexivity|].
    rewrite Lf, Hl. cbn. lia.
  - discriminate.
  - subst a0. apply IH in H; auto. destruct H as [-> H].
    split; [reflexivity|].
    cbn in H. rewrite Hl in H. cbn in H. lia.
Qed.

(** The first sub-query is released on an error; a later one is not. *)
Lemma parse_loop_first fuel depth s r s' :
  parse_loop fuel depth None s = Ok (r, s') ->
  err s = false -> err s' = true ->
  r = None /\
  match vxp_expr depth None (set_t (skip_EOI (t s)) s) with
  | Ok (_, s1) =>
      if err s1 then live s' = live s
      else n_vex (live s) < n_vex (live s')
  | Err _ => False
  end.
Proof.
  intros H He He'. destruct fuel as [|fuel]; [discriminate|].
  cbn [parse_loop] in H. run H; try (cbn in *; congruence).
  all: match goal with
       | R : vxp_expr _ _ _ = Ok _ |- _ => rewrite R
       end.
  all: match goal with
       | R : vxp_expr _ _ _ = Ok _ |- _ =>
           apply vxp_expr_first_grows in R; destruct R as (Hc & Hv & Hl)
       end.
  all: match goal with E : err _ = _ |- _ => rewrite E end.
  all: cbn in Hl, Hv.
  - apply vex_Free_inv in R0. destruct R0 as (Lf & _).
    split; [reflexivity|]. rewrite Lf. ledger_hyp Hl. cbn in *. ledger.
  - split; [reflexivity|]. ledger_hyp Hl. cbn in *. ledger.
  - destruct (Hv He) as [v ->].
    apply parse_loop_leaks in H; auto. destruct H as [-> H].
    split; [reflexivity|]. cbn in H. ledger_hyp Hl. cbn in *. lia.
Qed.

(** C2: vxp_Parse does not run out of fuel, and when it ends with the
    error flag set it returns NULL.  All that it allocated is released
    when the error is in the first sub-query; when the first sub-query was
    accepted and the error is in a later one, at least one node stays
    allocated. *)
Theorem parse_error_leaks s :
  vxp_Parse s <> Err OutOfFuel /\
  forall (r : option (vex double vre)) s',
    vxp_Parse s = Ok (r, s') -> err s' = true ->
    r = None /\
    match vxp_expr (S (List.length (tokens s))) None
            (set_t (skip_EOI (tokens s)) s) with
    | Ok (_, s1) =>
        if err s1 then live s' = live s
        else n_vex (live s) < n_vex (live s')
    | Err _ => False
    end.
Proof.
  split; [apply vxp_Parse_fuelled|].
  intros r s' H He'. unfold vxp_Parse in H. run H. bools.
  apply parse_loop_first in H; auto.
Qed.

End ParseErrors.

(** ** vxp_Parse on an empty query *)

Section EmptyQuery.

Import Vxp.
Context {double vre : Type} {ext : Extern double vre}.
Implicit Types s : vxp.

Lemma skip_EOI_all (l : list token) :
  Forall (fun x => tok x = EOI) l -> skip_EOI l = [].
Proof.
  induction 1 as [|x l Hx _ IH]; cbn; [reflexivity|].
  rewrite Hx. cbn. exact IH.
Qed.

(** C10: on a token stream of EOI tokens only, vxp_Parse returns NULL,
    and leaves the error flag unset, the string builder and the error
    location as they were, and nothing allocated. *)
Theorem empty_query_is_null s :
  Forall (fun x => tok x = EOI) (tokens s) -> err s = false ->
  exists s',
    @vxp_Parse double vre ext s = Ok (None, s') /\
    err s' = false /\ sb s' = sb s /\ err_where s' = err_where s /\
    live s' = live s.
Proof.
  intros Hall He. unfold vxp_Parse, bind, get, assert, modify.
  rewrite He. cbn.
  destruct (tokens s) as [|x l] eqn:E.
  - eexists. split; [reflexivity|]. cbn. auto.
  - rewrite (skip_EOI_all _ Hall).
    eexists. split; [reflexivity|]. cbn. auto.
Qed.

End EmptyQuery.

(** ** The connectives *)

Section Connectives.

Import Vxp.
Context {double vre : Type} {ext : Extern double vre}.
Implicit Types s : vxp.
Implicit Types v a : vex double vre.

Lemma cur_tok_ok s x rest : t s = x :: rest -> cur_tok s = Ok (tok x, s).
Proof. intros E. unfold cur_tok, bind, cur. rewrite E. reflexivity. Qed.

Lemma vxp_NextToken_ok s x y rest :
  t s = x :: y :: rest -> vxp_NextToken s = Ok (tt, set_t (y :: rest) s).
Proof. intros E. unfold vxp_NextToken, bind, get. rewrite E. reflexivity. Qed.

Lemma ERRCHK_pass {A} (r : A) (k : P A) s :
  err s = false -> ERRCHK r k s = k s.
Proof. intros E. unfold ERRCHK. rewrite E. reflexivity. Qed.

Lemma vxp__Expect_ok s x rest tk :
  t s = x :: rest -> tok x = tk -> vxp__Expect tk s = Ok (tt, s).
Proof.
  intros E <-. unfold vxp__Expect, bind, cur. rewrite E.
  rewrite tok_eqb_refl. reflexivity.
Qed.

Lemma single_lhs_not (tk : token_kind) (c : ascii) :
  single_lhs tk = true -> c <> ")"%char -> tok_eqb tk (CHR c) = false.
Proof.
  unfold single_lhs. intros H Hc.
  repeat (apply orb_true_iff in H; destruct H as [H|H]);
    apply tok_eqb_eq in H; subst; try reflexivity.
  change (Ascii.eqb ")"%char c = false). apply Ascii.eqb_neq. congruence.
Qed.

Variable o : Z.
Variable expr_or : option (vex double vre) -> P (option (vex double vre)).

(** a comparison is a negation-free operand *)
Lemma not_parses q v :
  cmp_at o q v -> parses (vxp_expr_not expr_or None) o q v ends_cmp.
Proof.
  intros [(x & q' & -> & Hx) Hp] s rest Ht Hr He Ho.
  apply andb_true_iff in Hx. destruct Hx as [Hx _].
  apply andb_true_iff in Hx. destruct Hx as [Hn Hg].
  apply negb_true_iff in Hn, Hg.
  destruct (Hp s rest Ht Hr He Ho) as (s' & E & Hs').
  exists s'. split; [|exact Hs'].
  unfold vxp_expr_not, vxp_expr_group. cbn [AZ].
  rewrite (bind_ok _ _ _ _ _ (eq_refl : ret tt s = Ok (tt, s))).
  rewrite (bind_ok _ _ _ _ _ (cur_tok_ok _ _ _ Ht)). rewrite Hn.
  rewrite (bind_ok _ _ _ _ _ (eq_refl : ret tt s = Ok (tt, s))).
  rewrite (bind_ok _ _ _ _ _ (cur_tok_ok _ _ _ Ht)). rewrite Hg.
  exact E.
Qed.

Lemma vex_alloc_ok s :
  @vex_alloc double vre s
  = Ok (mk_vex (CHR zero) (vex_options s) None None None None,
        set_live (ledger_add (live s) one_vex) s).
Proof. reflexivity. Qed.

Lemma and_loop_exit k pvex s y rest :
  t s = y :: rest -> tok_eqb (tok y) T_AND = false ->
  and_loop expr_or (S k) pvex s = Ok (pvex, s).
Proof.
  intros Ht Hy. cbn [and_loop].
  rewrite (bind_ok _ _ _ _ _ (cur_tok_ok _ _ _ Ht)). rewrite Hy.
  reflexivity.
Qed.

Lemma or_loop_exit k pvex s y rest :
  t s = y :: rest -> tok_eqb (tok y) T_OR = false ->
  or_loop expr_or (S k) pvex s = Ok (pvex, s).
Proof.
  intros Ht Hy. cbn [or_loop].
  rewrite (bind_ok _ _ _ _ _ (cur_tok_ok _ _ _ Ht)). rewrite Hy.
  reflexivity.
Qed.

(** one turn of the loop of vxp_expr_and *)
Lemma and_loop_once k a q v rest s y :
  parses (vxp_expr_not expr_or None) o q v ends_cmp ->
  q <> [] -> t s = y :: q ++ rest -> tok y = T_AND -> ends_cmp rest ->
  err s = false -> vex_options s = o ->
  exists s1, t s1 = rest /\ err s1 = false /\ vex_options s1 = o /\
    and_loop expr_or (S k) (Some a) s
    = and_loop expr_or k (Some (node T_AND o a v)) s1.
Proof.
  intros Hp Hq Ht Hy Hr He Ho.
  destruct q as [|x q']; [congruence|].
  set (s0 := set_t ((x :: q') ++ rest)
               (set_live (ledger_add (live s) one_vex) s)).
  destruct (Hp s0 rest) as (s1 & E1 & T1 & E1' & O1); auto.
  exists s1. repeat split; auto.
  cbn [and_loop].
  rewrite (bind_ok _ _ _ _ _ (cur_tok_ok _ _ _ Ht)). rewrite Hy.
  cbn [tok_eqb].
  rewrite (bind_ok _ _ _ _ _ (vex_alloc_ok s)).
  rewrite (bind_ok _ _ _ _ _
             (vxp_NextToken_ok
                (set_live (ledger_add (live s) one_vex) s) y x
                (q' ++ rest) Ht)).
  rewrite ERRCHK_pass by exact He.
  fold s0. cbn [v_b set_a set_tok].
  rewrite (bind_ok _ _ _ _ _ E1).
  rewrite ERRCHK_pass by exact E1'.
  rewrite Ho. reflexivity.
Qed.

Lemma ends_and_cmp rest : ends_and rest -> ends_cmp rest.
Proof. intros (y & r & -> & H & _). exists y, r. auto. Qed.

(** an operand alone *)
Lemma and_single k q v :
  parses (vxp_expr_not expr_or None) o q v ends_cmp ->
  parses (vxp_expr_and expr_or k None) o q v ends_and.
Proof.
  intros Hp s rest Ht Hr He Ho.
  destruct (Hp s rest Ht (ends_and_cmp _ Hr) He Ho)
    as (s1 & E1 & T1 & E1' & O1).
  destruct Hr as (y & r & -> & _ & Hy).
  exists s1. repeat split; auto.
  unfold vxp_expr_and. cbn [AZ].
  rewrite (bind_ok _ _ _ _ _ (eq_refl : ret tt s = Ok (tt, s))).
  rewrite (bind_ok _ _ _ _ _ E1).
  rewrite ERRCHK_pass by exact E1'.
  apply (and_loop_exit _ _ _ _ _ T1 Hy).
Qed.

Lemma ends_cmp_and (y : token) rest : tok y = T_AND -> ends_cmp (y :: rest).
Proof. intros H. exists y, rest. rewrite H. auto. Qed.

Lemma app_cons_assoc {A} (q : list A) (y : A) (q' rest : list A) :
  (q ++ y :: q') ++ rest = q ++ y :: q' ++ rest.
Proof. rewrite <- app_assoc. reflexivity. Qed.

(** two operands *)
Lemma and_pair k qb vb tand qc vc :
  parses (vxp_expr_not expr_or None) o qb vb ends_cmp ->
  parses (vxp_expr_not expr_or None) o qc vc ends_cmp ->
  qc <> [] -> tok tand = T_AND ->
  parses (vxp_expr_and expr_or (S k) None) o (qb ++ tand :: qc)
         (node T_AND o vb vc) ends_and.
Proof.
  intros Hb Hc Hqc Hand s rest Ht Hr He Ho.
  rewrite app_cons_assoc in Ht.
  destruct (Hb s _ Ht (ends_cmp_and _ _ Hand) He Ho)
    as (s1 & E1 & T1 & E1' & O1).
  destruct (and_loop_once (S k) vb qc vc rest s1 tand Hc Hqc T1 Hand
              (ends_and_cmp _ Hr) E1' O1)
    as (s2 & T2 & E2' & O2 & L2).
  destruct Hr as (y & r & -> & _ & Hy).
  exists s2. repeat split; auto.
  unfold vxp_expr_and. cbn [AZ].
  rewrite (bind_ok _ _ _ _ _ (eq_refl : ret tt s = Ok (tt, s))).
  rewrite (bind_ok _ _ _ _ _ E1).
  rewrite ERRCHK_pass by exact E1'.
  rewrite L2. apply (and_loop_exit _ _ _ _ _ T2 Hy).
Qed.

(** three operands *)
Lemma and_triple k qa va tand qb vb tand' qc vc :
  parses (vxp_expr_not expr_or None) o qa va ends_cmp ->
  parses (vxp_expr_not expr_or None) o qb vb ends_cmp ->
  parses (vxp_expr_not expr_or None) o qc vc ends_cmp ->
  qb <> [] -> qc <> [] -> tok tand = T_AND -> tok tand' = T_AND ->
  parses (vxp_expr_and expr_or (S (S k)) None) o
         (qa ++ tand :: qb ++ tand' :: qc)
         (node T_AND o (node T_AND o va vb) vc) ends_and.
Proof.
  intros Ha Hb Hc Hqb Hqc Hand Hand' s rest Ht Hr He Ho.
  rewrite app_cons_assoc in Ht. rewrite app_cons_assoc in Ht.
  destruct (Ha s _ Ht (ends_cmp_and _ _ Hand) He Ho)
    as (s1 & E1 & T1 & E1' & O1).
  destruct (and_loop_once (S (S k)) va qb vb _ s1 tand Hb Hqb T1 Hand
              (ends_cmp_and _ _ Hand') E1' O1)
    as (s2 & T2 & E2' & O2 & L2).
  destruct (and_loop_once (S k) (node T_AND o va vb) qc vc rest s2 tand'
              Hc Hqc T2 Hand' (ends_and_cmp _ Hr) E2' O2)
    as (s3 & T3 & E3' & O3 & L3).
  destruct Hr as (y & r & -> & _ & Hy).
  exists s3. repeat split; auto.
  unfold vxp_expr_and. cbn [AZ].
  rewrite (bind_ok _ _ _ _ _ (eq_refl : ret tt s = Ok (tt, s))).
  rewrite (bind_ok _ _ _ _ _ E1).
  rewrite ERRCHK_pass by exact E1'.
  rewrite L2, L3. apply (and_loop_exit _ _ _ _ _ T3 Hy).
Qed.

(** one turn of the loop of vxp_expr_or *)
Lemma or_loop_once k a q v rest s y :
  parses (vxp_expr_and expr_or k None) o q v ends_and ->
  q <> [] -> t s = y :: q ++ rest -> tok y = T_OR -> ends_and rest ->
  err s = false -> vex_options s = o ->
  exists s1, t s1 = rest /\ err s1 = false /\ vex_options s1 = o /\
    or_loop expr_or (S k) (Some a) s
    = or_loop expr_or k (Some (node T_OR o a v)) s1.
Proof.
  intros Hp Hq Ht Hy Hr He Ho.
  destruct q as [|x q']; [congruence|].
  set (s0 := set_t ((x :: q') ++ rest)
               (set_live (ledger_add (live s) one_vex) s)).
  destruct (Hp s0 rest) as (s1 & E1 & T1 & E1' & O1); auto.
  exists s1. repeat split; auto.
  cbn [or_loop].
  rewrite (bind_ok _ _ _ _ _ (cur_tok_ok _ _ _ Ht)). rewrite Hy.
  cbn [tok_eqb].
  rewrite (bind_ok _ _ _ _ _ (vex_alloc_ok s)).
  rewrite (bind_ok _ _ _ _ _
             (vxp_NextToken_ok
                (set_live (ledger_add (live s) one_vex) s) y x
                (q' ++ rest) Ht)).
  rewrite ERRCHK_pass by exact He.
  fold s0. cbn [v_b set_a set_tok].
  rewrite (bind_ok _ _ _ _ _ E1).
  rewrite ERRCHK_pass by exact E1'.
  rewrite Ho. reflexivity.
Qed.

End Connectives.

Section Queries.

Import Vxp.
Context {double vre : Type} {ext : Extern double vre}.
Implicit Types s : vxp.
Implicit Types v a : vex double vre.

Lemma ends_query_and rest : ends_query rest -> ends_and rest.
Proof.
  intros (y & r & -> & H). exists y, r. rewrite H. auto.
Qed.

Lemma ends_and_or (y : token) rest : tok y = T_OR -> ends_and (y :: rest).
Proof. intros H. exists y, rest. rewrite H. auto. Qed.

Lemma cmp_at_nonempty o q v : cmp_at o q v -> q <> [].
Proof. intros [(x & q' & -> & _) _]. discriminate. Qed.

(** the run of vxp_expr_or on a chain of [and] that an EOI follows *)
Lemma or_of_and fuel o q v :
  parses (vxp_expr_and (vxp_expr_or fuel) fuel None) o q v ends_and ->
  parses (vxp_expr_or (S fuel) None) o q v ends_query.
Proof.
  intros Hp s rest Ht Hr He Ho.
  destruct (Hp s rest Ht (ends_query_and _ Hr) He Ho)
    as (s1 & E1 & T1 & E1' & O1).
  destruct Hr as (y & r & -> & Hy).
  exists s1. repeat split; auto.
  rewrite vxp_expr_or_S. cbn [AZ].
  rewrite (bind_ok _ _ _ _ _ (eq_refl : ret tt s = Ok (tt, s))).
  rewrite (bind_ok _ _ _ _ _ E1).
  rewrite ERRCHK_pass by exact E1'.
  apply (or_loop_exit _ _ _ _ _ _ T1). rewrite Hy. reflexivity.
Qed.

(** a comparison is a sub-query *)
Lemma cmp_query o q v : cmp_at o q v -> query_at o q v.
Proof.
  intros Hc. split.
  - destruct Hc as [(x & q' & -> & Hx) _]. exists x, q'.
    split; [reflexivity|].
    apply andb_true_iff in Hx. tauto.
  - exists 1%nat.
    apply or_of_and. apply and_single. apply not_parses. exact Hc.
Qed.

(** [a and b and c] *)
Lemma and_and_query o qa va tand qb vb tand' qc vc :
  cmp_at o qa va -> cmp_at o qb vb -> cmp_at o qc vc ->
  tok tand = T_AND -> tok tand' = T_AND ->
  query_at o (qa ++ tand :: qb ++ tand' :: qc)
           (node T_AND o (node T_AND o va vb) vc).
Proof.
  intros Ha Hb Hc Hand Hand'. split.
  - destruct Ha as [(x & q' & -> & Hx) _].
    exists x, (q' ++ tand :: qb ++ tand' :: qc).
    split; [reflexivity|].
    apply andb_true_iff in Hx. tauto.
  - exists 3%nat.
    apply or_of_and.
    apply and_triple;
      try (apply not_parses; assumption);
      try (eapply cmp_at_nonempty; eassumption); assumption.
Qed.

(** [a or b and c] *)
Lemma or_and_query o qa va tor qb vb tand qc vc :
  cmp_at o qa va -> cmp_at o qb vb -> cmp_at o qc vc ->
  tok tor = T_OR -> tok tand = T_AND ->
  query_at o (qa ++ tor :: qb ++ tand :: qc)
           (node T_OR o va (node T_AND o vb vc)).
Proof.
  intros Ha Hb Hc Hor Hand. split.
  - destruct Ha as [(x & q' & -> & Hx) _].
    exists x, (q' ++ tor :: qb ++ tand :: qc).
    split; [reflexivity|].
    apply andb_true_iff in Hx. tauto.
  - exists 2%nat.
    intros s rest Ht Hr He Ho.
    rewrite app_cons_assoc in Ht.
    destruct (and_single o (vxp_expr_or 1) 1 qa va
                (not_parses _ _ _ _ Ha) s _ Ht (ends_and_or _ _ Hor) He Ho)
      as (s1 & E1 & T1 & E1' & O1).
    assert (Hq : qb ++ tand :: qc <> []).
    { destruct qb; discriminate. }
    destruct (or_loop_once o (vxp_expr_or 1) 1 va
                (qb ++ tand :: qc) (node T_AND o vb vc) rest s1 tor
                (and_pair _ _ _ _ _ _ _ _ (not_parses _ _ _ _ Hb)
                   (not_parses _ _ _ _ Hc) (cmp_at_nonempty _ _ _ Hc) Hand)
                Hq T1 Hor (ends_query_and _ Hr) E1' O1)
      as (s2 & T2 & E2' & O2 & L2).
    destruct Hr as (y & r & -> & Hy).
    exists s2. repeat split; auto.
    rewrite vxp_expr_or_S. cbn [AZ].
    rewrite (bind_ok _ _ _ _ _ (eq_refl : ret tt s = Ok (tt, s))).
    rewrite (bind_ok _ _ _ _ _ E1).
    rewrite ERRCHK_pass by exact E1'.
    rewrite L2.
    apply (or_loop_exit _ _ _ _ _ _ T2). rewrite Hy. reflexivity.
Qed.

End Queries.

(** ** The sub-queries of an input *)

Section Chains.

Import Vxp.
Context {double vre : Type} {ext : Extern double vre}.
Implicit Types s : vxp.
Implicit Types v : vex double vre.

Variable o : Z.
Variable eoi : token.
Hypothesis eoi_tok : tok eoi = EOI.

Lemma vxp_NEXT_ok s x rest :
  t s = x :: rest -> vxp_NEXT s = Ok (tt, set_t rest s).
Proof. intros E. unfold vxp_NEXT, bind, get. rewrite E. reflexivity. Qed.

Lemma vxp_expr_first_query depth q v rest s :
  query_at o q v -> (List.length (t s) < depth)%nat ->
  t s = q ++ eoi :: rest -> err s = false -> vex_options s = o ->
  exists s1,
    vxp_expr_first depth None s = Ok (Some v, s1) /\
    t s1 = eoi :: rest /\ err s1 = false /\ vex_options s1 = o.
Proof.
  intros Hq Hn Ht He Ho.
  destruct (query_fuel o q v depth s (eoi :: rest) Hq Ht)
    as (s1 & E1 & T1 & E1' & O1); auto.
  { exists eoi, rest. auto. }
  exists s1. repeat split; auto.
  unfold vxp_expr_first, ExpectErr.
  rewrite (bind_ok _ _ _ _ _ E1).
  rewrite ERRCHK_pass by exact E1'.
  rewrite (bind_ok _ _ _ _ _ (vxp__Expect_ok _ _ _ _ T1 eoi_tok)).
  rewrite ERRCHK_pass by exact E1'.
  reflexivity.
Qed.

Lemma vxp_expr_query depth acc q v rest s :
  query_at o q v -> (List.length (t s) < depth)%nat ->
  t s = q ++ eoi :: rest -> err s = false -> vex_options s = o ->
  exists s1,
    vxp_expr depth acc s = Ok (chain o acc [v], s1) /\
    t s1 = eoi :: rest /\ err s1 = false /\ vex_options s1 = o.
Proof.
  intros Hq Hn Ht He Ho.
  destruct (vxp_expr_first_query depth q v rest s Hq Hn Ht He Ho)
    as (s1 & E1 & T1 & E1' & O1).
  destruct acc as [b|]; cbn [vxp_expr chain].
  - exists (set_live (ledger_add (live s1) one_vex) s1).
    repeat split; auto.
    rewrite (bind_ok _ _ _ _ _ E1).
    rewrite ERRCHK_pass by exact E1'.
    rewrite (bind_ok _ _ _ _ _ (vex_alloc_ok s1)).
    unfold ret, node. cbn. rewrite O1. reflexivity.
  - exists s1. auto.
Qed.

Lemma list_case {A B} (l : list A) (a b : B) x r :
  l = x :: r -> match l with [] => a | _ :: _ => b end = b.
Proof. intros ->. reflexivity. Qed.

Lemma parse_loop_chain depth (qs : list (list token * vex double vre)) :
  Forall (fun qv => query_at o (fst qv) (snd qv)) qs ->
  forall fuel acc s,
    (List.length qs < fuel)%nat -> (List.length (t s) < depth)%nat ->
    t s = chained eoi (map fst qs) -> err s = false -> vex_options s = o ->
    exists s',
      parse_loop fuel depth acc s = Ok (chain o acc (map snd qs), s') /\
      err s' = false.
Proof.
  intros Hqs. induction Hqs as [|[q v] qs Hq _ IH];
    intros fuel acc s Hf Hd Ht He Ho.
  - destruct fuel as [|fuel]; [cbn in Hf; lia|].
    exists s. cbn [parse_loop].
    rewrite (bind_ok _ _ _ _ _ (eq_refl : get s = Ok (s, s))).
    cbn in Ht. rewrite Ht. auto.
  - destruct fuel as [|fuel]; [cbn in Hf; lia|].
    cbn [map fst snd chained] in Ht. cbn [fst snd] in Hq.
    pose proof Hq as [(x & q' & -> & Hx) _].
    apply negb_true_iff in Hx.
    set (s0 := set_t (t s) s).
    destruct (vxp_expr_query depth acc (x :: q') v
                (chained eoi (map fst qs)) s0 Hq Hd Ht He Ho)
      as (s1 & E1 & T1 & E1' & O1).
    destruct (IH fuel (chain o acc [v]) (set_t (chained eoi (map fst qs)) s1))
      as (s' & E' & He'); auto.
    { cbn in Hf. lia. }
    { cbn [t set_t]. rewrite Ht in Hd. rewrite length_app in Hd.
      cbn in Hd. lia. }
    exists s'. split; [|exact He'].
    cbn [parse_loop].
    rewrite (bind_ok _ _ _ _ _ (eq_refl : get s = Ok (s, s))).
    assert (Hskip : skip_EOI (t s) = t s).
    { rewrite Ht. cbn. rewrite Hx. reflexivity. }
    rewrite Hskip. rewrite (list_case (t s) _ _ _ _ Ht).
    rewrite (bind_ok _ _ _ _ _
               (eq_refl : modify (set_t (t s)) s = Ok (tt, s0))).
    rewrite (bind_ok _ _ _ _ _ (eq_refl : get s0 = Ok (s0, s0))).
    rewrite (list_case (t s0) _ _ _ _ Ht).
    rewrite (bind_ok _ _ _ _ _ E1).
    rewrite (bind_ok _ _ _ _ _ (eq_refl : get s1 = Ok (s1, s1))).
    rewrite E1'.
    rewrite (bind_ok _ _ _ _ _ (vxp_NEXT_ok _ _ _ T1)).
    exact E'.
Qed.

End Chains.

Section ParseChains.

Import Vxp.
Context {double vre : Type} {ext : Extern double vre}.
Implicit Types s : vxp.
Implicit Types v : vex double vre.

Lemma chained_length o eoi (qs : list (list token * vex double vre)) :
  Forall (fun qv => query_at o (fst qv) (snd qv)) qs ->
  (List.length qs <= List.length (chained eoi (map fst qs)))%nat.
Proof.
  induction 1 as [|[q v] qs _ _ IH]; cbn; [lia|].
  rewrite length_app. cbn. lia.
Qed.

Lemma vxp_Parse_chain o eoi (qs : list (list token * vex double vre)) s :
  tok eoi = EOI ->
  Forall (fun qv => query_at o (fst qv) (snd qv)) qs ->
  tokens s = chained eoi (map fst qs) ->
  err s = false -> vex_options s = o ->
  exists s', vxp_Parse s = Ok (chain o None (map snd qs), s') /\
             err s' = false.
Proof.
  intros Heoi Hqs Htok He Ho.
  unfold vxp_Parse.
  rewrite (bind_ok _ _ _ _ _ (eq_refl : get s = Ok (s, s))).
  rewrite He. cbn [negb assert].
  rewrite (bind_ok _ _ _ _ _ (eq_refl : ret tt s = Ok (tt, s))).
  rewrite (bind_ok _ _ _ _ _
             (eq_refl : modify (set_t (tokens s)) s
                        = Ok (tt, set_t (tokens s) s))).
  apply (parse_loop_chain o eoi Heoi _ qs Hqs); auto.
  rewrite Htok. pose proof (chained_length o eoi qs Hqs). lia.
Qed.

(** The sub-queries of an input, each ended by its EOI and with nothing
    between them, are parsed one after the other, and the tree of each is
    joined to the tree so far by a node T_OR, with the new tree as [a]
    and the tree so far as [b]. *)
Theorem chained_queries_are_ored o eoi
    (qs : list (list token * vex double vre)) s :
  tok eoi = EOI ->
  Forall (fun qv => query_at o (fst qv) (snd qv)) qs ->
  tokens s = chained eoi (map fst qs) ->
  err s = false -> vex_options s = o ->
  exists s', vxp_Parse s = Ok (chain o None (map snd qs), s') /\
             err s' = false.
Proof. apply vxp_Parse_chain. Qed.

(** C6: for three comparisons [a], [b] and [c], the input [a or b and c]
    is parsed to OR(a, AND(b, c)), and the input [a and b and c] to
    AND(AND(a, b), c). *)
Theorem and_binds_tighter_and_left o qa qb qc (va vb vc : vex double vre)
    tor tand tand' eoi s :
  cmp_at o qa va -> cmp_at o qb vb -> cmp_at o qc vc ->
  tok tor = T_OR -> tok tand = T_AND -> tok tand' = T_AND ->
  tok eoi = EOI ->
  err s = false -> vex_options s = o ->
  (tokens s = qa ++ tor :: qb ++ tand :: qc ++ [eoi] ->
   exists s',
     vxp_Parse s = Ok (Some (node T_OR o va (node T_AND o vb vc)), s') /\
     err s' = false) /\
  (tokens s = qa ++ tand :: qb ++ tand' :: qc ++ [eoi] ->
   exists s',
     vxp_Parse s = Ok (Some (node T_AND o (node T_AND o va vb) vc), s') /\
     err s' = false).
Proof.
  intros Ha Hb Hc Hor Hand Hand' Heoi He Ho. split; intros Htok.
  - apply (vxp_Parse_chain o eoi
             [(qa ++ tor :: qb ++ tand :: qc,
               node T_OR o va (node T_AND o vb vc))] s); auto.
    + constructor; [|constructor]. cbn [fst snd].
      apply or_and_query; assumption.
    + cbn [chained map fst]. rewrite Htok.
      repeat (rewrite <- ?app_assoc; cbn [app]). reflexivity.
  - apply (vxp_Parse_chain o eoi
             [(qa ++ tand :: qb ++ tand' :: qc,
               node T_AND o (node T_AND o va vb) vc)] s); auto.
    + constructor; [|constructor]. cbn [fst snd].
      apply and_and_query; assumption.
    + cbn [chained map fst]. rewrite Htok.
      repeat (rewrite <- ?app_assoc; cbn [app]). reflexivity.
Qed.

End ParseChains.

(** * The parser on concrete inputs *)

Lemma single_lhs_cases (tk : Vxp.token_kind) :
  Vxp.single_lhs tk = true ->
  tk = Vxp.EOI \/ tk = Vxp.T_AND \/ tk = Vxp.T_OR \/ tk = Vxp.CHR ")".
Proof.
  unfold Vxp.single_lhs. intros H.
  repeat (apply orb_true_iff in H; destruct H as [H|H]);
    apply tok_eqb_eq in H; auto.
Qed.

Section ParserRuns.

Import Vxp VxpRun.

Lemma run_eq {A} (c : P A) (s : vxp) (d : A) :
  is_ok (c s) = true -> c s = Ok (fst (run c s d), snd (run c s d)).
Proof.
  intros H. rewrite <- surjective_pairing. apply ok_or_eq. exact H.
Qed.

(** a tag alone is a comparison *)
Lemma cmp_at_tag o : cmp_at o q_tag (v_tag o).
Proof.
  split.
  - exists (val "Begin"), []. split; reflexivity.
  - intros s rest Ht (y & r & -> & Hy) He Ho.
    destruct s as [tks tt o' ro e w b lv]. cbn in Ht, He, Ho. subst.
    destruct y as [ky dy ty]. cbn in Hy.
    destruct (single_lhs_cases _ Hy) as [ -> | [ -> | [ -> | -> ] ] ];
      eexists; (split; [cbv; reflexivity|]); cbn; auto.
Qed.

(** and so is a tag that is compared with a number *)
Lemma cmp_at_eq o : cmp_at o q_eq (v_eq o).
Proof.
  split.
  - exists (val "RespStatus"), [sym T_EQ; val "200"]. split; reflexivity.
  - intros s rest Ht (y & r & -> & Hy) He Ho.
    destruct s as [tks tt o' ro e w b lv]. cbn in Ht, He, Ho. subst.
    eexists; (split; [cbv; reflexivity|]); cbn; auto.
Qed.

Lemma and_binds_tighter_and_left_witness :
  (exists s',
     vxp_Parse (start in_or_and)
     = Ok (Some (node T_OR 0 (v_tag 0) (node T_AND 0 (v_eq 0) (v_tag 0))),
           s') /\ err s' = false) /\
  (exists s',
     vxp_Parse (start in_and_and)
     = Ok (Some (node T_AND 0 (node T_AND 0 (v_tag 0) (v_eq 0)) (v_tag 0)),
           s') /\ err s' = false).
Proof.
  split.
  - apply (proj1 (and_binds_tighter_and_left 0 q_tag q_eq q_tag
                    (v_tag 0) (v_eq 0) (v_tag 0)
                    (sym T_OR) (sym T_AND) (sym T_AND) (sym EOI)
                    (start in_or_and)
                    (cmp_at_tag 0) (cmp_at_eq 0) (cmp_at_tag 0)
                    eq_refl eq_refl eq_refl eq_refl eq_refl eq_refl)).
    reflexivity.
  - apply (proj2 (and_binds_tighter_and_left 0 q_tag q_eq q_tag
                    (v_tag 0) (v_eq 0) (v_tag 0)
                    (sym T_OR) (sym T_AND) (sym T_AND) (sym EOI)
                    (start in_and_and)
                    (cmp_at_tag 0) (cmp_at_eq 0) (cmp_at_tag 0)
                    eq_refl eq_refl eq_refl eq_refl eq_refl eq_refl)).
    reflexivity.
Defined.

Lemma chained_queries_are_ored_witness :
  exists s',
    vxp_Parse (start in_two)
    = Ok (Some (node T_OR 0 (v_eq 0) (v_tag 0)), s') /\ err s' = false.
Proof.
  apply (chained_queries_are_ored 0 (sym EOI)
           [(q_tag, v_tag 0); (q_eq, v_eq 0)] (start in_two)).
  - reflexivity.
  - apply Forall_cons; [apply cmp_query, cmp_at_tag|].
    apply Forall_cons; [apply cmp_query, cmp_at_eq|].
    apply Forall_nil.
  - reflexivity.
  - reflexivity.
  - reflexivity.
Defined.

Lemma empty_query_is_null_witness :
  exists s',
    vxp_Parse (start in_empty) = Ok (None, s') /\
    err s' = false /\ sb s' = sb (start in_empty) /\
    err_where s' = err_where (start in_empty) /\
    live s' = live (start in_empty).
Proof.
  apply (empty_query_is_null (start in_empty)).
  - repeat constructor.
  - reflexivity.
Defined.

Lemma parse_error_leaks_witness :
  fst (run vxp_Parse (start in_leak) None) = None /\
  n_vex (live (start in_leak))
  < n_vex (live (snd (run vxp_Parse (start in_leak) None))).
Proof.
  assert (E : vxp_Parse (start in_leak)
              = Ok (fst (run vxp_Parse (start in_leak) None),
                    snd (run vxp_Parse (start in_leak) None))).
  { apply run_eq. vm_compute. reflexivity. }
  assert (He : err (snd (run vxp_Parse (start in_leak) None)) = true).
  { vm_compute. reflexivity. }
  destruct (proj2 (parse_error_leaks (start in_leak)) _ _ E He) as [H1 H2].
  split; [exact H1|]. vm_compute in H2. vm_compute. exact H2.
Defined.

(** C7: a VXID selector with a prefix, the empty string, is taken
    without a diagnostic. *)
Lemma vxid_with_empty_prefix :
  exists v l s',
    vxp_Parse (start in_vxid_prefix) = Ok (Some v, s') /\
    err s' = false /\ sb s' = sb (start in_vxid_prefix) /\
    v_lhs v = Some l /\ vxid l = 1 /\ prefix l = Some ""%string.
Proof.
  do 3 eexists. split; [vm_compute; reflexivity|].
  cbn. repeat split; reflexivity.
Qed.

(** C2: the second sub-query is in error, and its node, its LHS and its
    bitmap stay allocated. *)
Lemma second_query_leaks :
  exists s',
    vxp_Parse (start in_leak) = Ok (None, s') /\ err s' = true /\
    live s' = mk_ledger 1 1 0 0 1 0.
Proof.
  eexists. split; [vm_compute; reflexivity|]. cbn. auto.
Qed.

End ParserRuns.

(** * More about the heap *)

(** ** parent() and child() move away from where they start *)

Section HeapIndexes.
Import Vbh.
Context {store : Type}.
Implicit Types b : @vbh store.

(** parent() of an index above the root is a smaller index, and not
    below the root: the walk of vbh_trickleup ends, and its
    [assert(v < u)] holds. *)
Theorem parent_is_below b (u : Z) :
  pages_ok b -> 2 <= u < UINT_MAX ->
  exists v, parent b u = Ok v /\ 1 <= v < u.
Proof.
  intros Hpg Hu.
  destruct (page_facts b Hpg) as (_ & E2 & HH & _).
  exists (par (page_size b) u).
  split; [apply parent_par; [exact Hpg | lia]|].
  apply (par_lt _ _ E2 HH). lia.
Qed.

(** child() of an index gives two indices above it, the left one not
    above the right one, both of them [unsigned]: the three assertions
    of vbh_trickledown on them hold, and its walk ends. *)
Theorem child_is_above b (u a c : Z) :
  pages_ok b -> 1 <= u < UINT_MAX -> child b u = (a, c) ->
  u < a /\ a <= c /\ c <= UINT_MAX.
Proof.
  intros Hpg Hu E.
  destruct (child_range b u a c E) as [_ Rc].
  destruct (page_facts b Hpg) as (_ & E2 & HH & _).
  rewrite (child_kids b Hpg u) in E by (unfold UINT_MAX in Hu; lia).
  destruct (kids_gt _ _ E2 HH u a c Hu E). lia.
Qed.

(** Every index above the root is one of the two children of its
    parent. *)
Theorem child_of_parent b (w v a c : Z) :
  pages_ok b -> 2 <= w < UINT_MAX ->
  parent b w = Ok v -> child b v = (a, c) ->
  w = a \/ w = c.
Proof.
  intros Hpg Hw Ep Ec.
  destruct (page_facts b Hpg) as (_ & E2 & HH & _).
  rewrite (parent_par b Hpg) in Ep by lia. injection Ep as <-.
  pose proof (par_lt _ _ E2 HH w ltac:(lia)) as Hv.
  rewrite (child_kids b Hpg) in Ec by (unfold UINT_MAX in Hw; lia).
  apply (kids_par _ _ E2 HH w a c); [unfold UINT_MAX in Hw; lia | exact Ec].
Qed.

End HeapIndexes.

(** ** What the operations keep, whatever the order of the keys *)

Section Swap.
Import Vbh.
Context {store : Type}.
Implicit Types b : @vbh store.
Implicit Types m : store.

Lemma binhead_swap_run b m u v :
  magic b = VBH_MAGIC -> rows_ok b -> next b <= length b ->
  0 <= u < next b -> 0 <= v < next b -> u <> v ->
  slot b u <> NULL -> slot b v <> NULL ->
  exists b',
    binhead_swap u v (b, m) = Ok (tt, (b', notify b' (notify b' m u) v)) /\
    frame b b' /\ rows_ok b' /\
    (forall w, 0 <= w -> slot b' w = swap (slot b) u v w).
Proof.
  intros Hm Hr Hnl Hu Hv Huv Hpu Hpv.
  set (b1 := poke b u (slot b v)).
  set (b2 := poke b1 v (slot b u)).
  assert (F1 : frame b b1) by apply frame_poke.
  assert (R1 : rows_ok b1) by (apply poke_rows_ok; [assumption | lia]).
  assert (L1 : length b1 = length b) by (unfold frame in F1; tauto).
  assert (F2 : frame b b2) by (eapply frame_trans; [exact F1 | apply frame_poke]).
  assert (R2 : rows_ok b2) by (apply poke_rows_ok; [assumption | lia]).
  assert (Hs : forall w, 0 <= w -> slot b2 w = swap (slot b) u v w).
  { intros w Hw. unfold b2. rewrite slot_poke by (try assumption; lia).
    unfold b1. rewrite slot_poke by (try assumption; lia).
    unfold swap. destruct (Z.eqb_spec w v) as [-> | Hwv].
    - destruct (Z.eqb_spec v u); [lia | reflexivity].
    - reflexivity. }
  destruct F2 as (Fm & Fp & Fc & Fu & Frw & Fl & Fn & Fps & Fpm & Fsh).
  exists b2.
  split; [|split; [|split]].
  - unfold binhead_swap.
    rewrite (bind_ok _ _ _ _ _ (check_ok b m Hm)).
    unfold get_bh at 1. unfold bind at 1. cbn [fst].
    rewrite (bind_ok _ _ (b, m) (b, m) tt) by (apply assert_ok, Z.ltb_lt; lia).
    rewrite (bind_ok _ _ _ _ _ (assert_A_ok b m u Hr ltac:(lia) Hpu)).
    rewrite (bind_ok _ _ (b, m) (b, m) tt) by (apply assert_ok, Z.ltb_lt; lia).
    rewrite (bind_ok _ _ _ _ _ (assert_A_ok b m v Hr ltac:(lia) Hpv)).
    rewrite (bind_ok _ _ _ _ _ (readA_ok b m u Hr ltac:(lia))).
    rewrite (bind_ok _ _ _ _ _ (readA_ok b m v Hr ltac:(lia))).
    rewrite (bind_ok _ _ _ _ _ (writeA_ok b m u (slot b v) Hr ltac:(lia))).
    fold b1.
    rewrite (bind_ok _ _ _ _ _ (writeA_ok b1 m v (slot b u) R1 ltac:(lia))).
    fold b2.
    rewrite (bind_ok _ _ (b2, m) (b2, notify b2 m u) tt).
    2:{ apply vbh_update_ok; try assumption; try lia; try congruence.
        rewrite Hs by lia. unfold swap. rewrite Z.eqb_refl. exact Hpv. }
    apply vbh_update_ok; try assumption; try lia; try congruence.
    rewrite Hs by lia. unfold swap. rewrite Z.eqb_refl.
    destruct (Z.eqb_spec v u); [lia | exact Hpu].
  - repeat split; assumption.
  - exact R2.
  - exact Hs.
Qed.

End Swap.

(** A property [I] of the slots and of the caller's memory that a swap
    of two elements keeps is kept by vbh_trickleup and vbh_trickledown;
    neither of them fails an assertion, whatever cmp() answers. *)
Section Keeps.
Import Vbh.
Context {store : Type}.
Implicit Types b : @vbh store.
Implicit Types m : store.
Variable I : @vbh store -> store -> Prop.
Hypothesis I_swap : forall b b' m u v,
  shape_ok b -> frame b b' ->
  1 <= u < next b -> 1 <= v < next b -> u <> v ->
  (forall w, 0 <= w -> slot b' w = swap (slot b) u v w) ->
  I b m -> I b' (notify b' (notify b' m u) v).

Lemma swap_keeps b m u v :
  shape_ok b -> 1 <= u < next b -> 1 <= v < next b -> u <> v -> I b m ->
  exists b' m',
    binhead_swap u v (b, m) = Ok (tt, (b', m')) /\
    frame b b' /\ shape_ok b' /\ I b' m'.
Proof.
  intros Hsh Hu Hv Huv HI.
  pose proof Hsh as (Hm & Hpg & Hr & Hrw & Hnl & Hl & Hlive).
  destruct (binhead_swap_run b m u v Hm Hr ltac:(lia) ltac:(lia) ltac:(lia) Huv
              (Hlive u Hu) (Hlive v Hv)) as (b1 & Esw & F1 & R1 & S1).
  exists b1, (notify b1 (notify b1 m u) v).
  split; [exact Esw|]. split; [exact F1|]. split.
  - apply (shape_frame b b1 Hsh F1 R1). intros w Hw. rewrite S1 by lia.
    unfold swap. destruct (w =? u); [apply Hlive; lia|].
    destruct (w =? v); apply Hlive; lia.
  - now apply (I_swap b b1 m u v).
Qed.

Lemma trickleup_loop_keeps (fuel : nat) : forall u b m,
  shape_ok b -> 1 <= u < next b -> (Z.to_nat u < fuel)%nat -> I b m ->
  exists u' b' m',
    trickleup_loop fuel u (b, m) = Ok (u', (b', m')) /\
    frame b b' /\ shape_ok b' /\ 1 <= u' <= u /\ I b' m'.
Proof.
  induction fuel as [|fuel IH]; intros u b m Hsh Hu Hfuel HI; [lia|].
  pose proof (shape_par b Hsh) as Hpar.
  pose proof Hsh as (Hm & Hpg & Hr & Hrw & Hnl & Hl & Hlive).
  cbn [trickleup_loop]. unfold ROOT_IDX.
  destruct (Z.ltb_spec 1 u) as [Hu1 | Hu1].
  2:{ exists u, b, m. split; [reflexivity|]. split; [apply frame_refl|].
      split; [exact Hsh|]. split; [lia | exact HI]. }
  set (v := par (page_size b) u).
  assert (Hv : 1 <= v < u) by (apply Hpar; lia).
  run_get. run_assert.
  run_with (assert_A_ok b m u Hr ltac:(lia) (Hlive u ltac:(lia))).
  rewrite (bind_ok _ _ (b, m) (b, m) v).
  2:{ apply lift_ok. now rewrite shape_parent by (assumption || lia). }
  run_assert. run_assert.
  run_with (assert_A_ok b m v Hr ltac:(lia) (Hlive v ltac:(lia))).
  run_with (cmp_A_ok b m u v Hr ltac:(lia) ltac:(lia)).
  destruct (cmp b m (priv b) (slot b u) (slot b v)); cbn [negb].
  2:{ exists u, b, m. split; [reflexivity|]. split; [apply frame_refl|].
      split; [exact Hsh|]. split; [lia | exact HI]. }
  destruct (swap_keeps b m u v Hsh ltac:(lia) ltac:(lia) ltac:(lia) HI)
    as (b1 & m1 & Esw & F1 & Hsh1 & HI1).
  run_with Esw.
  pose proof F1 as (Fm & Fp & Fc & Fu & Frw & Fl & Fn & Fps & Fpm & Fsh).
  destruct (IH v b1 m1 Hsh1 ltac:(lia) ltac:(lia) HI1)
    as (u' & b' & m' & El & F' & Hsh' & Hu' & HI').
  exists u', b', m'. split; [exact El|].
  split; [eapply frame_trans; eassumption|].
  split; [exact Hsh'|]. split; [lia | exact HI'].
Qed.

Lemma trickledown_loop_keeps (fuel : nat) : forall u b m,
  shape_ok b -> 1 <= u < next b ->
  (Z.to_nat (next b - u) <= fuel)%nat -> I b m ->
  exists u' b' m',
    trickledown_loop fuel u (b, m) = Ok (u', (b', m')) /\
    frame b b' /\ shape_ok b' /\ 1 <= u' < next b /\ I b' m'.
Proof.
  induction fuel as [|fuel IH]; intros u b m Hsh Hu Hfuel HI; [lia|].
  pose proof Hsh as (Hm & Hpg & Hr & Hrw & Hnl & Hl & Hlive).
  destruct (page_facts b Hpg) as (_ & E2 & HH & _).
  set (n := next b) in *.
  cbn [trickledown_loop].
  run_get. fold n. run_assert.
  run_with (assert_A_ok b m u Hr ltac:(lia) (Hlive u ltac:(lia))).
  rewrite shape_child by (assumption || lia).
  destruct (kids (page_size b) u) as [v1 v2] eqn:Ek.
  destruct (kids_gt _ _ E2 HH u v1 v2 ltac:(unfold UINT_MAX; lia) Ek) as [Hv1 Hv12].
  run_assert. run_assert. run_assert.
  destruct (Z.leb_spec n v1) as [Hge | Hlt].
  { exists u, b, m. split; [reflexivity|]. split; [apply frame_refl|].
    split; [exact Hsh|]. split; [lia | exact HI]. }
  run_with (assert_A_ok b m v1 Hr ltac:(lia) (Hlive v1 ltac:(lia))).
  assert (Hbest : exists vb,
    (if negb (v1 =? v2) && (v2 <? n)
     then assert_A v2 ;; c0 <- cmp_A v2 v1 ;; ret (if c0 then v2 else v1)
     else ret v1) (b, m) = Ok (vb, (b, m)) /\ u < vb < n).
  { destruct (Z.eqb_spec v1 v2) as [Ev | Ev]; cbn [negb andb].
    { exists v1. split; [reflexivity | lia]. }
    destruct (Z.ltb_spec v2 n) as [Hv2 | Hv2].
    2:{ exists v1. split; [reflexivity | lia]. }
    run_with (assert_A_ok b m v2 Hr ltac:(lia) (Hlive v2 ltac:(lia))).
    run_with (cmp_A_ok b m v2 v1 Hr ltac:(lia) ltac:(lia)).
    destruct (cmp b m (priv b) (slot b v2) (slot b v1)).
    - exists v2. split; [reflexivity | lia].
    - exists v1. split; [reflexivity | lia]. }
  destruct Hbest as (vb & Eb & Hvb).
  run_with Eb.
  run_assert.
  run_with (assert_A_ok b m vb Hr ltac:(lia) (Hlive vb ltac:(lia))).
  run_with (cmp_A_ok b m u vb Hr ltac:(lia) ltac:(lia)).
  destruct (cmp b m (priv b) (slot b u) (slot b vb)).
  { exists u, b, m. split; [reflexivity|]. split; [apply frame_refl|].
    split; [exact Hsh|]. split; [lia | exact HI]. }
  destruct (swap_keeps b m u vb Hsh ltac:(lia) ltac:(lia) ltac:(lia) HI)
    as (b1 & m1 & Esw & F1 & Hsh1 & HI1).
  run_with Esw.
  pose proof F1 as (Fm & Fp & Fc & Fu & Frw & Fl & Fn & Fps & Fpm & Fsh).
  destruct (IH vb b1 m1 Hsh1 ltac:(lia) ltac:(lia) HI1)
    as (u' & b' & m' & El & F' & Hsh' & Hu' & HI').
  exists u', b', m'. split; [exact El|].
  split; [eapply frame_trans; eassumption|].
  split; [exact Hsh'|]. split; [lia | exact HI'].
Qed.

Lemma vbh_trickleup_keeps u b m :
  shape_ok b -> 1 <= u < next b -> I b m ->
  exists u' b' m',
    vbh_trickleup u (b, m) = Ok (u', (b', m')) /\
    frame b b' /\ shape_ok b' /\ 1 <= u' <= u /\ I b' m'.
Proof.
  intros Hsh Hu HI.
  pose proof Hsh as (Hm & Hpg & Hr & Hrw & Hnl & Hl & Hlive).
  unfold vbh_trickleup.
  run_with (check_ok b m Hm). run_get. run_assert.
  run_with (assert_A_ok b m u Hr ltac:(lia) (Hlive u ltac:(lia))).
  apply trickleup_loop_keeps; auto; lia.
Qed.

Lemma vbh_trickledown_keeps u b m :
  shape_ok b -> 1 <= u < next b -> I b m ->
  exists u' b' m',
    vbh_trickledown u (b, m) = Ok (u', (b', m')) /\
    frame b b' /\ shape_ok b' /\ 1 <= u' < next b /\ I b' m'.
Proof.
  intros Hsh Hu HI.
  pose proof Hsh as (Hm & Hpg & Hr & Hrw & Hnl & Hl & Hlive).
  unfold vbh_trickledown.
  run_with (check_ok b m Hm). run_get. run_assert.
  run_with (assert_A_ok b m u Hr ltac:(lia) (Hlive u ltac:(lia))).
  apply trickledown_loop_keeps; auto; lia.
Qed.

End Keeps.

(** ** VBH_insert, VBH_delete and VBH_reorder on a heap of any order

    The three operations on a heap that [shape_ok] describes: they
    return, and a property [I] that a swap keeps holds at the end when it
    holds after the first store of the operation. *)
Section KeepsOperations.
Import Vbh.
Context {store : Type}.
Implicit Types b : @vbh store.
Implicit Types m : store.
Variable junk : Z -> ptr.
Variable VBH_NOIDX : Z.
Variable I : @vbh store -> store -> Prop.
Hypothesis I_swap : forall b b' m u v,
  shape_ok b -> frame b b' ->
  1 <= u < next b -> 1 <= v < next b -> u <> v ->
  (forall w, 0 <= w -> slot b' w = swap (slot b) u v w) ->
  I b m -> I b' (notify b' (notify b' m u) v).

Lemma VBH_reorder_keeps b m (idx : Z) :
  shape_ok b -> 0 < idx < next b -> I b m ->
  exists b' m',
    VBH_reorder idx (b, m) = Ok (tt, (b', m')) /\
    frame b b' /\ shape_ok b' /\ I b' m'.
Proof.
  intros Hsh Hidx HI.
  pose proof Hsh as (Hm & Hpg & Hr & Hrw & Hnl & Hl & Hlive).
  destruct (vbh_trickleup_keeps I I_swap idx b m Hsh ltac:(lia) HI)
    as (u1 & b1 & m1 & E1 & F1 & Hsh1 & Hu1 & HI1).
  pose proof F1 as (Fm & Fp & Fc & Fu & Frw & Fl & Fn & Fps & Fpm & Fsh).
  pose proof Hsh1 as (_ & _ & R1 & _ & Hnl1 & _ & Hlive1).
  destruct (vbh_trickledown_keeps I I_swap u1 b1 m1 Hsh1 ltac:(lia) HI1)
    as (u2 & b2 & m2 & E2 & F2 & Hsh2 & Hu2 & HI2).
  pose proof F2 as (Gm & Gp & Gc & Gu & Grw & Gl & Gn & Gps & Gpm & Gsh).
  pose proof Hsh2 as (_ & _ & R2 & _ & Hnl2 & _ & Hlive2).
  unfold VBH_reorder.
  run_with (check_ok b m Hm). run_get. unfold ROOT_IDX.
  run_assert. run_assert. run_assert.
  run_with (assert_A_ok b m idx Hr ltac:(lia) (Hlive idx ltac:(lia))).
  run_with E1. run_get. run_assert. run_assert.
  run_with (assert_A_ok b1 m1 u1 R1 ltac:(lia) (Hlive1 u1 ltac:(lia))).
  run_with E2. run_get. run_assert. run_assert.
  rewrite (assert_A_ok b2 m2 u2 R2 ltac:(lia) (Hlive2 u2 ltac:(lia))).
  exists b2, m2. split; [reflexivity|].
  split; [eapply frame_trans; eassumption|]. split; assumption.
Qed.

Lemma VBH_insert_keeps b m (p : ptr) :
  shape_ok b -> p <> NULL -> next b + 2 * ROW_WIDTH < 2 ^ 32 ->
  (forall b3,
     cmp b3 = cmp b -> update b3 = update b -> priv b3 = priv b ->
     next b3 = next b + 1 ->
     (forall w, 1 <= w < next b -> slot b3 w = slot b w) ->
     slot b3 (next b) = p ->
     I b3 (notify b3 m (next b))) ->
  exists b' m',
    VBH_insert junk p (b, m) = Ok (tt, (b', m')) /\
    shape_ok b' /\ I b' m' /\ next b' = next b + 1 /\
    length b' = (if length b =? next b then length b + ROW_WIDTH
                 else length b) /\
    cmp b' = cmp b /\ update b' = update b /\ priv b' = priv b /\
    page_size b' = page_size b.
Proof.
  intros Hsh Hp Hnext Hstart.
  pose proof Hsh as (Hm & Hpg & Hr & Hrw & Hnl & Hl & Hlive).
  pose proof ROW_WIDTH_val as HW.
  set (n := next b) in *.
  (* a free slot *)
  assert (Hrow : exists b1,
    (if length b =? next b then vbh_addrow junk else ret tt) (b, m)
      = Ok (tt, (b1, m)) /\
    (magic b1 = magic b /\ priv b1 = priv b /\ cmp b1 = cmp b /\
     update b1 = update b /\ next b1 = next b /\ page_size b1 = page_size b /\
     page_mask b1 = page_mask b /\ page_shift b1 = page_shift b) /\
    n < length b1 < 2 ^ 32 /\ rows_ok b1 /\ 0 < rows b1 <= 2 ^ 17 /\
    length b1 = (if length b =? n then length b + ROW_WIDTH else length b) /\
    forall u, 0 <= u < n -> slot b1 u = slot b u).
  { fold n. destruct (Z.eqb_spec (length b) n) as [Efull | Efree].
    - destruct (vbh_addrow_ok junk b m Hr Hrw ltac:(lia))
        as (b1 & E1 & F1 & L1 & R1 & Rw1 & S1).
      exists b1. split; [exact E1|]. split; [exact F1|].
      split; [lia|]. split; [exact R1|]. split; [exact Rw1|].
      split; [exact L1|].
      intros u Hu. apply S1. lia.
    - exists b. split; [reflexivity|]. split; [repeat split|].
      split; [lia|]. split; [exact Hr|]. split; [exact Hrw|].
      split; reflexivity. }
  destruct Hrow as (b1 & E1 & F1 & L1 & R1 & Rw1 & Len1 & S1).
  destruct F1 as (Fm & Fp & Fc & Fu & Fn & Fps & Fpm & Fsh).
  unfold VBH_insert.
  run_with (check_ok b m Hm). run_get. run_assert.
  run_with E1. run_get. run_assert.
  rewrite Fn. fold n. rewrite (u32_small (n + 1)) by lia.
  unfold put_bh at 1. unfold bind at 1. cbn [snd].
  set (b2 := set_next b1 (n + 1)).
  run_with (writeA_ok b2 m n p (rows_ok_set_next b1 (n + 1) R1) ltac:(cbn; lia)).
  set (b3 := poke b2 n p).
  assert (R3 : rows_ok b3) by (apply poke_rows_ok; [exact R1 | cbn; lia]).
  assert (F3 : frame b2 b3) by apply frame_poke.
  pose proof F3 as (Gm & Gp & Gc & Gu & Grw & Gl & Gn & Gps & Gpm & Gsh).
  unfold b2 in Gm, Gp, Gc, Gu, Grw, Gl, Gn, Gps, Gpm, Gsh.
  cbn [magic priv cmp update rows length next page_size page_mask page_shift
       set_next] in Gm, Gp, Gc, Gu, Grw, Gl, Gn, Gps, Gpm, Gsh.
  assert (Hn3 : next b3 = n + 1) by exact Gn.
  assert (S3 : forall u, 0 <= u -> slot b3 u = if u =? n then p else slot b1 u).
  { intros u Hu. unfold b3. rewrite slot_poke; [reflexivity | exact R1 | cbn; lia | lia]. }
  assert (Hsh3 : shape_ok b3).
  { split; [congruence|]. split; [unfold pages_ok; rewrite Gps, Gpm, Gsh, Fps, Fpm, Fsh; exact Hpg|].
    split; [exact R3|]. split; [lia|]. split; [lia|]. split; [lia|].
    intros u Hu. rewrite S3 by lia. destruct (Z.eqb_spec u n); [exact Hp|].
    rewrite S1 by lia. apply Hlive. lia. }
  run_with (vbh_update_ok b3 m n ltac:(congruence) R3 ltac:(lia) ltac:(lia)
              ltac:(rewrite S3, Z.eqb_refl by lia; exact Hp)).
  assert (HI3 : I b3 (notify b3 m n)).
  { apply Hstart; try congruence.
    - intros w Hw. rewrite S3 by lia. destruct (Z.eqb_spec w n); [lia|].
      apply S1. lia.
    - rewrite S3, Z.eqb_refl by lia. reflexivity. }
  destruct (vbh_trickleup_keeps I I_swap n b3 (notify b3 m n) Hsh3 ltac:(lia) HI3)
    as (u' & b4 & m4 & E4 & F4 & Hsh4 & Hu' & HI4).
  run_with E4. run_get.
  pose proof F4 as (Im & Ip & Ic & Iu & Irw & Il & In & Ips & Ipm & Ish).
  pose proof Hsh4 as (_ & _ & R4 & _ & _ & _ & Hlive4).
  run_assert.
  rewrite (assert_A_ok b4 m4 n R4 ltac:(lia) (Hlive4 n ltac:(lia))).
  exists b4, m4. split; [reflexivity|]. split; [exact Hsh4|].
  split; [exact HI4|]. repeat split; congruence.
Qed.

Hypothesis I_ext : forall b b' m,
  shape_ok b -> same_live b b' -> I b m -> I b' m.

Lemma VBH_delete_keeps b m (idx : Z) (f : vbh_update_t) :
  shape_ok b -> 0 < idx < next b -> update b = Some f ->
  (forall b2,
     cmp b2 = cmp b -> update b2 = update b -> priv b2 = priv b ->
     next b2 = next b - 1 ->
     (forall w, 1 <= w < next b - 1 ->
        slot b2 w = if w =? idx then slot b (next b - 1) else slot b w) ->
     slot b2 (next b - 1) = NULL ->
     I b2 (if idx =? next b - 1
           then f m (priv b) (slot b idx) VBH_NOIDX
           else notify b2 (f m (priv b) (slot b idx) VBH_NOIDX) idx)) ->
  exists b' m',
    VBH_delete VBH_NOIDX idx (b, m) = Ok (tt, (b', m')) /\
    shape_ok b' /\ I b' m' /\ next b' = next b - 1 /\
    cmp b' = cmp b /\ update b' = update b /\ priv b' = priv b /\
    page_size b' = page_size b.
Proof.
  clear junk.
  intros Hsh Hidx Ef Hstart.
  pose proof Hsh as (Hm & Hpg & Hr & Hrw & Hnl & Hl & Hlive).
  pose proof ROW_WIDTH_val as HW.
  set (n := next b) in *.
  set (m1 := f m (priv b) (slot b idx) VBH_NOIDX) in *.
  set (b0 := set_next b (n - 1)).
  unfold VBH_delete.
  run_with (check_ok b m Hm). run_get. unfold ROOT_IDX.
  run_assert. run_assert. run_assert.
  run_with (assert_A_ok b m idx Hr ltac:(lia) (Hlive idx ltac:(lia))).
  run_with (readA_ok b m idx Hr ltac:(lia)).
  rewrite (bind_ok _ _ (b, m) (b, m1) tt)
    by (unfold call_update; cbn [fst snd]; rewrite Ef; reflexivity).
  run_get. fold n. rewrite (u32_small (n - 1)) by lia.
  unfold put_bh at 1. unfold bind at 1. cbn [snd]. fold b0.
  destruct (Z.eqb_spec idx (n - 1)) as [Etail | Emid].
  { (* the last slot *)
    rewrite (writeA_ok b0 m1 (n - 1) NULL Hr ltac:(cbn; lia)).
    set (b1 := poke b0 (n - 1) NULL).
    assert (R1 : rows_ok b1) by (apply poke_rows_ok; [exact Hr | cbn; lia]).
    pose proof (frame_poke b0 (n - 1) NULL) as F1. fold b1 in F1.
    destruct F1 as (Fm & Fp & Fc & Fu & Frw & Fl & Fn & Fps & Fpm & Fsh).
    unfold b0 in Fm, Fp, Fc, Fu, Frw, Fl, Fn, Fps, Fpm, Fsh.
    cbn [magic priv cmp update rows length next page_size page_mask page_shift
         set_next] in Fm, Fp, Fc, Fu, Frw, Fl, Fn, Fps, Fpm, Fsh.
    assert (S1 : forall u, 0 <= u < n ->
              slot b1 u = if u =? n - 1 then NULL else slot b u).
    { intros u Hu. unfold b1. rewrite slot_poke; [|exact Hr | cbn; lia | lia].
      reflexivity. }
    exists b1, m1. split; [reflexivity|]. split; [|split].
    - split; [congruence|].
      split; [unfold pages_ok; rewrite Fps, Fpm, Fsh; exact Hpg|].
      split; [exact R1|]. split; [lia|]. split; [lia|]. split; [lia|].
      intros u Hu. rewrite S1 by lia.
      destruct (Z.eqb_spec u (n - 1)); [lia|]. apply Hlive. lia.
    - apply Hstart; try congruence.
      + intros w Hw. rewrite S1 by lia.
        destruct (Z.eqb_spec w (n - 1)); [lia|].
        destruct (Z.eqb_spec w idx); [lia | reflexivity].
      + rewrite S1 by lia. now rewrite Z.eqb_refl.
    - repeat split; congruence. }
  (* the tail element moves into the hole *)
  set (q := slot b (n - 1)) in *.
  run_with (readA_ok b0 m1 (n - 1) Hr ltac:(cbn; lia)).
  change (slot b0 (n - 1)) with q.
  run_with (writeA_ok b0 m1 idx q Hr ltac:(cbn; lia)).
  set (b1 := poke b0 idx q).
  assert (R1 : rows_ok b1) by (apply poke_rows_ok; [exact Hr | cbn; lia]).
  pose proof (frame_poke b0 idx q) as F1. fold b1 in F1.
  assert (L1 : length b1 = length b) by (unfold frame in F1; tauto).
  run_with (writeA_ok b1 m1 (n - 1) NULL R1 ltac:(lia)).
  set (b2 := poke b1 (n - 1) NULL).
  assert (R2 : rows_ok b2) by (apply poke_rows_ok; [exact R1 | lia]).
  assert (F2 : frame b0 b2) by (eapply frame_trans; [exact F1 | apply frame_poke]).
  destruct F2 as (Fm & Fp & Fc & Fu & Frw & Fl & Fn & Fps & Fpm & Fsh).
  unfold b0 in Fm, Fp, Fc, Fu, Frw, Fl, Fn, Fps, Fpm, Fsh.
  cbn [magic priv cmp update rows length next page_size page_mask page_shift
       set_next] in Fm, Fp, Fc, Fu, Frw, Fl, Fn, Fps, Fpm, Fsh.
  assert (S2 : forall u, 0 <= u < n ->
            slot b2 u = if u =? n - 1 then NULL
                        else if u =? idx then q else slot b u).
  { intros u Hu. unfold b2. rewrite slot_poke; [|exact R1 | lia | lia].
    destruct (Z.eqb_spec u (n - 1)); [reflexivity|].
    unfold b1. rewrite slot_poke; [reflexivity | exact Hr | cbn; lia | lia]. }
  assert (Hq : q <> NULL) by (apply Hlive; lia).
  assert (Hsh2 : shape_ok b2).
  { split; [congruence|].
    split; [unfold pages_ok; rewrite Fps, Fpm, Fsh; exact Hpg|].
    split; [exact R2|]. split; [lia|]. split; [lia|]. split; [lia|].
    intros u Hu. rewrite S2 by lia.
    destruct (Z.eqb_spec u (n - 1)); [lia|].
    destruct (Z.eqb_spec u idx); [exact Hq | apply Hlive; lia]. }
  run_with (vbh_update_ok b2 m1 idx ltac:(congruence) R2 ltac:(lia) ltac:(lia)
              ltac:(rewrite S2 by lia;
                    destruct (Z.eqb_spec idx (n - 1)); [lia|];
                    rewrite Z.eqb_refl; exact Hq)).
  assert (HI2 : I b2 (notify b2 m1 idx)).
  { specialize (Hstart b2).
    destruct (Z.eqb_spec idx (n - 1)) as [|_] in Hstart; [lia|].
    apply Hstart; try congruence.
    - intros w Hw. rewrite S2 by lia.
      destruct (Z.eqb_spec w (n - 1)); [lia | reflexivity].
    - rewrite S2 by lia. now rewrite Z.eqb_refl. }
  destruct (vbh_trickleup_keeps I I_swap idx b2 (notify b2 m1 idx) Hsh2
              ltac:(lia) HI2)
    as (u3 & b3 & m3 & E3 & F3 & Hsh3 & Hu3 & HI3).
  pose proof F3 as (Gm & Gp & Gc & Gu & Grw & Gl & Gn & Gps & Gpm & Gsh).
  pose proof Hsh3 as (_ & _ & R3 & _ & Hnl3 & _ & Hlive3).
  destruct (vbh_trickledown_keeps I I_swap u3 b3 m3 Hsh3 ltac:(lia) HI3)
    as (u4 & b4 & m4 & E4 & F4 & Hsh4 & Hu4 & HI4).
  pose proof F4 as (Im & Ip & Ic & Iu & Irw & Il & In & Ips & Ipm & Ish).
  pose proof Hsh4 as (_ & _ & R4 & _ & Hnl4 & _ & Hlive4).
  run_with E3. run_get. run_assert. run_assert.
  run_with (assert_A_ok b3 m3 u3 R3 ltac:(lia) (Hlive3 u3 ltac:(lia))).
  run_with E4. run_get. run_assert. run_assert.
  run_with (assert_A_ok b4 m4 u4 R4 ltac:(lia) (Hlive4 u4 ltac:(lia))).
  assert (N4 : next b4 = n - 1) by congruence.
  assert (L4 : length b4 = length b) by congruence.
  replace (u32 (next b4 + 2 * ROW_WIDTH) <=? length b4)
    with (n - 1 + 2 * ROW_WIDTH <=? length b)
    by (rewrite N4, L4, (u32_small (n - 1 + 2 * ROW_WIDTH)) by lia; reflexivity).
  destruct (Z.leb_spec (n - 1 + 2 * ROW_WIDTH) (length b)) as [Hshrink | Hkeep].
  - destruct (shrink_ok b4 m4 R4 ltac:(lia))
      as (b5 & E5 & F5 & Rw5 & L5 & R5 & S5).
    destruct F5 as (Jm & Jp & Jc & Ju & Jn & Jps & Jpm & Jsh).
    rewrite E5. exists b5, m4. split; [reflexivity|]. split; [|split].
    + split; [congruence|].
      split; [unfold pages_ok; rewrite Jps, Jpm, Jsh; apply Hsh4|].
      split; [exact R5|]. split; [lia|]. split; [lia|]. split; [lia|].
      intros u Hu. rewrite S5 by lia. apply Hlive4. lia.
    + apply (I_ext b4 b5); [exact Hsh4 | | exact HI4].
      repeat split; try assumption.
      intros w Hw. apply S5. lia.
    + repeat split; congruence.
  - exists b4, m4. split; [reflexivity|]. split; [exact Hsh4|].
    split; [exact HI4|].
    repeat split; congruence.
Qed.

End KeepsOperations.

(** ** The handles in the slots *)

Section Below.
Import Vbh.
Implicit Types s : Z -> ptr.

Lemma below_ext s s' (n : Z) :
  (forall w, 1 <= w < n -> s w = s' w) -> below s n = below s' n.
Proof.
  intros H. unfold below. apply map_ext_in. intros i Hi.
  apply in_seq in Hi. apply H. lia.
Qed.

Lemma below_snoc s (n : Z) : 1 <= n -> below s (n + 1) = below s n ++ [s n].
Proof.
  intros Hn. unfold below.
  replace (Z.to_nat (n + 1) - 1)%nat with (S (Z.to_nat n - 1)) by lia.
  rewrite seq_S, map_app. cbn [map]. do 3 f_equal. lia.
Qed.

Lemma below_one s : below s 1 = [].
Proof. reflexivity. Qed.

Lemma in_below s (n : Z) (e : ptr) :
  In e (below s n) <-> exists u, 1 <= u < n /\ s u = e.
Proof.
  unfold below. rewrite in_map_iff. split.
  - intros (i & E & Hi). apply in_seq in Hi. exists (Z.of_nat i).
    split; [lia | exact E].
  - intros (u & Hu & E). exists (Z.to_nat u). split.
    + now rewrite Z2Nat.id by lia.
    + apply in_seq. lia.
Qed.

Lemma below_length s (n : Z) :
  1 <= n -> Z.of_nat (List.length (below s n)) = n - 1.
Proof.
  intros Hn. unfold below. rewrite length_map, length_seq. lia.
Qed.

Lemma below_swap s (n u v : Z) :
  1 <= u < n -> 1 <= v < n ->
  Permutation (below (swap s u v) n) (below s n).
Proof.
  intros Hu Hv.
  set (f := fun i : nat =>
              if Nat.eqb i (Z.to_nat u) then Z.to_nat v
              else if Nat.eqb i (Z.to_nat v) then Z.to_nat u else i).
  set (l := seq 1 (Z.to_nat n - 1)).
  assert (E : below (swap s u v) n = map (fun i => s (Z.of_nat i)) (map f l)).
  { unfold below. fold l. rewrite map_map. apply map_ext_in. intros i Hi.
    apply in_seq in Hi. unfold swap, f.
    destruct (Nat.eqb_spec i (Z.to_nat u)) as [Eu | Nu].
    - replace (Z.of_nat i =? u) with true by (symmetry; apply Z.eqb_eq; lia).
      f_equal. lia.
    - replace (Z.of_nat i =? u) with false by (symmetry; apply Z.eqb_neq; lia).
      destruct (Nat.eqb_spec i (Z.to_nat v)) as [Ev | Nv].
      + replace (Z.of_nat i =? v) with true by (symmetry; apply Z.eqb_eq; lia).
        f_equal. lia.
      + replace (Z.of_nat i =? v) with false by (symmetry; apply Z.eqb_neq; lia).
        reflexivity. }
  rewrite E. unfold below. fold l. apply Permutation_map.
  assert (Hf : forall i, f (f i) = i).
  { intros i. unfold f.
    destruct (Nat.eqb_spec i (Z.to_nat u)) as [-> | Nu].
    - destruct (Nat.eqb_spec (Z.to_nat v) (Z.to_nat u)) as [E1 | N1];
        [exact E1 | now rewrite Nat.eqb_refl].
    - destruct (Nat.eqb_spec i (Z.to_nat v)) as [-> | Nv].
      + now rewrite Nat.eqb_refl.
      + destruct (Nat.eqb_spec i (Z.to_nat u)); [contradiction|].
        destruct (Nat.eqb_spec i (Z.to_nat v)); [contradiction | reflexivity]. }
  apply Permutation_map_same_l.
  - apply NoDup_map_NoDup_ForallPairs; [|apply seq_NoDup].
    intros x y _ _ Exy. rewrite <- (Hf x), <- (Hf y). now f_equal.
  - intros x Hx. apply in_map_iff in Hx. destruct Hx as (i & <- & Hi).
    unfold l in *. apply in_seq in Hi. apply in_seq. unfold f.
    destruct (Nat.eqb i (Z.to_nat u)); [lia|].
    destruct (Nat.eqb i (Z.to_nat v)); lia.
Qed.

(** the slot [idx] is taken out and the last slot is put in its place *)
Lemma below_remove s s' (n idx : Z) :
  1 <= idx < n ->
  (forall w, 1 <= w < n - 1 -> s' w = if w =? idx then s (n - 1) else s w) ->
  Permutation (s idx :: below s' (n - 1)) (below s n).
Proof.
  intros Hidx Hs'.
  rewrite <- (below_swap s n idx (n - 1)) by lia.
  pose proof (below_snoc (swap s idx (n - 1)) (n - 1) ltac:(lia)) as E.
  replace (n - 1 + 1) with n in E by lia. rewrite E. clear E.
  replace (swap s idx (n - 1) (n - 1)) with (s idx).
  2:{ unfold swap. destruct (Z.eqb_spec (n - 1) idx) as [-> | _];
        [reflexivity | now rewrite Z.eqb_refl]. }
  rewrite (below_ext s' (swap s idx (n - 1)) (n - 1)).
  - apply Permutation_cons_append.
  - intros w Hw. rewrite Hs' by lia. unfold swap.
    destruct (Z.eqb_spec w idx); [reflexivity|].
    destruct (Z.eqb_spec w (n - 1)); [lia | reflexivity].
Qed.

End Below.

Section Contents.
Import Vbh.
Context {store : Type}.
Implicit Types b : @vbh store.
Implicit Types m : store.

Lemma contents_swap b b' (u v : Z) :
  frame b b' -> 1 <= u < next b -> 1 <= v < next b ->
  (forall w, 0 <= w -> slot b' w = swap (slot b) u v w) ->
  Permutation (contents b') (contents b).
Proof.
  intros F Hu Hv Hs. unfold contents.
  replace (next b') with (next b) by (unfold frame in F; intuition congruence).
  rewrite (below_ext (slot b') (swap (slot b) u v)) by (intros; apply Hs; lia).
  now apply below_swap.
Qed.

Lemma contents_same b b' : same_live b b' -> contents b' = contents b.
Proof.
  intros (_ & _ & _ & En & Hs). unfold contents. rewrite En.
  apply below_ext. intros w Hw. apply Hs. lia.
Qed.

Lemma live_contents b (e : ptr) : live b e <-> In e (contents b).
Proof. unfold live, contents. now rewrite in_below. Qed.

End Contents.

(** ** The operations neither lose nor invent an element *)

Section HeapContents.
Import Vbh.
Context {store : Type}.
Implicit Types b : @vbh store.
Implicit Types m : store.
Variable junk : Z -> ptr.
Variable VBH_NOIDX : Z.

Lemma shape_next b : shape_ok b -> 1 <= next b.
Proof. intros (_ & _ & _ & _ & H & _). lia. Qed.

Lemma perm_swap (l : list ptr) b b' m u v :
  shape_ok b -> frame b b' ->
  1 <= u < next b -> 1 <= v < next b -> u <> v ->
  (forall w, 0 <= w -> slot b' w = swap (slot b) u v w) ->
  Permutation (contents b) l -> Permutation (contents b') l.
Proof.
  intros _ F Hu Hv _ Hs H.
  now rewrite (contents_swap b b' u v F Hu Hv Hs).
Qed.

Lemma callbacks_same b b' :
  cmp b' = cmp b -> update b' = update b -> priv b' = priv b ->
  callbacks_ok b -> callbacks_ok b'.
Proof.
  intros Ec Eu Ep [H1 H2]. split.
  - intros m0. rewrite Ec, Ep. apply H1.
  - intros f m0 p i x y E. rewrite Ec, Ep. apply H2. congruence.
Qed.

Lemma compares_swap (c : ptr -> ptr -> bool) b b' m u v :
  shape_ok b -> frame b b' ->
  1 <= u < next b -> 1 <= v < next b -> u <> v ->
  (forall w, 0 <= w -> slot b' w = swap (slot b) u v w) ->
  compares c b m -> compares c b' (notify b' (notify b' m u) v).
Proof.
  intros _ F _ _ _ _ [Hcb Hc].
  pose proof (callbacks_frame b b' Hcb F) as Hcb'.
  split; [exact Hcb'|]. intros x y.
  rewrite (cmp_same_notify b' _ v Hcb'), (cmp_same_notify b' _ u Hcb').
  destruct F as (_ & Fp & Fc & _). rewrite Fc, Fp. apply Hc.
Qed.

Lemma compares_ext (c : ptr -> ptr -> bool) b b' m :
  same_live b b' -> compares c b m -> compares c b' m.
Proof.
  intros (Ec & Eu & Ep & _) [Hcb Hc]. split.
  - now apply (callbacks_same b b').
  - intros x y. rewrite Ec, Ep. apply Hc.
Qed.

Lemma VBH_insert_perm b m (p : ptr) :
  shape_ok b -> p <> NULL -> next b + 2 * ROW_WIDTH < 2 ^ 32 ->
  exists b' m',
    VBH_insert junk p (b, m) = Ok (tt, (b', m')) /\
    Permutation (contents b') (p :: contents b) /\
    next b' = next b + 1 /\
    length b' = (if length b =? next b then length b + ROW_WIDTH
                 else length b).
Proof.
  intros Hsh Hp Hroom.
  destruct (VBH_insert_keeps junk
              (fun b' _ => Permutation (contents b') (p :: contents b))
              (fun b1 b2 m1 u v => perm_swap _ b1 b2 m1 u v)
              b m p Hsh Hp Hroom)
    as (b' & m' & E & _ & HI & Hn & Hl & _).
  - intros b3 _ _ _ En Hs Hpn. unfold contents. rewrite En.
    rewrite below_snoc by (now apply shape_next).
    rewrite Hpn, (below_ext (slot b3) (slot b) (next b) Hs).
    symmetry. apply Permutation_cons_append.
  - exists b', m'. auto.
Qed.

Lemma VBH_delete_perm b m (idx : Z) :
  shape_ok b -> 0 < idx < next b -> update b <> None ->
  exists b' m',
    VBH_delete VBH_NOIDX idx (b, m) = Ok (tt, (b', m')) /\
    Permutation (slot b idx :: contents b') (contents b) /\
    next b' = next b - 1 /\
    slot b' (next b') = NULL.
Proof.
  clear junk.
  intros Hsh Hidx Hupd.
  destruct (update b) as [f|] eqn:Ef; [clear Hupd | congruence].
  set (I := fun (b' : @vbh store) (m' : store) =>
              Permutation (slot b idx :: contents b') (contents b) /\
              slot b' (next b') = NULL).
  destruct (VBH_delete_keeps VBH_NOIDX I) with (b := b) (m := m) (idx := idx) (f := f)
    as (b' & m' & E & _ & [HI Hz] & Hn & _); auto.
  - intros b1 b2 m1 u v Hsh1 F Hu Hv Huv Hs [HP Hz]. split.
    + now rewrite (contents_swap b1 b2 u v F Hu Hv Hs).
    + replace (next b2) with (next b1) by (unfold frame in F; intuition congruence).
      pose proof (shape_next b1 Hsh1).
      rewrite Hs by lia. unfold swap.
      destruct (Z.eqb_spec (next b1) u); [lia|].
      destruct (Z.eqb_spec (next b1) v); [lia | exact Hz].
  - intros b1 b2 m1 Hsh1 S [HP Hz]. split.
    + now rewrite (contents_same b1 b2 S).
    + destruct S as (_ & _ & _ & En & Hs). rewrite En, Hs; [exact Hz|].
      pose proof (shape_next b1 Hsh1). lia.
  - intros b2 Ec Eu Ep En Hs Hz. split.
    + unfold contents. rewrite En. apply below_remove; [lia | exact Hs].
    + now rewrite En.
  - exists b', m'. auto.
Qed.

Lemma VBH_delete_compares b m (idx : Z) :
  shape_ok b -> callbacks_ok b -> 0 < idx < next b -> update b <> None ->
  exists b' m',
    VBH_delete VBH_NOIDX idx (b, m) = Ok (tt, (b', m')) /\
    compares (cmp b m (priv b)) b' m'.
Proof.
  intros Hsh Hcb Hidx Hupd.
  destruct (update b) as [f|] eqn:Ef; [clear Hupd | congruence].
  set (I := fun (b' : @vbh store) (m' : store) =>
              compares (cmp b m (priv b)) b' m').
  destruct (VBH_delete_keeps VBH_NOIDX I)
    with (b := b) (m := m) (idx := idx) (f := f)
    as (b' & m' & E & _ & Hc & _); auto.
  - intros b1 b2 m1 u v. apply compares_swap.
  - intros b1 b2 m1 _. apply compares_ext.
  - intros b2 Ec Eu Ep En Hs Hz.
    pose proof (callbacks_same b b2 Ec Eu Ep Hcb) as Hcb2.
    assert (H1 : forall x y,
              cmp b2 (f m (priv b) (slot b idx) VBH_NOIDX) (priv b2) x y
              = cmp b m (priv b) x y).
    { intros x y. rewrite Ec, Ep. destruct Hcb as [_ H2]. now apply H2. }
    split; [exact Hcb2|]. intros x y.
    destruct (idx =? next b - 1); [apply H1|].
    rewrite (cmp_same_notify b2 _ idx Hcb2). apply H1.
  - exists b', m'. auto.
Qed.

Lemma VBH_reorder_perm b m (idx : Z) :
  shape_ok b -> 0 < idx < next b ->
  exists b' m',
    VBH_reorder idx (b, m) = Ok (tt, (b', m')) /\
    frame b b' /\ shape_ok b' /\
    Permutation (contents b') (contents b).
Proof.
  intros Hsh Hidx.
  destruct (VBH_reorder_keeps
              (fun b' _ => Permutation (contents b') (contents b))
              (fun b1 b2 m1 u v => perm_swap _ b1 b2 m1 u v)
              b m idx Hsh Hidx) as (b' & m' & E & F & Hsh' & HI).
  - reflexivity.
  - exists b', m'. auto.
Qed.

(** VBH_insert on a well-shaped heap returns, whatever the order of the
    keys, and the heap then holds the new element and the elements it
    held, each as often as before; [next] has grown by one, and a row
    was added if and only if the heap was full. *)
Theorem insert_adds_the_element b m (p : ptr) :
  shape_ok b -> p <> NULL -> next b + 2 * ROW_WIDTH < 2 ^ 32 ->
  exists b' m',
    VBH_insert junk p (b, m) = Ok (tt, (b', m')) /\
    Permutation (contents b') (p :: contents b) /\
    next b' = next b + 1 /\
    length b' = (if length b =? next b then length b + ROW_WIDTH
                 else length b).
Proof. apply VBH_insert_perm. Qed.

(** VBH_delete on a well-shaped heap with an update callback returns,
    whatever the order of the keys; the heap then holds what it held
    but for the element of the slot [idx], and the slot after the last
    element is NULL. *)
Theorem delete_removes_the_element b m (idx : Z) :
  shape_ok b -> 0 < idx < next b -> update b <> None ->
  exists b' m',
    VBH_delete VBH_NOIDX idx (b, m) = Ok (tt, (b', m')) /\
    Permutation (slot b idx :: contents b') (contents b) /\
    next b' = next b - 1 /\
    slot b' (next b') = NULL.
Proof. apply VBH_delete_perm. Qed.

(** VBH_reorder on a well-shaped heap returns, whatever the keys of
    the elements are by then, and only moves elements between slots. *)
Theorem reorder_keeps_the_elements b m (idx : Z) :
  shape_ok b -> 0 < idx < next b ->
  exists b' m',
    VBH_reorder idx (b, m) = Ok (tt, (b', m')) /\
    frame b b' /\ shape_ok b' /\
    Permutation (contents b') (contents b).
Proof. apply VBH_reorder_perm. Qed.

(** The element that VBH_root returns after the root was deleted was in
    the heap before, and does not beat the deleted root: the roots come
    out in the order of their keys. *)
Theorem roots_come_out_in_order b m :
  heap_inv (b, m) -> update b <> None -> 2 < next b ->
  exists b' m' e',
    VBH_delete VBH_NOIDX ROOT_IDX (b, m) = Ok (tt, (b', m')) /\
    VBH_root (b', m') = Ok (e', (b', m')) /\
    In e' (contents b) /\
    cmp b' m' (priv b') e' (slot b ROOT_IDX) = false.
Proof.
  intros Hinv Hupd Hn. pose proof Hinv as (Hsh & Hcb & Hord).
  cbn [fst snd] in *.
  destruct (VBH_delete_ok VBH_NOIDX b m ROOT_IDX Hinv
              ltac:(unfold ROOT_IDX; lia) Hupd)
    as (b' & m' & E & Hinv' & Hn' & _).
  destruct (VBH_delete_perm b m ROOT_IDX Hsh ltac:(unfold ROOT_IDX; lia) Hupd)
    as (b2 & m2 & E2 & HP & _).
  rewrite E in E2. injection E2 as <- <-.
  destruct (VBH_delete_compares b m ROOT_IDX Hsh Hcb
              ltac:(unfold ROOT_IDX; lia) Hupd) as (b2 & m2 & E2 & [_ Hc]).
  rewrite E in E2. injection E2 as <- <-.
  exists b', m', (slot b' ROOT_IDX).
  split; [exact E|]. split; [apply VBH_root_ok, Hinv'|].
  assert (Hin : In (slot b' ROOT_IDX) (contents b)).
  { apply (Permutation_in _ HP). right. apply live_contents.
    exists ROOT_IDX. unfold ROOT_IDX. split; [lia | reflexivity]. }
  split; [exact Hin|].
  apply live_contents in Hin. destruct Hin as (u & Hu & Eu).
  rewrite Hc, <- Eu. now apply root_below_all.
Qed.

(** After VBH_insert, VBH_root returns an element that neither the new
    element nor any element that was in the heap beats. *)
Theorem root_after_insert b m (p : ptr) :
  heap_inv (b, m) -> p <> NULL -> next b + 2 * ROW_WIDTH < 2 ^ 32 ->
  exists b' m' e',
    VBH_insert junk p (b, m) = Ok (tt, (b', m')) /\
    VBH_root (b', m') = Ok (e', (b', m')) /\
    In e' (p :: contents b) /\
    forall e, In e (p :: contents b) ->
      cmp b' m' (priv b') e e' = false.
Proof.
  intros Hinv Hp Hroom. pose proof Hinv as (Hsh & Hcb & Hord).
  cbn [fst snd] in *.
  destruct (VBH_insert_ok junk b m p Hinv Hp Hroom)
    as (b' & m' & E & Hinv' & Hn' & _).
  destruct (VBH_insert_perm b m p Hsh Hp Hroom)
    as (b2 & m2 & E2 & HP & _).
  rewrite E in E2. injection E2 as <- <-.
  pose proof (shape_next b Hsh) as H1.
  exists b', m', (slot b' ROOT_IDX).
  split; [exact E|]. split; [apply VBH_root_ok, Hinv'|]. split.
  - apply (Permutation_in _ HP). apply live_contents.
    exists ROOT_IDX. unfold ROOT_IDX. split; [lia | reflexivity].
  - intros e He. apply (Permutation_in _ (Permutation_sym HP)) in He.
    apply live_contents in He. destruct He as (u & Hu & <-).
    now apply root_below_all.
Qed.

End HeapContents.

(** ** VBH_new, the empty heap and VBH_destroy *)

Section NewAndDestroy.
Import Vbh.
Context {store : Type}.
Implicit Types b : @vbh store.
Implicit Types m : store.
Implicit Types w : @world store.
Variable junk : Z -> ptr.
Variable VBH_NOIDX : Z.

Lemma pow2_u32 (k : Z) : 0 <= k <= 31 -> 0 <= 2 ^ k < 2 ^ 32.
Proof.
  intros Hk. split; [apply Z.pow_nonneg; lia | apply Z.pow_lt_mono_r; lia].
Qed.

Lemma page_shift_loop_run (fuel : nat) : forall u k,
  1 <= u <= k -> k <= 31 -> (Z.to_nat (k - u) < fuel)%nat ->
  page_shift_loop fuel u (2 ^ k) = Ok k.
Proof.
  induction fuel as [|fuel IH]; intros u k Hu Hk Hf; [lia|].
  cbn [page_shift_loop].
  destruct (Z.leb_spec 32 u) as [H32 | _]; [lia|].
  rewrite Z.shiftl_mul_pow2, Z.mul_1_l by lia.
  rewrite u32_small by (apply pow2_u32; lia).
  destruct (Z.eqb_spec (2 ^ u) (2 ^ k)) as [E | N].
  - f_equal. apply (Z.pow_inj_r 2); lia.
  - assert (u <> k) by congruence. apply IH; lia.
Qed.

Lemma VBH_new_run pagesz ptrsz td priv0 cmp_f update_f m (k : Z) :
  1 <= k <= 31 -> u32 pagesz / ptrsz = 2 ^ k -> 2 ^ k <= ptrsz * ROW_WIDTH ->
  exists b,
    VBH_new junk pagesz ptrsz td priv0 cmp_f update_f m = Ok (b, m) /\
    next b = ROOT_IDX /\ slot b ROOT_IDX = NULL /\
    length b = ROW_WIDTH /\ rows b = (if td then 1 else 16) /\
    page_size b = 2 ^ k /\ page_mask b = 2 ^ k - 1 /\ page_shift b = k /\
    cmp b = cmp_f /\ update b = update_f /\ priv b = priv0 /\
    magic b = VBH_MAGIC /\ rows_ok b.
Proof.
  intros Hk Epsz Hfit. unfold VBH_new. rewrite Epsz.
  pose proof (pow2_u32 k ltac:(lia)) as Hp.
  assert (H2 : 2 <= 2 ^ k).
  { change 2 with (2 ^ 1) at 1. apply Z.pow_le_mono_r; lia. }
  rewrite (u32_small (2 ^ k - 1)) by lia.
  rewrite land_mask by lia. rewrite Z.mod_same by lia. cbn [Z.eqb negb].
  rewrite (page_shift_loop_run 32 1 k) by lia.
  replace (2 ^ k <=? ptrsz * ROW_WIDTH) with true
    by (symmetry; apply Z.leb_le; exact Hfit).
  cbn [negb].
  set (nrows := if td then 1 else 16) in *.
  set (b0 := mk_vbh VBH_MAGIC priv0 cmp_f update_f
               (repeat None (Z.to_nat nrows)) nrows 0 ROOT_IDX (2 ^ k)
               (2 ^ k - 1) k) in *.
  assert (Hnr : 0 < nrows <= 16) by (unfold nrows; destruct td; lia).
  pose proof ROW_WIDTH_val as HW.
  assert (R0 : rows_ok b0).
  { split; [cbn [rows array b0]; rewrite repeat_length; lia|].
    exists 0. cbn [rows array length b0]. rewrite repeat_length.
    split; [lia|]. split; [lia|]. intros i Hi. split; [lia|].
    intros _. apply nth_error_repeat. exact Hi. }
  destruct (vbh_addrow_ok junk b0 m R0 ltac:(cbn [rows b0]; lia)
              ltac:(cbn [length b0]; lia))
    as (b1 & E1 & F1 & L1 & R1 & Rw1 & S1).
  destruct F1 as (Fm & Fp & Fc & Fu & Fn & Fps & Fpm & Fsh).
  cbn [magic priv cmp update rows length next page_size page_mask page_shift b0]
    in Fm, Fp, Fc, Fu, Fn, Fps, Fpm, Fsh, L1.
  rewrite (bind_ok _ _ _ _ _ E1).
  rewrite (writeA_ok b1 m ROOT_IDX NULL R1 ltac:(unfold ROOT_IDX; lia)).
  exists (poke b1 ROOT_IDX NULL). split; [reflexivity|].
  pose proof (frame_poke b1 ROOT_IDX NULL) as F2.
  destruct F2 as (Gm & Gp & Gc & Gu & Grw & Gl & Gn & Gps & Gpm & Gsh).
  assert (R2 : rows_ok (poke b1 ROOT_IDX NULL))
    by (apply poke_rows_ok; [exact R1 | unfold ROOT_IDX; lia]).
  assert (Erows : rows b1 = nrows).
  { destruct R1 as (Er & kk & Ekk & Hkk & _).
    destruct R0 as (Er0 & _).
    unfold vbh_addrow in E1. cbn in E1. clear - E1 Hnr HW.
    unfold bind, get_bh, put_bh, lift, assert in E1. cbn in E1.
    change (Z.shiftr 0 ROW_SHIFT) with 0 in E1.
    destruct (Z.leb_spec nrows 0) as [|_]; [lia|]. cbn in E1.
    unfold ROW_load, ROW_store in E1. cbn in E1.
    change (row_ix 0) with 0%nat in E1.
    destruct (Z.to_nat nrows) as [|n0] eqn:En; [lia|]. cbn in E1.
    injection E1 as <-. reflexivity. }
  split; [congruence|]. split.
  { rewrite slot_poke by (try assumption; unfold ROOT_IDX; lia).
    now rewrite Z.eqb_refl. }
  split; [lia|]. split; [congruence|]. split; [congruence|].
  split; [congruence|]. split; [congruence|]. split; [congruence|].
  split; [congruence|]. split; [congruence|]. split; [congruence | exact R2].
Qed.

Lemma VBH_new_ok_inv pagesz ptrsz td priv0 cmp_f update_f m w :
  VBH_new junk pagesz ptrsz td priv0 cmp_f update_f m = Ok w ->
  exists k, 1 <= k <= 31 /\ u32 pagesz / ptrsz = 2 ^ k /\
            2 ^ k <= ptrsz * ROW_WIDTH.
Proof.
  unfold VBH_new. intros E.
  set (psz := u32 pagesz / ptrsz) in *.
  destruct (negb (Z.land psz (u32 (psz - 1)) =? 0)); [discriminate|].
  destruct (page_shift_loop 32 1 psz) as [sh|] eqn:Esh; [|discriminate].
  destruct (Z.leb_spec psz (ptrsz * ROW_WIDTH)) as [Hfit|]; [|discriminate].
  apply page_shift_loop_inv in Esh. destruct Esh as [Hsh Epsz].
  exists sh. split; [lia|].
  assert (Epow : psz = 2 ^ sh).
  { rewrite <- Epsz. rewrite Z.shiftl_mul_pow2, Z.mul_1_l by lia.
    apply u32_small, pow2_u32. lia. }
  split; [exact Epow | now rewrite <- Epow].
Qed.

Lemma land_pred_pow2 (x : Z) :
  0 < x -> Z.land x (x - 1) = 0 -> x = 2 ^ Z.log2 x.
Proof.
  intros Hx Hl.
  destruct (Z.log2_spec x Hx) as [Hlo Hhi].
  pose proof (Z.log2_nonneg x) as Hk.
  destruct (Z.eq_dec x (2 ^ Z.log2 x)) as [E | N]; [exact E|].
  exfalso.
  assert (Hb : Z.testbit (Z.land x (x - 1)) (Z.log2 x) = true).
  { rewrite Z.land_spec, Z.bit_log2 by exact Hx.
    assert (El : Z.log2 (x - 1) = Z.log2 x).
    { apply Z.log2_unique; [exact Hk|]. lia. }
    rewrite <- El. rewrite Z.bit_log2 by lia. reflexivity. }
  rewrite Hl in Hb. rewrite Z.bits_0 in Hb. discriminate.
Qed.

Lemma page_slots_range pagesz ptrsz :
  2 <= u32 pagesz / ptrsz -> 2 <= u32 pagesz / ptrsz < 2 ^ 32.
Proof.
  intros H. split; [exact H|].
  assert (Hp : 0 <= u32 pagesz < 2 ^ 32) by (apply Z.mod_pos_bound; lia).
  destruct (Z.lt_trichotomy ptrsz 0) as [Hn | [E | Hpos]].
  - rewrite <- Z.div_opp_opp in H by lia.
    assert (- u32 pagesz / - ptrsz <= 0); [|lia].
    apply Z.div_le_upper_bound; lia.
  - rewrite E, Z.div_0_r in H. lia.
  - assert (u32 pagesz / ptrsz <= u32 pagesz); [|lia].
    apply Z.div_le_upper_bound; [lia|]. nia.
Qed.

Lemma pow2_slots (psz : Z) :
  2 <= psz < 2 ^ 32 -> Z.land psz (psz - 1) = 0 ->
  exists k, 1 <= k <= 31 /\ psz = 2 ^ k.
Proof.
  intros Hr Hl. exists (Z.log2 psz).
  pose proof (land_pred_pow2 psz ltac:(lia) Hl) as E.
  split; [|exact E].
  pose proof (Z.log2_nonneg psz) as Hk.
  split.
  - destruct (Z.eq_dec (Z.log2 psz) 0) as [E0 | N]; [|lia].
    rewrite E0 in E. simpl in E. lia.
  - assert (Z.log2 psz < 32); [|lia].
    apply (Z.pow_lt_mono_r_iff 2); lia.
Qed.

Lemma page_shift_loop_small (psz : Z) :
  psz = 0 \/ psz = 1 -> page_shift_loop 32 1 psz = Err Undefined.
Proof. intros [-> | ->]; vm_compute; reflexivity. Qed.

(** VBH_new on a page of [psz] slots, where [psz] is getpagesize() /
    sizeof(void * ).  For [psz] = 2^k with k from 1 to 31, and not more
    slots than a row has bytes, it returns a heap, and only then; the
    heap is empty: [next] is the root index, the root slot is NULL, one
    row is allocated, and the page geometry is that of 2^k.  For a page
    of 0 or 1 slots the loop that computes [page_shift] comes to the
    shift [1U << 32], which is undefined.  For every other [psz] from 2
    on an assertion fails. *)
Theorem VBH_new_gives_an_empty_heap pagesz ptrsz td priv0 cmp_f update_f m :
  let psz := u32 pagesz / ptrsz in
  (forall k,
     1 <= k <= 31 -> psz = 2 ^ k -> 2 ^ k <= ptrsz * ROW_WIDTH ->
     exists b,
       VBH_new junk pagesz ptrsz td priv0 cmp_f update_f m = Ok (b, m) /\
       next b = ROOT_IDX /\ slot b ROOT_IDX = NULL /\ contents b = [] /\
       length b = ROW_WIDTH /\ rows b = (if td then 1 else 16) /\
       page_size b = 2 ^ k /\ page_mask b = 2 ^ k - 1 /\ page_shift b = k /\
       cmp b = cmp_f /\ update b = update_f /\ priv b = priv0) /\
  (forall w,
     VBH_new junk pagesz ptrsz td priv0 cmp_f update_f m = Ok w ->
     exists k, 1 <= k <= 31 /\ psz = 2 ^ k /\ 2 ^ k <= ptrsz * ROW_WIDTH) /\
  (psz = 0 \/ psz = 1 ->
   VBH_new junk pagesz ptrsz td priv0 cmp_f update_f m = Err Undefined) /\
  (2 <= psz ->
   (forall k, 1 <= k <= 31 -> psz = 2 ^ k -> ptrsz * ROW_WIDTH < 2 ^ k) ->
   VBH_new junk pagesz ptrsz td priv0 cmp_f update_f m = Err AssertFail).
Proof.
  intros psz. split; [|split; [|split]].
  - intros k Hk Epsz Hfit.
    destruct (VBH_new_run pagesz ptrsz td priv0 cmp_f update_f m k
                Hk Epsz Hfit)
      as (b & E & Hn & Hz & Hl & Hrw & Hps & Hpm & Hsh & Hc & Hu & Hp & _).
    exists b. repeat split; try assumption.
    unfold contents. now rewrite Hn.
  - intros w. apply VBH_new_ok_inv.
  - intros Hs. unfold VBH_new. fold psz.
    rewrite (page_shift_loop_small psz Hs).
    destruct Hs as [-> | ->]; reflexivity.
  - intros H2 Hno. pose proof (page_slots_range pagesz ptrsz H2) as Hr.
    unfold VBH_new. fold psz. fold psz in Hr.
    rewrite (u32_small (psz - 1)) by lia.
    destruct (Z.eqb_spec (Z.land psz (psz - 1)) 0) as [Hl | _];
      [|reflexivity].
    cbn [negb].
    destruct (pow2_slots psz Hr Hl) as (k & Hk & Ek).
    rewrite Ek at 1. rewrite (page_shift_loop_run 32 1 k) by lia.
    specialize (Hno k Hk Ek).
    destruct (Z.leb_spec psz (ptrsz * ROW_WIDTH)) as [Hle | _];
      [lia | reflexivity].
Qed.

End NewAndDestroy.

Section EmptyHeap.
Import Vbh.
Context {store : Type}.
Implicit Types b : @vbh store.
Implicit Types m : store.
Implicit Types w : @world store.
Variable junk : Z -> ptr.
Variable VBH_NOIDX : Z.

Lemma reachable_empty_root w :
  reachable junk VBH_NOIDX w ->
  next (fst w) = ROOT_IDX -> slot (fst w) ROOT_IDX = NULL.
Proof.
  induction 1 as [pagesz ptrsz td priv0 cmp_f update_f m w E Hps Hcb
                 | w m' Hw IH Hsame
                 | w p w' Hw IH Hp Hcap E
                 | w idx w' Hw IH Hidx Hupd E
                 | w idx m' w' Hw IH Hidx Hkey E]; intros Hn.
  - destruct (VBH_new_ok_inv junk _ _ _ _ _ _ _ _ E) as (k & Hk & Epsz & Hfit).
    destruct (VBH_new_run junk pagesz ptrsz td priv0 cmp_f update_f m k
                Hk Epsz Hfit) as (b & E' & _ & Hz & _).
    rewrite E in E'. injection E' as ->. exact Hz.
  - now apply IH.
  - destruct w as [b m]. cbn [fst] in *.
    destruct (VBH_insert_ok junk b m p (reachable_inv _ _ _ Hw) Hp Hcap)
      as (b' & m' & E' & Hinv & Hn' & _).
    rewrite E' in E. injection E as <-. cbn [fst] in Hn.
    pose proof (shape_next b (proj1 (reachable_inv _ _ _ Hw))) as H1.
    cbn [fst] in H1. unfold ROOT_IDX in Hn. lia.
  - destruct w as [b m]. cbn [fst] in *.
    destruct (VBH_delete_perm VBH_NOIDX b m idx
                (proj1 (reachable_inv _ _ _ Hw)) Hidx Hupd)
      as (b' & m' & E' & _ & Hn' & Hz).
    rewrite E' in E. injection E as <-. cbn [fst] in *.
    now rewrite Hn in Hz.
  - destruct w as [b m]. cbn [fst snd] in *.
    destruct (VBH_reorder_ok b m m' idx (reachable_inv _ _ _ Hw) Hidx Hkey)
      as (b' & m'' & E' & _ & F).
    rewrite E' in E. injection E as <-. cbn [fst] in Hn.
    destruct F as (_ & _ & _ & _ & _ & _ & Fn & _).
    unfold ROOT_IDX in Hn. lia.
Qed.

(** On a heap that a program can build, VBH_root returns NULL if and
    only if the heap is empty. *)
Theorem root_is_null_iff_empty w :
  reachable junk VBH_NOIDX w ->
  exists e, VBH_root w = Ok (e, w) /\
            (e = NULL <-> next (fst w) = ROOT_IDX).
Proof.
  intros Hw. pose proof (reachable_inv _ _ _ Hw) as (Hsh & _).
  pose proof (reachable_empty_root w Hw) as Hz.
  destruct w as [b m]. cbn [fst] in *.
  exists (slot b ROOT_IDX). split; [now apply VBH_root_ok|]. split.
  - intros E. pose proof (shape_next b Hsh) as H1.
    destruct (Z.eq_dec (next b) ROOT_IDX) as [En | Nn]; [exact En | exfalso].
    destruct Hsh as (_ & _ & _ & _ & _ & _ & Hlive).
    apply (Hlive ROOT_IDX); [unfold ROOT_IDX in *; lia | exact E].
  - exact Hz.
Qed.

(** *** VBH_destroy *)

Lemma destroy_loop_run b (k : Z) :
  length b = k * ROW_WIDTH -> length b < 2 ^ 32 ->
  (forall i : nat, Z.of_nat i < k ->
     exists r, nth_error (array b) i = Some (Some r)) ->
  forall (fuel : nat) (j : Z),
    0 <= j <= k -> (Z.to_nat (k - j) < fuel)%nat ->
    destroy_loop fuel (j * ROW_WIDTH) b
    = Ok (seq (Z.to_nat j) (Z.to_nat (k - j))).
Proof.
  intros Hl Hlt Hrows. pose proof ROW_WIDTH_val as HW.
  induction fuel as [|fuel IH]; intros j Hj Hf; [lia|].
  cbn [destroy_loop]. rewrite Hl.
  destruct (Z.ltb_spec (j * ROW_WIDTH) (k * ROW_WIDTH)) as [Hlo | Hhi].
  - assert (Hjk : j < k) by nia.
    unfold ROW_load. rewrite row_ix_rows.
    destruct (Hrows (Z.to_nat j) ltac:(lia)) as (r & Er). rewrite Er.
    replace (u32 (j * ROW_WIDTH + ROW_WIDTH)) with ((j + 1) * ROW_WIDTH)
      by (rewrite u32_small; nia).
    rewrite IH by lia.
    replace (Z.to_nat (k - j)) with (S (Z.to_nat (k - (j + 1)))) by lia.
    cbn [seq]. do 3 f_equal. lia.
  - assert (j = k) as -> by nia.
    now replace (Z.to_nat (k - k)) with 0%nat by lia.
Qed.

Lemma VBH_destroy_run b m :
  shape_ok b ->
  (slot b ROOT_IDX = NULL ->
   exists l, VBH_destroy (b, m) = Ok (l, (b, m)) /\ NoDup l /\
             forall i, In i l <-> allocated b i) /\
  (slot b ROOT_IDX <> NULL -> VBH_destroy (b, m) = Err AssertFail).
Proof.
  intros Hsh.
  pose proof Hsh as (Hm & Hpg & Hr & Hrw & Hnl & Hl & Hlive).
  pose proof Hr as (Erows & k & Hk & Hkr & Harr).
  pose proof ROW_WIDTH_val as HW.
  unfold VBH_destroy.
  run_with (check_ok b m Hm).
  run_with (VBH_root_ok b m Hsh).
  split.
  - intros Hz. rewrite Hz. cbn [Z.eqb NULL].
    rewrite (bind_ok _ _ (b, m) (b, m) tt) by reflexivity.
    run_get.
    assert (Erun : destroy_loop (S (Z.to_nat (Z.shiftr (length b) ROW_SHIFT)))
                     0 b = Ok (seq 0 (Z.to_nat k))).
    { rewrite Hk, shiftr_rows.
      pose proof (destroy_loop_run b k Hk ltac:(lia)) as Hrun.
      specialize (Hrun ltac:(intros i Hi; apply Harr; [lia | exact Hi])).
      specialize (Hrun (S (Z.to_nat k)) 0 ltac:(lia) ltac:(lia)).
      rewrite Z.sub_0_r in Hrun. exact Hrun. }
    rewrite Erun. cbn [lift].
    eexists. split; [reflexivity|]. split; [apply seq_NoDup|].
    intros i. rewrite in_seq. unfold allocated. split.
    + intros Hi. apply Harr; lia.
    + intros (r & Er).
      assert (Hlen : (i < List.length (array b))%nat)
        by (apply nth_error_Some; congruence).
      destruct (Z.lt_ge_cases (Z.of_nat i) k) as [Hik | Hik]; [lia|].
      destruct (Harr i Hlen) as [_ Hnone]. rewrite (Hnone Hik) in Er.
      discriminate.
  - intros Hz. apply bind_err.
    replace (slot b ROOT_IDX =? NULL) with false
      by (symmetry; apply Z.eqb_neq; exact Hz).
    reflexivity.
Qed.

(** VBH_destroy on a heap that a program can build: on an empty heap it
    hands every allocated row to free(), each once; on a heap that still
    holds an element it fails its assertion. *)
Theorem destroy_frees_every_row w :
  reachable junk VBH_NOIDX w ->
  (next (fst w) = ROOT_IDX ->
   exists l, VBH_destroy w = Ok (l, w) /\ NoDup l /\
             forall i, In i l <-> allocated (fst w) i) /\
  (next (fst w) <> ROOT_IDX -> VBH_destroy w = Err AssertFail).
Proof.
  intros Hw. pose proof (reachable_inv _ _ _ Hw) as (Hsh & _).
  pose proof (reachable_empty_root w Hw) as Hz.
  destruct w as [b m]. cbn [fst] in *.
  destruct (VBH_destroy_run b m Hsh) as [H1 H2]. split.
  - intros Hn. apply H1, Hz, Hn.
  - intros Hn. apply H2.
    pose proof (shape_next b Hsh).
    destruct Hsh as (_ & _ & _ & _ & _ & _ & Hlive).
    apply Hlive. unfold ROOT_IDX in *. lia.
Qed.

End EmptyHeap.

(** ** Calls outside the preconditions *)

Lemma assert_fail {S} (x : bool) (s : S) :
  x = false -> assert x s = Err AssertFail.
Proof. intros ->. reflexivity. Qed.

Section Refusals.
Import Vbh.
Context {store : Type}.
Implicit Types b : @vbh store.
Implicit Types m : store.
Variable junk : Z -> ptr.
Variable VBH_NOIDX : Z.

Lemma delete_outside b m (idx : Z) :
  shape_ok b -> idx <= 0 \/ next b <= idx ->
  VBH_delete VBH_NOIDX idx (b, m) = Err AssertFail.
Proof.
  clear junk.
  intros Hsh Hidx.
  pose proof Hsh as (Hm & Hpg & Hr & Hrw & Hnl & Hl & Hlive).
  unfold VBH_delete.
  run_with (check_ok b m Hm). run_get. unfold ROOT_IDX.
  destruct (Z.ltb_spec 1 (next b)) as [H1 | H1];
    [|now apply bind_err].
  rewrite (bind_ok _ _ (b, m) (b, m) tt) by reflexivity.
  destruct (Z.ltb_spec idx (next b)) as [H2 | H2];
    [|now apply bind_err].
  rewrite (bind_ok _ _ (b, m) (b, m) tt) by reflexivity.
  apply bind_err, assert_fail, Z.ltb_ge. lia.
Qed.

Lemma reorder_outside b m (idx : Z) :
  shape_ok b -> idx <= 0 \/ next b <= idx ->
  VBH_reorder idx (b, m) = Err AssertFail.
Proof.
  clear junk VBH_NOIDX.
  intros Hsh Hidx.
  pose proof Hsh as (Hm & Hpg & Hr & Hrw & Hnl & Hl & Hlive).
  unfold VBH_reorder.
  run_with (check_ok b m Hm). run_get. unfold ROOT_IDX.
  destruct (Z.ltb_spec 1 (next b)) as [H1 | H1];
    [|now apply bind_err].
  rewrite (bind_ok _ _ (b, m) (b, m) tt) by reflexivity.
  destruct (Z.ltb_spec idx (next b)) as [H2 | H2];
    [|now apply bind_err].
  rewrite (bind_ok _ _ (b, m) (b, m) tt) by reflexivity.
  apply bind_err, assert_fail, Z.ltb_ge. lia.
Qed.

Lemma insert_null b m :
  shape_ok b -> next b + 2 * ROW_WIDTH < 2 ^ 32 ->
  VBH_insert junk NULL (b, m) = Err AssertFail.
Proof.
  clear VBH_NOIDX.
  intros Hsh Hnext.
  pose proof Hsh as (Hm & Hpg & Hr & Hrw & Hnl & Hl & Hlive).
  pose proof ROW_WIDTH_val as HW.
  set (n := next b) in *.
  assert (Hrow : exists b1,
    (if length b =? next b then vbh_addrow junk else ret tt) (b, m)
      = Ok (tt, (b1, m)) /\
    (magic b1 = magic b /\ next b1 = next b) /\
    n < length b1 < 2 ^ 32 /\ rows_ok b1).
  { fold n. destruct (Z.eqb_spec (length b) n) as [Efull | Efree].
    - destruct (vbh_addrow_ok junk b m Hr Hrw ltac:(lia))
        as (b1 & E1 & F1 & L1 & R1 & Rw1 & S1).
      exists b1. split; [exact E1|]. split; [intuition congruence|].
      split; [lia | exact R1].
    - exists b. split; [reflexivity|]. split; [split; reflexivity|].
      split; [lia | exact Hr]. }
  destruct Hrow as (b1 & E1 & (Fm & Fn) & L1 & R1).
  unfold VBH_insert.
  run_with (check_ok b m Hm). run_get. run_assert.
  run_with E1. run_get. run_assert.
  rewrite Fn. fold n. rewrite (u32_small (n + 1)) by lia.
  unfold put_bh at 1. unfold bind at 1. cbn [snd].
  set (b2 := set_next b1 (n + 1)).
  run_with (writeA_ok b2 m n NULL (rows_ok_set_next b1 (n + 1) R1) ltac:(cbn; lia)).
  set (b3 := poke b2 n NULL).
  assert (R3 : rows_ok b3) by (apply poke_rows_ok; [exact R1 | cbn; lia]).
  pose proof (frame_poke b2 n NULL) as F3. fold b3 in F3.
  destruct F3 as (Gm & _ & _ & _ & _ & Gl & Gn & _).
  cbn [magic length next b2 set_next] in Gm, Gl, Gn.
  apply bind_err. unfold vbh_update.
  run_with (check_ok b3 m ltac:(congruence)). run_get. run_assert.
  apply bind_err. unfold assert_A.
  run_with (readA_ok b3 m n R3 ltac:(lia)).
  unfold b3. rewrite slot_poke by (try exact R1; cbn; lia).
  rewrite Z.eqb_refl. reflexivity.
Qed.

(** VBH_delete and VBH_reorder of an index that is not the slot of an
    element, and VBH_insert of NULL, fail an assertion. *)
Theorem calls_outside_the_heap_fail b m :
  shape_ok b ->
  (forall idx, idx <= 0 \/ next b <= idx ->
     VBH_delete VBH_NOIDX idx (b, m) = Err AssertFail /\
     VBH_reorder idx (b, m) = Err AssertFail) /\
  (next b + 2 * ROW_WIDTH < 2 ^ 32 ->
   VBH_insert junk NULL (b, m) = Err AssertFail).
Proof.
  intros Hsh. split.
  - intros idx Hidx. split; [now apply delete_outside | now apply reorder_outside].
  - now apply insert_null.
Qed.

End Refusals.

(** ** The index that update() records *)

Section Recorded.
Import Vbh.
Implicit Types b : @vbh foo_store.
Implicit Types m : foo_store.
Implicit Types s : Z -> ptr.

Lemma nth_below s (n i : Z) (d : ptr) :
  1 <= i < n -> nth (Z.to_nat i - 1) (below s n) d = s i.
Proof.
  intros Hi. unfold below.
  rewrite (nth_indep _ d (s (Z.of_nat 0))) by (rewrite length_map, length_seq; lia).
  rewrite (map_nth (fun k => s (Z.of_nat k))).
  rewrite seq_nth by lia. f_equal. lia.
Qed.

Lemma NoDup_below_inj s (n i j : Z) :
  NoDup (below s n) -> 1 <= i < n -> 1 <= j < n -> s i = s j -> i = j.
Proof.
  intros Hnd Hi Hj E.
  pose proof (proj1 (NoDup_nth (below s n) NULL) Hnd
                (Z.to_nat i - 1)%nat (Z.to_nat j - 1)%nat) as H.
  unfold below in H at 1 2. rewrite length_map, length_seq in H.
  rewrite !nth_below in H by assumption.
  specialize (H ltac:(lia) ltac:(lia) E). lia.
Qed.

Variable out : list ptr.
Variable z : Z.
Variable l : list ptr.
Hypothesis Hl : NoDup l.

Lemma kept_NoDup (c : list ptr) : Permutation (out ++ c) l -> NoDup c.
Proof.
  intros HP. apply Permutation_sym in HP.
  apply (Permutation_NoDup HP) in Hl. now apply NoDup_app_remove_l in Hl.
Qed.

Lemma out_is_out (c : list ptr) (x : ptr) :
  Permutation (out ++ c) l -> In x out -> ~ In x c.
Proof.
  intros HP Hx Hc. apply Permutation_sym in HP.
  apply (Permutation_NoDup HP) in Hl.
  revert Hl Hx Hc. clear.
  induction out as [|y o IH]; intros Hnd Hx Hc; [contradiction|].
  cbn in Hnd. inversion Hnd as [|? ? Hy Hnd']; subst.
  destruct Hx as [-> | Hx].
  - apply Hy. apply in_or_app. now right.
  - now apply IH.
Qed.

Lemma recorded_swap b b' m u v :
  shape_ok b -> frame b b' ->
  1 <= u < next b -> 1 <= v < next b -> u <> v ->
  (forall w, 0 <= w -> slot b' w = swap (slot b) u v w) ->
  recorded out z l b m -> recorded out z l b' (notify b' (notify b' m u) v).
Proof.
  intros Hsh F Hu Hv Huv Hs HR.
  pose proof HR as (Eu & HP & Htr & Hout).
  pose proof F as (_ & _ & _ & Fu & _ & _ & Fn & _).
  assert (HP' : Permutation (out ++ contents b') l).
  { rewrite (contents_swap b b' u v F Hu Hv Hs). exact HP. }
  assert (Eu' : update b' = Some foo_update) by congruence.
  assert (Hnd' : NoDup (contents b')) by now apply kept_NoDup.
  assert (Hinj : forall i j, 1 <= i < next b -> 1 <= j < next b ->
                   slot b' i = slot b' j -> i = j).
  { intros i j Hi Hj. apply (NoDup_below_inj (slot b') (next b')); try lia.
    exact Hnd'. }
  assert (Hmem : forall x,
    notify b' (notify b' m u) v x
    = if x =? slot b' v then mk_foo v (foo_key (notify b' m u (slot b' v)))
      else if x =? slot b' u then mk_foo u (foo_key (m (slot b' u)))
      else m x).
  { intros x. unfold notify. rewrite Eu'. unfold foo_update. reflexivity. }
  split; [exact Eu'|]. split; [exact HP'|]. split.
  - intros w Hw. cbn [fst snd] in *. rewrite Fn in Hw. rewrite Hmem.
    destruct (Z.eqb_spec (slot b' w) (slot b' v)) as [E | N].
    { cbn [foo_idx]. symmetry. now apply Hinj. }
    destruct (Z.eqb_spec (slot b' w) (slot b' u)) as [E | N'].
    { cbn [foo_idx]. symmetry. now apply Hinj. }
    rewrite Hs by lia. unfold swap.
    destruct (Z.eqb_spec w u) as [-> | _]; [congruence|].
    destruct (Z.eqb_spec w v) as [-> | _]; [congruence|].
    apply Htr. exact Hw.
  - intros x Hx. rewrite Hmem.
    assert (Hnot : ~ In x (contents b')) by now apply out_is_out.
    destruct (Z.eqb_spec x (slot b' v)) as [E | _].
    { exfalso. apply Hnot, live_contents. exists v. split; [lia | congruence]. }
    destruct (Z.eqb_spec x (slot b' u)) as [E | _].
    { exfalso. apply Hnot, live_contents. exists u. split; [lia | congruence]. }
    now apply Hout.
Qed.

End Recorded.

Section RecordedOperations.
Import Vbh.
Implicit Types b : @vbh foo_store.
Implicit Types m : foo_store.
Variable junk : Z -> ptr.
Variable VBH_NOIDX : Z.

Lemma recorded_ext out z l b b' m :
  same_live b b' -> recorded out z l b m -> recorded out z l b' m.
Proof.
  intros S (Eu & HP & Htr & Hout). pose proof (contents_same b b' S) as Ec.
  destruct S as (_ & Su & _ & Sn & Ss).
  split; [congruence|]. split; [now rewrite Ec|]. split; [|exact Hout].
  intros w Hw. cbn [fst snd] in *. rewrite Sn in Hw.
  rewrite Ss by lia. now apply Htr.
Qed.

Lemma insert_recorded b m (p : ptr) :
  shape_ok b -> update b = Some foo_update ->
  NoDup (contents b) -> tracked (b, m) ->
  p <> NULL -> ~ In p (contents b) -> next b + 2 * ROW_WIDTH < 2 ^ 32 ->
  exists w', VBH_insert junk p (b, m) = Ok (tt, w') /\
             tracked w' /\ NoDup (contents (fst w')).
Proof.
  clear VBH_NOIDX.
  intros Hsh Eu Hnd Htr Hp Hin Hroom.
  assert (Hl : NoDup (p :: contents b)) by now constructor.
  destruct (VBH_insert_keeps junk (recorded [] 0 (p :: contents b))
              (recorded_swap [] 0 (p :: contents b) Hl) b m p Hsh Hp Hroom)
    as (b' & m' & E & _ & HR & _).
  - intros b3 _ Eu3 _ En Hs Hpn.
    split; [congruence|]. split; [|split; [|intros x []]].
    + cbn [app]. unfold contents. rewrite En.
      rewrite below_snoc by (now apply shape_next).
      rewrite Hpn, (below_ext (slot b3) (slot b) (next b) Hs).
      symmetry. apply Permutation_cons_append.
    + intros w Hw. cbn [fst snd] in *. rewrite En in Hw.
      unfold notify. rewrite Eu3, Eu, Hpn. unfold foo_update.
      destruct (Z.eq_dec w (next b)) as [-> | Hne].
      * rewrite Hpn, Z.eqb_refl. reflexivity.
      * rewrite Hs by lia.
        destruct (Z.eqb_spec (slot b w) p) as [E | _].
        { exfalso. apply Hin, live_contents. exists w. split; [lia | exact E]. }
        apply Htr. cbn [fst]. lia.
  - exists (b', m'). split; [exact E|]. destruct HR as (_ & HP & Htr' & _).
    split; [exact Htr'|]. cbn [fst]. now apply (kept_NoDup [] (p :: contents b)).
Qed.

Lemma delete_recorded b m (idx : Z) :
  shape_ok b -> update b = Some foo_update ->
  NoDup (contents b) -> tracked (b, m) ->
  0 < idx < next b ->
  exists w', VBH_delete VBH_NOIDX idx (b, m) = Ok (tt, w') /\
             tracked w' /\ NoDup (contents (fst w')) /\
             foo_idx (snd w' (slot b idx)) = VBH_NOIDX.
Proof.
  clear junk.
  intros Hsh Eu Hnd Htr Hidx.
  pose proof (NoDup_below_inj (slot b) (next b)) as Hinj.
  set (e := slot b idx).
  destruct (VBH_delete_keeps VBH_NOIDX (recorded [e] VBH_NOIDX (contents b))
              (recorded_swap [e] VBH_NOIDX (contents b) Hnd))
    with (b := b) (m := m) (idx := idx) (f := foo_update)
    as (b' & m' & E & _ & HR & _); auto.
  - intros b1 b2 m1 _. apply recorded_ext.
  - intros b2 _ Eu2 _ En Hs Hz.
    assert (HP : Permutation ([e] ++ contents b2) (contents b)).
    { cbn [app]. unfold contents. rewrite En. apply below_remove; [lia | exact Hs]. }
    split; [congruence|]. split; [exact HP|].
    fold e.
    assert (M1 : forall x, x <> e ->
              foo_update m (priv b) e VBH_NOIDX x = m x).
    { intros x Hx. unfold foo_update.
      destruct (Z.eqb_spec x e); [contradiction | reflexivity]. }
    assert (Hold : forall w, 1 <= w < next b - 1 -> w <> idx ->
              slot b2 w = slot b w /\ slot b w <> e /\
              slot b w <> slot b (next b - 1)).
    { intros w Hw Hne. rewrite Hs by lia.
      destruct (Z.eqb_spec w idx); [contradiction|].
      split; [reflexivity|]. split; intros Eq;
        apply Hinj in Eq; try assumption; lia. }
    destruct (Z.eqb_spec idx (next b - 1)) as [Etail | Emid].
    + split.
      * intros w Hw. cbn [fst snd] in *. rewrite En in Hw.
        destruct (Hold w Hw ltac:(lia)) as (E1 & E2 & _).
        rewrite E1, M1 by exact E2. apply Htr. cbn [fst]. lia.
      * intros x [<- | []]. unfold foo_update. now rewrite Z.eqb_refl.
    + assert (Eq2 : slot b2 idx = slot b (next b - 1)).
      { rewrite Hs by lia. now rewrite Z.eqb_refl. }
      assert (Hqe : slot b (next b - 1) <> e).
      { intros Eq. apply Hinj in Eq; try assumption; lia. }
      split.
      * intros w Hw. cbn [fst snd] in *. rewrite En in Hw.
        unfold notify. rewrite Eu2, Eu, Eq2. unfold foo_update at 1.
        destruct (Z.eq_dec w idx) as [-> | Hne].
        { rewrite Eq2, Z.eqb_refl. reflexivity. }
        destruct (Hold w Hw Hne) as (E1 & E2 & E3). rewrite E1.
        destruct (Z.eqb_spec (slot b w) (slot b (next b - 1))); [contradiction|].
        rewrite M1 by exact E2. apply Htr. cbn [fst]. lia.
      * intros x [<- | []].
        unfold notify. rewrite Eu2, Eu, Eq2. unfold foo_update at 1.
        destruct (Z.eqb_spec e (slot b (next b - 1))) as [Eq | _];
          [congruence|].
        unfold foo_update. now rewrite Z.eqb_refl.
  - exists (b', m'). split; [exact E|]. destruct HR as (_ & HP & Htr' & Hout).
    split; [exact Htr'|]. cbn [fst snd].
    split; [now apply (kept_NoDup [e] (contents b))|].
    apply Hout. now left.
Qed.

Lemma reorder_recorded b m m' (idx : Z) :
  shape_ok b -> update b = Some foo_update ->
  NoDup (contents b) -> tracked (b, m) ->
  0 < idx < next b -> (forall x, foo_idx (m' x) = foo_idx (m x)) ->
  exists w', VBH_reorder idx (b, m') = Ok (tt, w') /\
             tracked w' /\ NoDup (contents (fst w')).
Proof.
  clear junk VBH_NOIDX.
  intros Hsh Eu Hnd Htr Hidx Hm'.
  destruct (VBH_reorder_keeps (recorded [] 0 (contents b))
              (recorded_swap [] 0 (contents b) Hnd) b m' idx Hsh Hidx)
    as (b' & m'' & E & _ & _ & HR).
  - split; [exact Eu|]. split; [reflexivity|]. split; [|intros x []].
    intros w Hw. cbn [fst snd] in *. rewrite Hm'. now apply Htr.
  - exists (b', m''). split; [exact E|]. destruct HR as (_ & HP & Htr' & _).
    split; [exact Htr'|]. cbn [fst]. now apply (kept_NoDup [] (contents b)).
Qed.

(** With update() of the test driver as the callback and no element in
    the heap twice, every element of the heap has its slot in its [idx]
    after VBH_insert, VBH_delete and VBH_reorder, if it had before; the
    deleted element has VBH_NOIDX. *)
Theorem update_records_the_slots b m :
  shape_ok b -> update b = Some foo_update ->
  NoDup (contents b) -> tracked (b, m) ->
  (forall p, p <> NULL -> ~ In p (contents b) ->
     next b + 2 * ROW_WIDTH < 2 ^ 32 ->
     exists w', VBH_insert junk p (b, m) = Ok (tt, w') /\
                tracked w' /\ NoDup (contents (fst w'))) /\
  (forall idx, 0 < idx < next b ->
     exists w', VBH_delete VBH_NOIDX idx (b, m) = Ok (tt, w') /\
                tracked w' /\ NoDup (contents (fst w')) /\
                foo_idx (snd w' (slot b idx)) = VBH_NOIDX) /\
  (forall idx m', 0 < idx < next b ->
     (forall x, foo_idx (m' x) = foo_idx (m x)) ->
     exists w', VBH_reorder idx (b, m') = Ok (tt, w') /\
                tracked w' /\ NoDup (contents (fst w'))).
Proof.
  intros Hsh Eu Hnd Htr. split; [|split].
  - intros p. now apply insert_recorded.
  - intros idx. now apply delete_recorded.
  - intros idx m'. now apply reorder_recorded.
Qed.

End RecordedOperations.

(** ** VBH_reorder of an element that is in its place *)

Section InPlace.
Import Vbh.
Context {store : Type}.
Implicit Types b : @vbh store.
Implicit Types m : store.

Lemma trickleup_in_place b m (u : Z) :
  heap_inv (b, m) -> 1 <= u < next b ->
  vbh_trickleup u (b, m) = Ok (u, (b, m)).
Proof.
  intros (Hsh & Hcb & Hord) Hu. cbn [fst snd] in *.
  pose proof (shape_par b Hsh) as Hpar.
  pose proof Hsh as (Hm & Hpg & Hr & Hrw & Hnl & Hl & Hlive).
  unfold vbh_trickleup.
  run_with (check_ok b m Hm). run_get. run_assert.
  run_with (assert_A_ok b m u Hr ltac:(lia) (Hlive u ltac:(lia))).
  cbn [trickleup_loop]. unfold ROOT_IDX.
  destruct (Z.ltb_spec 1 u) as [Hu1 | Hu1]; [|reflexivity].
  set (v := par (page_size b) u).
  assert (Hv : 1 <= v < u) by (apply Hpar; lia).
  run_get. run_assert.
  run_with (assert_A_ok b m u Hr ltac:(lia) (Hlive u ltac:(lia))).
  rewrite (bind_ok _ _ (b, m) (b, m) v).
  2:{ apply lift_ok. now rewrite shape_parent by (assumption || lia). }
  run_assert. run_assert.
  run_with (assert_A_ok b m v Hr ltac:(lia) (Hlive v ltac:(lia))).
  run_with (cmp_A_ok b m u v Hr ltac:(lia) ltac:(lia)).
  replace (cmp b m (priv b) (slot b u) (slot b v)) with false; [reflexivity|].
  symmetry. apply Hord. lia.
Qed.

Lemma trickledown_in_place b m (u : Z) :
  heap_inv (b, m) -> 1 <= u < next b ->
  (forall w, 1 < w < next b -> par (page_size b) w = u ->
     cmp b m (priv b) (slot b u) (slot b w) = true) ->
  vbh_trickledown u (b, m) = Ok (u, (b, m)).
Proof.
  intros (Hsh & Hcb & Hord) Hu Hbeats. cbn [fst snd] in *.
  pose proof Hsh as (Hm & Hpg & Hr & Hrw & Hnl & Hl & Hlive).
  destruct (page_facts b Hpg) as (_ & E2 & HH & _).
  set (n := next b) in *.
  unfold vbh_trickledown.
  run_with (check_ok b m Hm). run_get. fold n. run_assert.
  run_with (assert_A_ok b m u Hr ltac:(lia) (Hlive u ltac:(lia))).
  cbn [trickledown_loop].
  run_get. fold n. run_assert.
  run_with (assert_A_ok b m u Hr ltac:(lia) (Hlive u ltac:(lia))).
  rewrite shape_child by (assumption || lia).
  destruct (kids (page_size b) u) as [v1 v2] eqn:Ek.
  destruct (kids_gt _ _ E2 HH u v1 v2 ltac:(unfold UINT_MAX; lia) Ek) as [Hv1 Hv12].
  run_assert. run_assert. run_assert.
  destruct (Z.leb_spec n v1) as [Hge | Hlt]; [reflexivity|].
  destruct (par_kids _ _ E2 HH u v1 v2 ltac:(lia) Ek ltac:(unfold UINT_MAX; lia))
    as [Hp1 Hp2].
  run_with (assert_A_ok b m v1 Hr ltac:(lia) (Hlive v1 ltac:(lia))).
  assert (Hbest : exists vb,
    (if negb (v1 =? v2) && (v2 <? n)
     then assert_A v2 ;; c0 <- cmp_A v2 v1 ;; ret (if c0 then v2 else v1)
     else ret v1) (b, m) = Ok (vb, (b, m)) /\
    u < vb < n /\ par (page_size b) vb = u).
  { destruct (Z.eqb_spec v1 v2) as [Ev | Ev]; cbn [negb andb].
    { exists v1. split; [reflexivity|]. split; [lia | exact Hp1]. }
    destruct (Z.ltb_spec v2 n) as [Hv2 | Hv2].
    2:{ exists v1. split; [reflexivity|]. split; [lia | exact Hp1]. }
    run_with (assert_A_ok b m v2 Hr ltac:(lia) (Hlive v2 ltac:(lia))).
    run_with (cmp_A_ok b m v2 v1 Hr ltac:(lia) ltac:(lia)).
    destruct (cmp b m (priv b) (slot b v2) (slot b v1)).
    - exists v2. split; [reflexivity|]. split; [lia | exact Hp2].
    - exists v1. split; [reflexivity|]. split; [lia | exact Hp1]. }
  destruct Hbest as (vb & Eb & Hvb & Hpb).
  run_with Eb.
  run_assert.
  run_with (assert_A_ok b m vb Hr ltac:(lia) (Hlive vb ltac:(lia))).
  run_with (cmp_A_ok b m u vb Hr ltac:(lia) ltac:(lia)).
  rewrite Hbeats by (fold n; lia || exact Hpb). reflexivity.
Qed.

(** VBH_reorder leaves the heap and the caller's memory as they are when
    the element of the slot is in its place: the heap is in order, and
    the element beats its children. *)
Theorem reorder_in_place b m (idx : Z) :
  heap_inv (b, m) -> 0 < idx < next b ->
  (forall w, 1 < w < next b -> parent b w = Ok idx ->
     cmp b m (priv b) (slot b idx) (slot b w) = true) ->
  VBH_reorder idx (b, m) = Ok (tt, (b, m)).
Proof.
  intros Hinv Hidx Hbeats. pose proof Hinv as (Hsh & _).
  cbn [fst] in Hsh.
  pose proof Hsh as (Hm & Hpg & Hr & Hrw & Hnl & Hl & Hlive).
  assert (Hbeats' : forall w, 1 < w < next b -> par (page_size b) w = idx ->
            cmp b m (priv b) (slot b idx) (slot b w) = true).
  { intros w Hw Hp. apply Hbeats; [exact Hw|].
    rewrite shape_parent by (assumption || lia). now rewrite Hp. }
  unfold VBH_reorder.
  run_with (check_ok b m Hm). run_get. unfold ROOT_IDX.
  run_assert. run_assert. run_assert.
  run_with (assert_A_ok b m idx Hr ltac:(lia) (Hlive idx ltac:(lia))).
  run_with (trickleup_in_place b m idx Hinv ltac:(lia)).
  run_get. run_assert. run_assert.
  run_with (assert_A_ok b m idx Hr ltac:(lia) (Hlive idx ltac:(lia))).
  run_with (trickledown_in_place b m idx Hinv ltac:(lia) Hbeats').
  run_get. run_assert. run_assert.
  apply (assert_A_ok b m idx Hr ltac:(lia) (Hlive idx ltac:(lia))).
Qed.

End InPlace.

(** ** More of the heap on concrete inputs *)

Section HeapRunsMore.
Import Vbh VbhRun.

Lemma pages_sparse : pages_ok (fst heap_sparse).
Proof. repeat split; cbn; lia. Qed.

Lemma shape_heap3 : shape_ok (fst heap3).
Proof. exact (proj1 (reachable_inv _ _ _ reach_heap3)). Qed.

Lemma heap3_eq : heap3 = (fst heap3, snd heap3).
Proof. apply surjective_pairing. Qed.

Lemma heap_inv_heap3 : heap_inv (fst heap3, snd heap3).
Proof. rewrite <- heap3_eq. exact (reachable_inv _ _ _ reach_heap3). Qed.

(** the parent of the first slot of page 45 is in the bottom row of the
    first page *)
Lemma parent_is_below_witness :
  exists v, parent (fst heap_sparse) 23040 = Ok v /\ 1 <= v < 23040.
Proof.
  apply (parent_is_below (fst heap_sparse) 23040);
    [exact pages_sparse | unfold UINT_MAX; lia].
Defined.

(** the slot 300 is in the bottom row of the first page *)
Lemma child_is_above_witness :
  child (fst heap_sparse) 300 = (23040, 23041) /\
  (300 < 23040 /\ 23040 <= 23041 /\ 23041 <= UINT_MAX).
Proof.
  split; [reflexivity|].
  apply (child_is_above (fst heap_sparse) 300 23040 23041);
    [exact pages_sparse | unfold UINT_MAX; lia | reflexivity].
Defined.

Lemma child_of_parent_witness :
  parent (fst heap_sparse) 23041 = Ok 300 /\
  child (fst heap_sparse) 300 = (23040, 23041) /\
  (23041 = 23040 \/ 23041 = 23041).
Proof.
  split; [reflexivity|]. split; [reflexivity|].
  apply (child_of_parent (fst heap_sparse) 23041 300 23040 23041);
    [exact pages_sparse | unfold UINT_MAX; lia | reflexivity | reflexivity].
Defined.

(** The heap of the three elements 100, 200 and 300: a fourth one. *)
Lemma insert_adds_the_element_witness :
  exists b' m',
    VBH_insert junk0 400 (fst heap3, snd heap3) = Ok (tt, (b', m')) /\
    Permutation (contents b') (400 :: contents (fst heap3)) /\
    next b' = next (fst heap3) + 1 /\
    length b' = (if length (fst heap3) =? next (fst heap3)
                 then length (fst heap3) + ROW_WIDTH
                 else length (fst heap3)).
Proof.
  apply (insert_adds_the_element junk0 (fst heap3) (snd heap3) 400).
  - exact shape_heap3.
  - discriminate.
  - vm_compute. reflexivity.
Defined.

Lemma delete_removes_the_element_witness :
  exists b' m',
    VBH_delete NOIDX0 1 (fst heap3, snd heap3) = Ok (tt, (b', m')) /\
    Permutation (slot (fst heap3) 1 :: contents b') (contents (fst heap3)) /\
    next b' = next (fst heap3) - 1 /\
    slot b' (next b') = NULL.
Proof.
  apply (delete_removes_the_element NOIDX0 (fst heap3) (snd heap3) 1).
  - exact shape_heap3.
  - vm_compute. split; reflexivity.
  - vm_compute. discriminate.
Defined.

(** the element at 100 has got the key 1 *)
Lemma reorder_keeps_the_elements_witness :
  exists b' m',
    VBH_reorder 2 (fst heap3, mem3') = Ok (tt, (b', m')) /\
    frame (fst heap3) b' /\ shape_ok b' /\
    Permutation (contents b') (contents (fst heap3)).
Proof.
  apply (reorder_keeps_the_elements (fst heap3) mem3' 2).
  - exact shape_heap3.
  - vm_compute. split; reflexivity.
Defined.

Lemma roots_come_out_in_order_witness :
  exists b' m' e',
    VBH_delete NOIDX0 ROOT_IDX (fst heap3, snd heap3) = Ok (tt, (b', m')) /\
    VBH_root (b', m') = Ok (e', (b', m')) /\
    In e' (contents (fst heap3)) /\
    cmp b' m' (priv b') e' (slot (fst heap3) ROOT_IDX) = false.
Proof.
  apply (roots_come_out_in_order NOIDX0 (fst heap3) (snd heap3)).
  - exact heap_inv_heap3.
  - vm_compute. discriminate.
  - vm_compute. reflexivity.
Defined.

Lemma root_after_insert_witness :
  exists b' m' e',
    VBH_insert junk0 400 (fst heap3, snd heap3) = Ok (tt, (b', m')) /\
    VBH_root (b', m') = Ok (e', (b', m')) /\
    In e' (400 :: contents (fst heap3)) /\
    forall e, In e (400 :: contents (fst heap3)) ->
      cmp b' m' (priv b') e e' = false.
Proof.
  apply (root_after_insert junk0 (fst heap3) (snd heap3) 400).
  - exact heap_inv_heap3.
  - discriminate.
  - vm_compute. reflexivity.
Defined.

(** the heap after three insertions, a reorder and a deletion *)
Lemma root_is_null_iff_empty_witness :
  exists e, VBH_root heap5 = Ok (e, heap5) /\
            (e = NULL <-> next (fst heap5) = ROOT_IDX).
Proof.
  apply (root_is_null_iff_empty junk0 NOIDX0 heap5). exact reach_heap5.
Defined.

(** the heap fresh from VBH_new has one row *)
Lemma destroy_frees_every_row_witness :
  (next (fst heap0) = ROOT_IDX ->
   exists l, VBH_destroy heap0 = Ok (l, heap0) /\ NoDup l /\
             forall i, In i l <-> allocated (fst heap0) i) /\
  (next (fst heap0) <> ROOT_IDX -> VBH_destroy heap0 = Err AssertFail).
Proof.
  apply (destroy_frees_every_row junk0 NOIDX0 heap0). exact reach_heap0.
Defined.

Lemma calls_outside_the_heap_fail_witness :
  (forall idx, idx <= 0 \/ next (fst heap3) <= idx ->
     VBH_delete NOIDX0 idx (fst heap3, snd heap3) = Err AssertFail /\
     VBH_reorder idx (fst heap3, snd heap3) = Err AssertFail) /\
  (next (fst heap3) + 2 * ROW_WIDTH < 2 ^ 32 ->
   VBH_insert junk0 NULL (fst heap3, snd heap3) = Err AssertFail).
Proof.
  apply (calls_outside_the_heap_fail junk0 NOIDX0 (fst heap3) (snd heap3)).
  exact shape_heap3.
Defined.

Lemma next_heap3 : next (fst heap3) = 4.
Proof. vm_compute. reflexivity. Qed.

Lemma tracked_heap3 : tracked (fst heap3, snd heap3).
Proof.
  intros u Hu. cbn [fst snd] in *. rewrite next_heap3 in Hu.
  assert (E : u = 1 \/ u = 2 \/ u = 3) by lia.
  destruct E as [-> | [-> | ->]]; vm_compute; reflexivity.
Qed.

Lemma contents_heap3 : contents (fst heap3) = [200; 100; 300].
Proof. vm_compute. reflexivity. Qed.

Lemma NoDup_heap3 : NoDup (contents (fst heap3)).
Proof.
  rewrite contents_heap3.
  repeat (constructor; [cbn; intuition discriminate|]). constructor.
Qed.

Lemma update_records_the_slots_witness :
  (forall p, p <> NULL -> ~ In p (contents (fst heap3)) ->
     next (fst heap3) + 2 * ROW_WIDTH < 2 ^ 32 ->
     exists w', VBH_insert junk0 p (fst heap3, snd heap3) = Ok (tt, w') /\
                tracked w' /\ NoDup (contents (fst w'))) /\
  (forall idx, 0 < idx < next (fst heap3) ->
     exists w', VBH_delete NOIDX0 idx (fst heap3, snd heap3) = Ok (tt, w') /\
                tracked w' /\ NoDup (contents (fst w')) /\
                foo_idx (snd w' (slot (fst heap3) idx)) = NOIDX0) /\
  (forall idx m', 0 < idx < next (fst heap3) ->
     (forall x, foo_idx (m' x) = foo_idx (snd heap3 x)) ->
     exists w', VBH_reorder idx (fst heap3, m') = Ok (tt, w') /\
                tracked w' /\ NoDup (contents (fst w'))).
Proof.
  apply (update_records_the_slots junk0 NOIDX0 (fst heap3) (snd heap3)).
  - exact shape_heap3.
  - vm_compute. reflexivity.
  - exact NoDup_heap3.
  - exact tracked_heap3.
Defined.

(** the root of [heap3] has the key 3, its children have 5 and 4 *)
Lemma reorder_in_place_witness :
  VBH_reorder 1 (fst heap3, snd heap3) = Ok (tt, (fst heap3, snd heap3)).
Proof.
  apply (reorder_in_place (fst heap3) (snd heap3) 1).
  - exact heap_inv_heap3.
  - rewrite next_heap3. lia.
  - intros w Hw _. rewrite next_heap3 in Hw.
    assert (E : w = 2 \/ w = 3) by lia.
    destruct E as [-> | ->]; vm_compute; reflexivity.
Defined.

End HeapRunsMore.

(** * More about the parser *)

(** ** What vxp_Parse returns when there is no error *)

Section ParseResults.

Import Vxp.
Context {double vre : Type} {ext : Extern double vre}.
Implicit Types s : vxp.
Implicit Types v : vex double vre.
Implicit Types pvex r : option (vex double vre).

Lemma skip_EOI_nil (l : list token) :
  skip_EOI l = [] -> Forall (fun x => tok x = EOI) l.
Proof.
  induction l as [|x l IH]; cbn; intros H; [constructor|].
  destruct (tok_eqb (tok x) EOI) eqn:E; [|discriminate].
  constructor; [now apply tok_eqb_eq | auto].
Qed.

Lemma vxp_expr_grows fuel pvex s r s' :
  vxp_expr fuel pvex s = Ok (r, s') -> err s = false -> err s' = false ->
  (exists v, r = Some v) /\
  ledger_add (live s) (owned held r) = ledger_add (live s') (owned held pvex).
Proof.
  intros H He He'. destruct pvex as [v|].
  - apply vxp_expr_chained in H. destruct H as (a & _ & Ha & Hl & Hr).
    rewrite He' in Hl, Hr. subst r. split; [eauto|].
    cbn. rewrite Hl. ledger.
  - apply vxp_expr_first_grows in H. destruct H as (_ & Hv & Hl).
    split; [auto | exact Hl].
Qed.

Lemma parse_loop_result fuel depth : forall pvex s r s',
  parse_loop fuel depth pvex s = Ok (r, s') ->
  err s = false -> err s' = false ->
  t s' = [] /\
  ledger_add (live s) (owned held r) = ledger_add (live s') (owned held pvex) /\
  (pvex <> None -> r <> None) /\
  (Forall (fun x => tok x = EOI) (t s) -> r = pvex) /\
  (r = None -> Forall (fun x => tok x = EOI) (t s)).
Proof.
  induction fuel as [|fuel IH]; intros pvex s r s' H He He'; [discriminate|].
  cbn [parse_loop] in H. run H.
  - (* no token is left *)
    repeat split; auto.
  - (* only EOI tokens were left *)
    change (t (set_t (skip_EOI (t0 :: l)) s)) with (skip_EOI (t0 :: l)) in E0.
    pose proof (skip_EOI_nil _ E0) as Hall.
    split; [exact E0|]. repeat split; auto.
  - (* an error *)
    exfalso. apply vex_Free_inv in R0. destruct R0 as (_ & Hf & _).
    congruence.
  - exfalso. congruence.
  - (* the sub-query was accepted *)
    change (t (set_t (skip_EOI (t0 :: l)) s)) with (skip_EOI (t0 :: l)) in E0.
    destruct (vxp_expr_grows _ _ _ _ _ R He E1) as [[v ->] Hl].
    apply IH in H; [|cbn; assumption | assumption].
    destruct H as (Ht & Hl' & Hr & _ & _).
    split; [exact Ht|]. split.
    { cbn in Hl, Hl'. ledger_hyp Hl. ledger_hyp Hl'. cbn in *. ledger. }
    assert (Hne : r <> None) by (apply Hr; discriminate).
    split; [auto|]. split.
    + intros Hall. apply skip_EOI_all in Hall. congruence.
    + intros ->. contradiction.
Qed.

(** When vxp_Parse ends without an error, it has read all the tokens,
    and the tree it returns owns every object that was allocated on the
    way: vex_Free on the tree leaves allocated what was allocated before
    the call, and nothing was allocated if there is no tree. *)
Theorem parse_and_free_release_all s r s' :
  vxp_Parse s = Ok (r, s') -> err s' = false ->
  t s' = [] /\
  live s' = ledger_add (live s) (owned held r) /\
  match r with
  | Some v => exists s'', vex_Free v s' = Ok (tt, s'') /\ live s'' = live s /\
                          err s'' = false
  | None => True
  end.
Proof.
  intros H He'. unfold vxp_Parse in H. run H. bools.
  apply parse_loop_result in H; [|cbn; assumption | assumption].
  destruct H as (Ht & Hl & _). cbn in Hl.
  assert (Hlive : live s' = ledger_add (live s) (owned held r)).
  { ledger_hyp Hl. cbn in *. ledger. }
  split; [exact Ht|]. split; [exact Hlive|].
  destruct r as [v|]; [|exact I].
  destruct (vex_Free_frees v s') as (s'' & Ef & Hf & He & _).
  exists s''. split; [exact Ef|]. split; [|congruence].
  rewrite Hf, Hlive. cbn. ledger.
Qed.

(** When vxp_Parse ends without an error, it returns NULL if and only
    if all the tokens are EOI tokens. *)
Theorem null_means_empty_query s r s' :
  vxp_Parse s = Ok (r, s') -> err s' = false ->
  (r = None <-> Forall (fun x => tok x = EOI) (tokens s)).
Proof.
  intros H He'. unfold vxp_Parse in H. run H. bools.
  apply parse_loop_result in H; [|cbn; assumption | assumption].
  destruct H as (_ & _ & _ & H1 & H2). cbn in *. split; auto.
Qed.

End ParseResults.

(** ** The trees of vxp_Parse are well-formed *)

Section LhsShape.

Import Vxp.
Context {double vre : Type} {ext : Extern double vre}.
Implicit Types s : vxp.
Implicit Types l : vex_lhs.

Ltac sofar_done :=
  moved_facts; bools; unfold lhs_sofar, lhs_wf in *; cbn in *;
  repeat match goal with H : _ /\ _ |- _ => destruct H end;
  repeat split; try congruence; try lia; auto.

Lemma lhs_sofar_le (k k' : Z) l : k' <= k -> lhs_sofar k l -> lhs_sofar k' l.
Proof.
  unfold lhs_sofar. intros Hk (H1 & H2 & H3 & H4).
  split; [exact H1|]. split; [exact H2|]. split; [lia | exact H4].
Qed.

Lemma lhs_level_sofar (k : Z) l s r s' :
  lhs_level l s = Ok (r, s') -> lhs_sofar k l ->
  vex_options s' = vex_options s /\
  match r with
  | Return _ => err s' = true
  | Next l' => lhs_sofar k l'
  end.
Proof.
  intros H HJ. unfold lhs_level in H. run H; sofar_done.
Qed.

Lemma lhs_tags_sofar fuel : forall (k : Z) l s r s',
  lhs_tags fuel l s = Ok (r, s') -> lhs_sofar k l ->
  vex_options s' = vex_options s /\
  match r with
  | Return _ => err s' = true
  | Next l' => lhs_sofar (k + 1) l'
  end.
Proof.
  induction fuel as [|fuel IH]; intros k l s r s' H HJ; [discriminate|].
  cbn [lhs_tags] in H. run H; try solve [sofar_done].
  all: apply (IH (k + 1)) in H; [|sofar_done].
  all: destruct H as [Ho Hr]; moved_facts; split; [congruence|].
  all: destruct r; [apply (lhs_sofar_le (k + 1 + 1)); [lia | exact Hr] | exact Hr].
Qed.

Lemma lhs_prefix_sofar (k : Z) l s r s' :
  lhs_prefix l s = Ok (r, s') -> lhs_sofar k l -> prefix l = None ->
  vex_options s' = vex_options s /\
  match r with
  | Return _ => err s' = true
  | Next l' => lhs_sofar k l'
  end.
Proof.
  intros H HJ Hp. unfold lhs_prefix in H. run H; sofar_done.
  all: match goal with
       | |- context [strlen ?d] => pose proof (strlen_nonneg d)
       end; lia.
Qed.

Lemma lhs_field_sofar (k : Z) l s r s' :
  lhs_field l s = Ok (r, s') -> lhs_sofar k l ->
  vex_options s' = vex_options s /\
  match r with
  | Return _ => err s' = true
  | Next l' => lhs_sofar k l'
  end.
Proof.
  intros H HJ. unfold lhs_field in H. run H; sofar_done.
Qed.

Lemma lhs_vxid_shape l s r s' :
  lhs_vxid l s = Ok (r, s') -> lhs_sofar 1 l ->
  vex_options s' = vex_options s /\
  (err s' = false -> lhs_shape r).
Proof.
  intros H HJ. unfold lhs_vxid in H.
  run H; bools; cbn; (split; [reflexivity|]); intros He;
    try discriminate; (split; [exact HJ|]); intros Hv; try contradiction.
  unfold lhs_sofar, lhs_wf, vxid_alone in *. lia.
Qed.

Lemma vxp_expr_lhs_shape plhs s l s' :
  vxp_expr_lhs plhs s = Ok (l, s') ->
  vex_options s' = vex_options s /\
  (err s' = false -> lhs_shape l).
Proof.
  intros H. unfold vxp_expr_lhs in H.
  set (l0 := mk_lhs [] None 0 0 (-1) 0 0 0) in *.
  assert (J0 : lhs_sofar 0 l0).
  { unfold lhs_sofar, lhs_wf. cbn. repeat split; lia. }
  run H.
  all: repeat match goal with
         | R : lhs_level _ _ = Ok _ |- _ =>
             pose proof (lhs_level_post _ _ _ _ R) as (_ & ? & _);
             apply (lhs_level_sofar 0) in R; [|assumption]
         | R : lhs_tags _ _ _ = Ok _ |- _ =>
             pose proof (lhs_tags_post _ _ _ _ _ R) as (_ & ? & _);
             apply (lhs_tags_sofar _ 0) in R; [|assumption]
         | R : lhs_prefix _ _ = Ok _ |- _ =>
             apply (lhs_prefix_sofar 1) in R;
             [|assumption | cbn in *; congruence]
         | R : lhs_field _ _ = Ok _ |- _ =>
             apply (lhs_field_sofar 1) in R; [|assumption]
         | R : lhs_vxid _ _ = Ok _ |- _ =>
             apply lhs_vxid_shape in R; [|assumption]
         | H : _ /\ _ |- _ => destruct H
         end.
  all: cbn in *.
  all: try (split; [congruence|]; intros; congruence).
  split; [congruence|]. assumption.
Qed.

End LhsShape.

Section CmpShape.

Import Vxp.
Context {double vre : Type} {ext : Extern double vre}.
Implicit Types s : vxp.
Implicit Types v : vex double vre.
Implicit Types pvex r : option (vex double vre).

Lemma vxp_expr_num_shape prhs vx s (r : option (vex_rhs double vre)) s' :
  vxp_expr_num prhs vx s = Ok (r, s') ->
  vex_options s' = vex_options s /\
  (err s' = false ->
   exists rr, r = Some rr /\
     (type rr = VEX_INT \/
      type rr = VEX_FLOAT /\ exists f, val_float rr = Some f /\ isnan f = false) /\
     val_string rr = None /\ val_regex rr = None /\
     (vx <> 0 -> type rr = VEX_INT)).
Proof.
  intros H. unfold vxp_expr_num in H.
  run H; moved_facts; bools; cbn in *; (split; [congruence|]); intros He;
    try discriminate; try congruence.
  all: eexists; split; [reflexivity|]; cbn.
  all: repeat split; eauto; try (intros; congruence).
  all: try (left; reflexivity).
  all: try (right; split; [reflexivity | eauto]).
  all: intros; bools; cbn in *; try congruence; try lia.
Qed.

Lemma vxp_expr_str_shape prhs s (r : option (vex_rhs double vre)) s' :
  vxp_expr_str prhs s = Ok (r, s') ->
  vex_options s' = vex_options s /\
  (err s' = false ->
   exists rr, r = Some rr /\ type rr = VEX_STRING /\ val_regex rr = None /\
     exists d, val_string rr = Some d /\ val_stringlen rr = strlen d).
Proof.
  intros H. unfold vxp_expr_str in H.
  run H; moved_facts; cbn in *; (split; [congruence|]); intros He;
    try discriminate.
  eexists. split; [reflexivity|]. cbn. eauto.
Qed.

Lemma vxp_expr_regex_shape prhs s (r : option (vex_rhs double vre)) s' :
  vxp_expr_regex prhs s = Ok (r, s') ->
  vex_options s' = vex_options s /\
  (err s' = false ->
   exists rr, r = Some rr /\ type rr = VEX_REGEX /\
     exists d re, val_string rr = Some d /\ val_regex rr = Some re).
Proof.
  intros H. unfold vxp_expr_regex in H.
  run H; moved_facts; cbn in *; (split; [congruence|]); intros He;
    try discriminate.
  eexists. split; [reflexivity|]. cbn. eauto.
Qed.

Lemma vxp_vxid_cmp_options s (r : unit) s' :
  vxp_vxid_cmp s = Ok (r, s') -> vex_options s' = vex_options s.
Proof. intros H. unfold vxp_vxid_cmp in H. run H; reflexivity. Qed.

Lemma vxp_expr_cmp_shape pvex s r s' :
  vxp_expr_cmp pvex s = Ok (r, s') -> shapes s r s'.
Proof.
  intros H. unfold vxp_expr_cmp in H. run H.
  all: repeat match goal with
         | R : vxp_expr_lhs _ _ = Ok _ |- _ => apply vxp_expr_lhs_shape in R
         | R : vxp_vxid_cmp _ = Ok _ |- _ =>
             pose proof (vxp_vxid_cmp_options _ _ _ R);
             apply vxp_vxid_cmp_post in R
         | R : vxp_expr_num _ _ _ = Ok _ |- _ => apply vxp_expr_num_shape in R
         | R : vxp_expr_str _ _ = Ok _ |- _ => apply vxp_expr_str_shape in R
         | R : vxp_expr_regex _ _ = Ok _ |- _ =>
             apply vxp_expr_regex_shape in R
         end.
  all: moved_facts; cbn in *.
  all: repeat match goal with H : _ /\ _ |- _ => destruct H end.
  all: unfold shapes, set_rhs, set_tok, set_lhs in *; cbn in *.
  all: (split; [congruence|]); intros He; try congruence.
  all: repeat match goal with
         | H : err ?s = false -> _, E : err ?s = false |- _ =>
             specialize (H E)
         | H : _ /\ _ |- _ => destruct H
         | H : exists _, _ |- _ => destruct H
         end.
  all: subst; cbn in *.
  all: try match goal with
         | T1 : t ?s = ?x :: _, T2 : t ?s = ?y :: _ |- _ =>
             rewrite T1 in T2; injection T2 as <- <-
         end.
  all: try match goal with
         | H : vxid_operator _ = true |- _ =>
             pose proof (vxid_operator_num _ H) as [? ?]
         end.
  all: try congruence.
  all: eexists; (split; [reflexivity|]).
  all: bools.
  all: try (apply wf_true; [assumption | lia]).
  all: apply wf_compare; [assumption | | ].
  all: try (intros Hv; first [lia | split; [congruence | auto]]).
  all: unfold rhs_for.
  all: repeat match goal with
         | E : num_operator _ = _ |- _ => rewrite E
         | E : str_operator _ = _ |- _ => rewrite E
         end.
  all: repeat split; eauto.
  all: rewrite orb_false_l in *; congruence.
Qed.

End CmpShape.

Section ProductionShapes.

Import Vxp.
Context {double vre : Type} {ext : Extern double vre}.
Implicit Types s : vxp.
Implicit Types v : vex double vre.
Implicit Types pvex r : option (vex double vre).

Variable expr_or : option (vex double vre) -> P (option (vex double vre)).
Hypothesis expr_or_shapes : forall pvex s r s',
  expr_or pvex s = Ok (r, s') -> shapes s r s'.

(** what is known of the states of a run, once its end is not in error *)
Ltac shape_facts :=
  moved_facts;
  repeat match goal with
         | R : expr_or _ _ = Ok _ |- _ => apply expr_or_shapes in R
         | R : vxp_expr_cmp _ _ = Ok _ |- _ => apply vxp_expr_cmp_shape in R
         | H : shapes _ _ _ |- _ => destruct H
         | H : loop_shapes _ _ _ _ |- _ => destruct H
         | H : err ?s = false -> _, E : err ?s = false |- _ =>
             specialize (H E)
         | H : _ /\ _ |- _ => destruct H
         | H : exists _, _ |- _ => destruct H
         | H : tok_eqb _ _ = true |- _ => apply tok_eqb_eq in H
         end.

(** the options of a state are those of the start *)
Ltac same_options :=
  repeat match goal with
         | H : vex_options ?a = vex_options ?b |- _ =>
             first [rewrite H in * | clear H]
         end.

Ltac shape_start :=
  unfold shapes, loop_shapes; cbn;
  (split; [congruence|]); intros He; try congruence.

Lemma vxp_expr_group_shapes pvex s r s' :
  vxp_expr_group expr_or pvex s = Ok (r, s') -> shapes s r s'.
Proof.
  intros H. unfold vxp_expr_group in H. run H; shape_facts; cbn in *.
  all: shape_start.
  all: shape_facts; same_options; eauto.
Qed.

(** a node built from well-formed operands *)
Ltac node_done :=
  subst;
  repeat match goal with E : tok _ = _ |- _ => rewrite E in * end;
  unfold set_a, set_b, set_tok; cbn;
  eexists; (split; [reflexivity|]);
  first [apply wf_not | apply wf_and | apply wf_or]; assumption.

Lemma vxp_expr_not_shapes pvex s r s' :
  vxp_expr_not expr_or pvex s = Ok (r, s') -> shapes s r s'.
Proof.
  intros H. unfold vxp_expr_not in H. run H.
  all: repeat match goal with
         | R : vxp_expr_group _ _ _ = Ok _ |- _ =>
             apply vxp_expr_group_shapes in R
         end.
  all: shape_facts; cbn in *.
  all: shape_start.
  all: shape_facts; same_options; eauto.
  node_done.
Qed.

Lemma and_loop_shapes fuel : forall pvex s r s',
  and_loop expr_or fuel pvex s = Ok (r, s') -> loop_shapes pvex s r s'.
Proof.
  induction fuel as [|fuel IH]; intros pvex s r s' H; [discriminate|].
  cbn [and_loop] in H. run H.
  all: repeat match goal with
         | R : vxp_expr_not _ _ _ = Ok _ |- _ =>
             apply vxp_expr_not_shapes in R
         | R : and_loop _ _ _ _ = Ok _ |- _ => apply IH in R
         end.
  all: shape_facts; cbn in *.
  all: shape_start.
  all: shape_facts; same_options; eauto.
  intros a3 -> Hw. eapply H10; [reflexivity|].
  subst. rewrite E. apply wf_and; assumption.
Qed.

Lemma vxp_expr_and_shapes fuel pvex s r s' :
  vxp_expr_and expr_or fuel pvex s = Ok (r, s') -> shapes s r s'.
Proof.
  intros H. unfold vxp_expr_and in H. run H.
  all: repeat match goal with
         | R : vxp_expr_not _ _ _ = Ok _ |- _ =>
             apply vxp_expr_not_shapes in R
         | R : and_loop _ _ _ _ = Ok _ |- _ => apply and_loop_shapes in R
         end.
  all: shape_facts; cbn in *.
  all: shape_start.
  all: shape_facts; same_options; eauto.
Qed.

Lemma or_loop_shapes fuel : forall pvex s r s',
  or_loop expr_or fuel pvex s = Ok (r, s') -> loop_shapes pvex s r s'.
Proof.
  induction fuel as [|fuel IH]; intros pvex s r s' H; [discriminate|].
  cbn [or_loop] in H. run H.
  all: repeat match goal with
         | R : vxp_expr_and _ _ _ _ = Ok _ |- _ =>
             apply vxp_expr_and_shapes in R
         | R : or_loop _ _ _ _ = Ok _ |- _ => apply IH in R
         end.
  all: shape_facts; cbn in *.
  all: shape_start.
  all: shape_facts; same_options; eauto.
  intros a3 -> Hw.
  match goal with H : forall a, Some _ = Some a -> _ |- _ =>
    eapply H; [reflexivity|] end.
  subst. rewrite E. apply wf_or; assumption.
Qed.

End ProductionShapes.

Section TreeShapes.

Import Vxp.
Context {double vre : Type} {ext : Extern double vre}.
Implicit Types s : vxp.
Implicit Types v : vex double vre.
Implicit Types pvex r : option (vex double vre).

Ltac shape_facts :=
  moved_facts;
  repeat match goal with
         | H : shapes _ _ _ |- _ => destruct H
         | H : loop_shapes _ _ _ _ |- _ => destruct H
         | H : err ?s = false -> _, E : err ?s = false |- _ =>
             specialize (H E)
         | H : _ /\ _ |- _ => destruct H
         | H : exists _, _ |- _ => destruct H
         | H : tok_eqb _ _ = true |- _ => apply tok_eqb_eq in H
         end.

Ltac same_options :=
  repeat match goal with
         | H : vex_options ?a = vex_options ?b |- _ =>
             first [rewrite H in * | clear H]
         end.

Ltac shape_start :=
  unfold shapes, loop_shapes; cbn;
  (split; [congruence|]); intros He; try congruence.

Lemma vxp_expr_or_shapes fuel : forall pvex s r s',
  vxp_expr_or fuel pvex s = Ok (r, s') -> shapes s r s'.
Proof.
  induction fuel as [|fuel IH]; intros pvex s r s' H; [discriminate|].
  cbn [vxp_expr_or] in H. run H.
  all: repeat match goal with
         | R : vxp_expr_and _ _ _ _ = Ok _ |- _ =>
             apply (vxp_expr_and_shapes _ IH) in R
         | R : or_loop _ _ _ _ = Ok _ |- _ =>
             apply (or_loop_shapes _ IH) in R
         end.
  all: shape_facts; cbn in *.
  all: shape_start.
  all: shape_facts; same_options; eauto.
Qed.

Lemma vxp_expr_first_shapes fuel pvex s r s' :
  vxp_expr_first fuel pvex s = Ok (r, s') -> shapes s r s'.
Proof.
  intros H. unfold vxp_expr_first in H. run H.
  all: repeat match goal with
         | R : vxp_expr_or _ _ _ = Ok _ |- _ =>
             apply vxp_expr_or_shapes in R
         end.
  all: shape_facts; cbn in *.
  all: shape_start.
  all: shape_facts; same_options; eauto.
Qed.

Lemma vxp_expr_shapes fuel pvex s r s' :
  vxp_expr fuel pvex s = Ok (r, s') ->
  (forall a, pvex = Some a -> well_formed (vex_options s) a) ->
  shapes s r s'.
Proof.
  intros H Hp. unfold vxp_expr in H. destruct pvex as [a|].
  2: now apply vxp_expr_first_shapes in H.
  specialize (Hp a eq_refl).
  run H.
  all: repeat match goal with
         | R : vxp_expr_first _ _ _ = Ok _ |- _ =>
             apply vxp_expr_first_shapes in R
         end.
  all: shape_facts; cbn in *.
  all: shape_start.
  all: shape_facts; same_options; eauto.
  subst. unfold set_a, set_b, set_tok; cbn.
  eexists; (split; [reflexivity|]). apply wf_or; assumption.
Qed.

Lemma parse_loop_shapes fuel depth : forall pvex s r s',
  parse_loop fuel depth pvex s = Ok (r, s') ->
  (forall a, pvex = Some a -> well_formed (vex_options s) a) ->
  forall v, r = Some v -> well_formed (vex_options s) v.
Proof.
  induction fuel as [|fuel IH]; intros pvex s r s' H Hp v Hr;
    [discriminate|].
  cbn [parse_loop] in H. run H; auto; try discriminate.
  apply vxp_expr_shapes in R; [|exact Hp].
  destruct R as [Ho Hw]. specialize (Hw E1). destruct Hw as (w & -> & Hw).
  cbn in Ho.
  apply IH with (v := v) in H; [|cbn|reflexivity].
  - cbn in H. rewrite Ho in H. exact H.
  - intros ? [= <-]. rewrite Ho. exact Hw.
Qed.

(** A tree that vxp_Parse returns is well formed, whether the parser
    ended in an error or not.  A leaf has a left hand side that names
    vxid or at least one tag, with a level of -1 or more, a level
    modifier only with a level that is not negative, a field that is not
    negative and a prefix length that is the length of its prefix.  A
    leaf has either no operator (T_TRUE) and no right hand side, or a
    comparison operator and a right hand side of the type of the
    operator: an integer or a float that is not NaN, a string with its
    length, or a regular expression that compiled.  A left hand side on
    vxid has nothing else set and is compared to an integer with a
    numerical operator.  A NOT node has one operand, an AND node and an
    OR node have two, and every node carries the options of the
    parser. *)
Theorem parsed_trees_are_well_formed s v s' :
  vxp_Parse s = Ok (Some v, s') -> well_formed (vex_options s) v.
Proof.
  intros H. unfold vxp_Parse in H. run H.
  apply parse_loop_shapes with (v := v) in H; [exact H| |reflexivity].
  intros ? [=].
Qed.

End TreeShapes.

Section Grammar.

Import Vxp.
Context {double vre : Type} {ext : Extern double vre}.
Implicit Types s : vxp.
Implicit Types v a : vex double vre.

Variable o : Z.

Lemma derives_starts lv q v :
  derives o lv q v -> starts q (fun tk => negb (tok_eqb tk EOI)).
Proof.
  induction 1 as [q v Hc|lp rp q v Hl Hr _ _|q v _ IH|tn q v Hn _ _
                 |q v _ IH|qa va tand qb vb _ _ IHa _ _
                 |q v _ IH|qa va tor qb vb _ _ IHa _ _]; try exact IH.
  - destruct Hc as [(x & q' & -> & Hx) _]. exists x, q'.
    split; [reflexivity|]. apply andb_true_iff in Hx. tauto.
  - exists lp, (q ++ [rp]). rewrite Hl. split; reflexivity.
  - exists tn, q. rewrite Hn. split; reflexivity.
  - destruct IHa as (x & q' & -> & Hx). exists x, (q' ++ tand :: qb).
    split; [reflexivity | exact Hx].
  - destruct IHa as (x & q' & -> & Hx). exists x, (q' ++ tor :: qb).
    split; [reflexivity | exact Hx].
Qed.

Lemma derives_nonempty lv q v : derives o lv q v -> q <> [].
Proof.
  intros H. destruct (derives_starts _ _ _ H) as (x & q' & -> & _).
  discriminate.
Qed.

(** a group does not start with [not] *)
Lemma group_starts q v :
  derives o L_group q v -> starts q (fun tk => negb (tok_eqb tk T_NOT)).
Proof.
  intros H. inversion H as [q0 v0 Hc|lp rp q0 v0 Hl Hr _| | | | | | ]; subst.
  - destruct Hc as [(x & q' & -> & Hx) _]. exists x, q'.
    split; [reflexivity|].
    apply andb_true_iff in Hx. destruct Hx as [Hx _].
    apply andb_true_iff in Hx. tauto.
  - exists lp, (q0 ++ [rp]). rewrite Hl. split; reflexivity.
Qed.

(** a comparison is a group *)
Lemma group_of_cmp expr_or q v :
  cmp_at o q v -> parses (vxp_expr_group expr_or None) o q v ends_cmp.
Proof.
  intros [(x & q' & -> & Hx) Hp] s rest Ht Hr He Ho.
  apply andb_true_iff in Hx. destruct Hx as [Hx _].
  apply andb_true_iff in Hx. destruct Hx as [_ Hg].
  apply negb_true_iff in Hg.
  destruct (Hp s rest Ht Hr He Ho) as (s' & E & Hs').
  exists s'. split; [|exact Hs'].
  unfold vxp_expr_group. cbn [AZ].
  rewrite (bind_ok _ _ _ _ _ (eq_refl : ret tt s = Ok (tt, s))).
  rewrite (bind_ok _ _ _ _ _ (cur_tok_ok _ _ _ Ht)). rewrite Hg.
  exact E.
Qed.

(** a query in parentheses is a group, and its tree is the tree of the
    query *)
Lemma group_of_paren expr_or lp rp q v :
  tok lp = CHR "(" -> tok rp = CHR ")" ->
  parses (expr_or None) o q v
         (fun rest => exists rest', rest = rp :: rest') ->
  parses (vxp_expr_group expr_or None) o (lp :: q ++ [rp]) v ends_cmp.
Proof.
  intros Hl Hrp Hp s rest Ht (y & rest' & -> & Hy) He Ho.
  assert (Ht' : t s = lp :: q ++ rp :: y :: rest').
  { rewrite Ht. cbn. rewrite <- app_assoc. reflexivity. }
  set (s0 := set_t (q ++ rp :: y :: rest') s).
  destruct (Hp s0 (rp :: y :: rest')) as (s1 & E1 & T1 & E1' & O1);
    [reflexivity | eauto | exact He | exact Ho |].
  exists (set_t (y :: rest') s1). repeat split; auto.
  unfold vxp_expr_group, SkipToken. cbn [AZ].
  rewrite (bind_ok _ _ _ _ _ (eq_refl : ret tt s = Ok (tt, s))).
  rewrite (bind_ok _ _ _ _ _ (cur_tok_ok _ _ _ Ht')). rewrite Hl.
  rewrite tok_eqb_refl.
  rewrite (bind_ok _ _ _ _ _ (vxp__Expect_ok _ _ _ _ Ht' Hl)).
  rewrite ERRCHK_pass by exact He.
  assert (Hn : vxp_NextToken s = Ok (tt, s0)).
  { destruct q as [|x q']; apply (vxp_NextToken_ok _ _ _ _ Ht'). }
  rewrite (bind_ok _ _ _ _ _ Hn).
  rewrite (bind_ok _ _ _ _ _ E1).
  rewrite ERRCHK_pass by exact E1'.
  rewrite (bind_ok _ _ _ _ _ (vxp__Expect_ok _ _ _ _ T1 Hrp)).
  rewrite ERRCHK_pass by exact E1'.
  rewrite (bind_ok _ _ _ _ _ (vxp_NextToken_ok _ _ _ _ T1)).
  reflexivity.
Qed.

(** a group is an operand of [and] *)
Lemma not_of_group expr_or q v :
  starts q (fun tk => negb (tok_eqb tk T_NOT)) ->
  parses (vxp_expr_group expr_or None) o q v ends_cmp ->
  parses (vxp_expr_not expr_or None) o q v ends_cmp.
Proof.
  intros (x & q' & -> & Hx) Hp s rest Ht Hr He Ho.
  apply negb_true_iff in Hx.
  destruct (Hp s rest Ht Hr He Ho) as (s' & E & Hs').
  exists s'. split; [|exact Hs'].
  unfold vxp_expr_not. cbn [AZ].
  rewrite (bind_ok _ _ _ _ _ (eq_refl : ret tt s = Ok (tt, s))).
  rewrite (bind_ok _ _ _ _ _ (cur_tok_ok _ _ _ Ht)). rewrite Hx.
  exact E.
Qed.

(** and so is a group after [not], with a node of its own *)
Lemma not_of_not expr_or tn q v :
  tok tn = T_NOT -> q <> [] ->
  parses (vxp_expr_group expr_or None) o q v ends_cmp ->
  parses (vxp_expr_not expr_or None) o (tn :: q)
         (mk_vex T_NOT o (Some v) None None None) ends_cmp.
Proof.
  intros Hn Hq Hp s rest Ht Hr He Ho.
  destruct q as [|x q']; [congruence|].
  set (s0 := set_t ((x :: q') ++ rest)
               (set_live (ledger_add (live s) one_vex) s)).
  destruct (Hp s0 rest) as (s1 & E1 & T1 & E1' & O1); auto.
  exists s1. repeat split; auto.
  unfold vxp_expr_not. cbn [AZ].
  rewrite (bind_ok _ _ _ _ _ (eq_refl : ret tt s = Ok (tt, s))).
  rewrite (bind_ok _ _ _ _ _ (cur_tok_ok _ _ _ Ht)). rewrite Hn.
  cbn [tok_eqb].
  rewrite (bind_ok _ _ _ _ _ (vex_alloc_ok s)).
  rewrite (bind_ok _ _ _ _ _
             (vxp_NextToken_ok
                (set_live (ledger_add (live s) one_vex) s) tn x
                (q' ++ rest) Ht)).
  fold s0. cbn [v_a set_tok].
  rewrite (bind_ok _ _ _ _ _ E1).
  rewrite Ho. reflexivity.
Qed.

(** a chain of [and] of one operand, up to the test of the loop *)
Lemma and_reads_one expr_or k q v :
  parses (vxp_expr_not expr_or None) o q v ends_cmp ->
  reads o (vxp_expr_and expr_or k None) (and_loop expr_or (S k)) q v
        ends_cmp.
Proof.
  intros Hp s rest Ht Hr He Ho.
  destruct (Hp s rest Ht Hr He Ho) as (s1 & E1 & T1 & E1' & O1).
  exists s1. split; [exact T1|]. split; [exact E1'|]. split; [exact O1|].
  unfold vxp_expr_and. cbn [AZ].
  rewrite (bind_ok _ _ _ _ _ (eq_refl : ret tt s = Ok (tt, s))).
  rewrite (bind_ok _ _ _ _ _ E1).
  rewrite ERRCHK_pass by exact E1'. reflexivity.
Qed.

(** one more operand: a turn of the loop *)
Lemma and_reads_more expr_or n k qa va tand qb vb :
  reads o (vxp_expr_and expr_or (n + S k) None)
        (and_loop expr_or (S (S k))) qa va ends_cmp ->
  parses (vxp_expr_not expr_or None) o qb vb ends_cmp ->
  qb <> [] -> tok tand = T_AND ->
  reads o (vxp_expr_and expr_or (S n + k) None) (and_loop expr_or (S k))
        (qa ++ tand :: qb) (node T_AND o va vb) ends_cmp.
Proof.
  intros Ha Hb Hq Hand s rest Ht Hr He Ho.
  rewrite app_cons_assoc in Ht.
  destruct (Ha s _ Ht (ends_cmp_and _ _ Hand) He Ho)
    as (s1 & T1 & E1' & O1 & E1).
  destruct (and_loop_once o expr_or (S k) va qb vb rest s1 tand
              Hb Hq T1 Hand Hr E1' O1)
    as (s2 & T2 & E2' & O2 & L2).
  exists s2. split; [exact T2|]. split; [exact E2'|]. split; [exact O2|].
  replace (S n + k)%nat with (n + S k)%nat by lia.
  rewrite E1. exact L2.
Qed.

(** the loop ends at a token that is not [and] *)
Lemma and_reads_parses expr_or m k q v :
  reads o (vxp_expr_and expr_or m None) (and_loop expr_or (S k)) q v
        ends_cmp ->
  parses (vxp_expr_and expr_or m None) o q v ends_and.
Proof.
  intros Hp s rest Ht Hr He Ho.
  destruct (Hp s rest Ht (ends_and_cmp _ Hr) He Ho)
    as (s1 & T1 & E1' & O1 & E1).
  destruct Hr as (y & r & -> & _ & Hy).
  exists s1. split; [|auto].
  rewrite E1. apply (and_loop_exit _ _ _ _ _ _ T1 Hy).
Qed.

(** a chain of [or] of one chain of [and] *)
Lemma or_reads_one k q v :
  parses (vxp_expr_and (vxp_expr_or k) k None) o q v ends_and ->
  reads o (vxp_expr_or (S k) None) (or_loop (vxp_expr_or k) (S k)) q v
        ends_and.
Proof.
  intros Hp s rest Ht Hr He Ho.
  destruct (Hp s rest Ht Hr He Ho) as (s1 & E1 & T1 & E1' & O1).
  exists s1. split; [exact T1|]. split; [exact E1'|]. split; [exact O1|].
  rewrite vxp_expr_or_S. cbn [AZ].
  rewrite (bind_ok _ _ _ _ _ (eq_refl : ret tt s = Ok (tt, s))).
  rewrite (bind_ok _ _ _ _ _ E1).
  rewrite ERRCHK_pass by exact E1'. reflexivity.
Qed.

Lemma or_reads_more n k qa va tor qb vb :
  reads o (vxp_expr_or (S (n + S k)) None)
        (or_loop (vxp_expr_or (n + S k)) (S (S k))) qa va ends_and ->
  parses (vxp_expr_and (vxp_expr_or (n + S k)) (S k) None) o qb vb
         ends_and ->
  qb <> [] -> tok tor = T_OR ->
  reads o (vxp_expr_or (S (S n + k)) None)
        (or_loop (vxp_expr_or (S n + k)) (S k))
        (qa ++ tor :: qb) (node T_OR o va vb) ends_and.
Proof.
  intros Ha Hb Hq Hor s rest Ht Hr He Ho.
  rewrite app_cons_assoc in Ht.
  destruct (Ha s _ Ht (ends_and_or _ _ Hor) He Ho)
    as (s1 & T1 & E1' & O1 & E1).
  destruct (or_loop_once o (vxp_expr_or (n + S k)) (S k) va qb vb rest s1
              tor Hb Hq T1 Hor Hr E1' O1)
    as (s2 & T2 & E2' & O2 & L2).
  exists s2. split; [exact T2|]. split; [exact E2'|]. split; [exact O2|].
  replace (S n + k)%nat with (n + S k)%nat by lia.
  rewrite E1. exact L2.
Qed.

(** the loop ends at a token that is not [or] *)
Lemma or_reads_parses m expr_or k q v (follow : list token -> Prop) :
  (forall rest, follow rest ->
     exists y rest', rest = y :: rest' /\ ends_and rest /\
                     tok_eqb (tok y) T_OR = false) ->
  reads o (vxp_expr_or m None) (or_loop expr_or (S k)) q v ends_and ->
  parses (vxp_expr_or m None) o q v follow.
Proof.
  intros Hf Hp s rest Ht Hr He Ho.
  destruct (Hf rest Hr) as (y & r & -> & Ha & Hy).
  destruct (Hp s _ Ht Ha He Ho) as (s1 & T1 & E1' & O1 & E1).
  exists s1. split; [|auto].
  rewrite E1. apply (or_loop_exit _ _ _ _ _ _ T1 Hy).
Qed.

(** The functions of the productions read what the grammar derives. *)
Lemma derives_reads lv q v : derives o lv q v -> level_reads o lv q v.
Proof.
  induction 1 as [q v Hc|lp rp q v Hl Hr Hd IH|q v Hd IH|tn q v Hn Hd IH
                 |q v Hd IH|qa va tand qb vb Hand Hda IHa Hdb IHb
                 |q v Hd IH|qa va tor qb vb Hor Hda IHa Hdb IHb].
  - exists 0%nat, 0%nat. intros f k _ _. apply group_of_cmp. exact Hc.
  - destruct IH as (N & n & IH).
    exists (S (n + N)), 0%nat. intros f k Hf _. cbv beta iota.
    apply group_of_paren; auto.
    pose proof (IH N (f - 1 - n)%nat ltac:(lia) ltac:(lia)) as Hq.
    cbv beta iota in Hq.
    replace (S (n + (f - 1 - n)))%nat with f in Hq by lia.
    revert Hq. apply or_reads_parses.
    intros rest (rest' & ->). exists rp, rest'.
    split; [reflexivity|]. split.
    + exists rp, rest'. rewrite Hr. repeat split; reflexivity.
    + rewrite Hr. reflexivity.
  - destruct IH as (N & n & IH). exists N, 0%nat. intros f k Hf Hk.
    apply not_of_group; [eapply group_starts; eassumption|].
    apply (IH f k Hf Hk).
  - destruct IH as (N & n & IH). exists N, 0%nat. intros f k Hf Hk.
    apply not_of_not;
      [exact Hn | eapply derives_nonempty; eassumption|].
    apply (IH f k Hf Hk).
  - destruct IH as (N & n & IH). exists N, 0%nat. intros f k Hf Hk.
    apply and_reads_one. apply (IH f k Hf Hk).
  - destruct IHa as (Na & na & IHa). destruct IHb as (Nb & nb & IHb).
    exists (Nat.max Na Nb), (S na). intros f k Hf Hk.
    apply and_reads_more;
      [ apply (IHa f (S k)); lia | apply (IHb f k); lia
      | eapply derives_nonempty; eassumption | exact Hand ].
  - destruct IH as (N & n & IH). exists (N + n)%nat, 0%nat.
    intros f k _ Hk. apply or_reads_one.
    pose proof (IH k (k - n)%nat ltac:(lia) ltac:(lia)) as Hq.
    cbv beta iota in Hq.
    replace (n + (k - n))%nat with k in Hq by lia.
    revert Hq. apply and_reads_parses.
  - destruct IHa as (Na & na & IHa). destruct IHb as (Nb & nb & IHb).
    exists (Nat.max Na (Nb + nb)), (S na). intros f k _ Hk.
    apply or_reads_more;
      [ apply (IHa Na (S k)); lia | | eapply derives_nonempty; eassumption
      | exact Hor ].
    pose proof (IHb (na + S k)%nat (S k - nb)%nat ltac:(lia) ltac:(lia))
      as Hq.
    cbv beta iota in Hq.
    replace (nb + (S k - nb))%nat with (S k) in Hq by lia.
    revert Hq. apply and_reads_parses.
Qed.

(** a query of the grammar is a sub-query of the input *)
Lemma derives_query q v : derives o L_or q v -> query_at o q v.
Proof.
  intros H. split; [eapply derives_starts; eassumption|].
  destruct (derives_reads _ _ _ H) as (N & n & IH).
  exists (S (n + N)).
  pose proof (IH N N ltac:(lia) ltac:(lia)) as Hq. cbv beta iota in Hq.
  revert Hq. apply or_reads_parses.
  intros rest (y & rest' & -> & Hy). exists y, rest'.
  split; [reflexivity|]. split.
  - exists y, rest'. rewrite Hy. repeat split; reflexivity.
  - rewrite Hy. reflexivity.
Qed.

(** vxp_Parse accepts a query of the grammar and returns its tree: a
    comparison gives its leaf, parentheses give no node of their own,
    [not] gives a NOT node over the group that follows it, [and] binds
    tighter than [or], and chains of either nest to the left, whatever
    their length and however deep the parentheses. *)
Theorem queries_of_the_grammar_are_parsed q v eoi s :
  derives o L_or q v -> tok eoi = EOI ->
  tokens s = q ++ [eoi] -> err s = false -> vex_options s = o ->
  exists s', vxp_Parse s = Ok (Some v, s') /\ err s' = false.
Proof.
  intros Hd Heoi Ht He Ho.
  apply (vxp_Parse_chain o eoi [(q, v)] s); auto.
  constructor; [|constructor]. apply derives_query. exact Hd.
Qed.

End Grammar.

(** * The parser does not fault *)

Section WpRules.

Import Vxp.
Context {double vre : Type} {ext : Extern double vre}.
Implicit Types s : vxp.

Lemma wp_bind {A B} (c : P A) (k : A -> P B) Q s :
  wp c (fun a s' => wp (k a) Q s') s -> wp (bind c k) Q s.
Proof.
  unfold wp, bind. destruct (c s) as [[a s']|f]; auto.
Qed.

Lemma wp_ret {A} (a : A) (Q : A -> vxp -> Prop) s : Q a s -> wp (ret a) Q s.
Proof. auto. Qed.

Lemma wp_get (Q : vxp -> vxp -> Prop) s : Q s s -> wp get Q s.
Proof. auto. Qed.

Lemma wp_modify f (Q : unit -> vxp -> Prop) s :
  Q tt (f s) -> wp (modify f) Q s.
Proof. auto. Qed.

Lemma wp_nofuel {A} (Q : A -> vxp -> Prop) s : wp (fail OutOfFuel) Q s.
Proof. reflexivity. Qed.

Lemma wp_assert b (Q : unit -> vxp -> Prop) s :
  b = true -> Q tt s -> wp (assert b) Q s.
Proof. intros ->. auto. Qed.

Lemma wp_conseq {A} (c : P A) (Q Q' : A -> vxp -> Prop) s :
  wp c Q s -> (forall a s', Q a s' -> Q' a s') -> wp c Q' s.
Proof.
  unfold wp. destruct (c s) as [[a s']|f]; auto.
Qed.

Lemma wp_cur (Q : token -> vxp -> Prop) s x rest :
  t s = x :: rest -> Q x s -> wp cur Q s.
Proof. intros E H. unfold wp, cur. now rewrite E. Qed.

Lemma wp_cur_tok (Q : token_kind -> vxp -> Prop) s x rest :
  t s = x :: rest -> Q (tok x) s -> wp cur_tok Q s.
Proof. intros E H. unfold wp, cur_tok, bind, cur. now rewrite E. Qed.

Lemma wp_NextToken (Q : unit -> vxp -> Prop) s x y rest :
  t s = x :: y :: rest -> Q tt (set_t (y :: rest) s) ->
  wp vxp_NextToken Q s.
Proof.
  intros E H. unfold wp. now rewrite (vxp_NextToken_ok s x y rest E).
Qed.

Lemma wp_ERRCHK {A} (r : A) (k : P A) Q s :
  (err s = true -> Q r s) -> (err s = false -> wp k Q s) ->
  wp (ERRCHK r k) Q s.
Proof.
  intros H1 H2. unfold wp, ERRCHK in *.
  destruct (err s); [apply H1 | apply H2]; reflexivity.
Qed.

Lemma wp_dec (Q : string -> vxp -> Prop) s x d :
  dec x = Some d -> Q d s -> wp (dec_of x) Q s /\ wp (AN_dec x) Q s.
Proof.
  intros E H. unfold wp, dec_of, AN_dec. rewrite E. auto.
Qed.

(** ** Token lists *)

Lemma lexed_cons x rest : lexed (x :: rest) -> tok x <> EOI ->
  exists y rest', rest = y :: rest' /\ lexed (y :: rest').
Proof.
  intros [(l' & e & E & He) Hv] Hx.
  destruct rest as [|y rest'].
  - destruct l' as [|a l']; cbn in E.
    + injection E as ->. contradiction.
    + injection E as _ E. destruct l'; discriminate.
  - exists y, rest'. split; [reflexivity|]. split.
    + destruct l' as [|a l']; cbn in E; [discriminate|].
      injection E as _ E. exists l', e. auto.
    + now inversion Hv.
Qed.

Lemma lexed_nonempty l : lexed l -> exists x rest, l = x :: rest.
Proof.
  intros [(l' & e & -> & _) _]. destruct l' as [|a l']; cbn; eauto.
Qed.

Lemma lexed_dec x rest : lexed (x :: rest) -> tok x = VAL ->
  exists d, dec x = Some d.
Proof.
  intros [_ Hv] Hx. inversion Hv as [|? ? H _]; subst.
  specialize (H Hx). destruct (dec x) as [d|]; [eauto | congruence].
Qed.

(** a suffix of the token list that is not empty *)
Lemma lexed_tail x rest : lexed (x :: rest) -> rest <> [] -> lexed rest.
Proof.
  intros [(l' & e & E & He) Hv] Hr. split.
  - destruct l' as [|a l']; cbn in E.
    + injection E as _ ->. congruence.
    + injection E as _ ->. eauto.
  - now inversion Hv.
Qed.

Lemma wp_dec_of (Q : string -> vxp -> Prop) s x d :
  dec x = Some d -> Q d s -> wp (dec_of x) Q s.
Proof. intros E H. unfold wp, dec_of. now rewrite E. Qed.

Lemma wp_AN_dec (Q : string -> vxp -> Prop) s x d :
  dec x = Some d -> Q d s -> wp (AN_dec x) Q s.
Proof. intros E H. unfold wp, AN_dec. now rewrite E. Qed.

End WpRules.

(** what is known of the kind of a token *)
Ltac tok_facts :=
  repeat match goal with
         | H : negb _ = false |- _ => apply negb_false_iff in H
         | H : negb _ = true |- _ => apply negb_true_iff in H
         | H : Vxp.tok_eqb _ _ = true |- _ => apply tok_eqb_eq in H
         end.

Lemma single_not_EOI (tk : Vxp.token_kind) :
  Vxp.single_lhs tk = false -> tk <> Vxp.EOI.
Proof. intros H ->. discriminate H. Qed.

Ltac tok_known :=
  first [ apply single_not_EOI; assumption
        | tok_facts; congruence ].

(** the token list of a state, after the assignments *)
Ltac wp_list :=
  cbn [Vxp.t Vxp.set_t Vxp.set_sb Vxp.set_err Vxp.set_err_where
       Vxp.set_live]; reflexivity.

Ltac wp_lexed :=
  cbn [Vxp.t Vxp.set_t Vxp.set_sb Vxp.set_err Vxp.set_err_where
       Vxp.set_live]; assumption.

(** vxp_NextToken after a token that is not EOI *)
Ltac wp_next :=
  lazymatch goal with
  | |- Vxp.wp Vxp.vxp_NextToken _ ?s =>
      let l := eval cbn [Vxp.t Vxp.set_t Vxp.set_sb Vxp.set_err
                         Vxp.set_err_where Vxp.set_live] in (Vxp.t s) in
      lazymatch l with
      | ?x :: ?y :: ?rest => eapply wp_NextToken; [wp_list|]
      | ?x :: ?rest =>
          lazymatch goal with
          | L : Vxp.lexed (x :: rest) |- _ =>
              let y := fresh "y" in
              let rest' := fresh "rest" in
              let L' := fresh "L" in
              let E := fresh "E" in
              destruct (lexed_cons x rest L ltac:(tok_known))
                as (y & rest' & E & L');
              subst rest;
              eapply wp_NextToken; [wp_list|]
          end
      end
  end.

Ltac wp_dec_tac x :=
  lazymatch goal with
  | L : Vxp.lexed (x :: ?rest) |- _ =>
      let d := fresh "d" in
      let D := fresh "D" in
      destruct (lexed_dec x rest L ltac:(tok_known)) as [d D];
      first [ eapply wp_dec_of; [exact D|]
            | eapply wp_AN_dec; [exact D|] ]
  end.

Ltac wp_case b :=
  let E := fresh "E" in
  destruct b eqn:E;
  try (cbn in E; discriminate E).

Ltac wp_step :=
  cbv beta zeta;
  cbn [Vxp.v_lhs Vxp.v_rhs Vxp.v_a Vxp.v_b Vxp.v_tok Vxp.set_a Vxp.set_b
       Vxp.set_tok Vxp.set_lhs Vxp.set_rhs];
  lazymatch goal with
  | |- Vxp.wp (bind _ _) _ _ => apply wp_bind
  | |- Vxp.wp (ret _) _ _ => apply wp_ret
  | |- Vxp.wp get _ _ => apply wp_get
  | |- Vxp.wp (modify _) _ _ => apply wp_modify
  | |- Vxp.wp (Vxp.alloc _) _ _ => apply wp_modify
  | |- Vxp.wp (Vxp.release _) _ _ => apply wp_modify
  | |- Vxp.wp (Vxp.VSB_cat _) _ _ => apply wp_modify
  | |- Vxp.wp (Vxp.VSB_printf_PF _ _) _ _ => apply wp_modify
  | |- Vxp.wp (Vxp.vxp_ErrWhere _ _) _ _ => apply wp_modify
  | |- Vxp.wp (fail OutOfFuel) _ _ => apply wp_nofuel
  | |- Vxp.wp (Vxp.AZ None) _ _ => apply wp_ret
  | |- Vxp.wp Vxp.cur _ _ => eapply wp_cur; [wp_list|]
  | |- Vxp.wp Vxp.cur_tok _ _ => eapply wp_cur_tok; [wp_list|]
  | |- Vxp.wp (Vxp.ERRCHK _ _) _ _ =>
      let H := fresh "He" in
      apply wp_ERRCHK; intros H;
      cbn [Vxp.err Vxp.set_t Vxp.set_sb Vxp.set_err Vxp.set_err_where
           Vxp.set_live] in H;
      try discriminate H
  | |- Vxp.wp (Vxp.oops _ _) _ _ => unfold Vxp.oops
  | |- Vxp.wp (Vxp.and_then _ _) _ _ => unfold Vxp.and_then
  | |- Vxp.wp (Vxp.vxp__Expect _) _ _ => unfold Vxp.vxp__Expect
  | |- Vxp.wp (Vxp.ExpectErr _ _ _) _ _ => unfold Vxp.ExpectErr
  | |- Vxp.wp (Vxp.SkipToken _ _ _) _ _ => unfold Vxp.SkipToken
  | |- Vxp.wp Vxp.vex_alloc _ _ => unfold Vxp.vex_alloc
  | |- Vxp.wp Vxp.vxp_NextToken _ _ => wp_next
  | |- Vxp.wp (Vxp.dec_of ?x) _ _ => wp_dec_tac x
  | |- Vxp.wp (Vxp.AN_dec ?x) _ _ => wp_dec_tac x
  | |- Vxp.wp (if ?b then _ else _) _ _ => wp_case b
  | |- Vxp.wp (match ?x with _ => _ end) _ _ => destruct x eqn:?
  | |- Vxp.wp (let (_, _) := ?x in _) _ _ => destruct x eqn:?
  | |- Vxp.lexed _ => wp_lexed
  end.

(** a state whose token list is known *)
Ltac wp_start s L :=
  let x := fresh "x" in
  let rest := fresh "rest" in
  destruct s as [? ? ? ? ? ? ? ?]; cbn [Vxp.t] in L;
  destruct (lexed_nonempty _ L) as (x & rest & ->).

(** a call of a function that is known to be sound *)
Ltac wp_call H :=
  cbv beta zeta;
  cbn [Vxp.v_lhs Vxp.v_rhs Vxp.v_a Vxp.v_b Vxp.v_tok Vxp.set_a Vxp.set_b
       Vxp.set_tok Vxp.set_lhs Vxp.set_rhs];
  let s' := fresh "s" in
  let L' := fresh "L" in
  eapply wp_conseq; [apply H; wp_lexed | intros ? s' L'; wp_start s' L'].

Section SoundLhs.

Import Vxp.
Context {double vre : Type} {ext : Extern double vre}.
Implicit Types s : vxp.

Hypothesis Hglob : glob_contract.

Lemma lhs_level_sound l : sound (lhs_level l).
Proof.
  intros s L. wp_start s L. unfold lhs_level. repeat wp_step.
Qed.

Lemma lhs_tags_sound fuel : forall l, sound (lhs_tags fuel l).
Proof.
  induction fuel as [|fuel IH]; intros l s L; [reflexivity|].
  wp_start s L. cbn [lhs_tags]. repeat wp_step.
  all: apply wp_assert; [|repeat wp_step; wp_call IH; repeat wp_step].
  - reflexivity.
  - match goal with
    | H : VSL_Glob2Tags ?d = (_, _) |- _ =>
        pose proof (Hglob d) as G; rewrite H in G; cbn [fst] in G
    end.
    repeat match goal with
           | E : (_ =? _) = false |- _ => apply Z.eqb_neq in E
           end.
    rewrite orb_false_r. apply Z.ltb_lt. lia.
Qed.

Lemma lhs_prefix_sound l : sound (lhs_prefix l).
Proof.
  intros s L. wp_start s L. unfold lhs_prefix. repeat wp_step.
Qed.

Lemma lhs_field_sound l : sound (lhs_field l).
Proof.
  intros s L. wp_start s L. unfold lhs_field. repeat wp_step.
Qed.

Lemma lhs_vxid_sound l : sound (lhs_vxid l).
Proof.
  intros s L. wp_start s L. unfold lhs_vxid. repeat wp_step.
Qed.

Ltac wp_lhs :=
  repeat first
    [ wp_step
    | wp_call lhs_level_sound
    | wp_call (lhs_tags_sound)
    | wp_call lhs_prefix_sound
    | wp_call lhs_field_sound
    | wp_call lhs_vxid_sound ].

Lemma vxp_expr_lhs_sound : sound (vxp_expr_lhs None).
Proof.
  intros s L. wp_start s L. unfold vxp_expr_lhs. wp_lhs.
Qed.

Lemma vxp_expr_num_sound vxid :
  sound (vxp_expr_num (None : option (vex_rhs double vre)) vxid).
Proof.
  intros s L. wp_start s L. unfold vxp_expr_num. repeat wp_step.
Qed.

Lemma vxp_expr_str_sound :
  sound (vxp_expr_str (None : option (vex_rhs double vre))).
Proof.
  intros s L. wp_start s L. unfold vxp_expr_str. repeat wp_step.
Qed.

Lemma vxp_expr_regex_sound :
  sound (vxp_expr_regex (None : option (vex_rhs double vre))).
Proof.
  intros s L. wp_start s L. unfold vxp_expr_regex. repeat wp_step.
Qed.

Lemma vxp_vxid_cmp_sound : sound vxp_vxid_cmp.
Proof.
  intros s L. wp_start s L. unfold vxp_vxid_cmp. repeat wp_step.
Qed.

Ltac wp_cmp :=
  repeat first
    [ wp_step
    | wp_call vxp_expr_lhs_sound
    | wp_call vxp_expr_num_sound
    | wp_call vxp_expr_str_sound
    | wp_call vxp_expr_regex_sound
    | wp_call vxp_vxid_cmp_sound ].

Lemma vxp_expr_cmp_sound : sound (vxp_expr_cmp None).
Proof.
  intros s L. wp_start s L. unfold vxp_expr_cmp. wp_cmp.
  all: discriminate.
Qed.

Section Productions.

Variable expr_or : option (vex double vre) -> P (option (vex double vre)).
Hypothesis expr_or_sound : sound (expr_or None).

Lemma vxp_expr_group_sound : sound (vxp_expr_group expr_or None).
Proof.
  intros s L. wp_start s L. unfold vxp_expr_group.
  repeat first [ wp_step | wp_call vxp_expr_cmp_sound
               | wp_call expr_or_sound ].
Qed.

Lemma vxp_expr_not_sound : sound (vxp_expr_not expr_or None).
Proof.
  intros s L. wp_start s L. unfold vxp_expr_not.
  repeat first [ wp_step | wp_call vxp_expr_group_sound ].
Qed.

Lemma and_loop_sound fuel : forall pvex, sound (and_loop expr_or fuel pvex).
Proof.
  induction fuel as [|fuel IH]; intros pvex s L; [reflexivity|].
  wp_start s L. cbn [and_loop].
  repeat first [ wp_step | wp_call vxp_expr_not_sound | wp_call IH ].
Qed.

Lemma vxp_expr_and_sound fuel : sound (vxp_expr_and expr_or fuel None).
Proof.
  intros s L. wp_start s L. unfold vxp_expr_and.
  repeat first [ wp_step | wp_call vxp_expr_not_sound
               | wp_call and_loop_sound ].
Qed.

Lemma or_loop_sound fuel : forall pvex, sound (or_loop expr_or fuel pvex).
Proof.
  induction fuel as [|fuel IH]; intros pvex s L; [reflexivity|].
  wp_start s L. cbn [or_loop].
  repeat first [ wp_step | wp_call vxp_expr_and_sound | wp_call IH ].
Qed.

End Productions.

Lemma vxp_expr_or_sound fuel : sound (vxp_expr_or fuel None).
Proof.
  induction fuel as [|fuel IH]; intros s L; [reflexivity|].
  wp_start s L. rewrite vxp_expr_or_S.
  repeat first [ wp_step
               | wp_call (vxp_expr_and_sound (vxp_expr_or fuel) IH)
               | wp_call (or_loop_sound (vxp_expr_or fuel) IH) ].
Qed.

Lemma vxp_expr_first_sound fuel : sound (vxp_expr_first fuel None).
Proof.
  intros s L. wp_start s L. unfold vxp_expr_first.
  repeat first [ wp_step | wp_call vxp_expr_or_sound ].
Qed.

Lemma vxp_expr_sound fuel pvex : sound (vxp_expr fuel pvex).
Proof.
  intros s L. wp_start s L. unfold vxp_expr. destruct pvex as [v|].
  - repeat first [ wp_step | wp_call vxp_expr_first_sound ].
  - repeat first [ wp_step | wp_call vxp_expr_first_sound ].
Qed.

Lemma skip_EOI_lexed l : lexed l -> skip_EOI l = [] \/ lexed (skip_EOI l).
Proof.
  induction l as [|x l IH]; intros L; [now left|].
  cbn [skip_EOI]. destruct (tok_eqb (tok x) EOI); [|now right].
  destruct l as [|y l]; [now left|].
  apply IH. apply (lexed_tail x); [exact L | discriminate].
Qed.

Lemma wp_NEXT (Q : unit -> vxp -> Prop) s x rest :
  t s = x :: rest -> Q tt (set_t rest s) -> wp vxp_NEXT Q s.
Proof.
  intros E H. unfold wp, vxp_NEXT, bind, get. rewrite E. exact H.
Qed.

Lemma wp_vex_Free (v : vex double vre) s :
  wp (vex_Free v) (fun _ _ => True) s.
Proof.
  destruct (vex_Free_frees v s) as (s' & E & _). unfold wp. now rewrite E.
Qed.

Lemma parse_loop_sound fuel depth : forall pvex s,
  t s = [] \/ lexed (t s) ->
  wp (parse_loop fuel depth pvex) (fun _ _ => True) s.
Proof.
  induction fuel as [|fuel IH]; intros pvex s H; [reflexivity|].
  cbn [parse_loop]. apply wp_bind, wp_get.
  destruct (t s) as [|x rest] eqn:T; [exact I|].
  destruct H as [H|L]; [discriminate|].
  apply wp_bind, wp_modify. apply wp_bind, wp_get. cbn [t set_t].
  destruct (skip_EOI_lexed _ L) as [Es|L'].
  { rewrite Es. exact I. }
  destruct (skip_EOI (x :: rest)) as [|x' rest'] eqn:Es; [exact I|].
  apply wp_bind. eapply wp_conseq.
  { apply vxp_expr_sound. exact L'. }
  intros a s1 L1. cbv beta in L1. apply wp_bind, wp_get.
  destruct (err s1).
  - apply wp_bind. destruct a as [v|].
    + eapply wp_conseq; [apply wp_vex_Free|]. intros; exact I.
    + exact I.
  - destruct (lexed_nonempty _ L1) as (y & r & T1).
    apply wp_bind. apply (wp_NEXT _ _ y r T1).
    apply IH. cbn [t set_t]. rewrite T1 in L1.
    destruct r as [|z r]; [now left | right].
    apply (lexed_tail y); [exact L1 | discriminate].
Qed.

(** vxp_Parse returns on every token list of the lexer: when the list
    ends with EOI, every VAL token has its decoded string, the error
    flag is not set and VSL_Glob2Tags keeps to its return values, then
    no assertion of the parser fails, no production reads past the last
    token or through a NULL pointer, and the loops end. *)
Theorem vxp_Parse_does_not_fault s :
  err s = false -> lexed (tokens s) ->
  exists r s', vxp_Parse s = Ok (r, s').
Proof.
  intros He L.
  assert (H : wp vxp_Parse (fun _ _ => True) s).
  { unfold vxp_Parse. apply wp_bind, wp_get.
    apply wp_bind, wp_assert; [now rewrite He|].
    apply wp_bind, wp_modify.
    apply parse_loop_sound. right. exact L. }
  unfold wp in H. destruct (vxp_Parse s) as [[r s']|f] eqn:E; [eauto|].
  subst f. exfalso. exact (vxp_Parse_fuelled s E).
Qed.

End SoundLhs.

(** * Errors come with a diagnostic *)

Section PcRules.

Import Vxp.
Context {double vre : Type} {ext : Extern double vre}.
Implicit Types s a : vxp.

Lemma pc_bind {A B} (c : P A) (k : A -> P B) Q s :
  pc c (fun x s1 => pc (k x) Q s1) s -> pc (bind c k) Q s.
Proof.
  intros H r s' E. apply bind_inv in E. destruct E as (x & s1 & E1 & E2).
  exact (H x s1 E1 r s' E2).
Qed.

Lemma pc_ret {A} (x : A) (Q : A -> vxp -> Prop) s : Q x s -> pc (ret x) Q s.
Proof. intros H r s' [= <- <-]. exact H. Qed.

Lemma pc_get (Q : vxp -> vxp -> Prop) s : Q s s -> pc get Q s.
Proof. intros H r s' [= <- <-]. exact H. Qed.

Lemma pc_modify f (Q : unit -> vxp -> Prop) s :
  Q tt (f s) -> pc (modify f) Q s.
Proof. intros H r s' [= <- <-]. exact H. Qed.

Lemma pc_fail {A} f (Q : A -> vxp -> Prop) s : pc (fail f) Q s.
Proof. intros r s' [=]. Qed.

(** what does not change the state *)
Lemma pc_pure {A} (c : P A) (Q : A -> vxp -> Prop) s :
  (forall r s', c s = Ok (r, s') -> s' = s) ->
  (forall r, Q r s) -> pc c Q s.
Proof. intros Hc H r s' E. rewrite (Hc r s' E). apply H. Qed.

Lemma pc_assert b (Q : unit -> vxp -> Prop) s : Q tt s -> pc (assert b) Q s.
Proof.
  intros H r s' E. destruct b; [|discriminate].
  injection E as <- <-. exact H.
Qed.

Lemma pc_cur (Q : token -> vxp -> Prop) s : (forall x, Q x s) -> pc cur Q s.
Proof.
  intros H r s' E. unfold cur in E. destruct (t s); [discriminate|].
  injection E as <- <-. apply H.
Qed.

Lemma pc_cur_tok (Q : token_kind -> vxp -> Prop) s :
  (forall x, Q x s) -> pc cur_tok Q s.
Proof.
  intros H r s' E. unfold cur_tok, bind, cur in E.
  destruct (t s); [discriminate|]. injection E as <- <-. apply H.
Qed.

Lemma pc_dec_of (Q : string -> vxp -> Prop) s x :
  (forall d, Q d s) -> pc (dec_of x) Q s.
Proof.
  intros H r s' E. unfold dec_of in E. destruct (dec x); [|discriminate].
  injection E as <- <-. apply H.
Qed.

Lemma pc_AN_dec (Q : string -> vxp -> Prop) s x :
  (forall d, Q d s) -> pc (AN_dec x) Q s.
Proof.
  intros H r s' E. unfold AN_dec in E. destruct (dec x); [|discriminate].
  injection E as <- <-. apply H.
Qed.

Lemma pc_AZ {A} (p : option A) (Q : unit -> vxp -> Prop) s :
  Q tt s -> pc (AZ p) Q s.
Proof.
  intros H r s' E. destruct p; [discriminate|].
  injection E as <- <-. exact H.
Qed.

Lemma pc_ERRCHK {A} (r0 : A) (k : P A) Q s :
  (err s = true -> Q r0 s) -> (err s = false -> pc k Q s) ->
  pc (ERRCHK r0 k) Q s.
Proof.
  intros H1 H2 r s' E. unfold ERRCHK in E. destruct (err s) eqn:Ee.
  - injection E as <- <-. now apply H1.
  - now apply (H2 eq_refl r s').
Qed.

Lemma pc_conseq {A} (c : P A) (Q Q' : A -> vxp -> Prop) s :
  pc c Q s -> (forall r s', Q r s' -> Q' r s') -> pc c Q' s.
Proof. intros H HQ r s' E. apply HQ, (H r s' E). Qed.

(** ** The diagnostics *)

Lemma append_nil_r (m : string) : (m ++ "")%string = m.
Proof. induction m as [|c m IH]; cbn; [reflexivity | now rewrite IH]. Qed.

Lemma append_append (m n k : string) :
  ((m ++ n) ++ k)%string = (m ++ n ++ k)%string.
Proof. induction m as [|c m IH]; cbn; [reflexivity | now rewrite IH]. Qed.

Lemma append_nonempty (m n : string) :
  n <> ""%string -> (m ++ n)%string <> ""%string.
Proof. destruct m; cbn; [auto | discriminate]. Qed.

Lemma append_empty (m n : string) :
  (m ++ n)%string = ""%string -> m = ""%string /\ n = ""%string.
Proof. destruct m; cbn; [auto | discriminate]. Qed.

Lemma told_refl a : told a a.
Proof.
  exists ""%string. rewrite append_nil_r. split; [reflexivity|].
  split; [auto|]. intros E. rewrite E. split; [discriminate | congruence].
Qed.

(** a state with the same diagnostics and the same flag *)
Lemma told_same a s s' :
  told a s -> sb s' = sb s -> err s' = err s -> told a s'.
Proof.
  intros (m & H1 & H2 & H3) Hs He. exists m. rewrite Hs, He. auto.
Qed.

(** a diagnostic and the flag *)
Lemma told_error a s s' m :
  told a s -> sb s' = (sb s ++ m)%string -> m <> ""%string ->
  err s' = true -> told a s'.
Proof.
  intros (m0 & H1 & H2 & H3) Hs Hm He. exists (m0 ++ m)%string.
  rewrite Hs, H1, He, append_append. split; [reflexivity|].
  split; [auto|]. intros _. split; [|reflexivity].
  intros _. now apply append_nonempty.
Qed.

Lemma told_trans a s s' : told a s -> told s s' -> told a s'.
Proof.
  intros (m0 & H1 & H2 & H3) (m1 & G1 & G2 & G3).
  exists (m0 ++ m1)%string. rewrite G1, H1, append_append.
  split; [reflexivity|]. split; [auto|].
  intros Ea. specialize (H3 Ea). destruct (err s) eqn:Es.
  - rewrite (G2 eq_refl). split; [|reflexivity]. intros _ E.
    apply append_empty in E. destruct E as [E _].
    apply (proj1 H3); [reflexivity | exact E].
  - specialize (G3 eq_refl).
    assert (E0 : m0 = ""%string).
    { destruct (string_dec m0 "") as [E|E]; [exact E|].
      apply H3 in E. discriminate. }
    subst m0. cbn. exact G3.
Qed.

Lemma pc_NextToken (Q : unit -> vxp -> Prop) a s :
  told a s -> (forall s', told a s' -> Q tt s') -> pc vxp_NextToken Q s.
Proof.
  intros Ht H r s' E. destruct r. apply H.
  unfold vxp_NextToken, bind, get in E.
  destruct (t s) as [|x rest]; [discriminate|].
  destruct rest as [|y rest]; cbn in E; injection E as <-.
  - apply (told_error a s _ "Ran out of input " Ht); cbn; auto.
    discriminate.
  - apply (told_same a s); auto.
Qed.

End PcRules.

(** the diagnostics of a state, after the assignments *)
Ltac told_sb :=
  cbn [Vxp.sb Vxp.err Vxp.set_t Vxp.set_sb Vxp.set_err Vxp.set_err_where
       Vxp.set_live].

Ltac told_done :=
  first [ eassumption | idtac ];
  match goal with
  | H : Vxp.told ?a ?s |- Vxp.told ?a _ =>
      first
        [ exact H
        | apply (told_same a s _ H); told_sb; reflexivity
        | eapply (told_error a s _ _ H);
          [ told_sb; rewrite ?append_append; reflexivity
          | cbn; discriminate
          | told_sb; reflexivity ] ]
  end.

Ltac pc_case b :=
  let E := fresh "E" in
  destruct b eqn:E.

Ltac pc_step :=
  cbv beta zeta;
  cbn [Vxp.v_lhs Vxp.v_rhs Vxp.v_a Vxp.v_b Vxp.v_tok Vxp.set_a Vxp.set_b
       Vxp.set_tok Vxp.set_lhs Vxp.set_rhs];
  lazymatch goal with
  | |- Vxp.pc (bind _ _) _ _ => apply pc_bind
  | |- Vxp.pc (ret _) _ _ => apply pc_ret
  | |- Vxp.pc get _ _ => apply pc_get
  | |- Vxp.pc (modify _) _ _ => apply pc_modify
  | |- Vxp.pc (Vxp.alloc _) _ _ => apply pc_modify
  | |- Vxp.pc (Vxp.release _) _ _ => apply pc_modify
  | |- Vxp.pc (Vxp.VSB_cat _) _ _ => apply pc_modify
  | |- Vxp.pc (Vxp.VSB_printf_PF _ _) _ _ => apply pc_modify
  | |- Vxp.pc (Vxp.vxp_ErrWhere _ _) _ _ => apply pc_modify
  | |- Vxp.pc (fail _) _ _ => apply pc_fail
  | |- Vxp.pc (assert _) _ _ => apply pc_assert
  | |- Vxp.pc (Vxp.AZ _) _ _ => apply pc_AZ
  | |- Vxp.pc Vxp.cur _ _ => apply pc_cur; intros ?
  | |- Vxp.pc Vxp.cur_tok _ _ => apply pc_cur_tok; intros ?
  | |- Vxp.pc (Vxp.dec_of _) _ _ => apply pc_dec_of; intros ?
  | |- Vxp.pc (Vxp.AN_dec _) _ _ => apply pc_AN_dec; intros ?
  | |- Vxp.pc (Vxp.ERRCHK _ _) _ _ =>
      let H := fresh "He" in
      apply pc_ERRCHK; intros H;
      cbn [Vxp.err Vxp.set_t Vxp.set_sb Vxp.set_err Vxp.set_err_where
           Vxp.set_live] in H;
      try discriminate H
  | |- Vxp.pc (Vxp.oops _ _) _ _ => unfold Vxp.oops
  | |- Vxp.pc (Vxp.and_then _ _) _ _ => unfold Vxp.and_then
  | |- Vxp.pc (Vxp.vxp__Expect _) _ _ => unfold Vxp.vxp__Expect
  | |- Vxp.pc (Vxp.ExpectErr _ _ _) _ _ => unfold Vxp.ExpectErr
  | |- Vxp.pc (Vxp.SkipToken _ _ _) _ _ => unfold Vxp.SkipToken
  | |- Vxp.pc Vxp.vex_alloc _ _ => unfold Vxp.vex_alloc
  | |- Vxp.pc Vxp.vxp_NextToken _ _ =>
      let s' := fresh "s" in
      let T' := fresh "T" in
      lazymatch goal with
      | H : Vxp.told ?a _ |- _ =>
          eapply (pc_NextToken _ a); [told_done | intros s' T']
      end
  | |- Vxp.pc (if ?b then _ else _) _ _ => pc_case b
  | |- Vxp.pc (match ?x with _ => _ end) _ _ => destruct x eqn:?
  | |- Vxp.pc (let (_, _) := ?x in _) _ _ => destruct x eqn:?
  | |- Vxp.told _ _ => told_done
  end.

(** a call of a function that is known to tell *)
Ltac pc_call H :=
  cbv beta zeta;
  cbn [Vxp.v_lhs Vxp.v_rhs Vxp.v_a Vxp.v_b Vxp.v_tok Vxp.set_a Vxp.set_b
       Vxp.set_tok Vxp.set_lhs Vxp.set_rhs];
  let s' := fresh "s" in
  let T' := fresh "T" in
  eapply pc_conseq;
  [apply H; told_done | intros ? s' T'; cbv beta in T'].

Section Tells.

Import Vxp.
Context {double vre : Type} {ext : Extern double vre}.
Implicit Types s a : vxp.

Lemma lhs_level_tells l : tells (lhs_level l).
Proof.
  intros a s T. unfold lhs_level. repeat pc_step.
Qed.

Lemma lhs_tags_tells fuel : forall l, tells (lhs_tags fuel l).
Proof.
  induction fuel as [|fuel IH]; intros l a s T; [apply pc_fail|].
  cbn [lhs_tags]. repeat first [ pc_step | pc_call IH ].
Qed.

Lemma lhs_prefix_tells l : tells (lhs_prefix l).
Proof.
  intros a s T. unfold lhs_prefix. repeat pc_step.
Qed.

Lemma lhs_field_tells l : tells (lhs_field l).
Proof.
  intros a s T. unfold lhs_field. repeat pc_step.
Qed.

Lemma lhs_vxid_tells l : tells (lhs_vxid l).
Proof.
  intros a s T. unfold lhs_vxid. repeat pc_step.
Qed.

Lemma vxp_expr_lhs_tells plhs : tells (vxp_expr_lhs plhs).
Proof.
  intros a s T. unfold vxp_expr_lhs.
  repeat first
    [ pc_step
    | pc_call lhs_level_tells
    | pc_call lhs_tags_tells
    | pc_call lhs_prefix_tells
    | pc_call lhs_field_tells
    | pc_call lhs_vxid_tells ].
Qed.

Lemma vxp_expr_num_tells prhs vxid :
  tells (vxp_expr_num (prhs : option (vex_rhs double vre)) vxid).
Proof.
  intros a s T. unfold vxp_expr_num. repeat pc_step.
Qed.

Lemma vxp_expr_str_tells prhs :
  tells (vxp_expr_str (prhs : option (vex_rhs double vre))).
Proof.
  intros a s T. unfold vxp_expr_str. repeat pc_step.
Qed.

Lemma vxp_expr_regex_tells prhs :
  tells (vxp_expr_regex (prhs : option (vex_rhs double vre))).
Proof.
  intros a s T. unfold vxp_expr_regex. repeat pc_step.
Qed.

Lemma vxp_vxid_cmp_tells : tells vxp_vxid_cmp.
Proof.
  intros a s T. unfold vxp_vxid_cmp. repeat pc_step.
Qed.

Lemma vxp_expr_cmp_tells pvex : tells (vxp_expr_cmp pvex).
Proof.
  intros a s T. unfold vxp_expr_cmp.
  repeat first
    [ pc_step
    | pc_call vxp_expr_lhs_tells
    | pc_call vxp_expr_num_tells
    | pc_call vxp_expr_str_tells
    | pc_call vxp_expr_regex_tells
    | pc_call vxp_vxid_cmp_tells ].
Qed.

Section Productions.

Variable expr_or : option (vex double vre) -> P (option (vex double vre)).
Hypothesis expr_or_tells : forall pvex, tells (expr_or pvex).

Lemma vxp_expr_group_tells pvex : tells (vxp_expr_group expr_or pvex).
Proof.
  intros a s T. unfold vxp_expr_group.
  repeat first [ pc_step | pc_call vxp_expr_cmp_tells
               | pc_call expr_or_tells ].
Qed.

Lemma vxp_expr_not_tells pvex : tells (vxp_expr_not expr_or pvex).
Proof.
  intros a s T. unfold vxp_expr_not.
  repeat first [ pc_step | pc_call vxp_expr_group_tells ].
Qed.

Lemma and_loop_tells fuel : forall pvex, tells (and_loop expr_or fuel pvex).
Proof.
  induction fuel as [|fuel IH]; intros pvex a s T; [apply pc_fail|].
  cbn [and_loop].
  repeat first [ pc_step | pc_call vxp_expr_not_tells | pc_call IH ].
Qed.

Lemma vxp_expr_and_tells fuel pvex : tells (vxp_expr_and expr_or fuel pvex).
Proof.
  intros a s T. unfold vxp_expr_and.
  repeat first [ pc_step | pc_call vxp_expr_not_tells
               | pc_call and_loop_tells ].
Qed.

Lemma or_loop_tells fuel : forall pvex, tells (or_loop expr_or fuel pvex).
Proof.
  induction fuel as [|fuel IH]; intros pvex a s T; [apply pc_fail|].
  cbn [or_loop].
  repeat first [ pc_step | pc_call vxp_expr_and_tells | pc_call IH ].
Qed.

End Productions.

Lemma vxp_expr_or_tells fuel : forall pvex, tells (vxp_expr_or fuel pvex).
Proof.
  induction fuel as [|fuel IH]; intros pvex a s T; [apply pc_fail|].
  rewrite vxp_expr_or_S.
  repeat first [ pc_step
               | pc_call (vxp_expr_and_tells (vxp_expr_or fuel) IH)
               | pc_call (or_loop_tells (vxp_expr_or fuel) IH) ].
Qed.

Lemma vxp_expr_first_tells fuel pvex : tells (vxp_expr_first fuel pvex).
Proof.
  intros a s T. unfold vxp_expr_first.
  repeat first [ pc_step | pc_call vxp_expr_or_tells ].
Qed.

Lemma vxp_expr_tells fuel pvex : tells (vxp_expr fuel pvex).
Proof.
  intros a s T. unfold vxp_expr. destruct pvex as [v|].
  - repeat first [ pc_step | pc_call vxp_expr_first_tells ].
  - repeat first [ pc_step | pc_call vxp_expr_first_tells ].
Qed.

(** the loop of vxp_Parse: it starts each turn without an error, and
    returns NULL when there is one *)
Lemma parse_loop_tells fuel depth : forall pvex a s r s',
  told a s -> err s = false ->
  parse_loop fuel depth pvex s = Ok (r, s') ->
  told a s' /\ (err s' = true -> r = None).
Proof.
  induction fuel as [|fuel IH]; intros pvex a s r s' T He H;
    [discriminate|].
  cbn [parse_loop] in H. run H.
  - split; [exact T | congruence].
  - split; [|cbn; congruence].
    apply (told_same a s); auto.
  - (* an error *)
    assert (Tx : told a s0).
    { refine (vxp_expr_tells depth pvex a _ _ _ _ R).
      apply (told_same a s); auto. }
    apply vex_Free_inv in R0. destruct R0 as (_ & Hf & Hs & _).
    split; [|reflexivity]. apply (told_same a s0); auto.
  - assert (Tx : told a s0).
    { refine (vxp_expr_tells depth pvex a _ _ _ _ R).
      apply (told_same a s); auto. }
    split; [exact Tx | reflexivity].
  - assert (Tx : told a s0).
    { refine (vxp_expr_tells depth pvex a _ _ _ _ R).
      apply (told_same a s); auto. }
    apply (IH _ a _ _ _) in H; [exact H | | exact E1].
    apply (told_same a s0); auto.
Qed.

(** vxp_Parse sets the error flag if and only if it has added a
    diagnostic to vxp->sb: when it returns with the flag set, the result
    is NULL and sb is what it was with a text that is not empty after
    it; when it returns without the flag, sb is as it was. *)
Theorem errors_come_with_a_diagnostic s r s' :
  vxp_Parse s = Ok (r, s') ->
  (err s' = true ->
   r = None /\ exists m, m <> ""%string /\ sb s' = (sb s ++ m)%string) /\
  (err s' = false -> sb s' = sb s).
Proof.
  intros H. unfold vxp_Parse in H. run H. bools.
  apply (parse_loop_tells _ _ _ s) in H; [|apply (told_same s s) | exact E].
  2:{ apply told_refl. }
  2,3: reflexivity.
  destruct H as [(m & Hs & _ & Hm) Hr]. specialize (Hm E).
  split.
  - intros He. split; [auto|]. exists m. split; [now apply Hm | exact Hs].
  - intros He. rewrite Hs.
    destruct (string_dec m "") as [->|Hne]; [apply append_nil_r|].
    apply Hm in Hne. congruence.
Qed.

End Tells.

Section ParserRunsMore.

Import Vxp VxpRun.

Lemma derives_q_group : derives 0 L_or q_group (v_group 0).
Proof.
  apply d_chain.
  apply (d_and 0 _ _ (sym T_AND) q_tag (v_tag 0)); [reflexivity| |].
  - apply d_operand.
    apply (d_not 0 (sym T_NOT)); [reflexivity|].
    apply (d_paren 0 (sym (CHR "(")) (sym (CHR ")")));
      [reflexivity | reflexivity |].
    apply (d_or 0 q_tag (v_tag 0) (sym T_OR) q_eq (v_eq 0));
      [reflexivity | |].
    + apply d_chain, d_operand, d_group, d_cmp, cmp_at_tag.
    + apply d_operand, d_group, d_cmp, cmp_at_eq.
  - apply d_group, d_cmp, cmp_at_tag.
Qed.

Lemma queries_of_the_grammar_are_parsed_witness :
  exists s',
    vxp_Parse (start in_group) = Ok (Some (v_group 0), s') /\
    err s' = false.
Proof.
  apply (queries_of_the_grammar_are_parsed 0 q_group (v_group 0) (sym EOI)
           (start in_group) derives_q_group);
    reflexivity.
Defined.

Lemma vxp_Parse_in_group :
  vxp_Parse (start in_group)
  = Ok (Some (v_group 0), snd (run vxp_Parse (start in_group) None)).
Proof. vm_compute. reflexivity. Qed.

Lemma parsed_trees_are_well_formed_witness : well_formed 0 (v_group 0).
Proof.
  apply (parsed_trees_are_well_formed (start in_group) (v_group 0) _
           vxp_Parse_in_group).
Defined.

Lemma vxp_Parse_in_two :
  vxp_Parse (start in_two)
  = Ok (Some (node T_OR 0 (v_eq 0) (v_tag 0)),
        snd (run vxp_Parse (start in_two) None)).
Proof. vm_compute. reflexivity. Qed.

Lemma parse_and_free_release_all_witness :
  t (snd (run vxp_Parse (start in_two) None)) = [] /\
  live (snd (run vxp_Parse (start in_two) None))
  = ledger_add (live (start in_two))
               (owned held (Some (node T_OR 0 (v_eq 0) (v_tag 0)))) /\
  exists s'',
    vex_Free (node T_OR 0 (v_eq 0) (v_tag 0))
             (snd (run vxp_Parse (start in_two) None)) = Ok (tt, s'') /\
    live s'' = live (start in_two) /\ err s'' = false.
Proof.
  apply (parse_and_free_release_all (start in_two) _ _ vxp_Parse_in_two).
  vm_compute. reflexivity.
Defined.

Lemma vxp_Parse_in_empty :
  vxp_Parse (start in_empty)
  = Ok (None, snd (run vxp_Parse (start in_empty) None)).
Proof. vm_compute. reflexivity. Qed.

Lemma null_means_empty_query_witness :
  (@None tree = None <->
   Forall (fun x => tok x = EOI) (tokens (start in_empty))).
Proof.
  apply (null_means_empty_query (start in_empty) None _ vxp_Parse_in_empty).
  vm_compute. reflexivity.
Defined.

Lemma glob_contract0 : @glob_contract (option Z) string extern0.
Proof.
  intros g. cbn. unfold Glob2Tags0.
  destruct (g =? "Begin")%string; [left; cbn; lia|].
  destruct (g =? "RespStatus")%string; [left; cbn; lia|].
  right. left. reflexivity.
Qed.

Lemma lexed_in_leak : lexed in_leak.
Proof.
  split.
  - exists [val "Begin"; sym EOI; val "Begin"; sym T_EQ], (sym EOI).
    split; reflexivity.
  - repeat constructor; discriminate.
Qed.

Lemma vxp_Parse_does_not_fault_witness :
  exists r s', vxp_Parse (start in_leak) = Ok (r, s').
Proof.
  apply (vxp_Parse_does_not_fault glob_contract0 (start in_leak) eq_refl
           lexed_in_leak).
Defined.

Lemma vxp_Parse_in_leak :
  vxp_Parse (start in_leak)
  = Ok (None, snd (run vxp_Parse (start in_leak) None)).
Proof. vm_compute. reflexivity. Qed.

Lemma errors_come_with_a_diagnostic_witness :
  (err (snd (run vxp_Parse (start in_leak) None)) = true ->
   @None tree = None /\
   exists m, m <> ""%string /\
             sb (snd (run vxp_Parse (start in_leak) None))
             = (sb (start in_leak) ++ m)%string) /\
  (err (snd (run vxp_Parse (start in_leak) None)) = false ->
   sb (snd (run vxp_Parse (start in_leak) None)) = sb (start in_leak)).
Proof.
  apply (errors_come_with_a_diagnostic (start in_leak) None _
           vxp_Parse_in_leak).
Defined.

(** the diagnostic of that run *)
Lemma diagnostic_in_leak :
  err (snd (run vxp_Parse (start in_leak) None)) = true /\
  sb (snd (run vxp_Parse (start in_leak) None))
  = "Expected number got 'end of input' "%string.
Proof. split; vm_compute; reflexivity. Qed.

End ParserRunsMore.

(** ** The VXID selector in the input *)

Section VxidReads.

Import Vxp.
Context {double vre : Type} {ext : Extern double vre}.
Implicit Types s : vxp.
Implicit Types l : vex_lhs.

Ltac back :=
  repeat (cbn [err t sb live vex_options set_t set_err set_err_where set_sb
               set_live] in *;
          match goal with
          | N : moved ?rest ?s ?s', He : err ?s' = false |- _ =>
              let E := fresh "He" in
              let Hne := fresh "Hne" in
              let N1 := fresh "N" in
              let N2 := fresh "N" in
              let T := fresh "T" in
              destruct N as (T & _ & _ & _ & _ & N1 & _ & N2);
              destruct (N1 He) as (E & Hne & _); specialize (N2 Hne);
              clear N1 He; subst s'
          end);
  cbn [err t sb live vex_options set_t set_err set_err_where set_sb
       set_live] in *;
  try congruence.

Ltac toks :=
  repeat match goal with
         | H : ?x = ?x |- _ => clear H
         | H : _ :: _ = _ :: _ |- _ => injection H as ? ?; subst
         | H1 : t ?s = _ :: _, H2 : t ?s = _ :: _ |- _ =>
             rewrite H1 in H2; injection H2 as ? ?; subst
         | H : ?x = _ :: _ |- _ => is_var x; subst x
         | H : ?x = _ ++ _ |- _ => is_var x; subst x
         end.

Ltac kinds :=
  repeat match goal with
         | H : negb (tok_eqb _ _) = false |- _ => apply negb_false_iff in H
         | H : negb (tok_eqb _ _) = true |- _ => apply negb_true_iff in H
         | H : tok_eqb (tok _) _ = true |- _ => apply tok_eqb_eq in H
         end.

Ltac others :=
  repeat first [apply Forall_nil | apply Forall_cons];
  unfold other; try congruence.

(** the tokens between the input of [s] and the rest *)
Ltac used_is :=
  match goal with
  | T : t ?s = _ |- exists _, t ?s = _ /\ _ => rewrite T
  | |- _ => idtac
  end;
  first [ exists (@nil token); split; [reflexivity|]
        | eexists [_]; split; [reflexivity|]
        | eexists [_; _]; split; [reflexivity|]
        | eexists [_; _; _]; split; [reflexivity|]
        | eexists (_ :: _ :: _); split; [reflexivity|] ].

Ltac exists_vxid :=
  repeat match goal with
         | H : Exists _ (_ :: _) |- _ =>
             apply Exists_cons in H; destruct H as [H|H]
         | H : Exists _ [] |- _ => inversion H
         | H : Exists _ (_ ++ _) |- _ =>
             apply Exists_app in H; destruct H as [H|H]
         | H : is_vxid _ |- _ => unfold is_vxid in H
         end.

Lemma lhs_level_reads l s r s' :
  lhs_level l s = Ok (r, s') -> err s' = false ->
  exists u, t s = u ++ t s' /\ exists l',
    r = Next l' /\ Forall other u /\ err s = false /\
    vxid l' = vxid l /\ ((u = [] /\ l' = l) \/ 0 <= level l').
Proof.
  intros H He. unfold lhs_level in H. run H; back; toks; kinds; bools.
  all: used_is; eexists; (split; [reflexivity|]); (split; [others|]);
    (split; [assumption|]); (split; [reflexivity|]); cbn; auto.
Qed.

Lemma lhs_field_reads l s r s' :
  lhs_field l s = Ok (r, s') -> err s' = false ->
  exists u, t s = u ++ t s' /\ exists l',
    r = Next l' /\ Forall other u /\ err s = false /\
    vxid l' = vxid l /\ ((u = [] /\ l' = l) \/ 0 < field l').
Proof.
  intros H He. unfold lhs_field in H. run H; back; toks; kinds; bools.
  all: used_is; eexists; (split; [reflexivity|]); (split; [others|]);
    (split; [assumption|]); (split; [reflexivity|]); cbn; auto.
Qed.

Lemma lhs_prefix_reads l s r s' :
  lhs_prefix l s = Ok (r, s') -> err s' = false ->
  exists u, t s = u ++ t s' /\ exists l',
    r = Next l' /\ Forall other u /\ err s = false /\
    ((u = [] /\ l' = l) \/
     exists c p d, u = [c; p] /\ tok c = CHR ":" /\ tok p = VAL /\
                   dec p = Some d /\ l' = set_prefix l (Some d) (strlen d)).
Proof.
  intros H He. unfold lhs_prefix in H. run H; back; toks; kinds; bools.
  all: used_is; eexists; (split; [reflexivity|]); (split; [others|]);
    (split; [assumption|]); cbn; eauto 10.
Qed.

(** The loop over the tags: the counters go up by the tags that were
    read, and when the VXID selector is all that was added, it is the one
    token that was read. *)
Lemma lhs_tags_reads fuel : forall l s r s',
  lhs_tags fuel l s = Ok (r, s') -> err s' = false ->
  exists u, t s = u ++ t s' /\ exists l',
    r = Next l' /\ err s = false /\
    level l' = level l /\
    vxid l <= vxid l' /\ taglist l <= taglist l' /\
    vxid l + taglist l < vxid l' + taglist l' /\
    (Exists is_vxid u -> vxid l < vxid l') /\
    (vxid l' = vxid l + 1 -> taglist l' = taglist l ->
     exists vx, u = [vx] /\ tok vx = VXID /\
                l' = set_vxid l (vxid l + 1)).
Proof.
  induction fuel as [|fuel IH]; intros l s r s' H He; [discriminate|].
  cbn [lhs_tags] in H. run H.
  all: try match goal with
           | R : lhs_tags _ _ _ = Ok _ |- _ =>
               destruct (IH _ _ _ _ R He)
                 as (ur & Tu & lr & -> & Her & Hlv & Hv & Hg & Hsum & Hex
                     & Hone);
               clear R He
           end.
  all: back; toks; kinds; bools.
  all: used_is; eexists; (split; [reflexivity|]); (split; [assumption|]).
  all: cbn [level vxid taglist set_vxid set_taglist set_tags] in *.
  all: (split; [congruence|]); (split; [lia|]); (split; [lia|]);
    (split; [lia|]).
  all: split; [intros Hx; exists_vxid; try congruence; try lia;
               try (specialize (Hex Hx); lia)
              | intros H1 H2; try lia].
  exists x0. auto.
Qed.

Lemma lhs_vxid_reads l s r s' :
  lhs_vxid l s = Ok (r, s') -> err s' = false ->
  r = l /\ s' = s /\
  (vxid l = 0 \/
   vxid l <= 1 /\ level l < 0 /\ field l <= 0 /\ prefixlen l <= 0 /\
   taglist l <= 0).
Proof.
  intros H He. unfold lhs_vxid in H. run H; back; bools;
    (split; [reflexivity|]); (split; [reflexivity|]); [left | right]; lia.
Qed.

Lemma strlen_zero (d : string) : strlen d = 0 -> d = ""%string.
Proof. destruct d; cbn; [reflexivity | unfold strlen; cbn; lia]. Qed.

(** The tokens of an LHS that was read without an error: when the VXID
    selector is among them, it is the first and the only tag, and
    nothing but a prefix of the length 0 follows it. *)
Lemma vxp_expr_lhs_reads s l s' :
  vxp_expr_lhs None s = Ok (l, s') -> err s' = false ->
  exists u, t s = u ++ t s' /\ err s = false /\
    ((vxid l = 0 /\ Forall other u) \/
     (vxid l = 1 /\
      exists vx pfx, u = vx :: pfx /\ tok vx = VXID /\
        ((pfx = [] /\ l = mk_lhs [] None 0 0 (-1) 0 1 0) \/
         (exists c p, pfx = [c; p] /\ tok c = CHR ":" /\ tok p = VAL /\
                      dec p = Some ""%string /\
                      l = mk_lhs [] (Some ""%string) 0 0 (-1) 0 1 0)))).
Proof.
  intros H He. unfold vxp_expr_lhs in H. run H.
  all: try match goal with
           | R : lhs_vxid _ _ = Ok _ |- _ =>
               destruct (lhs_vxid_reads _ _ _ _ R He) as (-> & -> & Hvx);
               clear R
           end.
  all: try match goal with
           | R : lhs_field _ _ = Ok _ |- _ =>
               destruct (lhs_field_reads _ _ _ _ R He)
                 as (u4 & T4 & l4 & Q4 & O4 & He4 & V4 & D4);
               clear R He; try discriminate Q4; injection Q4 as <-
           end.
  all: try match goal with
           | R : lhs_prefix _ _ = Ok _, He : err _ = false |- _ =>
               destruct (lhs_prefix_reads _ _ _ _ R He)
                 as (u3 & T3 & l3 & Q3 & O3 & He3 & D3);
               clear R He; try discriminate Q3; injection Q3 as <-
           end.
  all: try match goal with
           | R : lhs_tags _ _ _ = Ok _, He : err _ = false |- _ =>
               destruct (lhs_tags_reads _ _ _ _ _ R He)
                 as (u2 & T2 & l2 & Q2 & He2 & L2 & V2 & G2 & S2 & X2
                     & D2);
               clear R He; try discriminate Q2; injection Q2 as <-
           end.
  all: try match goal with
           | R : lhs_level _ _ = Ok _, He : err _ = false |- _ =>
               destruct (lhs_level_reads _ _ _ _ R He)
                 as (u1 & T1 & l1 & Q1 & O1 & He1 & V1 & D1);
               clear R He; try discriminate Q1; injection Q1 as <-
           end.
  subst. cbn [t set_live] in T1.
  exists (u1 ++ u2 ++ u3 ++ u4). split.
  { rewrite T1, T2, T3, T4. now rewrite !app_assoc. }
  split; [exact He1|].
  assert (Hk : level x1 = level x0 /\ vxid x1 = vxid x0 /\
               taglist x1 = taglist x0).
  { destruct D3 as [[_ ->] | (c & p & d & _ & _ & _ & _ & ->)]; cbn; auto. }
  destruct Hk as (K1 & K2 & K3).
  assert (Hx : vxid x = 0) by (rewrite V1; reflexivity).
  destruct Hvx as [Hz | (Hv & Hlv & Hf & Hp & Htl)].
  - left. split; [exact Hz|].
    repeat (apply Forall_app; split); try assumption.
    apply Forall_Exists_neg. intros Hex. apply X2 in Hex. lia.
  - right.
    destruct D4 as [[-> ->] | D4]; [|lia].
    destruct D1 as [[-> ->] | D1]; [|lia].
    cbn [vxid taglist level] in *.
    destruct (D2 ltac:(lia) ltac:(lia)) as (vx & -> & Hvx & ->).
    split; [rewrite K2; reflexivity|].
    exists vx, u3. rewrite app_nil_r. split; [reflexivity|].
    split; [exact Hvx|].
    destruct D3 as [[-> ->] | (c & p & d & -> & Hc & Hp' & Hd & ->)].
    + left. split; reflexivity.
    + right. cbn [prefixlen set_prefix] in Hp.
      pose proof (strlen_nonneg d) as Hn.
      assert (Ed : d = ""%string) by (apply strlen_zero; lia).
      subst d. exists c, p. repeat split; auto.
Qed.

Lemma operator_other (tk : token_kind) :
  num_operator tk || str_operator tk || regex_operator tk = true ->
  tk <> VXID.
Proof. intros H ->. discriminate H. Qed.

Lemma others_not (u : list token) :
  Forall other u -> Exists is_vxid u -> False.
Proof. intros H. apply Forall_Exists_neg in H. exact H. Qed.

Lemma vxp_expr_num_reads prhs vx s (r : option (vex_rhs double vre)) s' :
  vxp_expr_num prhs vx s = Ok (r, s') -> err s' = false ->
  exists n d, t s = n :: t s' /\ tok n = VAL /\ dec n = Some d /\
    err s = false /\
    ((strchr d "." = false /\ skip_space (snd (strtoll d)) = ""%string /\
      r = Some (mk_rhs VEX_INT (fst (strtoll d)) None None 0 None)) \/
     vx = 0).
Proof.
  intros H He. unfold vxp_expr_num in H. run H; back; toks; kinds; bools.
  all: eexists; eexists; (split; [eassumption|]); (split; [assumption|]);
    (split; [eassumption|]); (split; [assumption|]).
  all: try (right; first [assumption | lia]).
  all: try match goal with H : is_VEX_INT _ = true |- _ =>
             cbn in H; discriminate H end.
  all: left; split; [assumption|];
    match goal with E : strtoll _ = _ |- _ => rewrite E end; cbn [fst snd];
    split; [|reflexivity].
  all: match goal with
       | E : String.eqb _ _ = true |- _ => apply String.eqb_eq in E; exact E
       end.
Qed.

Lemma vxp_expr_str_reads prhs s (r : option (vex_rhs double vre)) s' :
  vxp_expr_str prhs s = Ok (r, s') -> err s' = false ->
  exists n, t s = n :: t s' /\ tok n = VAL /\ err s = false.
Proof.
  intros H He. unfold vxp_expr_str in H. run H; back; toks; kinds; bools.
  eexists. split; [eassumption|]. auto.
Qed.

Lemma vxp_expr_regex_reads prhs s (r : option (vex_rhs double vre)) s' :
  vxp_expr_regex prhs s = Ok (r, s') -> err s' = false ->
  exists n, t s = n :: t s' /\ tok n = VAL /\ err s = false.
Proof.
  intros H He. unfold vxp_expr_regex in H. run H; back; toks; kinds; bools.
  eexists. split; [eassumption|]. auto.
Qed.

Lemma vxp_expr_cmp_reads s r s' :
  vxp_expr_cmp None s = Ok (r, s') -> err s' = false ->
  exists used, t s = used ++ t s' /\
    (Exists is_vxid used ->
     exists v, r = Some v /\ vxid_comparison (vex_options s) used v).
Proof.
  intros H He. unfold vxp_expr_cmp in H. run H.
  all: try congruence.
  all: cbn [v_lhs v_rhs set_lhs set_tok set_rhs v_tok] in *.
  all: repeat first
         [ progress back
         | match goal with
           | R : vxp_expr_num _ _ _ = Ok (_, ?s'), He : err ?s' = false
             |- _ =>
               let n := fresh "n" in
               let d := fresh "d" in
               let Tn := fresh "Tn" in
               let Kn := fresh "Kn" in
               let Dn := fresh "Dn" in
               let Hn := fresh "Hn" in
               let Rn := fresh "Rn" in
               destruct (vxp_expr_num_reads _ _ _ _ _ R He)
                 as (n & d & Tn & Kn & Dn & Hn & Rn); clear R He
           | R : vxp_expr_str _ _ = Ok (_, ?s'), He : err ?s' = false
             |- _ =>
               let n := fresh "n" in
               let Tn := fresh "Tn" in
               let Kn := fresh "Kn" in
               let Hn := fresh "Hn" in
               destruct (vxp_expr_str_reads _ _ _ _ R He)
                 as (n & Tn & Kn & Hn); clear R He
           | R : vxp_expr_regex _ _ = Ok (_, ?s'), He : err ?s' = false
             |- _ =>
               let n := fresh "n" in
               let Tn := fresh "Tn" in
               let Kn := fresh "Kn" in
               let Hn := fresh "Hn" in
               destruct (vxp_expr_regex_reads _ _ _ _ R He)
                 as (n & Tn & Kn & Hn); clear R He
           | R : vxp_vxid_cmp _ = Ok (_, ?s'), He : err ?s' = false |- _ =>
               let y := fresh "y" in
               let ys := fresh "ys" in
               let Ty := fresh "Ty" in
               let Ky := fresh "Ky" in
               apply vxp_vxid_cmp_post in R;
               destruct R as (_ & R);
               destruct (R He) as (-> & y & ys & Ty & Ky); clear R
           | R : vxp_expr_lhs None _ = Ok (_, ?s'), He : err ?s' = false
             |- _ =>
               let u := fresh "u" in
               let Tu := fresh "Tu" in
               let Hu := fresh "Hu" in
               let Du := fresh "Du" in
               destruct (vxp_expr_lhs_reads _ _ _ R He)
                 as (u & Tu & Hu & Du); clear R He
           end ].
  all: toks; kinds; bools.
  all: try (match goal with Ky : vxid_operator _ = true |- _ =>
              destruct (vxid_operator_num _ Ky) end; congruence).
  all: match goal with T : t _ = ?y :: ?n :: _ |- _ => pose (used := u ++ [y; n]) | |- _ => idtac end.
  all: rewrite Tu, T.
  2: { exists u. split; [reflexivity|]. intros Hx.
       destruct Du as [[_ Ho] | [H1 _]]; [|lia].
       destruct (others_not _ Ho Hx). }
  all: exists used; unfold used; clear used;
    (split; [now rewrite <- app_assoc|]); intros Hx.
  all: destruct Du as [[Hz Ho] | (H1 & vx & pfx & -> & Hvx & Dp)];
    try lia.
  all: try (apply Exists_app in Hx; destruct Hx as [Hx | Hx];
            [destruct (others_not _ Ho Hx)|];
            exists_vxid; try congruence;
            match goal with
            | H : tok ?y = VXID, E : _ || _ || _ = true |- _ =>
                apply operator_other in E; congruence
            | H : tok ?y = VXID, E : num_operator _ = true |- _ =>
                rewrite H in E; discriminate E
            | H : tok ?y = VXID, E : str_operator _ = true |- _ =>
                rewrite H in E; discriminate E
            | H : tok ?y = VXID, E : regex_operator _ = true |- _ =>
                rewrite H in E; discriminate E
            end).
  destruct Rn as [(Hs & Hk & ->) | Hz]; [|lia].
  eexists. split; [reflexivity|].
  exists vx, pfx, y, n, d. split; [reflexivity|].
  do 6 (split; [assumption|]).
  destruct Dp as [[-> ->] | (c & p & -> & Hc & Hp & Hd & ->)].
  - left. split; reflexivity.
  - right. exists c, p. repeat split; auto.
Qed.



(** C7: vxp_expr_cmp on an input without an error flag does not run out
    of fuel, and it returns when the tokens are those of the lexer and
    VSL_Glob2Tags keeps to its return values.  When it returns, either
    the error flag is set and a diagnostic was written, or nothing was
    written and the tokens it has read are between the input before and
    the input after.  If the VXID
    selector is among the tokens of a comparison that was read without
    an error, the comparison is the selector (once, and with no tag, no
    level and no field beside it, and with no prefix but the empty
    string), one of the six operators on numbers, and a value that has
    no [.] and that strtoll() reads to its end, white space apart; the
    tree is that of the selector alone, the operator and the integer. *)
Theorem vxid_selector_checked s :
  err s = false ->
  vxp_expr_cmp None s <> Err OutOfFuel /\
  (glob_contract -> lexed (t s) ->
   exists (r : option (vex double vre)) s',
     vxp_expr_cmp None s = Ok (r, s')) /\
  forall r s',
    vxp_expr_cmp None s = Ok (r, s') ->
    (err s' = true ->
     exists m, m <> ""%string /\ sb s' = (sb s ++ m)%string) /\
    (err s' = false ->
     sb s' = sb s /\
     exists used,
       t s = used ++ t s' /\
       (Exists is_vxid used ->
        exists v : vex double vre,
          r = Some v /\ vxid_comparison (vex_options s) used v)).
Proof.
  intros He. split; [apply vxp_expr_cmp_fuel|]. split.
  { intros Hg L. pose proof (vxp_expr_cmp_sound Hg s L) as W.
    unfold wp in W.
    destruct (vxp_expr_cmp None s) as [[r s']|f] eqn:E; [eauto|].
    subst f. destruct (vxp_expr_cmp_fuel None s E). }
  intros r s' H.
  destruct (vxp_expr_cmp_tells None s s (told_refl s) r s' H)
    as (m & Hm & _ & Hi).
  specialize (Hi He). split.
  - intros He'. exists m. split; [apply Hi; exact He' | exact Hm].
  - intros He'. split.
    + destruct (string_dec m ""%string) as [-> | Hne].
      * rewrite Hm. apply append_nil_r.
      * apply Hi in Hne. congruence.
    + apply vxp_expr_cmp_reads; assumption.
Qed.

End VxidReads.

Section VxidRuns.

Import Vxp VxpRun.

Lemma vxid_selector_checked_witness :
  exists s',
    vxp_expr_cmp None (at_first in_vxid)
    = Ok (Some (vxid_cmp 0 None T_EQ 42), s') /\
    err s' = false /\ t s' = [sym EOI] /\
    vxid_comparison 0 [sym VXID; sym T_EQ; val "42"]
      (vxid_cmp 0 None T_EQ 42).
Proof.
  set (s0 := at_first in_vxid).
  set (r1 := fst (run (vxp_expr_cmp None) s0 None)).
  set (s1 := snd (run (vxp_expr_cmp None) s0 None)).
  assert (E : vxp_expr_cmp None s0 = Ok (r1, s1)).
  { apply run_eq. vm_compute. reflexivity. }
  assert (He : err s1 = false) by (vm_compute; reflexivity).
  destruct (proj2 (proj2 (vxid_selector_checked s0 eq_refl)) r1 s1 E)
    as [_ H].
  destruct (H He) as (_ & used & Hu & Hv).
  assert (Eu : used = [sym VXID; sym T_EQ; val "42"]).
  { apply (app_inv_tail (t s1)). rewrite <- Hu. vm_compute. reflexivity. }
  subst used.
  destruct (Hv (Exists_cons_hd is_vxid (sym VXID) _ eq_refl))
    as (v & Er & Hc).
  assert (Ev : v = vxid_cmp 0 None T_EQ 42).
  { change r1 with (Some (vxid_cmp 0 None T_EQ 42 : tree)) in Er.
    injection Er as <-. reflexivity. }
  subst v. exists s1. split; [exact E|]. split; [exact He|].
  split; [vm_compute; reflexivity | exact Hc].
Defined.

(** A value without a digit: strtoll() reads nothing of the empty
    string, which is its end, and the comparison is taken as one with
    the integer 0. *)
Lemma vxid_with_empty_number :
  exists s',
    vxp_expr_cmp None (at_first [sym VXID; sym T_EQ; val ""; sym EOI])
    = Ok (Some (vxid_cmp 0 None T_EQ 0), s') /\
    err s' = false /\ sb s' = ""%string.
Proof.
  eexists. split; [vm_compute; reflexivity|]. split; reflexivity.
Qed.

End VxidRuns.

(** ** An [or] between two sub-queries *)

Section OrBetween.

Import Vxp.
Context {double vre : Type} {ext : Extern double vre}.
Implicit Types s : vxp.
Implicit Types v : vex double vre.

Variable o : Z.

(** a run without an error has written nothing *)
Lemma vxp_expr_quiet depth acc s r s' :
  vxp_expr depth acc s = Ok (r, s') -> err s = false -> err s' = false ->
  sb s' = sb s.
Proof.
  intros E He He'.
  destruct (vxp_expr_tells depth acc s s (told_refl s) r s' E)
    as (m & Hm & _ & Hi).
  destruct (string_dec m ""%string) as [-> | Hne].
  - rewrite Hm. apply append_nil_r.
  - apply (Hi He) in Hne. congruence.
Qed.

(** the sub-queries [qs] are read, one turn of the loop for each *)
Lemma parse_loop_sub_queries depth
    (qs : list (list token * token * vex double vre)) :
  Forall (fun x => derives o L_or (fst (fst x)) (snd x) /\
                   tok (snd (fst x)) = EOI) qs ->
  forall acc s rest,
    (List.length (t s) < depth)%nat ->
    t s = sub_queries (map fst qs) ++ rest ->
    err s = false -> vex_options s = o ->
    exists s1,
      t s1 = rest /\ err s1 = false /\ vex_options s1 = o /\
      sb s1 = sb s /\
      forall fuel,
        parse_loop (List.length qs + fuel) depth acc s
        = parse_loop fuel depth (chain o acc (map snd qs)) s1.
Proof.
  intros Hqs. induction Hqs as [|[[q e] v] qs [Hq He] _ IH];
    intros acc s rest Hd Ht Hs Ho.
  - exists s. cbn in Ht. auto 10.
  - cbn [map fst snd sub_queries] in Ht. cbn [fst snd] in Hq, He.
    rewrite <- app_assoc in Ht. cbn [app] in Ht.
    apply derives_query in Hq.
    pose proof Hq as [(x & q' & -> & Hx) _].
    apply negb_true_iff in Hx.
    set (s0 := set_t (t s) s).
    destruct (vxp_expr_query o e He depth acc (x :: q') v
                (sub_queries (map fst qs) ++ rest) s0 Hq Hd Ht Hs Ho)
      as (s1 & E1 & T1 & E1' & O1).
    pose proof (vxp_expr_quiet _ _ _ _ _ E1 Hs E1') as B1.
    destruct (IH (chain o acc [v])
                (set_t (sub_queries (map fst qs) ++ rest) s1) rest)
      as (s2 & T2 & E2 & O2 & B2 & L2); auto.
    { cbn [t set_t]. rewrite Ht in Hd. rewrite length_app in Hd.
      cbn in Hd. lia. }
    exists s2. split; [exact T2|]. split; [exact E2|]. split; [exact O2|].
    split; [rewrite B2; cbn [sb set_t]; rewrite B1; reflexivity|].
    intros fuel. cbn [List.length Nat.add parse_loop].
    rewrite (bind_ok _ _ _ _ _ (eq_refl : get s = Ok (s, s))).
    assert (Hskip : skip_EOI (t s) = t s).
    { rewrite Ht. cbn. rewrite Hx. reflexivity. }
    rewrite Hskip. rewrite (list_case (t s) _ _ _ _ Ht).
    rewrite (bind_ok _ _ _ _ _
               (eq_refl : modify (set_t (t s)) s = Ok (tt, s0))).
    rewrite (bind_ok _ _ _ _ _ (eq_refl : get s0 = Ok (s0, s0))).
    rewrite (list_case (t s0) _ _ _ _ Ht).
    rewrite (bind_ok _ _ _ _ _ E1).
    rewrite (bind_ok _ _ _ _ _ (eq_refl : get s1 = Ok (s1, s1))).
    rewrite E1'.
    rewrite (bind_ok _ _ _ _ _ (vxp_NEXT_ok _ _ _ T1)).
    exact (L2 fuel).
Qed.

(** a sub-query cannot start with [or]: vxp_expr_lhs asks for a tag *)
Lemma vxp_expr_first_or depth s tor rest :
  t s = tor :: rest -> tok tor = T_OR -> err s = false ->
  exists v s',
    vxp_expr_first (S depth) None s = Ok (Some v, s') /\
    err s' = true /\
    sb s' = (sb s ++ "Expected VSL tag name got " ++ "'" ++ text tor
               ++ "' ")%string.
Proof.
  intros Ht Hk He.
  destruct s as [tks ts vo ro e w b lv]. destruct tor as [k d tx].
  cbn in Ht, Hk, He. subst.
  eexists. eexists. split; [cbv; reflexivity|]. 
  split; reflexivity.
Qed.

(** the loop on a sub-query that starts with [or]: the tree so far is
    released and the result is NULL *)
Lemma parse_loop_or fuel depth acc s tor rest :
  t s = tor :: rest -> tok tor = T_OR -> err s = false ->
  exists s',
    parse_loop (S fuel) (S depth) acc s = Ok (None, s') /\
    err s' = true /\
    sb s' = (sb s ++ "Expected VSL tag name got '" ++ text tor
               ++ "' ")%string.
Proof.
  intros Ht Hk He.
  set (s0 := set_t (t s) s).
  destruct (vxp_expr_first_or depth s0 tor rest Ht Hk He)
    as (v & s1 & E1 & E1' & B1).
  cbn [parse_loop].
  rewrite (bind_ok _ _ _ _ _ (eq_refl : get s = Ok (s, s))).
  assert (Hskip : skip_EOI (t s) = t s).
  { rewrite Ht. cbn. rewrite Hk. reflexivity. }
  rewrite Hskip. rewrite (list_case (t s) _ _ _ _ Ht).
  rewrite (bind_ok _ _ _ _ _
             (eq_refl : modify (set_t (t s)) s = Ok (tt, s0))).
  rewrite (bind_ok _ _ _ _ _ (eq_refl : get s0 = Ok (s0, s0))).
  rewrite (list_case (t s0) _ _ _ _ Ht).
  assert (Ex : exists w, vxp_expr (S depth) acc s0 = Ok (Some w, s1)).
  { destruct acc as [b|].
    - exists b. unfold vxp_expr. rewrite (bind_ok _ _ _ _ _ E1).
      unfold ERRCHK. rewrite E1'. reflexivity.
    - exists v. exact E1. }
  destruct Ex as (w & Ex).
  rewrite (bind_ok _ _ _ _ _ Ex).
  rewrite (bind_ok _ _ _ _ _ (eq_refl : get s1 = Ok (s1, s1))).
  rewrite E1'.
  destruct (vex_Free_frees w s1) as (s2 & E2 & _ & F2 & B2 & _).
  rewrite (bind_ok _ _ _ _ _ E2).
  exists s2. split; [reflexivity|]. split; [congruence|].
  rewrite B2, B1. reflexivity.
Qed.

(** C8: an [or] between two sub-queries is not read as the join of the
    two.  After any number of sub-queries, each ended by its EOI, a token
    [or] where the next sub-query would start is an error: vxp_Parse
    returns NULL, the error flag is set, and the diagnostic is that a tag
    name was expected. *)
Theorem or_between_queries_is_refused
    (qs : list (list token * token * vex double vre)) tor rest s :
  Forall (fun x => derives o L_or (fst (fst x)) (snd x) /\
                   tok (snd (fst x)) = EOI) qs ->
  tok tor = T_OR ->
  tokens s = sub_queries (map fst qs) ++ tor :: rest ->
  err s = false -> vex_options s = o ->
  exists s',
    vxp_Parse s = Ok (None, s') /\ err s' = true /\
    sb s' = (sb s ++ "Expected VSL tag name got '" ++ text tor
               ++ "' ")%string.
Proof.
  intros Hqs Hk Htok He Ho.
  unfold vxp_Parse.
  rewrite (bind_ok _ _ _ _ _ (eq_refl : get s = Ok (s, s))).
  rewrite He. cbn [negb assert].
  rewrite (bind_ok _ _ _ _ _ (eq_refl : ret tt s = Ok (tt, s))).
  rewrite (bind_ok _ _ _ _ _
             (eq_refl : modify (set_t (tokens s)) s
                        = Ok (tt, set_t (tokens s) s))).
  set (s0 := set_t (tokens s) s).
  set (n := List.length (tokens s)).
  assert (Hn : (List.length qs < n)%nat).
  { unfold n. rewrite Htok, length_app. cbn [List.length].
    clear. induction qs as [|[[q e] v] l IH]; cbn; [lia|].
    rewrite length_app. cbn. lia. }
  destruct (parse_loop_sub_queries (S n) qs Hqs None s0 (tor :: rest))
    as (s1 & T1 & E1 & O1 & B1 & L1); auto.
  destruct (parse_loop_or (n - List.length qs) n
              (chain o None (map snd qs)) s1 tor rest T1 Hk E1)
    as (s' & E' & He' & B').
  exists s'. split; [|split; [exact He'|]].
  - assert (Ef : S n = (List.length qs + S (n - List.length qs))%nat)
      by lia.
    rewrite Ef at 1. rewrite L1. exact E'.
  - rewrite B', B1. reflexivity.
Qed.

(** Sub-queries that follow one another, each ended by an EOI of its
    own, are joined by nodes T_OR: the tree of a sub-query is [a], the
    tree of the sub-queries before it is [b]. *)
Lemma sub_queries_are_ored
    (qs : list (list token * token * vex double vre)) s :
  Forall (fun x => derives o L_or (fst (fst x)) (snd x) /\
                   tok (snd (fst x)) = EOI) qs ->
  tokens s = sub_queries (map fst qs) ->
  err s = false -> vex_options s = o ->
  exists s',
    vxp_Parse s = Ok (chain o None (map snd qs), s') /\ err s' = false /\
    sb s' = sb s.
Proof.
  intros Hqs Htok He Ho.
  unfold vxp_Parse.
  rewrite (bind_ok _ _ _ _ _ (eq_refl : get s = Ok (s, s))).
  rewrite He. cbn [negb assert].
  rewrite (bind_ok _ _ _ _ _ (eq_refl : ret tt s = Ok (tt, s))).
  rewrite (bind_ok _ _ _ _ _
             (eq_refl : modify (set_t (tokens s)) s
                        = Ok (tt, set_t (tokens s) s))).
  set (s0 := set_t (tokens s) s).
  set (n := List.length (tokens s)).
  assert (Hn : (List.length qs <= n)%nat).
  { unfold n. rewrite Htok.
    clear. induction qs as [|[[q e] v] l IH]; cbn; [lia|].
    rewrite length_app. cbn. lia. }
  destruct (parse_loop_sub_queries (S n) qs Hqs None s0 [])
    as (s1 & T1 & E1 & O1 & B1 & L1); auto.
  { unfold s0. cbn [t set_t]. rewrite app_nil_r. exact Htok. }
  exists s1. split; [|split; [exact E1 | exact B1]].
  assert (Ef : S n = (List.length qs + S (n - List.length qs))%nat) by lia.
  rewrite Ef at 1. rewrite L1. cbn [parse_loop].
  rewrite (bind_ok _ _ _ _ _ (eq_refl : get s1 = Ok (s1, s1))).
  rewrite T1. reflexivity.
Qed.

End OrBetween.

Section OrBetweenRuns.

Import Vxp VxpRun.

Lemma derives_q_tag o : derives o L_or q_tag (v_tag o).
Proof.
  apply d_chain, d_operand, d_group, d_cmp. apply cmp_at_tag.
Qed.

Lemma or_between_queries_is_refused_witness :
  exists s',
    vxp_Parse (start in_or_between) = Ok (None, s') /\ err s' = true /\
    sb s' = "Expected VSL tag name got 'or' "%string.
Proof.
  apply (or_between_queries_is_refused 0 [(q_tag, sym EOI, v_tag 0)]
           (sym T_OR) [val "Begin"; sym EOI] (start in_or_between)).
  - apply Forall_cons; [|apply Forall_nil].
    split; [apply derives_q_tag | reflexivity].
  - reflexivity.
  - reflexivity.
  - reflexivity.
  - reflexivity.
Defined.

End OrBetweenRuns.

(** * The line-up of input *)

Section VluBytes.

Import Vlu.

Implicit Types b : Z -> ascii.

Lemma app_same_length {A} (l1 : list A) : forall l1' l2 l2',
  l1 ++ l2 = l1' ++ l2' -> List.length l1 = List.length l1' ->
  l1 = l1' /\ l2 = l2'.
Proof.
  induction l1 as [|x l1 IH]; intros [|y l1'] l2 l2' H Hl;
    try discriminate; cbn in *.
  - auto.
  - injection H as -> H. injection Hl as Hl.
    destruct (IH _ _ _ H Hl) as [-> ->]. auto.
Qed.

Lemma bytes_length b p n : List.length (bytes b p n) = n.
Proof.
  revert p. induction n as [|n IH]; intros p; cbn; [reflexivity|].
  now rewrite IH.
Qed.

Lemma bytes_app b n : forall p m,
  bytes b p (n + m) = bytes b p n ++ bytes b (p + Z.of_nat n) m.
Proof.
  induction n as [|n IH]; intros p m; cbn [bytes Nat.add app].
  - now rewrite Z.add_0_r.
  - rewrite IH. replace (p + Z.of_nat (S n)) with (p + 1 + Z.of_nat n) by lia.
    reflexivity.
Qed.

Lemma bytes_ext b b' n : forall p,
  (forall i, p <= i < p + Z.of_nat n -> b' i = b i) ->
  bytes b' p n = bytes b p n.
Proof.
  induction n as [|n IH]; intros p H; cbn [bytes]; [reflexivity|].
  rewrite H by lia. f_equal. apply IH. intros i Hi. apply H. lia.
Qed.

Lemma bytes_at b n : forall p i,
  p <= i < p + Z.of_nat n ->
  nth (Z.to_nat (i - p)) (bytes b p n) NUL = b i.
Proof.
  induction n as [|n IH]; intros p i Hi; [lia|].
  cbn [bytes]. destruct (Z.eq_dec i p) as [->|Hne].
  - now rewrite Z.sub_diag.
  - replace (Z.to_nat (i - p)) with (S (Z.to_nat (i - (p + 1)))) by lia.
    cbn [nth]. apply IH. lia.
Qed.

Lemma poke_eq b i c : poke b i c i = c.
Proof. unfold poke. now rewrite Z.eqb_refl. Qed.

Lemma poke_ne b i c j : j <> i -> poke b i c j = b j.
Proof. intros H. unfold poke. apply Z.eqb_neq in H. now rewrite H. Qed.

Lemma blit_out data : forall b p j,
  j < p \/ p + Z.of_nat (List.length data) <= j -> blit b p data j = b j.
Proof.
  induction data as [|c data IH]; intros b p j Hj; cbn [blit]; [reflexivity|].
  cbn [List.length] in Hj. rewrite IH by lia. apply poke_ne. lia.
Qed.

Lemma bytes_blit data : forall b p,
  bytes (blit b p data) p (List.length data) = data.
Proof.
  induction data as [|c data IH]; intros b p; cbn [blit bytes List.length];
    [reflexivity|].
  rewrite blit_out by lia. rewrite poke_eq. f_equal. apply IH.
Qed.

(** the bytes before [p] are not touched *)
Lemma bytes_blit_before data b p q n :
  q + Z.of_nat n <= p -> bytes (blit b p data) q n = bytes b q n.
Proof.
  intros H. apply bytes_ext. intros i Hi. apply blit_out. lia.
Qed.

Lemma bytes_poke_out b i c p n :
  i < p \/ p + Z.of_nat n <= i -> bytes (poke b i c) p n = bytes b p n.
Proof.
  intros H. apply bytes_ext. intros j Hj. apply poke_ne. lia.
Qed.

(** ** The lines of a stream *)

(** ** The lines of a stream *)

Lemma split_lines_app d1 : forall cur d2,
  split_lines cur (d1 ++ d2)
  = (fst (split_lines cur d1) ++ fst (split_lines (snd (split_lines cur d1)) d2),
     snd (split_lines (snd (split_lines cur d1)) d2)).
Proof.
  induction d1 as [|c d1 IH]; intros cur d2; cbn [app split_lines].
  - cbn. now destruct (split_lines cur d2).
  - destruct (is_eol c).
    + rewrite IH. destruct (split_lines [] d1) as [l1 r1]. reflexivity.
    + apply IH.
Qed.

Lemma split_lines_plain d1 : forall cur,
  Forall (fun c => is_eol c = false) d1 ->
  split_lines cur d1 = ([], cur ++ d1).
Proof.
  induction d1 as [|c d1 IH]; intros cur H; cbn [split_lines].
  - now rewrite app_nil_r.
  - inversion H as [|? ? Hc Hd]; subst. rewrite Hc, IH by exact Hd.
    now rewrite <- app_assoc.
Qed.

(** the line so far is as good as bytes of the stream *)
Lemma split_lines_pending cur data :
  Forall (fun c => is_eol c = false) cur ->
  split_lines [] (cur ++ data) = split_lines cur data.
Proof.
  intros H. rewrite split_lines_app, (split_lines_plain cur [] H). cbn.
  now destruct (split_lines cur data).
Qed.

Lemma split_lines_nil data : forall cur r,
  split_lines cur data = ([], r) ->
  r = cur ++ data /\ Forall (fun c => is_eol c = false) data.
Proof.
  induction data as [|c data IH]; intros cur r H; cbn [split_lines] in H.
  - injection H as <-. now rewrite app_nil_r.
  - destruct (is_eol c) eqn:Ec.
    + destruct (split_lines [] data); discriminate.
    + apply IH in H. destruct H as [-> H]. rewrite <- app_assoc.
      split; [reflexivity|]. constructor; assumption.
Qed.

Lemma split_lines_cons data : forall cur x ls r,
  split_lines cur data = (x :: ls, r) ->
  exists d1 e d2,
    data = d1 ++ e :: d2 /\ x = cur ++ d1 /\ is_eol e = true /\
    Forall (fun c => is_eol c = false) d1 /\
    split_lines [] d2 = (ls, r).
Proof.
  induction data as [|c data IH]; intros cur x ls r H;
    cbn [split_lines] in H; [discriminate|].
  destruct (is_eol c) eqn:Ec.
  - destruct (split_lines [] data) as [l1 r1] eqn:E.
    injection H as <- <- <-.
    exists [], c, data. rewrite app_nil_r. repeat split; auto.
  - apply IH in H. destruct H as (d1 & e & d2 & -> & -> & He & Hd & Hs).
    exists (c :: d1), e, d2. rewrite <- app_assoc.
    repeat split; auto.
Qed.

(** the lines and the rest are made of the bytes of the stream *)
Lemma split_lines_all (Q : ascii -> Prop) data : forall cur ls r,
  split_lines cur data = (ls, r) ->
  Forall Q cur -> Forall Q data ->
  Forall (Forall Q) ls /\ Forall Q r.
Proof.
  induction data as [|c data IH]; intros cur ls r H Hc Hd;
    cbn [split_lines] in H.
  - injection H as <- <-. auto.
  - inversion Hd as [|? ? Qc Qd]; subst.
    destruct (is_eol c).
    + destruct (split_lines [] data) as [l1 r1] eqn:E.
      injection H as <- <-.
      destruct (IH [] l1 r1 E) as [Hl Hr]; auto.
    + apply (IH _ _ _ H); [|exact Qd].
      apply Forall_app. auto.
Qed.

(** the rest is the start of a line *)
Lemma split_lines_rest data : forall cur ls r,
  split_lines cur data = (ls, r) ->
  Forall (fun c => is_eol c = false) cur ->
  Forall (fun c => is_eol c = false) r.
Proof.
  induction data as [|c data IH]; intros cur ls r H Hc;
    cbn [split_lines] in H.
  - injection H as <- <-. exact Hc.
  - destruct (is_eol c) eqn:Ec.
    + destruct (split_lines [] data) as [l1 r1] eqn:E.
      injection H as <- <-. apply (IH [] l1 r1 E). constructor.
    + apply (IH _ _ _ H). apply Forall_app. auto.
Qed.

Lemma split_lines_count data : forall cur ls r,
  split_lines cur data = (ls, r) ->
  (List.length ls <= List.length data)%nat.
Proof.
  induction data as [|c data IH]; intros cur ls r H; cbn [split_lines] in H.
  - injection H as <- <-. cbn. lia.
  - destruct (is_eol c).
    + destruct (split_lines [] data) as [l1 r1] eqn:E.
      injection H as <- <-. apply IH in E. cbn. lia.
    + apply IH in H. cbn. lia.
Qed.

(** the rest is the end of the stream, after the line so far *)
Lemma split_lines_tail data : forall cur ls r,
  split_lines cur data = (ls, r) ->
  exists pre, cur ++ data = pre ++ r.
Proof.
  induction data as [|c data IH]; intros cur ls r H; cbn [split_lines] in H.
  - injection H as <- <-. exists []. now rewrite app_nil_r.
  - destruct (is_eol c).
    + destruct (split_lines [] data) as [l1 r1] eqn:E.
      injection H as <- <-. apply IH in E. destruct E as [pre E].
      cbn in E. exists (cur ++ c :: pre). rewrite <- app_assoc. cbn.
      now rewrite E.
    + apply IH in H. destruct H as [pre H]. exists pre.
      rewrite <- H, <- app_assoc. reflexivity.
Qed.

(** the line so far is the start of the first line, or of the rest *)
Lemma split_lines_first data : forall cur ls r,
  split_lines cur data = (ls, r) ->
  (List.length cur <= List.length (hd r ls))%nat.
Proof.
  induction data as [|c data IH]; intros cur ls r H; cbn [split_lines] in H.
  - injection H as <- <-. cbn. lia.
  - destruct (is_eol c).
    + destruct (split_lines [] data) as [l1 r1] eqn:E.
      injection H as <- <-. cbn. lia.
    + apply IH in H. rewrite length_app in H. cbn in H. lia.
Qed.

Lemma deliver_app {store} (f : @vlu_f store) pv l1 : forall m l2,
  deliver f pv m (l1 ++ l2)
  = if fst (deliver f pv m l1) =? 0
    then deliver f pv (snd (deliver f pv m l1)) l2
    else deliver f pv m l1.
Proof.
  induction l1 as [|x l1 IH]; intros m l2; cbn [app deliver].
  - reflexivity.
  - destruct (f m pv x) as [i m1]. destruct (i =? 0) eqn:Ei.
    + apply IH.
    + cbn. now rewrite Ei.
Qed.

End VluBytes.

Section VluRuns.

Import Vlu.
Context {store file : Type}.
Implicit Types w : @world store file.

Lemma inside_iff (l : @vlu store) i :
  inside l i = true <-> 0 <= i <= bufl l.
Proof. unfold inside. rewrite andb_true_iff. lia. Qed.

Lemma load_ok w i :
  0 <= i <= bufl (obj w) -> load i w = Ok (buf (obj w) i, w).
Proof.
  intros H. apply inside_iff in H. unfold load, bind, get. now rewrite H.
Qed.

Lemma store_ok w i c :
  0 <= i <= bufl (obj w) ->
  store_at i c w
  = Ok (tt, set_obj w (set_buf (obj w) (poke (buf (obj w)) i c))).
Proof.
  intros H. apply inside_iff in H. unfold store_at, bind, get.
  now rewrite H.
Qed.

(** the scan to the end of a line stops at the first byte that is not
    plain *)
Lemma find_eol_ok line : forall fuel q w e,
  Forall plain line -> e = NUL \/ is_eol e = true ->
  bytes (buf (obj w)) q (List.length line + 1) = line ++ [e] ->
  0 <= q -> q + Z.of_nat (List.length line) <= bufl (obj w) ->
  (List.length line < fuel)%nat ->
  find_eol fuel q w = Ok (q + Z.of_nat (List.length line), w).
Proof.
  induction line as [|c line IH]; intros fuel q w e Hp He Hb Hq Hl Hf;
    (destruct fuel as [|fuel]; [cbn in Hf; lia|]); cbn [find_eol].
  - cbn in Hb. injection Hb as Hb. cbn [List.length] in *.
    rewrite (bind_ok _ _ _ _ _ (load_ok w q ltac:(lia))). rewrite Hb.
    rewrite Z.add_0_r.
    destruct (Ascii.eqb e NUL) eqn:E1; [reflexivity|].
    destruct He as [->|He]; [now rewrite Ascii.eqb_refl in E1|].
    unfold is_eol in He. now rewrite He.
  - cbn [List.length Nat.add bytes app] in Hb. injection Hb as Hc Hb.
    cbn [List.length] in *.
    inversion Hp as [|? ? [Hn Hc'] Hp']; subst.
    rewrite (bind_ok _ _ _ _ _ (load_ok w q ltac:(lia))).
    apply Ascii.eqb_neq in Hn. rewrite Hn.
    unfold is_eol in Hc'. rewrite Hc'.
    rewrite (IH fuel (q + 1) w e Hp' He Hb) by lia.
    do 2 f_equal. lia.
Qed.

Lemma find_nul_ok line : forall fuel q w,
  Forall (fun c => c <> NUL) line ->
  bytes (buf (obj w)) q (List.length line + 1) = line ++ [NUL] ->
  0 <= q -> q + Z.of_nat (List.length line) <= bufl (obj w) ->
  (List.length line < fuel)%nat ->
  find_nul fuel q w = Ok (q + Z.of_nat (List.length line), w).
Proof.
  induction line as [|c line IH]; intros fuel q w Hp Hb Hq Hl Hf;
    (destruct fuel as [|fuel]; [cbn in Hf; lia|]); cbn [find_nul].
  - cbn in Hb. injection Hb as Hb. cbn [List.length] in *.
    rewrite (bind_ok _ _ _ _ _ (load_ok w q ltac:(lia))). rewrite Hb.
    rewrite Z.add_0_r. reflexivity.
  - cbn [List.length Nat.add bytes app] in Hb. injection Hb as Hc Hb.
    cbn [List.length] in *.
    inversion Hp as [|? ? Hn Hp']; subst.
    rewrite (bind_ok _ _ _ _ _ (load_ok w q ltac:(lia))).
    apply Ascii.eqb_neq in Hn. rewrite Hn.
    rewrite (IH fuel (q + 1) w Hp' Hb) by lia.
    do 2 f_equal. lia.
Qed.

(** the callback is given the line that starts at [p] *)
Lemma call_func_ok line p w :
  Forall (fun c => c <> NUL) line ->
  bytes (buf (obj w)) p (List.length line + 1) = line ++ [NUL] ->
  0 <= p -> p + Z.of_nat (List.length line) <= bufl (obj w) ->
  call_func p w
  = Ok (fst (func (obj w) (mem w) (priv (obj w)) line),
        set_mem w (snd (func (obj w) (mem w) (priv (obj w)) line))).
Proof.
  intros Hp Hb Hq Hl. unfold call_func.
  rewrite (bind_ok _ _ _ _ _ (eq_refl : get w = Ok (w, w))).
  rewrite (bind_ok _ _ _ _ _ (find_nul_ok line (span (obj w)) p w Hp Hb Hq Hl
                                ltac:(unfold span; lia))).
  replace (Z.to_nat (p + Z.of_nat (List.length line) - p))
    with (List.length line) by lia.
  rewrite bytes_app in Hb. cbn [bytes] in Hb.
  apply app_inj_tail in Hb. destruct Hb as [Hb _]. rewrite Hb.
  destruct (func (obj w) (mem w) (priv (obj w)) line) as [i m].
  reflexivity.
Qed.

Lemma first_byte (bf : Z -> ascii) p l e :
  bytes bf p (List.length l + 1) = l ++ [e] ->
  Forall (fun c => c <> NUL) l -> e <> NUL -> bf p <> NUL.
Proof.
  intros Hb Hl He. destruct l as [|c l]; cbn in Hb.
  - injection Hb as Hc. congruence.
  - injection Hb as Hc _. inversion Hl; subst. assumption.
Qed.

Lemma last_byte (bf : Z -> ascii) p l e :
  bytes bf p (List.length l + 1) = l ++ [e] ->
  bytes bf p (List.length l) = l /\ bf (p + Z.of_nat (List.length l)) = e.
Proof.
  intros Hb. rewrite bytes_app in Hb. cbn [bytes] in Hb.
  apply app_inj_tail in Hb. exact Hb.
Qed.

Lemma plain_intro l :
  Forall (fun c => c <> NUL) l -> Forall (fun c => is_eol c = false) l ->
  Forall plain l.
Proof.
  intros H1 H2. induction l as [|c l IH]; constructor.
  - inversion H1; inversion H2; subst. split; assumption.
  - inversion H1; inversion H2; subst. auto.
Qed.

Lemma eol_not_NUL e : is_eol e = true -> e <> NUL.
Proof. intros H ->. discriminate H. Qed.

(** The loop over the lines: the callback is given the complete lines in
    the order of the buffer, up to the first for which it does not
    return 0; the loop ends before the rest. *)
Lemma line_loop_run ls : forall data r fuel p w i m',
  split_lines [] data = (ls, r) ->
  Forall (fun c => c <> NUL) data ->
  bytes (buf (obj w)) p (List.length data + 1) = data ++ [NUL] ->
  0 <= p -> p + Z.of_nat (List.length data) <= bufl (obj w) ->
  (List.length ls < fuel)%nat ->
  deliver (func (obj w)) (priv (obj w)) (mem w) ls = (i, m') ->
  exists w',
    line_loop fuel p w
    = Ok (if i =? 0
          then Goes (p + Z.of_nat (List.length data)
                     - Z.of_nat (List.length r))
          else Returns i, w') /\
    mem w' = m' /\ input w' = input w /\
    magic (obj w') = magic (obj w) /\ bufl (obj w') = bufl (obj w) /\
    bufp (obj w') = bufp (obj w) /\ priv (obj w') = priv (obj w) /\
    func (obj w') = func (obj w) /\
    (forall j,
       j < p \/
       p + Z.of_nat (List.length data) - Z.of_nat (List.length r) <= j ->
       buf (obj w') j = buf (obj w) j).
Proof.
  induction ls as [|x ls IH]; intros data r fuel p w i m' Hs Hn Hb Hp Hl Hf Hd;
    (destruct fuel as [|fuel]; [cbn in Hf; lia|]); cbn [line_loop].
  - (* no line is complete *)
    apply split_lines_nil in Hs. destruct Hs as [-> He]. cbn [app] in *.
    cbn in Hd. injection Hd as <- <-. cbn [Z.eqb].
    exists w. split; [|repeat split; auto].
    rewrite (bind_ok _ _ _ _ _ (load_ok w p ltac:(lia))).
    destruct (last_byte _ _ _ _ Hb) as [Hb1 Hb2].
    destruct data as [|c data].
    + cbn in Hb2. rewrite Z.add_0_r in Hb2. rewrite Hb2. cbn.
      replace (p + 0 - 0) with p by lia. reflexivity.
    + assert (Hc : buf (obj w) p = c) by (cbn in Hb1; congruence).
      rewrite Hc.
      assert (Hcn : c <> NUL) by (inversion Hn; assumption).
      apply Ascii.eqb_neq in Hcn. rewrite Hcn.
      rewrite (bind_ok _ _ _ _ _ (eq_refl : get w = Ok (w, w))).
      rewrite (bind_ok _ _ _ _ _
                 (find_eol_ok (c :: data) (span (obj w)) p w NUL
                    (plain_intro _ Hn He) (or_introl eq_refl) Hb Hp Hl
                    ltac:(unfold span; lia))).
      rewrite (bind_ok _ _ _ _ _
                 (load_ok w (p + Z.of_nat (List.length (c :: data)))
                    ltac:(lia))).
      rewrite Hb2. cbn. unfold ret. do 3 f_equal. lia.
  - (* a line, and what follows it *)
    apply split_lines_cons in Hs.
    destruct Hs as (d1 & e & d2 & -> & -> & He & Hd1 & Hs).
    cbn [app] in *.
    apply Forall_app in Hn. destruct Hn as [Hn1 Hn2].
    inversion Hn2 as [|? ? Hne Hn3]; subst.
    rewrite length_app in Hb, Hl. cbn [List.length] in Hb, Hl.
    replace (List.length d1 + S (List.length d2) + 1)%nat
      with ((List.length d1 + 1) + (List.length d2 + 1))%nat in Hb by lia.
    rewrite bytes_app in Hb.
    replace (d1 ++ e :: d2) with ((d1 ++ [e]) ++ d2) in Hb
      by (rewrite <- app_assoc; reflexivity).
    rewrite <- app_assoc in Hb.
    apply app_same_length in Hb.
    2:{ rewrite bytes_length, length_app. reflexivity. }
    destruct Hb as [Hb1 Hb2].
    destruct (last_byte _ _ _ _ Hb1) as [Hb3 Hb4].
    set (q := p + Z.of_nat (List.length d1)) in *.
    rewrite (bind_ok _ _ _ _ _ (load_ok w p ltac:(lia))).
    pose proof (first_byte _ _ _ _ Hb1 Hn1 Hne) as Hfirst.
    apply Ascii.eqb_neq in Hfirst. rewrite Hfirst.
    rewrite (bind_ok _ _ _ _ _ (eq_refl : get w = Ok (w, w))).
    rewrite (bind_ok _ _ _ _ _
               (find_eol_ok d1 (span (obj w)) p w e
                  (plain_intro _ Hn1 Hd1) (or_intror He) Hb1 Hp
                  ltac:(lia) ltac:(unfold span; lia))).
    fold q.
    rewrite (bind_ok _ _ _ _ _ (load_ok w q ltac:(lia))).
    rewrite Hb4. apply Ascii.eqb_neq in Hne. rewrite Hne.
    rewrite (bind_ok _ _ _ _ _ (store_ok w q NUL ltac:(lia))).
    set (w1 := set_obj w (set_buf (obj w) (poke (buf (obj w)) q NUL))).
    assert (Hw1 : bytes (buf (obj w1)) p (List.length d1 + 1) = d1 ++ [NUL]).
    { rewrite bytes_app. cbn [bytes obj w1 set_obj set_buf buf].
      rewrite bytes_poke_out by (unfold q; lia). rewrite Hb3.
      fold q. now rewrite poke_eq. }
    rewrite (bind_ok _ _ _ _ _
               (call_func_ok d1 p w1 Hn1 Hw1 Hp ltac:(cbn; lia))).
    cbn [obj w1 set_obj set_buf func priv mem set_mem].
    cbn [deliver] in Hd.
    destruct (func (obj w) (mem w) (priv (obj w)) d1) as [i1 m1].
    cbn [fst snd].
    pose proof (split_lines_tail _ _ _ _ Hs) as [pre Hpre]. cbn in Hpre.
    assert (Hlen : (List.length r <= List.length d2)%nat).
    { rewrite Hpre, length_app. lia. }
    destruct (i1 =? 0) eqn:Ei; cbn [negb].
    + (* the callback returned 0 *)
      destruct (IH d2 r fuel (q + 1)
                  (set_mem w1 m1) i m' Hs Hn3) as (w' & E & Hrest).
      * cbn [obj set_mem w1 set_obj set_buf buf].
        rewrite bytes_poke_out by lia.
        replace (q + 1) with (p + Z.of_nat (List.length d1 + 1)) by lia.
        exact Hb2.
      * lia.
      * cbn. lia.
      * cbn in Hf. lia.
      * exact Hd.
      * exists w'. split.
        { rewrite E. do 2 f_equal.
          destruct (i =? 0); [|reflexivity]. f_equal.
          rewrite length_app. cbn [List.length]. lia. }
        destruct Hrest as (H1 & H2 & H3 & H4 & H5 & H6 & H7 & H8).
        repeat split; auto.
        intros j Hj. rewrite H8.
        { cbn [obj set_mem w1 set_obj set_buf buf]. apply poke_ne.
          rewrite length_app in Hj. cbn [List.length] in Hj. lia. }
        rewrite length_app in Hj. cbn [List.length] in Hj. lia.
    + (* it did not *)
      injection Hd as <- <-. rewrite Ei.
      eexists. split; [reflexivity|].
      cbn. repeat split; auto.
      intros j Hj. apply poke_ne.
      rewrite length_app in Hj. cbn [List.length] in Hj. lia.
Qed.

End VluRuns.

Section VluProcess.

Import Vlu.
Context {store file : Type}.
Implicit Types w : @world store file.

Lemma memmove_ok w dst src n :
  0 < n -> 0 <= dst -> dst + n - 1 <= bufl (obj w) ->
  0 <= src -> src + n - 1 <= bufl (obj w) ->
  memmove dst src n w
  = Ok (tt, set_obj w (set_buf (obj w)
              (blit (buf (obj w)) dst
                    (bytes (buf (obj w)) src (Z.to_nat n))))).
Proof.
  intros Hn H1 H2 H3 H4. unfold memmove, bind, get.
  apply Z.ltb_lt in Hn. rewrite Hn. apply Z.ltb_lt in Hn.
  rewrite !(proj2 (inside_iff _ _)) by lia. reflexivity.
Qed.

Lemma memcpy_ok w dst data n :
  0 < n -> 0 <= dst -> dst + n - 1 <= bufl (obj w) ->
  n <= Z.of_nat (List.length data) ->
  memcpy dst data n w
  = Ok (tt, set_obj w (set_buf (obj w)
              (blit (buf (obj w)) dst (firstn (Z.to_nat n) data)))).
Proof.
  intros Hn H1 H2 H3. unfold memcpy, bind, get.
  apply Z.ltb_lt in Hn. rewrite Hn. apply Z.ltb_lt in Hn.
  rewrite !(proj2 (inside_iff _ _)) by lia.
  apply Z.leb_le in H3. rewrite H3. reflexivity.
Qed.

Lemma memcpy_nothing w dst data n : n <= 0 -> memcpy dst data n w = Ok (tt, w).
Proof.
  intros Hn. unfold memcpy, bind, get.
  apply Z.ltb_ge in Hn. now rewrite Hn.
Qed.

(** LineUpProcess on a buffer that holds [data], up to [bufp] or to a
    NUL: the callback is given the complete lines, and the rest is moved
    to the start of the buffer. *)
Lemma LineUpProcess_cut w data ls r i m' :
  0 <= bufl (obj w) < 2 ^ 32 ->
  Z.of_nat (List.length data) <= bufp (obj w) ->
  (Z.of_nat (List.length data) < bufp (obj w) ->
   buf (obj w) (Z.of_nat (List.length data)) = NUL) ->
  bufp (obj w) <= bufl (obj w) ->
  bytes (buf (obj w)) 0 (List.length data) = data ->
  Forall (fun c => c <> NUL) data ->
  split_lines [] data = (ls, r) ->
  deliver (func (obj w)) (priv (obj w)) (mem w) ls = (i, m') ->
  exists w',
    LineUpProcess w = Ok (i, w') /\
    mem w' = m' /\ input w' = input w /\
    magic (obj w') = magic (obj w) /\ bufl (obj w') = bufl (obj w) /\
    priv (obj w') = priv (obj w) /\ func (obj w') = func (obj w) /\
    (i = 0 -> bufp (obj w') = Z.of_nat (List.length r) /\
              bytes (buf (obj w')) 0 (List.length r) = r) /\
    (i <> 0 -> bufp (obj w') = bufp (obj w)).
Proof.
  intros Hl Hp Hcut Hpl Hb Hn Hs Hd. unfold LineUpProcess.
  rewrite (bind_ok _ _ _ _ _ (eq_refl : get w = Ok (w, w))).
  rewrite (bind_ok _ _ _ _ _ (store_ok w (bufp (obj w)) NUL ltac:(lia))).
  set (w0 := set_obj w (set_buf (obj w) (poke (buf (obj w)) (bufp (obj w)) NUL))).
  assert (Hb0 : bytes (buf (obj w0)) 0 (List.length data + 1) = data ++ [NUL]).
  { rewrite bytes_app. cbn [bytes obj w0 set_obj set_buf buf].
    rewrite bytes_poke_out by lia. rewrite Hb.
    rewrite Z.add_0_l. f_equal. f_equal.
    destruct (Z.eq_dec (bufp (obj w)) (Z.of_nat (List.length data)))
      as [<-|Hne]; [apply poke_eq|].
    rewrite poke_ne by lia. apply Hcut. lia. }
  pose proof (split_lines_count _ _ _ _ Hs) as Hc.
  destruct (line_loop_run ls data r (span (obj w)) 0 w0 i m' Hs Hn Hb0
              ltac:(lia) ltac:(cbn; lia) ltac:(unfold span; lia) Hd)
    as (w1 & E & Hm & Hi & Hmg & Hbl & Hbp & Hpv & Hfn & Hbuf).
  rewrite (bind_ok _ _ _ _ _ E).
  cbn [obj w0 set_obj set_buf magic bufl bufp priv func mem input] in *.
  destruct (i =? 0) eqn:Ei.
  - apply Z.eqb_eq in Ei. subst i.
    pose proof (split_lines_tail _ _ _ _ Hs) as [pre Hpre]. cbn in Hpre.
    assert (Hlen : List.length data = (List.length pre + List.length r)%nat).
    { rewrite Hpre, length_app. reflexivity. }
    set (p := 0 + Z.of_nat (List.length data) - Z.of_nat (List.length r)) in *.
    assert (Hpp : p = Z.of_nat (List.length pre)) by (unfold p; lia).
    assert (Hr : bytes (buf (obj w1)) p (List.length r + 1) = r ++ [NUL]).
    { rewrite (bytes_ext (poke (buf (obj w)) (bufp (obj w)) NUL)).
      2:{ intros j Hj. apply Hbuf. lia. }
      rewrite Hlen in Hb0.
      replace (List.length pre + List.length r + 1)%nat
        with (List.length pre + (List.length r + 1))%nat in Hb0 by lia.
      rewrite bytes_app in Hb0. rewrite Hpre, <- app_assoc in Hb0.
      apply app_same_length in Hb0; [|apply bytes_length].
      rewrite Hpp, <- (Z.add_0_l (Z.of_nat (List.length pre))).
      apply Hb0. }
    assert (Hnr : Forall (fun c => c <> NUL) r).
    { rewrite Hpre in Hn. apply Forall_app in Hn. apply Hn. }
    rewrite (bind_ok _ _ _ _ _ (load_ok w1 p ltac:(lia))).
    destruct (last_byte _ _ _ _ Hr) as [Hr1 Hr2].
    destruct r as [|c r'].
    + (* nothing is left *)
      cbn in Hr2. rewrite Z.add_0_r in Hr2. rewrite Hr2. cbn.
      eexists. split; [reflexivity|]. cbn.
      repeat split; auto; congruence.
    + (* the start of a line is left *)
      assert (Hc1 : buf (obj w1) p = c) by (cbn in Hr1; congruence).
      rewrite Hc1.
      assert (Hcn : c <> NUL) by (inversion Hnr; assumption).
      apply Ascii.eqb_neq in Hcn. rewrite Hcn. cbn [negb].
      unfold bind at 1.
      rewrite (bind_ok _ _ _ _ _
                 (find_nul_ok (c :: r') (span (obj w)) p w1 Hnr Hr
                    ltac:(lia) ltac:(lia) ltac:(unfold span; lia))).
      rewrite (bind_ok _ _ _ _ _ (eq_refl : modify _ w1 = Ok (tt, _))).
      replace (p + Z.of_nat (List.length (c :: r')) - p)
        with (Z.of_nat (List.length (c :: r'))) by lia.
      rewrite u32_small by lia.
      match goal with
      | |- context [bind get _ ?s] =>
          rewrite (bind_ok _ _ _ _ _ (eq_refl : get s = Ok (s, s)))
      end.
      cbn [obj set_obj set_bufp bufp].
      remember (List.length (c :: r')) as n eqn:En.
      assert (Hn0 : 0 < Z.of_nat n) by (rewrite En; cbn [List.length]; lia).
      set (w2 := set_obj w1 (set_bufp (obj w1) (Z.of_nat n))).
      rewrite (bind_ok _ _ _ _ _
                 (memmove_ok w2 0 p (Z.of_nat n) Hn0 ltac:(lia)
                    ltac:(unfold w2; cbn; lia) ltac:(lia)
                    ltac:(unfold w2; cbn; lia))).
      rewrite store_ok by (unfold w2; cbn; lia).
      eexists. split; [reflexivity|].
      cbn. repeat split; auto; try congruence.
      rewrite bytes_poke_out by lia.
      rewrite Nat2Z.id. rewrite Hr1. rewrite En.
      apply (bytes_blit (c :: r')).
  - (* the callback has returned a value that is not 0 *)
    apply Z.eqb_neq in Ei.
    eexists. split; [reflexivity|].
    repeat split; auto; try congruence.
Qed.

Lemma LineUpProcess_run w data ls r i m' :
  0 <= bufl (obj w) < 2 ^ 32 ->
  bufp (obj w) = Z.of_nat (List.length data) ->
  bufp (obj w) <= bufl (obj w) ->
  bytes (buf (obj w)) 0 (List.length data) = data ->
  Forall (fun c => c <> NUL) data ->
  split_lines [] data = (ls, r) ->
  deliver (func (obj w)) (priv (obj w)) (mem w) ls = (i, m') ->
  exists w',
    LineUpProcess w = Ok (i, w') /\
    mem w' = m' /\ input w' = input w /\
    magic (obj w') = magic (obj w) /\ bufl (obj w') = bufl (obj w) /\
    priv (obj w') = priv (obj w) /\ func (obj w') = func (obj w) /\
    (i = 0 -> bufp (obj w') = Z.of_nat (List.length r) /\
              bytes (buf (obj w')) 0 (List.length r) = r) /\
    (i <> 0 -> bufp (obj w') = bufp (obj w)).
Proof.
  intros Hl Hp Hpl. apply LineUpProcess_cut; auto; lia.
Qed.

(** and the vlu is ready for the next bytes when the callback has
    returned 0 for every line *)
Lemma LineUpProcess_holds_cut w data ls r i m' :
  magic (obj w) = LINEUP_MAGIC ->
  0 <= bufl (obj w) < 2 ^ 32 ->
  Z.of_nat (List.length data) <= bufp (obj w) ->
  (Z.of_nat (List.length data) < bufp (obj w) ->
   buf (obj w) (Z.of_nat (List.length data)) = NUL) ->
  bufp (obj w) <= bufl (obj w) ->
  bytes (buf (obj w)) 0 (List.length data) = data ->
  Forall (fun c => c <> NUL) data ->
  split_lines [] data = (ls, r) ->
  deliver (func (obj w)) (priv (obj w)) (mem w) ls = (i, m') ->
  exists w',
    LineUpProcess w = Ok (i, w') /\
    mem w' = m' /\ input w' = input w /\
    bufl (obj w') = bufl (obj w) /\
    priv (obj w') = priv (obj w) /\ func (obj w') = func (obj w) /\
    (i = 0 -> holds (obj w') r) /\
    (i <> 0 -> bufp (obj w') = bufp (obj w)) /\
    magic (obj w') = magic (obj w).
Proof.
  intros Hm Hl Hp Hcut Hpl Hb Hn Hs Hd.
  destruct (LineUpProcess_cut w data ls r i m' Hl Hp Hcut Hpl Hb Hn Hs Hd)
    as (w' & E & H1 & H2 & H3 & H4 & H5 & H6 & H7 & H8).
  exists w'. split; [exact E|]. split; [exact H1|]. split; [exact H2|].
  split; [exact H4|]. split; [exact H5|]. split; [exact H6|].
  split; [|split; [exact H8 | exact H3]].
  intros Hi. destruct (H7 Hi) as [Hq Hr]. unfold holds.
  split; [congruence|]. split; [rewrite H4; lia|].
  split; [exact Hq|]. split.
  { rewrite Hq, H4.
    pose proof (split_lines_tail _ _ _ _ Hs) as [pre Hpre]. cbn in Hpre.
    rewrite Hpre, length_app in Hp. lia. }
  split; [exact Hr|].
  apply plain_intro.
  - apply (split_lines_all _ _ _ _ _ Hs); [constructor | exact Hn].
  - apply (split_lines_rest _ _ _ _ Hs). constructor.
Qed.

Lemma LineUpProcess_holds w data ls r i m' :
  magic (obj w) = LINEUP_MAGIC ->
  0 <= bufl (obj w) < 2 ^ 32 ->
  bufp (obj w) = Z.of_nat (List.length data) ->
  bufp (obj w) <= bufl (obj w) ->
  bytes (buf (obj w)) 0 (List.length data) = data ->
  Forall (fun c => c <> NUL) data ->
  split_lines [] data = (ls, r) ->
  deliver (func (obj w)) (priv (obj w)) (mem w) ls = (i, m') ->
  exists w',
    LineUpProcess w = Ok (i, w') /\
    mem w' = m' /\ input w' = input w /\
    bufl (obj w') = bufl (obj w) /\
    priv (obj w') = priv (obj w) /\ func (obj w') = func (obj w) /\
    (i = 0 -> holds (obj w') r) /\
    (i <> 0 -> bufp (obj w') = bufp (obj w)) /\
    magic (obj w') = magic (obj w).
Proof.
  intros Hm Hl Hp Hpl. apply LineUpProcess_holds_cut; auto; lia.
Qed.

End VluProcess.

Section VluFeed.

Import Vlu.
Context {store file : Type}.
Implicit Types w : @world store file.

Lemma int32_small x : 0 <= x < 2 ^ 31 -> int32 (u32 x) = x.
Proof.
  intros H. rewrite u32_small by lia. unfold int32.
  rewrite Z.mod_small by lia. lia.
Qed.

Lemma plain_not_NUL l : Forall plain l -> Forall (fun c => c <> NUL) l.
Proof. apply Forall_impl. intros c [H _]. exact H. Qed.

Lemma plain_not_eol l :
  Forall plain l -> Forall (fun c => is_eol c = false) l.
Proof. apply Forall_impl. intros c [_ H]. exact H. Qed.

(** the buffer after more bytes were copied behind the line so far *)
Lemma bytes_appended (b : Z -> ascii) pending chunk :
  bytes b 0 (List.length pending) = pending ->
  bytes (blit b (Z.of_nat (List.length pending)) chunk) 0
        (List.length (pending ++ chunk))
  = pending ++ chunk.
Proof.
  intros H. rewrite length_app, bytes_app.
  rewrite bytes_blit_before by lia. rewrite H. f_equal.
  rewrite Z.add_0_l. apply bytes_blit.
Qed.

(** One turn of the loop of VLU_Feed, and of VLU_Fd after the read:
    [chunk] is copied behind the line so far, and the lines that are
    complete by now are handed to the callback. *)
Lemma chunk_run w pending chunk ls r i m' :
  holds (obj w) pending ->
  Forall (fun c => c <> NUL) chunk ->
  Z.of_nat (List.length pending + List.length chunk) <= bufl (obj w) ->
  split_lines pending chunk = (ls, r) ->
  deliver (func (obj w)) (priv (obj w)) (mem w) ls = (i, m') ->
  exists w',
    LineUpProcess
      (set_obj w (set_bufp
                    (set_buf (obj w)
                       (blit (buf (obj w)) (bufp (obj w)) chunk))
                    (bufp (obj w) + Z.of_nat (List.length chunk))))
    = Ok (i, w') /\
    mem w' = m' /\ input w' = input w /\
    bufl (obj w') = bufl (obj w) /\
    priv (obj w') = priv (obj w) /\ func (obj w') = func (obj w) /\
    (i = 0 -> holds (obj w') r) /\
    (i <> 0 -> bufp (obj w')
               = Z.of_nat (List.length pending + List.length chunk)) /\
    magic (obj w') = magic (obj w).
Proof.
  intros (Hm & Hl & Hp & Hpl & Hb & Hpp) Hn Hfit Hs Hd.
  rewrite <- split_lines_pending in Hs by (apply plain_not_eol, Hpp).
  rewrite Hp.
  destruct (LineUpProcess_holds
              (set_obj w (set_bufp
                    (set_buf (obj w)
                       (blit (buf (obj w))
                             (Z.of_nat (List.length pending)) chunk))
                    (Z.of_nat (List.length pending)
                     + Z.of_nat (List.length chunk))))
              (pending ++ chunk) ls r i m')
    as (w' & E & H1 & H2 & H3 & H4 & H5 & H6 & H7); auto.
  - cbn. rewrite length_app. lia.
  - cbn. lia.
  - cbn. apply bytes_appended. exact Hb.
  - apply Forall_app. split; [apply plain_not_NUL, Hpp | exact Hn].
  - exists w'. cbn in *. split; [exact E|].
    split; [exact H1|]. split; [exact H2|]. split; [exact H3|].
    split; [exact H4|]. split; [exact H5|]. split; [exact H6|].
    destruct H7 as [H7 H8].
    split; [intros Hi; rewrite (H7 Hi); lia | exact H8].
Qed.

(** The loop of VLU_Feed, when no line is as long as the buffer. *)
Lemma feed_loop_run : forall n data pending w fuel ls r i m',
  (List.length data <= n)%nat ->
  holds (obj w) pending ->
  Forall (fun c => c <> NUL) data ->
  Z.of_nat (List.length data) < 2 ^ 31 ->
  split_lines pending data = (ls, r) ->
  Forall (fun x => Z.of_nat (List.length x) < bufl (obj w)) (r :: ls) ->
  deliver (func (obj w)) (priv (obj w)) (mem w) ls = (i, m') ->
  (List.length data < fuel)%nat ->
  exists w',
    feed_loop fuel data (Z.of_nat (List.length data)) 0 w = Ok (i, w') /\
    mem w' = m' /\ input w' = input w /\
    bufl (obj w') = bufl (obj w) /\
    priv (obj w') = priv (obj w) /\ func (obj w') = func (obj w) /\
    (i = 0 -> holds (obj w') r).
Proof.
  induction n as [|n IH];
    intros data pending w fuel ls r i m' Hsz Hh Hn Hlen Hs Hfit Hd Hf;
    (destruct fuel as [|fuel]; [lia|]); cbn [feed_loop].
  - (* no byte is left *)
    destruct data; [|cbn in Hsz; lia]. cbn in Hs, Hd |- *.
    injection Hs as <- <-. cbn in Hd. injection Hd as <- <-.
    exists w. split; [reflexivity|]. repeat (split; [reflexivity|]).
    intros _. exact Hh.
  - destruct data as [|c0 data0] eqn:Edata.
    { cbn in Hs, Hd |- *.
      injection Hs as <- <-. cbn in Hd. injection Hd as <- <-.
      exists w. split; [reflexivity|]. repeat (split; [reflexivity|]).
      intros _. exact Hh. }
    rewrite <- Edata in *.
    assert (Hpos : 0 < Z.of_nat (List.length data)).
    { rewrite Edata. cbn [List.length]. lia. }
    clear Edata c0 data0.
    pose proof Hh as (Hm & Hl & Hp & Hpl & Hb & Hpp).
    apply Z.ltb_lt in Hpos. rewrite Hpos. apply Z.ltb_lt in Hpos.
    rewrite (bind_ok _ _ _ _ _ (eq_refl : get w = Ok (w, w))).
    cbv zeta.
    (* the line so far leaves room *)
    pose proof (split_lines_first _ _ _ _ Hs) as Hfirst.
    assert (Hroom : Z.of_nat (List.length pending) < bufl (obj w)).
    { assert (Hx : Z.of_nat (List.length (hd r ls)) < bufl (obj w)).
      { destruct ls as [|x ls']; cbn [hd].
        - now inversion Hfit.
        - inversion Hfit as [|? ? _ Hfit']; now inversion Hfit'. }
      lia. }
    rewrite (u32_small (bufl (obj w) - bufp (obj w))) by lia.
    rewrite (u32_small (Z.of_nat (List.length data))) by lia.
    set (u := if bufl (obj w) - bufp (obj w) <? Z.of_nat (List.length data)
              then bufl (obj w) - bufp (obj w)
              else Z.of_nat (List.length data)).
    assert (Hu : 0 < u /\ u <= bufl (obj w) - bufp (obj w) /\
                 u <= Z.of_nat (List.length data)).
    { unfold u.
      destruct (bufl (obj w) - bufp (obj w) <? Z.of_nat (List.length data))
        eqn:E; [apply Z.ltb_lt in E | apply Z.ltb_ge in E]; lia. }
    clearbody u.
    rewrite (bind_ok _ _ _ _ _
               (memcpy_ok w (bufp (obj w)) data u ltac:(lia) ltac:(lia)
                  ltac:(lia) ltac:(lia))).
    rewrite (bind_ok _ _ _ _ _ (eq_refl : modify _ _ = Ok (tt, _))).
    cbn [obj set_obj set_buf set_bufp bufp].
    rewrite (u32_small (bufp (obj w) + u)) by lia.
    set (k := Z.to_nat u).
    assert (Hk : List.length (firstn k data) = k).
    { apply firstn_length_le. lia. }
    assert (Hrest : List.length (skipn k data) = (List.length data - k)%nat).
    { apply length_skipn. }
    (* the lines of the chunk and the lines after it *)
    rewrite <- (firstn_skipn k data) in Hs.
    rewrite split_lines_app in Hs.
    destruct (split_lines pending (firstn k data)) as [l1 r1] eqn:E1.
    cbn [fst snd] in Hs.
    destruct (split_lines r1 (skipn k data)) as [l2 r2] eqn:E2.
    cbn [fst snd] in Hs. injection Hs as <- <-.
    rewrite deliver_app in Hd.
    destruct (deliver (func (obj w)) (priv (obj w)) (mem w) l1)
      as [i1 m1] eqn:D1.
    cbn [fst snd] in Hd.
    assert (Hn1 : Forall (fun c => c <> NUL) (firstn k data)).
    { rewrite <- (firstn_skipn k data) in Hn. apply Forall_app in Hn.
      apply Hn. }
    assert (Hn2 : Forall (fun c => c <> NUL) (skipn k data)).
    { rewrite <- (firstn_skipn k data) in Hn. apply Forall_app in Hn.
      apply Hn. }
    destruct (chunk_run w pending (firstn k data) l1 r1 i1 m1 Hh Hn1
                ltac:(lia) E1 D1)
      as (w1 & E & H1 & H2 & H3 & H4 & H5 & H6 & H7).
    rewrite Hk in E. replace (Z.of_nat k) with u in E by lia.
    unfold set_obj in E |- *. cbn [obj mem input] in E |- *.
    rewrite (bind_ok _ _ _ _ _ E).
    destruct (i1 =? 0) eqn:Ei; cbn [negb].
    + apply Z.eqb_eq in Ei. subst i1.
      replace (int32 (u32 (Z.of_nat (List.length data) - u)))
        with (Z.of_nat (List.length (skipn k data))).
      2:{ rewrite int32_small by lia. lia. }
      fold k.
      destruct (IH (skipn k data) r1 w1 fuel l2 r2 i m') as (w2 & E' & H');
        auto; try lia.
      * rewrite H3. inversion Hfit as [|? ? Hr Hls]; subst.
        constructor; [exact Hr|]. apply Forall_app in Hls. apply Hls.
      * rewrite H5, H4, H1. exact Hd.
      * exists w2. split; [exact E'|].
        destruct H' as (G1 & G2 & G3 & G4 & G5 & G6).
        split; [exact G1|]. split; [congruence|]. split; [congruence|].
        split; [congruence|]. split; [congruence|]. exact G6.
    + injection Hd as <- <-.
      exists w1. split; [reflexivity|].
      apply Z.eqb_neq in Ei.
      split; [exact H1|]. split; [exact H2|]. split; [exact H3|].
      split; [exact H4|]. split; [exact H5|]. intros; contradiction.
Qed.

End VluFeed.

Section VluFeedResults.

Import Vlu.
Context {store file : Type}.
Implicit Types w : @world store file.

Lemma check_holds w pending :
  holds (obj w) pending -> check w = Ok (tt, w).
Proof.
  intros (Hm & _). unfold check, bind, get. rewrite Hm. reflexivity.
Qed.

Lemma VLU_Feed_run w pending data fuel ls r i m' :
  holds (obj w) pending ->
  data <> [] -> Z.of_nat (List.length data) < 2 ^ 31 ->
  Forall (fun c => c <> NUL) data ->
  split_lines pending data = (ls, r) ->
  Forall (fun x => Z.of_nat (List.length x) < bufl (obj w)) (r :: ls) ->
  deliver (func (obj w)) (priv (obj w)) (mem w) ls = (i, m') ->
  (List.length data < fuel)%nat ->
  exists w',
    VLU_Feed fuel (Some data) (Z.of_nat (List.length data)) w = Ok (i, w') /\
    mem w' = m' /\ input w' = input w /\
    bufl (obj w') = bufl (obj w) /\
    priv (obj w') = priv (obj w) /\ func (obj w') = func (obj w) /\
    (i = 0 -> holds (obj w') r).
Proof.
  intros Hh Hne Hlen Hn Hs Hfit Hd Hf.
  destruct (feed_loop_run (List.length data) data pending w fuel ls r i m'
              (le_n _) Hh Hn Hlen Hs Hfit Hd Hf) as (w' & E & H).
  exists w'. split; [|exact H].
  unfold VLU_Feed.
  rewrite (bind_ok _ _ _ _ _ (check_holds w pending Hh)).
  assert (Hpos : (0 <? Z.of_nat (List.length data)) = true).
  { apply Z.ltb_lt. destruct data; [congruence | cbn; lia]. }
  rewrite Hpos. cbn [assert].
  rewrite (bind_ok _ _ _ _ _ (eq_refl : ret tt w = Ok (tt, w))).
  exact E.
Qed.

(** VLU_Feed hands the lines of the stream to the callback.  On a vlu
    that holds the start [pending] of a line, VLU_Feed of the bytes
    [data] (not empty, without NUL, no line as long as the buffer)
    returns; the callback was called on the lines that [pending] and
    [data] complete, in their order and without the CR or NL that ends
    them, up to the first call that did not return 0; VLU_Feed returns
    the value of the last call, or 0 when there was no line; and when
    that is 0 the vlu holds the start of the next line. *)
Theorem feed_hands_over_the_lines w pending data fuel ls r i m' :
  holds (obj w) pending ->
  data <> [] -> Z.of_nat (List.length data) < 2 ^ 31 ->
  Forall (fun c => c <> NUL) data ->
  split_lines pending data = (ls, r) ->
  Forall (fun x => Z.of_nat (List.length x) < bufl (obj w)) (r :: ls) ->
  deliver (func (obj w)) (priv (obj w)) (mem w) ls = (i, m') ->
  (List.length data < fuel)%nat ->
  exists w',
    VLU_Feed fuel (Some data) (Z.of_nat (List.length data)) w = Ok (i, w') /\
    mem w' = m' /\ input w' = input w /\
    (i = 0 -> holds (obj w') r).
Proof.
  intros Hh Hne Hlen Hn Hs Hfit Hd Hf.
  destruct (VLU_Feed_run w pending data fuel ls r i m' Hh Hne Hlen Hn Hs
              Hfit Hd Hf) as (w' & E & H1 & H2 & _ & _ & _ & H6).
  exists w'. auto.
Qed.

(** VLU_Feed of a stream in two pieces calls the callback as VLU_Feed of
    the whole stream does, wherever the stream is cut: the same lines in
    the same order, the same return value, and the same start of a line
    left in the buffer.  If the callback stops the first piece, it stops
    the whole stream at the same line. *)
Theorem feed_in_pieces w pending d1 d2 fuel ls r :
  holds (obj w) pending ->
  d1 <> [] -> d2 <> [] -> Z.of_nat (List.length (d1 ++ d2)) < 2 ^ 31 ->
  Forall (fun c => c <> NUL) (d1 ++ d2) ->
  split_lines pending (d1 ++ d2) = (ls, r) ->
  Forall (fun x => Z.of_nat (List.length x) < bufl (obj w)) (r :: ls) ->
  (List.length (d1 ++ d2) < fuel)%nat ->
  exists i1 w1 i w12,
    VLU_Feed fuel (Some d1) (Z.of_nat (List.length d1)) w = Ok (i1, w1) /\
    VLU_Feed fuel (Some (d1 ++ d2)) (Z.of_nat (List.length (d1 ++ d2))) w
    = Ok (i, w12) /\
    (i1 <> 0 -> i = i1 /\ mem w12 = mem w1) /\
    (i1 = 0 ->
     exists w2,
       VLU_Feed fuel (Some d2) (Z.of_nat (List.length d2)) w1 = Ok (i, w2) /\
       mem w2 = mem w12 /\
       (i = 0 -> holds (obj w2) r /\ holds (obj w12) r)).
Proof.
  intros Hh Hne1 Hne2 Hlen Hn Hs Hfit Hf.
  pose proof Hs as Hs'. rewrite split_lines_app in Hs'.
  destruct (split_lines pending d1) as [l1 r1] eqn:E1. cbn [fst snd] in Hs'.
  destruct (split_lines r1 d2) as [l2 r2] eqn:E2. cbn [fst snd] in Hs'.
  injection Hs' as <- <-.
  rewrite length_app in Hlen, Hf.
  apply Forall_app in Hn. destruct Hn as [Hn1 Hn2].
  inversion Hfit as [|? ? Hr Hls]; subst.
  apply Forall_app in Hls. destruct Hls as [Hl1 Hl2].
  assert (Hfit2 : Forall (fun x => Z.of_nat (List.length x) < bufl (obj w))
                         (r2 :: l2)) by (constructor; assumption).
  assert (Hr1 : Z.of_nat (List.length r1) < bufl (obj w)).
  { pose proof (split_lines_first _ _ _ _ E2) as Hfirst.
    assert (Hx : Z.of_nat (List.length (hd r2 l2)) < bufl (obj w)).
    { destruct l2 as [|x l2']; cbn [hd]; [exact Hr | now inversion Hl2]. }
    lia. }
  destruct (deliver (func (obj w)) (priv (obj w)) (mem w) l1)
    as [i1 m1] eqn:D1.
  destruct (deliver (func (obj w)) (priv (obj w)) (mem w) (l1 ++ l2))
    as [i m'] eqn:D.
  destruct (VLU_Feed_run w pending d1 fuel l1 r1 i1 m1 Hh Hne1
              ltac:(lia) Hn1 E1 ltac:(constructor; assumption) D1
              ltac:(lia))
    as (w1 & F1 & G1 & G2 & G3 & G4 & G5 & G6).
  destruct (VLU_Feed_run w pending (d1 ++ d2) fuel (l1 ++ l2) r2 i m' Hh
              ltac:(destruct d1; [congruence | discriminate])
              ltac:(rewrite length_app; lia)
              ltac:(apply Forall_app; auto) Hs Hfit D
              ltac:(rewrite length_app; lia))
    as (w12 & F12 & K1 & K2 & K3 & K4 & K5 & K6).
  exists i1, w1, i, w12. split; [exact F1|]. split; [exact F12|].
  rewrite deliver_app, D1 in D. cbn [fst snd] in D.
  split.
  - intros Hi. apply Z.eqb_neq in Hi. rewrite Hi in D.
    injection D as <- <-. split; [reflexivity | congruence].
  - intros ->. cbn [Z.eqb] in D.
    destruct (VLU_Feed_run w1 r1 d2 fuel l2 r2 i m' (G6 eq_refl) Hne2
                ltac:(lia) Hn2 E2 ltac:(rewrite G3; exact Hfit2)
                ltac:(rewrite G5, G4, G1; exact D) ltac:(lia))
      as (w2 & F2 & J1 & J2 & J3 & J4 & J5 & J6).
    exists w2. split; [exact F2|]. split; [congruence|].
    intros Hi. auto.
Qed.

(** a full buffer without the end of a line: the loop of VLU_Feed copies
    nothing and finds no line, again and again *)
Lemma feed_stuck : forall fuel w data len i0 pending,
  holds (obj w) pending ->
  Z.of_nat (List.length pending) = bufl (obj w) ->
  0 < len < 2 ^ 31 ->
  feed_loop fuel data len i0 w = Err OutOfFuel.
Proof.
  induction fuel as [|fuel IH]; intros w data len i0 pending Hh Hfull Hlen;
    [reflexivity|].
  cbn [feed_loop].
  pose proof Hh as (Hm & Hl & Hp & Hpl & Hb & Hpp).
  assert (Hpos : (0 <? len) = true) by (apply Z.ltb_lt; lia).
  rewrite Hpos.
  rewrite (bind_ok _ _ _ _ _ (eq_refl : get w = Ok (w, w))).
  cbv zeta.
  replace (bufl (obj w) - bufp (obj w)) with 0 by lia.
  rewrite (u32_small 0) by lia. rewrite (u32_small len) by lia.
  replace (0 <? len) with true. 
  rewrite (bind_ok _ _ _ _ _ (memcpy_nothing w _ data 0 ltac:(lia))).
  rewrite (bind_ok _ _ _ _ _ (eq_refl : modify _ _ = Ok (tt, _))).
  rewrite Z.add_0_r, Z.sub_0_r.
  rewrite (u32_small (bufp (obj w))) by lia.
  rewrite int32_small by lia.
  destruct (LineUpProcess_holds
              (set_obj w (set_bufp (obj w) (bufp (obj w))))
              pending [] pending 0 (mem w))
    as (w' & E & H1 & H2 & H3 & H4 & H5 & H6 & H7); auto.
  - apply plain_not_NUL, Hpp.
  - rewrite (split_lines_plain pending [] (plain_not_eol _ Hpp)).
    reflexivity.
  - rewrite (bind_ok _ _ _ _ _ E). cbn [Z.eqb negb].
    apply (IH w' _ _ _ pending (H6 eq_refl)); [|exact Hlen].
    rewrite H3. exact Hfull.
Qed.

(** VLU_Feed does not return when a line is too long: if the line so far
    and the next bytes fill the buffer ([bufl] bytes) without the end of
    a line, and more bytes follow, then the loop of VLU_Feed goes on for
    ever, whatever the callback is. *)
Theorem feed_never_returns_on_a_long_line w pending data :
  holds (obj w) pending ->
  Forall plain
    (firstn (Z.to_nat (bufl (obj w)) - List.length pending) data) ->
  (Z.to_nat (bufl (obj w)) - List.length pending < List.length data)%nat ->
  Z.of_nat (List.length data) < 2 ^ 31 ->
  forall fuel,
    VLU_Feed fuel (Some data) (Z.of_nat (List.length data)) w
    = Err OutOfFuel.
Proof.
  intros Hh Hplain Hmore Hlen fuel.
  pose proof Hh as (Hm & Hl & Hp & Hpl & Hb & Hpp).
  unfold VLU_Feed.
  rewrite (bind_ok _ _ _ _ _ (check_holds w pending Hh)).
  assert (Hpos : (0 <? Z.of_nat (List.length data)) = true).
  { apply Z.ltb_lt. lia. }
  rewrite Hpos. cbn [assert].
  rewrite (bind_ok _ _ _ _ _ (eq_refl : ret tt w = Ok (tt, w))).
  set (k := (Z.to_nat (bufl (obj w)) - List.length pending)%nat) in *.
  destruct (Nat.eq_dec k 0) as [Hk|Hk].
  { apply (feed_stuck fuel w data _ 0 pending Hh); lia. }
  destruct fuel as [|fuel]; [reflexivity|]. cbn [feed_loop].
  rewrite Hpos.
  rewrite (bind_ok _ _ _ _ _ (eq_refl : get w = Ok (w, w))).
  cbv zeta.
  rewrite (u32_small (bufl (obj w) - bufp (obj w))) by lia.
  rewrite (u32_small (Z.of_nat (List.length data))) by lia.
  assert (Hlt : (bufl (obj w) - bufp (obj w) <? Z.of_nat (List.length data))
                = true) by (apply Z.ltb_lt; lia).
  rewrite Hlt.
  assert (Hku : bufl (obj w) - bufp (obj w) = Z.of_nat k) by lia.
  rewrite Hku.
  rewrite (bind_ok _ _ _ _ _
             (memcpy_ok w (bufp (obj w)) data (Z.of_nat k) ltac:(lia)
                ltac:(lia) ltac:(lia) ltac:(lia))).
  rewrite (bind_ok _ _ _ _ _ (eq_refl : modify _ _ = Ok (tt, _))).
  cbn [obj set_obj set_buf set_bufp bufp].
  rewrite (u32_small (bufp (obj w) + Z.of_nat k)) by lia.
  rewrite Nat2Z.id.
  assert (Hkl : List.length (firstn k data) = k).
  { apply firstn_length_le. lia. }
  destruct (chunk_run w pending (firstn k data) [] (pending ++ firstn k data)
              0 (mem w) Hh (plain_not_NUL _ Hplain) ltac:(lia)
              (split_lines_plain _ _ (plain_not_eol _ Hplain)) eq_refl)
    as (w1 & E & H1 & H2 & H3 & H4 & H5 & H6 & H7).
  rewrite Hkl in E.
  unfold set_obj in E |- *. cbn [obj mem input] in E |- *.
  rewrite (bind_ok _ _ _ _ _ E). cbn [Z.eqb negb].
  apply (feed_stuck fuel w1 _ _ 0 (pending ++ firstn k data) (H6 eq_refl)).
  - rewrite length_app, Hkl, H3. lia.
  - rewrite int32_small by lia. lia.
Qed.

(** VLU_Feed drops what follows a NUL byte.  When the bytes fed fit in
    the room of the buffer and have a NUL among them, the lines before
    the NUL are handed to the callback, the vlu holds the start of a
    line that stands before the NUL, and the bytes after the NUL are
    lost, complete lines or not. *)
Theorem feed_drops_what_follows_a_NUL w pending d1 d2 fuel ls r i m' :
  holds (obj w) pending ->
  Z.of_nat (List.length pending + List.length (d1 ++ NUL :: d2))
  <= bufl (obj w) ->
  Z.of_nat (List.length (d1 ++ NUL :: d2)) < 2 ^ 31 ->
  Forall (fun c => c <> NUL) d1 ->
  split_lines pending d1 = (ls, r) ->
  deliver (func (obj w)) (priv (obj w)) (mem w) ls = (i, m') ->
  (1 < fuel)%nat ->
  exists w',
    VLU_Feed fuel (Some (d1 ++ NUL :: d2))
             (Z.of_nat (List.length (d1 ++ NUL :: d2))) w = Ok (i, w') /\
    mem w' = m' /\ (i = 0 -> holds (obj w') r).
Proof.
  intros Hh Hroom Hlen Hn Hs Hd Hf.
  pose proof Hh as (Hm & Hl & Hp & Hpl & Hb & Hpp).
  set (data := d1 ++ NUL :: d2) in *.
  assert (Hdl : List.length data = (List.length d1 + S (List.length d2))%nat).
  { unfold data. rewrite length_app. reflexivity. }
  unfold VLU_Feed.
  rewrite (bind_ok _ _ _ _ _ (check_holds w pending Hh)).
  assert (Hpos : (0 <? Z.of_nat (List.length data)) = true).
  { apply Z.ltb_lt. lia. }
  rewrite Hpos. cbn [assert].
  rewrite (bind_ok _ _ _ _ _ (eq_refl : ret tt w = Ok (tt, w))).
  destruct fuel as [|[|fuel]]; try lia. cbn [feed_loop].
  rewrite Hpos.
  rewrite (bind_ok _ _ _ _ _ (eq_refl : get w = Ok (w, w))).
  cbv zeta.
  rewrite (u32_small (bufl (obj w) - bufp (obj w))) by lia.
  rewrite (u32_small (Z.of_nat (List.length data))) by lia.
  assert (Hge : (bufl (obj w) - bufp (obj w) <? Z.of_nat (List.length data))
                = false) by (apply Z.ltb_ge; lia).
  rewrite Hge.
  rewrite (bind_ok _ _ _ _ _
             (memcpy_ok w (bufp (obj w)) data (Z.of_nat (List.length data))
                ltac:(lia) ltac:(lia) ltac:(lia) ltac:(lia))).
  rewrite (bind_ok _ _ _ _ _ (eq_refl : modify _ _ = Ok (tt, _))).
  cbn [obj set_obj set_buf set_bufp bufp].
  rewrite (u32_small (bufp (obj w) + Z.of_nat (List.length data))) by lia.
  rewrite Nat2Z.id, firstn_all, Z.sub_diag.
  rewrite <- split_lines_pending in Hs by (apply plain_not_eol, Hpp).
  (* the buffer, up to the NUL *)
  pose proof (bytes_appended (buf (obj w)) pending data Hb) as Hall.
  unfold data in Hall at 2 3.
  rewrite app_assoc in Hall.
  rewrite !length_app in Hall. cbn [List.length] in Hall.
  replace (List.length pending + List.length d1 + S (List.length d2))%nat
    with ((List.length pending + List.length d1)
          + (1 + List.length d2))%nat in Hall by lia.
  rewrite bytes_app in Hall.
  apply app_same_length in Hall.
  2:{ rewrite bytes_length, length_app. reflexivity. }
  destruct Hall as [Hbefore Hafter].
  rewrite bytes_app in Hafter. cbn [bytes] in Hafter.
  injection Hafter as Hnul _.
  rewrite <- Hp in Hbefore, Hnul.
  match goal with
  | |- context [bind LineUpProcess _ ?s] => set (w1 := s)
  end.
  destruct (LineUpProcess_holds_cut w1 (pending ++ d1) ls r i m')
    as (w' & E & H1 & H2 & H3 & H4 & H5 & H6 & H7 & H8); auto.
  - unfold w1. cbn. rewrite length_app. lia.
  - intros _. unfold w1. cbn. rewrite length_app. exact Hnul.
  - unfold w1. cbn. lia.
  - unfold w1. cbn. rewrite length_app. exact Hbefore.
  - apply Forall_app. split; [apply plain_not_NUL, Hpp | exact Hn].
  - rewrite (bind_ok _ _ _ _ _ E).
    exists w'. split; [|auto].
    destruct (i =? 0) eqn:Ei; cbn [negb]; [|reflexivity].
    apply Z.eqb_eq in Ei. subst i. cbn [feed_loop].
    rewrite int32_small by lia. reflexivity.
Qed.

End VluFeedResults.

Section VluFd.

Import Vlu.
Context {store file : Type}.
Variable read : file -> Z -> Z * list ascii * file.
Implicit Types w : @world store file.

(** VLU_Fd when read() returns nothing, or fails *)
Lemma VLU_Fd_nothing w pending n chunk f' :
  holds (obj w) pending ->
  read (input w) (bufl (obj w) - Z.of_nat (List.length pending))
  = (n, chunk, f') ->
  n <= 0 ->
  VLU_Fd read w = Ok (if n =? 0 then -2 else -1, set_input w f').
Proof.
  intros Hh Hr Hn. pose proof Hh as (Hm & Hl & Hp & Hpl & Hb & Hpp).
  unfold VLU_Fd.
  rewrite (bind_ok _ _ _ _ _ (check_holds w pending Hh)).
  rewrite (bind_ok _ _ _ _ _ (eq_refl : get w = Ok (w, w))).
  cbv zeta. rewrite u32_small by lia. rewrite Hp, Hr.
  rewrite (bind_ok _ _ _ _ _ (eq_refl : put _ _ = Ok (tt, _))).
  rewrite (bind_ok _ _ _ _ _ (memcpy_nothing _ _ chunk n Hn)).
  destruct (n =? 0) eqn:E0; [reflexivity|].
  apply Z.eqb_neq in E0.
  assert (E1 : (n <? 0) = true) by (apply Z.ltb_lt; lia).
  rewrite E1. reflexivity.
Qed.

(** VLU_Fd when read() has stored bytes *)
Lemma VLU_Fd_run w pending n chunk f' ls r i m' :
  holds (obj w) pending ->
  read (input w) (bufl (obj w) - Z.of_nat (List.length pending))
  = (Z.of_nat n, chunk, f') ->
  (0 < n)%nat ->
  Z.of_nat n <= bufl (obj w) - Z.of_nat (List.length pending) ->
  (n <= List.length chunk)%nat ->
  Forall (fun c => c <> NUL) (firstn n chunk) ->
  split_lines pending (firstn n chunk) = (ls, r) ->
  deliver (func (obj w)) (priv (obj w)) (mem w) ls = (i, m') ->
  exists w',
    VLU_Fd read w = Ok (i, w') /\
    mem w' = m' /\ input w' = f' /\
    bufl (obj w') = bufl (obj w) /\
    priv (obj w') = priv (obj w) /\ func (obj w') = func (obj w) /\
    (i = 0 -> holds (obj w') r) /\
    magic (obj w') = magic (obj w).
Proof.
  intros Hh Hr Hn Hroom Hc Hnul Hs Hd.
  pose proof Hh as (Hm & Hl & Hp & Hpl & Hb & Hpp).
  assert (Hkl : List.length (firstn n chunk) = n).
  { apply firstn_length_le. exact Hc. }
  destruct (chunk_run (set_input w f') pending (firstn n chunk) ls r i m'
              Hh Hnul ltac:(cbn; lia) Hs Hd)
    as (w1 & E & H1 & H2 & H3 & H4 & H5 & H6 & H7).
  exists w1. split.
  2:{ split; [exact H1|]. split; [exact H2|]. split; [exact H3|].
      split; [exact H4|]. split; [exact H5|].
      split; [exact H6 | exact (proj2 H7)]. }
  unfold VLU_Fd.
  rewrite (bind_ok _ _ _ _ _ (check_holds w pending Hh)).
  rewrite (bind_ok _ _ _ _ _ (eq_refl : get w = Ok (w, w))).
  cbv zeta. rewrite u32_small by lia. rewrite Hp, Hr.
  rewrite (bind_ok _ _ _ _ _ (eq_refl : put _ _ = Ok (tt, _))).
  rewrite <- Hp.
  rewrite (bind_ok _ _ _ _ _
             (memcpy_ok (set_input w f') (bufp (obj w)) chunk (Z.of_nat n)
                ltac:(lia) ltac:(lia) ltac:(cbn; lia) ltac:(lia))).
  assert (E0 : (Z.of_nat n =? 0) = false) by (apply Z.eqb_neq; lia).
  assert (E1 : (Z.of_nat n <? 0) = false) by (apply Z.ltb_ge; lia).
  rewrite E0, E1.
  rewrite (bind_ok _ _ _ _ _ (eq_refl : modify _ _ = Ok (tt, _))).
  cbn [obj set_obj set_input set_buf set_bufp bufp].
  rewrite (u32_small (bufp (obj w) + Z.of_nat n)) by lia.
  rewrite Nat2Z.id.
  rewrite Hkl in E.
  unfold set_obj, set_input in E |- *. cbn [obj mem input] in E |- *.
  exact E.
Qed.

(** The loop of VLU_File on a file that has [d1 ++ d2] left to read,
    where [d1] goes to the end of the file, or to the byte with which a
    line fills the buffer. *)
Lemma file_loop_run : forall n d1 d2 pending w fuel ls r i m',
  List.length d1 = n ->
  holds (obj w) pending ->
  serves read (input w) (d1 ++ d2) ->
  Forall (fun c => c <> NUL) d1 ->
  split_lines pending d1 = (ls, r) ->
  Forall (fun x => Z.of_nat (List.length x) < bufl (obj w)) ls ->
  Z.of_nat (List.length r) <= bufl (obj w) ->
  d2 = [] \/ Z.of_nat (List.length r) = bufl (obj w) ->
  deliver (func (obj w)) (priv (obj w)) (mem w) ls = (i, m') ->
  (List.length d1 < fuel)%nat ->
  exists w',
    file_loop read fuel w = Ok (if i =? 0 then -2 else i, w') /\
    mem w' = m' /\ magic (obj w') = magic (obj w).
Proof.
  induction n as [n IH] using lt_wf_ind.
  intros d1 d2 pending w fuel ls r i m' Hsz Hh Hsv Hn Hs Hfit Hr Hend Hd Hf.
  destruct fuel as [|fuel]; [lia|]. cbn [file_loop].
  pose proof Hh as (Hm & Hl & Hp & Hpl & Hb & Hpp).
  pose proof (split_lines_first _ _ _ _ Hs) as Hfirst.
  pose proof (split_lines_tail _ _ _ _ Hs) as [pre Hpre].
  inversion Hsv as [f0 data0 Hread Hnext]; subst f0 data0.
  destruct (Hread (bufl (obj w) - Z.of_nat (List.length pending))
              ltac:(lia)) as (k & Hk1 & Hk2 & Hk3 & Hk4).
  specialize (Hnext (bufl (obj w) - Z.of_nat (List.length pending)) k).
  destruct (read (input w) (bufl (obj w) - Z.of_nat (List.length pending)))
    as [[n0 chunk] f'] eqn:Er.
  cbn [fst snd] in Hk1, Hnext. injection Hk1 as -> ->.
  destruct (Nat.eq_dec k 0) as [->|Hk0].
  - (* the end of the file, or no room in the buffer *)
    assert (Hls : ls = []).
    { destruct ls as [|x ls']; [reflexivity|]. exfalso.
      cbn [hd] in Hfirst. inversion Hfit as [|? ? Hx _]; subst.
      destruct (Z.eq_dec (bufl (obj w)) (Z.of_nat (List.length pending)))
        as [E|E]; [lia|].
      destruct d1 as [|c d1']; [cbn in Hs; discriminate|].
      assert (0 < 0)%nat; [|lia].
      apply Hk4; [lia | discriminate]. }
    subst ls. cbn in Hd. injection Hd as <- <-.
    rewrite (bind_ok _ _ _ _ _
               (VLU_Fd_nothing w pending _ _ _ Hh Er ltac:(cbn; lia))).
    cbn. eexists. repeat split.
  - (* the next bytes of the file *)
    assert (Hkd : (k <= List.length d1)%nat).
    { destruct Hend as [->|Hfull].
      - now rewrite app_nil_r in Hk3.
      - destruct (le_lt_dec k (List.length d1)) as [Hle|Hgt]; [exact Hle|].
        exfalso.
        assert (List.length (pending ++ d1) = List.length (pre ++ r))
          by now rewrite Hpre.
        rewrite !length_app in *. lia. }
    rewrite firstn_app in Er.
    replace (k - List.length d1)%nat with 0%nat in Er by lia.
    cbn [firstn] in Er. rewrite app_nil_r in Er.
    rewrite skipn_app in Hnext.
    replace (k - List.length d1)%nat with 0%nat in Hnext by lia.
    cbn [skipn] in Hnext.
    assert (Hkl : List.length (firstn k d1) = k).
    { apply firstn_length_le. exact Hkd. }
    rewrite <- (firstn_skipn k d1) in Hs, Hn.
    rewrite split_lines_app in Hs.
    destruct (split_lines pending (firstn k d1)) as [l1 r1] eqn:E1.
    cbn [fst snd] in Hs.
    destruct (split_lines r1 (skipn k d1)) as [l2 r2] eqn:E2.
    cbn [fst snd] in Hs. injection Hs as <- <-.
    rewrite deliver_app in Hd.
    destruct (deliver (func (obj w)) (priv (obj w)) (mem w) l1)
      as [i1 m1] eqn:D1.
    cbn [fst snd] in Hd.
    apply Forall_app in Hn. destruct Hn as [Hn1 Hn2].
    apply Forall_app in Hfit. destruct Hfit as [Hfit1 Hfit2].
    destruct (VLU_Fd_run w pending k (firstn k d1) f' l1 r1 i1 m1 Hh Er
                ltac:(lia) ltac:(lia) ltac:(lia))
      as (w1 & E & H1 & H2 & H3 & H4 & H5 & H6 & H7).
    { rewrite <- Hkl at 1. now rewrite firstn_all. }
    { rewrite <- Hkl at 1. rewrite firstn_all. exact E1. }
    { exact D1. }
    rewrite (bind_ok _ _ _ _ _ E).
    destruct (i1 =? 0) eqn:Ei.
    + apply Z.eqb_eq in Ei. subst i1.
      rewrite <- H7.
      apply (IH (List.length (skipn k d1)) ltac:(rewrite length_skipn; lia)
               (skipn k d1) d2 r1 w1 fuel l2 r2 i m'); auto.
      * rewrite H2. apply Hnext; [reflexivity | lia].
      * rewrite H3. exact Hfit2.
      * rewrite H3. exact Hr.
      * rewrite H3. exact Hend.
      * rewrite H5, H4, H1. exact Hd.
      * rewrite length_skipn. lia.
    + injection Hd as <- <-. rewrite Ei.
      exists w1. split; [reflexivity|]. split; [exact H1 | exact H7].
Qed.

(** What VLU_Fd returns, on a vlu that holds the start [pending] of a
    line.  It asks read() for as many bytes as the buffer has room for.
    If read() returns 0, VLU_Fd returns -2, and -1 if read() fails; the
    vlu is as before.  A buffer that is full gets a read() of 0 bytes,
    whose 0 is taken for the end of the file.  If read() has stored
    bytes (without NUL), the callback is called on the lines that they
    complete, up to the first call that does not return 0, and VLU_Fd
    returns the value of the last call, or 0 if no line was complete; so
    a callback that returns -1 or -2 cannot be told from read(). *)
Theorem fd_return_values w pending n chunk f' :
  holds (obj w) pending ->
  read (input w) (bufl (obj w) - Z.of_nat (List.length pending))
  = (n, chunk, f') ->
  (n = 0 -> VLU_Fd read w = Ok (-2, set_input w f')) /\
  (n < 0 -> VLU_Fd read w = Ok (-1, set_input w f')) /\
  (0 < n ->
   n <= bufl (obj w) - Z.of_nat (List.length pending) ->
   n <= Z.of_nat (List.length chunk) ->
   Forall (fun c => c <> NUL) (firstn (Z.to_nat n) chunk) ->
   forall ls r i m',
     split_lines pending (firstn (Z.to_nat n) chunk) = (ls, r) ->
     deliver (func (obj w)) (priv (obj w)) (mem w) ls = (i, m') ->
     exists w',
       VLU_Fd read w = Ok (i, w') /\
       mem w' = m' /\ input w' = f' /\
       (i = 0 -> holds (obj w') r)).
Proof.
  intros Hh Hr. split; [|split].
  - intros ->. apply (VLU_Fd_nothing w pending 0 chunk f' Hh Hr). lia.
  - intros Hn.
    rewrite (VLU_Fd_nothing w pending n chunk f' Hh Hr) by lia.
    assert (E : (n =? 0) = false) by (apply Z.eqb_neq; lia).
    now rewrite E.
  - intros Hn Hroom Hc Hnul ls r i m' Hs Hd.
    rewrite <- (Z2Nat.id n) in Hr, Hroom by lia.
    destruct (VLU_Fd_run w pending (Z.to_nat n) chunk f' ls r i m' Hh Hr
                ltac:(lia) Hroom ltac:(lia) Hnul Hs Hd)
      as (w' & E & H1 & H2 & _ & _ & _ & H6 & _).
    exists w'. auto.
Qed.

Variable BUFSIZ : Z.
Variable malloc : Z -> option (Z -> ascii).

Lemma u32_range x : 0 <= u32 x < 2 ^ 32.
Proof. unfold u32. apply Z.mod_pos_bound. lia. Qed.

Lemma VLU_File_run fd d1 d2 (f : @vlu_f store) pv (m : store) bufsize b
    ls r i m' fuel :
  malloc (u32 ((if bufsize =? 0 then BUFSIZ else bufsize) - 1) + 1)
  = Some b ->
  serves read fd (d1 ++ d2) ->
  Forall (fun c => c <> NUL) d1 ->
  split_lines [] d1 = (ls, r) ->
  Forall (fun x => Z.of_nat (List.length x)
                   < u32 ((if bufsize =? 0 then BUFSIZ else bufsize) - 1))
         ls ->
  Z.of_nat (List.length r)
  <= u32 ((if bufsize =? 0 then BUFSIZ else bufsize) - 1) ->
  d2 = [] \/
  Z.of_nat (List.length r)
  = u32 ((if bufsize =? 0 then BUFSIZ else bufsize) - 1) ->
  deliver f pv m ls = (i, m') ->
  (List.length d1 < fuel)%nat ->
  exists fd',
    VLU_File BUFSIZ malloc read fuel true fd f pv m bufsize
    = Ok (if i =? 0 then -2 else i, m', fd').
Proof.
  intros Hmal Hsv Hn Hs Hfit Hr Hend Hd Hf.
  unfold VLU_File, VLU_New. cbv zeta. rewrite Hmal.
  set (l := mk_vlu LINEUP_MAGIC b
              (u32 ((if bufsize =? 0 then BUFSIZ else bufsize) - 1)) 0 pv f).
  assert (Hh : holds l []).
  { unfold holds, l. cbn.
    pose proof (u32_range ((if bufsize =? 0 then BUFSIZ else bufsize) - 1)).
    repeat split; auto; lia. }
  destruct (file_loop_run (List.length d1) d1 d2 [] (mk_world l m fd) fuel
              ls r i m' eq_refl Hh Hsv Hn Hs Hfit Hr Hend Hd Hf)
    as (w' & E & H1 & H2).
  rewrite E. unfold VLU_Destroy. cbn in H2. rewrite H2. cbn.
  exists (input w'). now rewrite H1.
Qed.

(** VLU_File on a file whose lines are shorter than the buffer (bufsize
    - 1 bytes, BUFSIZ - 1 if bufsize is 0) and that has no NUL: the
    callback is called on the lines of the file, in their order, up to
    the first call that does not return 0, and VLU_File returns the value
    of that call, or -2 at the end of the file.  The bytes after the last
    CR or NL of the file are never handed to the callback. *)
Theorem file_hands_over_the_lines fd data (f : @vlu_f store) pv (m : store)
    bufsize b ls r i m' fuel :
  malloc (u32 ((if bufsize =? 0 then BUFSIZ else bufsize) - 1) + 1)
  = Some b ->
  serves read fd data ->
  Forall (fun c => c <> NUL) data ->
  split_lines [] data = (ls, r) ->
  Forall (fun x => Z.of_nat (List.length x)
                   < u32 ((if bufsize =? 0 then BUFSIZ else bufsize) - 1))
         (r :: ls) ->
  deliver f pv m ls = (i, m') ->
  (List.length data < fuel)%nat ->
  exists fd',
    VLU_File BUFSIZ malloc read fuel true fd f pv m bufsize
    = Ok (if i =? 0 then -2 else i, m', fd').
Proof.
  intros Hmal Hsv Hn Hs Hfit Hd Hf.
  inversion Hfit as [|? ? Hr Hls]; subst.
  apply (VLU_File_run fd data [] f pv m bufsize b ls r i m' fuel); auto.
  - now rewrite app_nil_r.
  - lia.
Qed.

(** VLU_File takes a long line for the end of the file: when a line of
    the file reaches the size of the buffer (bufsize - 1 bytes) before
    it ends, VLU_File returns -2 as it does at the end of the file,
    after the callback was called on the lines before that one (and
    returned 0 for them); what follows in the file is not read. *)
Theorem file_stops_at_a_long_line fd d1 d2 (f : @vlu_f store) pv (m : store)
    bufsize b ls r m' fuel :
  malloc (u32 ((if bufsize =? 0 then BUFSIZ else bufsize) - 1) + 1)
  = Some b ->
  serves read fd (d1 ++ d2) ->
  Forall (fun c => c <> NUL) d1 ->
  split_lines [] d1 = (ls, r) ->
  Forall (fun x => Z.of_nat (List.length x)
                   < u32 ((if bufsize =? 0 then BUFSIZ else bufsize) - 1))
         ls ->
  Z.of_nat (List.length r)
  = u32 ((if bufsize =? 0 then BUFSIZ else bufsize) - 1) ->
  deliver f pv m ls = (0, m') ->
  (List.length d1 < fuel)%nat ->
  exists fd',
    VLU_File BUFSIZ malloc read fuel true fd f pv m bufsize
    = Ok (-2, m', fd').
Proof.
  intros Hmal Hsv Hn Hs Hfit Hr Hd Hf.
  apply (VLU_File_run fd d1 d2 f pv m bufsize b ls r 0 m' fuel); auto.
  lia.
Qed.

End VluFd.

Section VluRunsFacts.

Import Vlu VluRun.

Lemma holds_vlu8 f : holds (vlu8 f) [].
Proof.
  unfold holds. cbn. repeat split; try lia. constructor.
Qed.

Lemma serves_read_all : forall n f, List.length f = n -> serves read_all f f.
Proof.
  induction n as [n IH] using lt_wf_ind. intros f Hf.
  constructor.
  - intros count Hc. exists (Nat.min (Z.to_nat count) (List.length f)).
    split; [reflexivity|]. split; [lia|]. split; [lia|].
    intros Hpos Hne. destruct f; [congruence | cbn [List.length]; lia].
  - intros count k Hk Hpos. cbn in Hk. apply Nat2Z.inj in Hk. subst k.
    cbn [read_all snd].
    apply (IH (List.length
                 (skipn (Nat.min (Z.to_nat count) (List.length f)) f))).
    + rewrite length_skipn. lia.
    + reflexivity.
Qed.

Ltac no_NUL := repeat constructor; discriminate.

Lemma feed_hands_over_the_lines_witness :
  exists w',
    VLU_Feed 20 (Some two_lines) 9 (world8 collect []) = Ok (0, w') /\
    mem w' = [text "ab"; text "cd"; []] /\ input w' = [] /\
    (0 = 0 -> holds (obj w') (text "ef")).
Proof.
  apply (feed_hands_over_the_lines (world8 collect []) [] two_lines 20
           [text "ab"; text "cd"; []] (text "ef") 0
           [text "ab"; text "cd"; []] (holds_vlu8 collect)).
  - discriminate.
  - cbn. lia.
  - no_NUL.
  - reflexivity.
  - repeat constructor; cbn; lia.
  - reflexivity.
  - cbn. lia.
Defined.

Lemma feed_in_pieces_witness :
  exists i1 w1 i w12,
    VLU_Feed 20 (Some (text "ab" ++ [NL] ++ text "c")) 4
             (world8 collect []) = Ok (i1, w1) /\
    VLU_Feed 20 (Some ((text "ab" ++ [NL] ++ text "c") ++ text "d" ++ [NL]))
             6 (world8 collect []) = Ok (i, w12) /\
    (i1 <> 0 -> i = i1 /\ mem w12 = mem w1) /\
    (i1 = 0 ->
     exists w2,
       VLU_Feed 20 (Some (text "d" ++ [NL])) 2 w1 = Ok (i, w2) /\
       mem w2 = mem w12 /\
       (i = 0 -> holds (obj w2) [] /\ holds (obj w12) [])).
Proof.
  apply (feed_in_pieces (world8 collect []) []
           (text "ab" ++ [NL] ++ text "c") (text "d" ++ [NL]) 20
           [text "ab"; text "cd"] [] (holds_vlu8 collect)).
  - discriminate.
  - discriminate.
  - cbn. lia.
  - no_NUL.
  - reflexivity.
  - repeat constructor; cbn; lia.
  - cbn. lia.
Defined.

Lemma feed_never_returns_on_a_long_line_witness :
  VLU_Feed 1000 (Some (text "12345678")) 8 (world8 collect [])
  = Err OutOfFuel.
Proof.
  apply (feed_never_returns_on_a_long_line (world8 collect []) []
           (text "12345678") (holds_vlu8 collect)).
  - repeat constructor; discriminate.
  - cbn. lia.
  - cbn. lia.
Defined.

Lemma feed_drops_what_follows_a_NUL_witness :
  exists w',
    VLU_Feed 2 (Some ((text "ab" ++ [NL] ++ text "c")
                      ++ NUL :: text "d" ++ [NL]))
             (Z.of_nat (List.length ((text "ab" ++ [NL] ++ text "c")
                                     ++ NUL :: text "d" ++ [NL])))
             (world8 collect []) = Ok (0, w') /\
    mem w' = [text "ab"] /\ (0 = 0 -> holds (obj w') (text "c")).
Proof.
  apply (feed_drops_what_follows_a_NUL (world8 collect []) []
           (text "ab" ++ [NL] ++ text "c") (text "d" ++ [NL]) 2
           [text "ab"] (text "c") 0 [text "ab"] (holds_vlu8 collect)).
  - cbn. lia.
  - cbn. lia.
  - no_NUL.
  - reflexivity.
  - reflexivity.
  - lia.
Defined.

Lemma fd_return_values_witness :
  (7 = 0 ->
   VLU_Fd read_all (world8 stop_at_x x_lines)
   = Ok (-2, set_input (world8 stop_at_x x_lines) (skipn 7 x_lines))) /\
  (7 < 0 ->
   VLU_Fd read_all (world8 stop_at_x x_lines)
   = Ok (-1, set_input (world8 stop_at_x x_lines) (skipn 7 x_lines))) /\
  (0 < 7 ->
   7 <= bufl (obj (world8 stop_at_x x_lines))
        - Z.of_nat (List.length (@nil ascii)) ->
   7 <= Z.of_nat (List.length (firstn 7 x_lines)) ->
   Forall (fun c => c <> NUL) (firstn (Z.to_nat 7) (firstn 7 x_lines)) ->
   forall ls r i m',
     split_lines [] (firstn (Z.to_nat 7) (firstn 7 x_lines)) = (ls, r) ->
     deliver stop_at_x NULL [] ls = (i, m') ->
     exists w',
       VLU_Fd read_all (world8 stop_at_x x_lines) = Ok (i, w') /\
       mem w' = m' /\ input w' = skipn 7 x_lines /\
       (i = 0 -> holds (obj w') r)).
Proof.
  apply (fd_return_values read_all (world8 stop_at_x x_lines) [] 7
           (firstn 7 x_lines) (skipn 7 x_lines) (holds_vlu8 stop_at_x)).
  reflexivity.
Defined.

(** the run of the witness above: the callback stops VLU_Fd at [xy] *)
Lemma VLU_Fd_x_lines :
  exists w',
    VLU_Fd read_all (world8 stop_at_x x_lines) = Ok (7, w') /\
    mem w' = [text "ab"; text "xy"].
Proof. eexists. split; vm_compute; reflexivity. Qed.

Lemma file_hands_over_the_lines_witness :
  exists fd',
    VLU_File 8192 malloc_junk read_all 20 true two_lines collect NULL [] 8
    = Ok (-2, [text "ab"; text "cd"; []], fd').
Proof.
  apply (file_hands_over_the_lines read_all 8192 malloc_junk two_lines
           two_lines collect NULL [] 8 (fun _ => "?"%char)
           [text "ab"; text "cd"; []] (text "ef") 0
           [text "ab"; text "cd"; []] 20).
  - reflexivity.
  - apply (serves_read_all _ _ eq_refl).
  - no_NUL.
  - reflexivity.
  - repeat constructor; vm_compute; reflexivity.
  - reflexivity.
  - cbn. lia.
Defined.

Lemma file_stops_at_a_long_line_witness :
  exists fd',
    VLU_File 8192 malloc_junk read_all 20 true (long_line ++ after_long)
             collect NULL [] 8
    = Ok (-2, [text "ab"], fd').
Proof.
  apply (file_stops_at_a_long_line read_all 8192 malloc_junk
           (long_line ++ after_long) long_line after_long collect NULL [] 8
           (fun _ => "?"%char) [text "ab"] (text "1234567") [text "ab"] 20).
  - reflexivity.
  - apply (serves_read_all _ _ eq_refl).
  - no_NUL.
  - reflexivity.
  - repeat constructor; vm_compute; reflexivity.
  - reflexivity.
  - reflexivity.
  - cbn. lia.
Defined.

End VluRunsFacts.
